(* ===== verification/_CoqProject ===== *)
-Q . S2P
Prelude.v
Utf8.v
RustStd.v
Net.v
Extern.v
WafTypes.v
RuleTypes.v
RuleEngine.v
Glob.v
Serde.v
Schema.v
Float64.v
Ast.v
Functions.v
Printer.v
Rete.v
WorkingMemory.v
Engine.v
EngineSpec.v
CrsTypes.v
CrsTx.v
CrsTransform.v
CrsTarget.v
CrsOperator.v
CrsParser.v
CrsText.v
CrsEval.v
Lists.v
Geo.v
Matcher.v
GrlParser.v
Pest.v
GrlTree.v
Converter.v
TreeModel.v
GrlText.v
ConvSpec.v
ConvEngine.v
Agree.v
Documents.v
Loader.v
WafSchema.v
Routing.v
App.v
Proxy.v
Concurrent.v
ConfigSchema.v
EngineTests.v
Shipped.v
Enforce.v
Detection.v
Rules2.v
OptRule.v
OptSchema.v
Compare.v
Program.v
Bench.v
Demo.v
LegacyRule.v
LegacyOpt.v
LegacySchema.v
LegacyOptSchema.v
Consul.v
Seed.v
LegacyReload.v
RuleTests.v
LegacyTests.v
OptTests.v
