(* ===== verification/Prelude.v ===== *)
(** mini-waf: a verification of its rule engines and request path.

    The program is a web application firewall in Rust.  Requests arrive at a
    reverse proxy ([crates/waf-proxy]), which builds a request context and asks
    the engine ([crates/waf-engine]) for a decision.  Rules are written in YAML
    or in GRL, a small rule language; YAML is converted to GRL text, GRL text is
    parsed, and the rules are compiled into a RETE network that the engine fires
    on the request.  Plugins add functions to the language: IP lists, the OWASP
    core rule set (CRS) and geo-blocking.  [crates/rule] is an older rule engine
    on its own YAML schema.

    * Files

    Foundations: this file (results, stable sorting, machine integers,
    automation), [Utf8] (bytes, characters, decoding), [RustStd] (the string
    operations of the Rust standard library that the source calls, integer and
    debug formatting), [Net] (parsing of IP addresses), [Float64] (the 64-bit
    floats of GRL values), [Extern] (interfaces of the [regex] and [ipnet]
    crates), [Serde] (the data model of [serde] as an interface, and what its derived
    readers of structs and enums do), [TreeModel] (trees as an instance of it).

    Schemas, over [Serde]: [Schema] ([crates/rule/src/types.rs]), [OptSchema]
    ([crates/optimized_rule/src/types.rs], with the writers written by hand),
    [LegacySchema] and [LegacyOptSchema] ([src/rule/types.rs],
    [src/optimized_rule/types.rs]), [WafSchema] ([rules/rule.rs] of the engine crate)
    and [ConfigSchema] ([config/schema.rs], with the start of the command line,
    [crates/waf/src/cli.rs]).

    The older engine: [RuleTypes] and [RuleEngine] model [crates/rule/src]:
    the schema, compilation ([compile]), globs and CIDR tests, evaluation in
    priority order and loading of a set of files; [Glob] models the matcher of
    [lib.rs] that nothing calls.  [OptRule] models its
    optimized version, [crates/optimized_rule/src]: the same schema with a cache
    of compiled regexes.  The repository also holds the engines these two were
    made from, at its top level: [LegacyRule] models [src/rule] and [LegacyOpt]
    models [src/optimized_rule], whose cache keys are numbers.  Both keep their
    rules in a Consul key-value store: [Consul] models the loading of all rules
    of the store and the loop of the watcher that reloads them, [Seed] the merge
    of the default rule files into the store, and [LegacyReload] puts the two
    engines on top.

    The language: [Ast] models [rules/grl/ast.rs] and [context.rs]; [Functions]
    models [grl/functions.rs], [grl/registry.rs] and the [Plugin] trait of
    [plugin.rs], whose contract is the class [PluginSpec]; [Printer] models
    [grl/printer.rs]; [GrlParser] models [grl/parser.rs], from the tree of the
    pest parser to rules; [Pest] is the grammar, [grl/grl.pest], with the meaning
    pest documents for it, and [GrlTree] the shape of its trees; [Converter]
    models [grl/converter.rs].  [GrlText] says which texts are read as which
    expressions, statements and rules, in the order of precedence of the grammar.
    [ConvSpec] gives the YAML conditions a meaning, a predicate on requests, and
    shows that the converted text has it; [ConvEngine] carries it through the
    engine to the decision.  [Agree] compares the result with [crates/rule] on
    the rules that both read alike, and [Documents] does so from the document that both
    read.  [Routing] compares the conditions of [rules/rule.rs] as the direct evaluator
    and as the converter read them.

    The engine: [Rete] (network compilation, [rete/mod.rs], [alpha.rs],
    [terminal.rs]), [WorkingMemory] ([rete/working_memory.rs]) and [Engine]
    ([rete/engine.rs]); [EngineSpec] is the abstract specification of the firing
    loop, a production system on the rules themselves, with the refinement.

    The core rule set: [CrsTypes], [CrsTx], [CrsTransform], [CrsTarget],
    [CrsOperator], [CrsParser] model the files of the same names under
    [rules/crs]; [CrsEval] models [evaluator.rs], [loader.rs] and [plugin.rs]
    over the ModSecurity engine, a class.  [CrsText] is a syntax of rule files, with the
    directives on one line or on several as the core rule set writes them, and shows that
    the parser reads it; one of its samples is a whole file of the core rule set.

    Around it: [Lists] ([lists/]), [Geo] ([geo/plugin.rs]), [Matcher]
    ([rules/rule.rs], [rules/matcher.rs]), [Loader] ([rules/loader.rs]), [App]
    ([config/schema.rs], [rules/store.rs], [rules/watcher.rs], [state/store.rs],
    [pipeline.rs]), [Proxy] ([waf-proxy/src/handler.rs]), [Concurrent] (the tasks that
    [waf-proxy/src/server.rs] starts, and how their accesses to the rule store and those
    of the watcher interleave), [WafTypes]
    ([crates/waf-types] and the thresholds of [risk/scorer.rs]).  The programs
    under [waf-engine/src/bin]: [Compare] models the comparison of the three
    engines on one directory ([compare_engines_yaml_vs_rete.rs]), [Program] its [main]
    and that of [compare_rule_engines.rs], [Bench] the two
    benchmarks with imitated matchers ([compare_engines_real.rs],
    [compare_engines.rs]) and [Demo] the demonstration ([engine_demo.rs]).
    [Shipped] is about the files the repository ships, [config/waf.toml] and
    [config/rules2/detection.grl].  [Enforce] puts loader, converter, engine,
    application, watcher and proxy together: from the rules directory to the answer to
    a request; [Detection] does so for the shipped detection rules, with the plugins, and
    [Rules2] for the whole shipped directory, [config/rules2].  [RuleTests],
    [LegacyTests], [OptTests] and [EngineTests] run the repository's own tests on the definitions.

    * State and operations

    Stateful code is explicit state passing.  The engine's state is the working
    memory (request fact, overlay of assignments, outcome) and the set of fired
    rules; a firing cycle is a step.  The CRS TX variables, the IP lists, the
    rule store and the application state are records, each operation a function
    on them; the file watcher is a function of one notification.  The Consul
    watcher is a state (last index, rules in force, outside world) and a step, one
    turn of its loop; the outside world is an abstract state that every request
    changes, so that a run of the watcher meets any sequence of responses.  Where tasks
    run side by side ([Concurrent]), each is cut at its accesses to what they share, and
    a schedule, any function from times to accesses, says in which order they happen.
    The proxy handler returns the requests it sends upstream with its response.  Errors are values
    of [result].  Hash maps are [gmap]s; where the source iterates over one, the
    order is the parameter [HashOrder], any permutation of the entries.
    Integers are [Z] with the wrap-around of their width written out; debug
    builds of the program panic where release builds wrap, and the release
    behaviour is modelled.  Third-party crates are classes with the operations
    the source calls and, where a theorem needs it, documented laws: [RegexLib],
    [IpNetLib], [AhoCorasickLib], [RegexReplaceLib], [ModSecLib], [GeoDbLib],
    [YamlLib], [HttpLib], [LegacyLib] (header maps, [globset], tier names),
    [NetLib] and [JsonLib] (HTTP, JSON, YAML and base64 of the Consul code),
    [UnicodeTables]; the formats of [serde] are [DataModel], [Format] and [Serializer].
    Each has a concrete instance on
    which the definitions are evaluated.

    * Theorems

    - The engine fires what the production system allows: the refinement
      [fire_implements_production_system], over the equivalence of compiled
      guards and conditions ([compile_guards_sound]), the sharing of alpha nodes
      and the injectivity of the printer that keys them; what a decision
      implies about the rules, retraction, and the bound on cycles.
    - From the rules directory to the answer: the YAML files of a directory stand for a
      list of rules ([dir_meaning]), and the application started on it answers every
      request as these decide ([started_directory_decides]).  Whatever the file systems
      are and whatever reloads come between, each request gets the decision of one
      engine, the one started or one built from rules that the watcher loaded, and where
      the directory of that load has a reading, the decision of its documents
      ([answered_by_some_version]); a reload puts the directory as it is now in force
      ([reloaded_directory_decides]).  On the shipped directory the thirty-seven rules of its
      GRL file and its YAML files decide as a table of eleven checks, and its routing
      rules as the route map ([rules2_answers]; the rule for the whitelist never holds,
      since the start loads none); on the GRL file alone the answer is
      that of the first of eleven checks ([shipped_rules_answer]).
    - From a YAML document to a decision ([converted_document_decides]): a
      document with a reading stands for a list of predicates with their actions
      ([rules_meaning]).  Conditions on networks, on the presence of a header, on cookies,
      by [ssrf_pattern], with [negate], [header_name] or [cookie_name], empty lists, and
      texts that the printed rule would not keep have no reading.  The text written for it parses to rules with these
      conditions ([converted_rules_mean]), and the engine built from them decides
      by the first of them that match.  Where the converter approximates, the
      conditions never hold ([approximated_conditions_never_hold]); where it
      writes text outside the grammar, the whole file is lost
      ([bad_text_loses_the_file]).
    - The engines agree on what they share: on YAML rules whose conditions both
      formats read alike, the network engine blocks and allows what [crates/rule]
      blocks and allows; a challenge or a rate limit it replaces only by what a matching
      rule of a later priority asks for ([engines_agree], from the
      document that both read with their own readers); loaded with a directory of such rules, the comparison program reports full agreement of the
      three engines ([comparison_reports_full_agreement]).  A routing condition means to
      the direct evaluator what its converted form means to the engine, up to the
      decoding of the path ([routing_readings_agree]).
    - Schemas: what is not read and takes its file with it ([map_rule_loses_the_file]),
      conditions that are written and read back ([condition_round_trip]), the
      configurations that are accepted and what a missing table means
      ([missing_tables_disarm]).
    - Concurrency: a request that overlaps one reload is answered as at one instant
      ([request_at_one_instant]); two can tear it ([two_reloads_tear]).
    - The shipped files: rules that each decide, whenever they hold, decide by the first
      that holds ([deciding_rules_decide]), as the detection rules do; without a rules directory
      every request is forwarded ([no_rules_fails_open]).
    - Texts read back: parsing a file terminates ([grammar_terminates]), the trees
      of the grammar never make the parser panic ([grl_parse_total]), and the
      canonical text of a condition parses to the condition
      ([canonical_text_parses]); files of CRS rules parse to the rules and markers
      they write down, without those the parser does not know ([conf_text_parses]);
      base64.
    - The older engine: compilation accepts exactly the well-formed rule files,
      reports the first error, and evaluation returns the decisive rule of least
      priority; globs and CIDR tests against their meaning; the regex cache of
      the optimized version changes no answer, nor does that of the top-level one,
      whose compiler reports errors in another order; [crates/rule] answers like
      the engine it was ported from.
    - Rules in Consul: what is written takes effect in both engines
      ([consul_rules_take_effect], a liveness property of the watcher's loop), only
      loads that succeed change the rules in force, a load that failed is not
      retried; seeding keeps the operators' rules of a store that it can read
      ([seeding_keeps_operator_rules]) and overwrites the others
      ([unread_store_is_overwritten]), restores the defaults and rewrites them at each
      start.
    - Components keep their promises: plugins at start-up and after a reload,
      files that fail to load, sorted routing rules, IP list membership,
      geo-blocking after enrichment, CRS scores and tags, sound fast paths of
      the transformations.
    - The request path: what is forwarded, where, and with which headers (header maps
      are lists of pairs up to [same_headers], the values of each name in order); what
      the rules can see of a request; the risk score.

    Several of these state behaviour the authors did not intend; the theorem
    says what the code does.

    * Bounds and fuel

    [MAX_CYCLES] is the sixteen cycles of the engine.  [collapse_slashes] takes
    the length of the text, since each replacement shortens it; the conversion
    of a condition takes the size of the document, and
    [cond_to_grl_terminates] shows that it is enough; [trim_start_matches] and
    the printers of integers take a length that bounds their loops.  Running the
    grammar takes fuel for nested calls: [parse_fuel] allows 64 for each character
    and at the end, and [run_enough] shows from the ranks of the grammar's rules
    that no run is cut off.  Reading a condition takes the size of what is read
    ([read_node_enough], [read_parts_enough]), and the uncalled glob the length of its
    pattern.  All other
    recursion is structural.

    * Not modelled

    Sockets, TLS and the runtime; within one access of a task, locks and the reading of a
    directory are one step.  The readers of the formats are parameters below the data
    model of [serde], whose names of fields and variants are texts here; [crates/rule]
    reads its files from text, where a plain scalar such as a number also offers a text,
    and the instance decides.  Not modelled either: the parser that pest generates
    from the grammar, which is a parameter: the theorems on texts assume that it
    gives the tree that the grammar gives ([grammar_parse]); functions registered by plugins read
    shared stores, which are a snapshot during one evaluation.  The stores,
    detection modules, circuit breaker and dashboard endpoints whose bodies are
    [todo!()] have no behaviour to model.  The two engines at the top level of
    the repository name modules that are not in it (tiers, configuration); what
    they use of them is a parameter.  The parsing of
    command-line arguments is not modelled, nor are the times that the benchmark programs
    measure and the texts they print, nor tests that ask what the [regex] crate
    answers.  What is left of the source beyond these is comments, documentation and the
    text of log messages.  The meaning of a directory ([dir_meaning]) is given for
    its YAML files; a GRL file that parses has no meaning of this form, and the theorems
    of [Detection] and [Rules2] are about one.  [CrsText] takes files of printable ASCII whose quoted
    values hold no quotes and no backslashes. *)
From stdpp Require Import sorting.
From stdpp Require Export base tactics option list gmap sets strings.
#[export] Set Warnings "-register-all".
From Stdlib Require Export ZArith NArith Lia Ascii Sorted.

(** * The result type of fallible Rust code *)

Inductive result (E A : Type) : Type :=
| Ok (a : A)
| Err (e : E).
Arguments Ok {E A} a.
Arguments Err {E A} e.

#[export] Instance result_mret {E} : MRet (result E) := fun A a => Ok a.
#[export] Instance result_mbind {E} : MBind (result E) := fun A B f m =>
  match m with Ok a => f a | Err e => Err e end.
#[export] Instance result_fmap {E} : FMap (result E) := fun A B f m =>
  match m with Ok a => Ok (f a) | Err e => Err e end.

(** [Option::ok_or] *)
Definition ok_or {E A} (o : option A) (e : E) : result E A :=
  match o with Some a => Ok a | None => Err e end.

(** [iter().map(f).collect::<Result<Vec<_>, _>>()]: the first error wins. *)
Fixpoint collect_result {E A B} (f : A -> result E B) (l : list A) : result E (list B) :=
  match l with
  | [] => Ok []
  | x :: l => y ← f x; ys ← collect_result f l; Ok (y :: ys)
  end.

Lemma collect_result_ext {E A B} (f g : A -> result E B) l :
  (forall x, In x l -> f x = g x) -> collect_result f l = collect_result g l.
Proof.
  induction l as [|x l IH]; intros Hfg; [done|]. cbn [collect_result].
  rewrite (Hfg x) by (by left). rewrite IH; [done|]. intros y Hy. apply Hfg. by right.
Qed.

Lemma collect_result_err {E A B} (f : A -> result E B) l e :
  collect_result f l = Err e -> exists x, In x l /\ f x = Err e.
Proof.
  induction l as [|x l IH]; [done|]. cbn [collect_result]. destruct (f x) as [y|e'] eqn:Hx; cbn.
  - destruct (collect_result f l) as [ys|e']; cbn; intros [=]. subst.
    destruct IH as (z & Hz & He); [done|]. exists z. split; [by right|done].
  - intros [=]. subst. exists x. split; [by left|done].
Qed.

Lemma collect_result_ok {E A B} (f : A -> result E B) (R : A -> B -> Prop) l :
  (forall x, In x l -> exists y, f x = Ok y /\ R x y) ->
  exists ys, collect_result f l = Ok ys /\ Forall2 R l ys.
Proof.
  induction l as [|x l IH]; intros Hl; [by exists []|].
  destruct (Hl x) as (y & Hy & HR); [by left|].
  destruct IH as (ys & Hys & HRs); [intros z Hz; apply Hl; by right|].
  exists (y :: ys). cbn. rewrite Hy. cbn. rewrite Hys. cbn. split; [done|by constructor].
Qed.

(** A loop that updates a state and leaves at the first error ([?]). *)
Fixpoint fold_result {E S A} (f : S -> A -> result E S) (s : S) (l : list A) : result E S :=
  match l with
  | [] => Ok s
  | x :: l => s ← f s x; fold_result f s l
  end.

Lemma fold_result_ok {E S A} (f : S -> A -> result E S) (P : S -> Prop) (Q : A -> S -> Prop) s l s' :
  (forall s x s', P s -> f s x = Ok s' -> P s' /\ Q x s' /\ forall y, Q y s -> Q y s') ->
  P s -> fold_result f s l = Ok s' ->
  P s' /\ (forall x, In x l -> Q x s') /\ forall y, Q y s -> Q y s'.
Proof.
  intros Hstep. revert s. induction l as [|x l IH]; intros s Hs; cbn [fold_result].
  - intros [= ->]. split; [done|]. split; [by intros ? []|done].
  - destruct (f s x) as [s1|] eqn:Hx; [|done]. cbn [mbind result_mbind]. intros Hl.
    destruct (Hstep _ _ _ Hs Hx) as (Hs1 & Hq & Hk). destruct (IH _ Hs1 Hl) as (Hs' & Hin & Hk').
    split; [done|]. split; [|by auto]. intros y [<-|Hy]; auto.
Qed.

Lemma fold_result_err {E S A} (f : S -> A -> result E S) (P : S -> Prop) (bad : A -> option E) s l :
  (forall s x, P s -> match bad x with
                      | Some e => f s x = Err e
                      | None => exists s', f s x = Ok s' /\ P s'
                      end) ->
  P s ->
  match head (omap bad l) with
  | Some e => fold_result f s l = Err e
  | None => exists s', fold_result f s l = Ok s' /\ P s'
  end.
Proof.
  intros Hstep. revert s. induction l as [|x l IH]; intros s Hs; cbn [omap list_omap fold_result head].
  { eauto. }
  specialize (Hstep s x Hs). destruct (bad x) as [e|]; cbn [head].
  - by rewrite Hstep.
  - destruct Hstep as (s' & -> & Hs'). apply IH. done.
Qed.

(** * Automation *)

Create HintDb waf.
Create Rewrite HintDb waf_str.

(** Split a boolean guard found in the goal or in a hypothesis. *)
Ltac split_if :=
  match goal with
  | |- context [if ?b then _ else _] => destruct b eqn:?
  | H : context [if ?b then _ else _] |- _ => destruct b eqn:?
  end.

(** Turn the boolean tests of the code into propositions. *)
Ltac reflect_bools :=
  repeat match goal with
  | H : (_ && _)%bool = true |- _ => apply andb_true_iff in H; destruct H
  | H : (_ || _)%bool = false |- _ => apply orb_false_iff in H; destruct H
  | H : negb _ = true |- _ => apply negb_true_iff in H
  | H : negb _ = false |- _ => apply negb_false_iff in H
  | H : bool_decide _ = true |- _ => apply bool_decide_eq_true in H
  | H : bool_decide _ = false |- _ => apply bool_decide_eq_false in H
  end.

(** * Stable sorting ([slice::sort_by_key]) *)

(** The standard library's [sort_by] is stable, so its result is determined by
    the keys; insertion from the right computes it. *)
Section SortBy.
Context {A : Type} (key : A -> Z).

Fixpoint insert_by (x : A) (l : list A) : list A :=
  match l with
  | [] => [x]
  | y :: l' => if (key x <=? key y)%Z then x :: l else y :: insert_by x l'
  end.

Definition sort_by_key (l : list A) : list A := foldr insert_by [] l.

Definition key_le (x y : A) : Prop := (key x <= key y)%Z.

Lemma insert_by_perm x l : insert_by x l ≡ₚ x :: l.
Proof.
  induction l as [|y l IH]; simpl; [done|].
  split_if; [done|]. rewrite IH. apply Permutation_swap.
Qed.

Lemma sort_by_key_perm l : sort_by_key l ≡ₚ l.
Proof.
  induction l as [|x l IH]; simpl; [done|].
  rewrite insert_by_perm. by constructor.
Qed.


Lemma insert_by_sorted x l :
  StronglySorted key_le l -> StronglySorted key_le (insert_by x l).
Proof.
  induction 1 as [|y l Hs IH Hy]; simpl; [repeat constructor|].
  destruct (Z.leb_spec (key x) (key y)) as [Hle|Hlt].
  - constructor; [by constructor|]. constructor; [done|].
    eapply List.Forall_impl; [|exact Hy]. unfold key_le. intros; lia.
  - constructor; [exact IH|]. rewrite insert_by_perm.
    constructor; [unfold key_le; lia|done].
Qed.

Lemma sort_by_key_sorted l : StronglySorted key_le (sort_by_key l).
Proof. induction l; simpl; [constructor|by apply insert_by_sorted]. Qed.

(** Stability: elements of one key keep their relative order. *)
Lemma insert_by_filter k x l :
  filter (fun y => key y = k) (insert_by x l) =
  filter (fun y => key y = k) (x :: l).
Proof.
  induction l as [|y l IH]; [done|]. simpl insert_by.
  destruct (Z.leb_spec (key x) (key y)); [done|].
  rewrite (filter_cons _ y (insert_by x l)), IH.
  rewrite !filter_cons. repeat case_decide; congruence || (exfalso; lia) || done.
Qed.

Lemma sort_by_key_stable k l :
  filter (fun y => key y = k) (sort_by_key l) = filter (fun y => key y = k) l.
Proof.
  induction l as [|x l IH]; [done|]. simpl sort_by_key.
  rewrite insert_by_filter, !filter_cons, IH. done.
Qed.
End SortBy.

Lemma In_sorted {A} (key : A -> Z) l x : In x (sort_by_key key l) <-> In x l.
Proof. by rewrite <-!list_elem_of_In, sort_by_key_perm. Qed.

Lemma find_ext_in {A} (f g : A -> bool) l : (forall x, In x l -> f x = g x) -> List.find f l = List.find g l.
Proof.
  induction l as [|x l IH]; intros Hfg; [done|]. cbn. rewrite (Hfg x) by (by left).
  rewrite IH; [done|]. intros y Hy. apply Hfg. by right.
Qed.

(** The first element satisfying a test in the sorted list is the first of least
    key among those satisfying it. *)
Section FindSorted.
Context {A : Type} (key : A -> Z) (p : A -> bool).

Lemma find_none_key l x : List.find p l = None -> In x l -> p x = true -> False.
Proof. intros Hf Hx Hp. pose proof (List.find_none _ _ Hf x Hx). congruence. Qed.

Lemma find_insert_by y s :
  StronglySorted (key_le key) s ->
  List.find p (insert_by key y s) =
  if p y then
    match List.find p s with
    | Some x => if (key x <? key y)%Z then Some x else Some y
    | None => Some y
    end
  else List.find p s.
Proof.
  induction 1 as [|z s Hs IH Hz]; simpl; [by destruct (p y)|].
  destruct (Z.leb_spec (key y) (key z)) as [Hle|Hlt]; simpl.
  - destruct (p y) eqn:Hy; [|done]. destruct (p z) eqn:Hpz.
    + by rewrite (proj2 (Z.ltb_ge _ _) Hle).
    + destruct (List.find p s) as [x|] eqn:Hf; [|done].
      apply List.find_some in Hf as [Hx _]. rewrite List.Forall_forall in Hz.
      specialize (Hz x Hx). unfold key_le in Hz. by rewrite (proj2 (Z.ltb_ge _ _)) by lia.
  - destruct (p z) eqn:Hpz; [|by rewrite IH].
    rewrite (proj2 (Z.ltb_lt _ _) Hlt). by destruct (p y).
Qed.

Definition first_least (l : list A) (x : A) : Prop :=
  exists pre post, l = pre ++ x :: post /\ p x = true /\
    (forall y, In y pre -> p y = true -> (key x < key y)%Z) /\
    (forall y, In y post -> p y = true -> (key x <= key y)%Z).

Lemma find_sort_by_key l x :
  List.find p (sort_by_key key l) = Some x -> first_least l x.
Proof.
  revert x. induction l as [|y l IH]; intros x; [done|]. simpl sort_by_key.
  rewrite find_insert_by by apply sort_by_key_sorted.
  assert (Htail : forall x, List.find p (sort_by_key key l) = Some x ->
            (p y = true -> (key x < key y)%Z) -> first_least (y :: l) x).
  { intros x' Hf Hy. destruct (IH x' Hf) as (pre & post & -> & Hx & Hpre & Hpost).
    exists (y :: pre), post. split; [done|]. split; [done|]. split; [|done].
    intros z [<-|Hz]; auto. }
  assert (Hhead : p y = true -> (forall z, In z l -> p z = true -> (key y <= key z)%Z) ->
            first_least (y :: l) y).
  { intros Hy Hl. exists [], l. split; [done|]. split; [done|]. split; [by intros ? []|done]. }
  destruct (p y) eqn:Hy; [|intros Hf; by apply Htail; [|congruence]].
  destruct (List.find p _) as [x'|] eqn:Hf.
  - destruct (Z.ltb_spec (key x') (key y)) as [Hlt|Hge]; intros [= <-]; [by apply Htail|].
    apply Hhead; [done|]. destruct (IH x' eq_refl) as (pre & post & -> & Hx & Hpre & Hpost).
    intros z [Hz|[<-|Hz]]%in_app_or Hpz; [specialize (Hpre z Hz Hpz)| |specialize (Hpost z Hz Hpz)]; lia.
  - intros [= <-]. apply Hhead; [done|]. intros z Hz Hpz. exfalso.
    eapply find_none_key; [exact Hf| |exact Hpz].
    by rewrite <-list_elem_of_In, sort_by_key_perm, list_elem_of_In.
Qed.

Lemma find_sort_by_key_None l :
  List.find p (sort_by_key key l) = None <-> forall x, In x l -> p x = false.
Proof.
  split.
  - intros Hf x Hx. apply (List.find_none _ _ Hf).
    by rewrite <-list_elem_of_In, sort_by_key_perm, list_elem_of_In.
  - intros Hl. destruct (List.find p _) as [x|] eqn:Hf; [|done].
    apply List.find_some in Hf as [Hx Hp]. rewrite Hl in Hp; [done|].
    by rewrite <-list_elem_of_In, sort_by_key_perm, list_elem_of_In in Hx.
Qed.

Lemma first_least_unique l x y : first_least l x -> first_least l y -> x = y.
Proof.
  intros (pre & post & -> & Hx & Hpre & Hpost) (pre' & post' & Heq & Hy & Hpre' & Hpost').
  destruct (app_eq_inv _ _ _ _ Heq) as [[k [-> Hk]]|[k [-> Hk]]]; destruct k as [|z k];
    injection Hk as <- ->; try done; exfalso.
  - specialize (Hpost' x). specialize (Hpre y).
    assert (key y <= key x)%Z by (apply Hpost'; [apply in_or_app; right; by left|done]).
    assert (key x < key y)%Z by (apply Hpre; [apply in_or_app; right; by left|done]). lia.
  - specialize (Hpost y). specialize (Hpre' x).
    assert (key x <= key y)%Z by (apply Hpost; [apply in_or_app; right; by left|done]).
    assert (key y < key x)%Z by (apply Hpre'; [apply in_or_app; right; by left|done]). lia.
Qed.
End FindSorted.

Lemma sort_by_key_map {A B} (kA : A -> Z) (kB : B -> Z) (f : A -> B) (l : list A) :
  (forall x, kB (f x) = kA x) ->
  sort_by_key kB (map f l) = map f (sort_by_key kA l).
Proof.
  intros Hk. induction l as [|x l IH]; [done|]. simpl. rewrite IH.
  generalize (sort_by_key kA l). intros s. induction s as [|y s IHs]; simpl; [done|].
  rewrite !Hk. split_if; [done|]. simpl. by rewrite IHs.
Qed.

(** Sorting related lists by keys in the same order keeps them related. *)
Lemma sort_by_key_related {A B} (kA : A -> Z) (kB : B -> Z) (R : A -> B -> Prop) l m :
  (forall x y x' y', R x y -> R x' y' -> (kA x <=? kA x')%Z = (kB y <=? kB y')%Z) -> Forall2 R l m ->
  Forall2 R (sort_by_key kA l) (sort_by_key kB m).
Proof.
  intros Hk. induction 1 as [|x y l m Hxy _ IH]; simpl; [constructor|].
  induction IH as [|x' y' l' m' Hxy' Hl IHl]; simpl; [by repeat constructor|].
  rewrite (Hk _ _ _ _ Hxy Hxy'). split_if; by repeat constructor.
Qed.
Lemma sort_by_key_Forall2 {A B} (kA : A -> Z) (kB : B -> Z) (R : A -> B -> Prop) l m :
  (forall x y, R x y -> kA x = kB y) -> Forall2 R l m ->
  Forall2 R (sort_by_key kA l) (sort_by_key kB m).
Proof. intros Hk. apply sort_by_key_related. intros x y x' y' Hxy Hxy'. by rewrite (Hk x y), (Hk x' y'). Qed.

(** With distinct keys there is one sorted order. *)
Lemma sort_by_key_unique {A} (key : A -> Z) s l :
  StronglySorted (key_le key) s -> s ≡ₚ l -> NoDup (map key l) -> s = sort_by_key key l.
Proof.
  intros Hs Hp Hnd. revert Hs Hp.
  assert (Hinj : forall x y, x ∈ l -> y ∈ l -> key x = key y -> x = y).
  { intros x y Hx Hy Hk. induction l as [|z l IH]; [by apply elem_of_nil in Hx|].
    cbn in Hnd. apply NoDup_cons in Hnd as [Hz Hnd].
    assert (Hin : forall w, w ∈ l -> key w ∈ map key l) by (intros w Hw; by apply list_elem_of_In, in_map, list_elem_of_In).
    apply elem_of_cons in Hx as [->|Hx], Hy as [->|Hy]; [done| | |by apply IH].
    - exfalso. apply Hz. rewrite Hk. by apply Hin.
    - exfalso. apply Hz. rewrite <-Hk. by apply Hin. }
  intros Hs Hp. apply (StronglySorted_unique_strong (key_le key)); [|done|apply sort_by_key_sorted|].
  - intros x y Hx Hy. unfold key_le. intros H1 H2. apply Hinj; [by rewrite <-Hp| |lia].
    by rewrite (sort_by_key_perm key l) in Hy.
  - by rewrite Hp, (sort_by_key_perm key l).
Qed.

Lemma find_first {A} (p : A -> bool) l x :
  List.find p l = Some x <->
  exists pre post, l = pre ++ x :: post /\ p x = true /\ Forall (fun y => p y = false) pre.
Proof.
  induction l as [|y l IH]; cbn [List.find].
  { split; [done|]. intros ([] & ? & ? & _); done. }
  destruct (p y) eqn:Hy.
  - split.
    + intros [= ->]. by exists [], l.
    + intros (pre & post & Heq & Hx & Hpre). destruct pre as [|z pre]; simplify_eq/=; [done|].
      inversion Hpre; congruence.
  - rewrite IH. split.
    + intros (pre & post & -> & Hx & Hpre). exists (y :: pre), post. auto.
    + intros (pre & post & Heq & Hx & Hpre). destruct pre as [|z pre]; simplify_eq/=; [congruence|].
      inversion Hpre; subst. eauto.
Qed.

(** The first element satisfying a test in a list sorted by key has the least key
    among the elements that satisfy it, whatever order equal keys came in. *)
Lemma find_least {A} (key : A -> Z) (p : A -> bool) (s l : list A) :
  StronglySorted (key_le key) s -> s ≡ₚ l ->
  match List.find p s with
  | Some x => In x l /\ p x = true /\ forall y, In y l -> p y = true -> (key x <= key y)%Z
  | None => forall y, In y l -> p y = false
  end.
Proof.
  intros Hs Hp. assert (Hin : forall x, In x l <-> In x s) by (intros x; by rewrite <-!list_elem_of_In, Hp).
  destruct (List.find p s) as [x|] eqn:Hf; [|intros y Hy%Hin; by apply (List.find_none _ _ Hf)].
  apply List.find_some in Hf as Hx. destruct Hx as [Hx Hpx]. split; [by apply Hin|]. split; [done|].
  intros y Hy%Hin Hpy. clear Hin Hp Hx l. induction Hs as [|z s Hs IH Hz]; [done|]. cbn in Hf.
  rewrite List.Forall_forall in Hz. destruct (p z) eqn:Hpz.
  - injection Hf as ->. destruct Hy as [->|Hy]; [lia|by apply Hz].
  - destruct Hy as [->|Hy]; [congruence|by apply IH].
Qed.

(** * Lists *)

Lemma filter_filter {A} (f g : A -> bool) l : List.filter f (List.filter g l) = List.filter (fun x => g x && f x) l.
Proof. induction l as [|x l IH]; [done|]. cbn. destruct (g x); cbn; [destruct (f x); by rewrite IH|done]. Qed.

Lemma existsb_forallb_negb {A} (f : A -> bool) l :
  existsb f l = negb (forallb (fun x => negb (f x)) l).
Proof. induction l as [|x l IH]; simpl; [done|]. rewrite IH. by destruct (f x). Qed.

Lemma forallb_map_ext {A B} (f : B -> bool) (g : A -> bool) (h : A -> B) l :
  Forall (fun x => f (h x) = g x) l -> forallb f (map h l) = forallb g l.
Proof. induction 1 as [|x l Hx _ IH]; simpl; [done|]. by rewrite Hx, IH. Qed.

Lemma existsb_map_ext {A B} (f : B -> bool) (g : A -> bool) (h : A -> B) l :
  Forall (fun x => f (h x) = g x) l -> existsb f (map h l) = existsb g l.
Proof. induction 1 as [|x l Hx _ IH]; simpl; [done|]. by rewrite Hx, IH. Qed.

(** * Machine integers *)

Definition wrap_u (w : Z) (z : Z) : Z := (z mod 2 ^ w)%Z.
Definition wrap_s (w : Z) (z : Z) : Z := ((z + 2 ^ (w - 1)) mod 2 ^ w - 2 ^ (w - 1))%Z.
Definition in_u (w : Z) (z : Z) : Prop := (0 <= z < 2 ^ w)%Z.
Definition in_s (w : Z) (z : Z) : Prop := (- 2 ^ (w - 1) <= z < 2 ^ (w - 1))%Z.

Lemma wrap_s64_id z : in_s 64 z -> wrap_s 64 z = z.
Proof.
  unfold in_s, wrap_s. change (2 ^ (64 - 1))%Z with 9223372036854775808%Z.
  change (2 ^ 64)%Z with 18446744073709551616%Z. intros H.
  rewrite Z.mod_small; lia.
Qed.

Lemma wrap_s64_range z : in_s 64 (wrap_s 64 z).
Proof.
  unfold in_s, wrap_s. change (2 ^ (64 - 1))%Z with 9223372036854775808%Z.
  change (2 ^ 64)%Z with 18446744073709551616%Z.
  pose proof (Z.mod_pos_bound (z + 9223372036854775808) 18446744073709551616). lia.
Qed.

Lemma wrap_s32_id z : in_s 32 z -> wrap_s 32 z = z.
Proof.
  unfold in_s, wrap_s. change (2 ^ (32 - 1))%Z with 2147483648%Z.
  change (2 ^ 32)%Z with 4294967296%Z. intros H. rewrite Z.mod_small; lia.
Qed.

#[export] Hint Resolve wrap_s64_range : waf.

Lemma wrap_s64_add_l a b : wrap_s 64 (wrap_s 64 a + b) = wrap_s 64 (a + b).
Proof.
  unfold wrap_s. change (2 ^ (64 - 1))%Z with 9223372036854775808%Z.
  change (2 ^ 64)%Z with 18446744073709551616%Z.
  set (m := 18446744073709551616%Z). set (h := 9223372036854775808%Z).
  replace ((a + h) mod m - h + b + h)%Z with ((a + h) mod m + b)%Z by lia.
  replace (a + b + h)%Z with (a + h + b)%Z by lia. by rewrite Zplus_mod_idemp_l.
Qed.

(** Cancel an inner wrap under an outer one, the rest being linear. *)
Ltac wrap_cancel :=
  match goal with
  | |- wrap_s 64 ?L = wrap_s 64 _ =>
    match L with
    | context [wrap_s 64 ?x] =>
      replace L with (wrap_s 64 x + (L - wrap_s 64 x))%Z by lia;
      rewrite wrap_s64_add_l; f_equal; lia
    end
  end.
