(* ===== verification/Utf8.v ===== *)
(** UTF-8: a Rust [str] is the [string] of its bytes, a [char] is its code
    point (a [Z]).  Decoding, lossy decoding, encoding, and the lemmas that
    relate them. *)
From S2P Require Import Prelude.
Local Open Scope Z_scope.

(** * Bytes *)

Definition byte_val (a : ascii) : Z := Z.of_N (N_of_ascii a).
Definition byte_of (z : Z) : ascii := ascii_of_N (Z.to_N z).

Lemma byte_of_val a : byte_of (byte_val a) = a.
Proof. unfold byte_of, byte_val. rewrite N2Z.id. apply ascii_N_embedding. Qed.

Lemma byte_val_of z : 0 <= z < 256 -> byte_val (byte_of z) = z.
Proof.
  intros H. unfold byte_of, byte_val. rewrite N_ascii_embedding by lia.
  rewrite Z2N.id; lia.
Qed.

Lemma byte_val_range a : 0 <= byte_val a < 256.
Proof. unfold byte_val. pose proof (N_ascii_bounded a). lia. Qed.

Lemma byte_val_inj a b : byte_val a = byte_val b -> a = b.
Proof. intros H. by rewrite <-(byte_of_val a), H, byte_of_val. Qed.

Fixpoint str_bytes (s : string) : list ascii :=
  match s with EmptyString => [] | String a s => a :: str_bytes s end.
Fixpoint str_of (l : list ascii) : string :=
  match l with [] => EmptyString | a :: l => String a (str_of l) end.

Lemma str_of_bytes s : str_of (str_bytes s) = s.
Proof. induction s; simpl; congruence. Qed.
Lemma str_bytes_of l : str_bytes (str_of l) = l.
Proof. induction l; simpl; congruence. Qed.

Abbreviation str_len := String.length.

Lemma app_nil_r_str (s : string) : s +:+ "" = s.
Proof. induction s as [|a s IH]; [done|]. change (String a (s +:+ "") = String a s). by rewrite IH. Qed.
Lemma app_assoc_str (a b c : string) : (a +:+ b) +:+ c = a +:+ (b +:+ c).
Proof. induction a as [|x a IH]; [done|]. change (String x ((a +:+ b) +:+ c) = String x (a +:+ (b +:+ c))). by rewrite IH. Qed.
Lemma app_cons_str x (a b : string) : String x a +:+ b = String x (a +:+ b).
Proof. done. Qed.
Lemma app_nil_l_str (b : string) : "" +:+ b = b.
Proof. done. Qed.
Lemma str_len_app (a b : string) : str_len (a +:+ b) = (str_len a + str_len b)%nat.
Proof. induction a as [|x a IH]; [done|]. rewrite app_cons_str. simpl. by rewrite IH. Qed.
Lemma str_bytes_app (a b : string) : str_bytes (a +:+ b) = str_bytes a ++ str_bytes b.
Proof. induction a as [|x a IH]; [done|]. rewrite app_cons_str. simpl. by rewrite IH. Qed.

#[export] Hint Rewrite app_nil_r_str app_assoc_str app_cons_str app_nil_l_str : waf_str.

Definition push (s : string) (c : ascii) : string := s +:+ String c "".

(** [strings.join(sep)] *)
Fixpoint str_join (sep : string) (l : list string) : string :=
  match l with
  | [] => ""
  | [x] => x
  | x :: l => x +:+ sep +:+ str_join sep l
  end.

(** * UTF-8 *)

Definition is_scalar (c : Z) : bool :=
  ((0 <=? c) && (c <? 55296)) || ((57344 <=? c) && (c <=? 1114111)).

(** [char::from_u32] *)
Definition char_from_u32 (n : Z) : option Z := if is_scalar n then Some n else None.

Definition bstr (z : Z) : string := String (byte_of z) "".

(** [char::encode_utf8] *)
Definition utf8_encode (c : Z) : string :=
  if c <? 128 then bstr c
  else if c <? 2048 then
    String (byte_of (192 + c / 64)) (String (byte_of (128 + c mod 64)) "")
  else if c <? 65536 then
    String (byte_of (224 + c / 4096))
      (String (byte_of (128 + (c / 64) mod 64)) (String (byte_of (128 + c mod 64)) ""))
  else
    String (byte_of (240 + c / 262144))
      (String (byte_of (128 + (c / 4096) mod 64))
        (String (byte_of (128 + (c / 64) mod 64)) (String (byte_of (128 + c mod 64)) ""))).

Fixpoint of_chars (l : list Z) : string :=
  match l with [] => "" | c :: l => utf8_encode c +:+ of_chars l end.

Definition cont_byte (b : Z) : bool := (128 <=? b) && (b <? 192).

(** Bounds of the second byte of a three- or four-byte sequence. *)
Definition second_ok (b0 b1 : Z) : bool :=
  if b0 =? 224 then (160 <=? b1) && (b1 <? 192)
  else if b0 =? 237 then (128 <=? b1) && (b1 <? 160)
  else if b0 =? 240 then (144 <=? b1) && (b1 <? 192)
  else if b0 =? 244 then (128 <=? b1) && (b1 <? 144)
  else cont_byte b1.

(** Decoding; [None] stands for one maximal ill-formed subsequence, which
    [String::from_utf8_lossy] replaces by U+FFFD. *)
Fixpoint utf8_decode (s : string) : list (option Z) :=
  match s with
  | EmptyString => []
  | String a0 s1 =>
    let b0 := byte_val a0 in
    if b0 <? 128 then Some b0 :: utf8_decode s1
    else if (194 <=? b0) && (b0 <? 224) then
      match s1 with
      | EmptyString => [None]
      | String a1 s2 =>
        let b1 := byte_val a1 in
        if cont_byte b1 then Some ((b0 - 192) * 64 + (b1 - 128)) :: utf8_decode s2
        else None :: utf8_decode s1
      end
    else if (224 <=? b0) && (b0 <? 240) then
      match s1 with
      | EmptyString => [None]
      | String a1 s2 =>
        let b1 := byte_val a1 in
        if second_ok b0 b1 then
          match s2 with
          | EmptyString => [None]
          | String a2 s3 =>
            let b2 := byte_val a2 in
            if cont_byte b2
            then Some ((b0 - 224) * 4096 + (b1 - 128) * 64 + (b2 - 128)) :: utf8_decode s3
            else None :: utf8_decode s2
          end
        else None :: utf8_decode s1
      end
    else if (240 <=? b0) && (b0 <? 245) then
      match s1 with
      | EmptyString => [None]
      | String a1 s2 =>
        let b1 := byte_val a1 in
        if second_ok b0 b1 then
          match s2 with
          | EmptyString => [None]
          | String a2 s3 =>
            let b2 := byte_val a2 in
            if cont_byte b2 then
              match s3 with
              | EmptyString => [None]
              | String a3 s4 =>
                let b3 := byte_val a3 in
                if cont_byte b3
                then Some ((b0 - 240) * 262144 + (b1 - 128) * 4096 + (b2 - 128) * 64
                           + (b3 - 128)) :: utf8_decode s4
                else None :: utf8_decode s3
              end
            else None :: utf8_decode s2
          end
        else None :: utf8_decode s1
      end
    else None :: utf8_decode s1
  end.

Definition valid_utf8 (s : string) : bool := forallb (fun o => bool_decide (is_Some o)) (utf8_decode s).

(** The characters of a string (all of them for a valid one). *)
Definition chars (s : string) : list Z := map (default 65533) (utf8_decode s).

(** [std::str::from_utf8(b).ok()] *)
Definition from_utf8 (s : string) : option string := if valid_utf8 s then Some s else None.
(** [String::from_utf8_lossy(b).into_owned()] *)
Definition from_utf8_lossy (s : string) : string := of_chars (chars s).

Definition is_ascii (s : string) : bool := forallb (fun a => byte_val a <? 128) (str_bytes s).

Lemma utf8_encode_ascii c : c < 128 -> utf8_encode c = bstr c.
Proof. intros H. unfold utf8_encode. destruct (Z.ltb_spec c 128); [done|lia]. Qed.

Lemma utf8_decode_ascii s :
  is_ascii s = true -> utf8_decode s = map (fun a => Some (byte_val a)) (str_bytes s).
Proof.
  unfold is_ascii. induction s as [|a s IH]; [done|]. cbn [str_bytes forallb].
  intros H. reflect_bools. cbn [utf8_decode map]. rewrite H. by rewrite IH.
Qed.

Lemma chars_ascii s : is_ascii s = true -> chars s = map byte_val (str_bytes s).
Proof. intros H. unfold chars. rewrite utf8_decode_ascii by done. by rewrite List.map_map. Qed.

Lemma of_chars_bytes l :
  Forall (fun a => byte_val a < 128) l -> of_chars (map byte_val l) = str_of l.
Proof.
  induction 1 as [|a l Ha _ IH]; [done|]. cbn [map of_chars str_of].
  rewrite utf8_encode_ascii, IH by done. unfold bstr. by rewrite byte_of_val.
Qed.

Lemma is_ascii_Forall s :
  is_ascii s = true <-> Forall (fun a => byte_val a < 128) (str_bytes s).
Proof.
  unfold is_ascii. rewrite List.forallb_forall, List.Forall_forall.
  split; intros H a Ha; specialize (H a Ha); lia.
Qed.

Lemma lossy_ascii s : is_ascii s = true -> from_utf8_lossy s = s.
Proof.
  intros H. unfold from_utf8_lossy. rewrite chars_ascii by done.
  rewrite of_chars_bytes by (by apply is_ascii_Forall). apply str_of_bytes.
Qed.

(** Decide the tests of a decoder on bytes whose values are known. *)
Ltac zdiv_lia := Z.div_mod_to_equations; lia.

Ltac decide_tests :=
  repeat (match goal with
  | |- context [(?a <? ?b)] =>
      first [ replace (a <? b) with true by (symmetry; apply Z.ltb_lt; zdiv_lia)
            | replace (a <? b) with false by (symmetry; apply Z.ltb_ge; zdiv_lia) ]
  | |- context [(?a <=? ?b)] =>
      first [ replace (a <=? b) with true by (symmetry; apply Z.leb_le; zdiv_lia)
            | replace (a <=? b) with false by (symmetry; apply Z.leb_gt; zdiv_lia) ]
  end; cbn [andb]).

Lemma cont_byte_low c : cont_byte (128 + c mod 64) = true.
Proof. unfold cont_byte. pose proof (Z.mod_pos_bound c 64). decide_tests. done. Qed.

Lemma is_scalar_range c :
  is_scalar c = true <-> (0 <= c < 55296 \/ 57344 <= c <= 1114111).
Proof. unfold is_scalar. lia. Qed.

Lemma utf8_decode_cons a s :
  byte_val a < 128 -> utf8_decode (String a s) = Some (byte_val a) :: utf8_decode s.
Proof. intros H. cbn [utf8_decode]. decide_tests. done. Qed.

Lemma second_ok_3 c : 2048 <= c < 65536 -> is_scalar c = true ->
  second_ok (224 + c / 4096) (128 + (c / 64) mod 64) = true.
Proof.
  intros Hc Hs%is_scalar_range. unfold second_ok, cont_byte.
  repeat split_if; zdiv_lia.
Qed.

Lemma second_ok_4 c : 65536 <= c < 1114112 ->
  second_ok (240 + c / 262144) (128 + (c / 4096) mod 64) = true.
Proof.
  intros Hc. unfold second_ok, cont_byte. repeat split_if; zdiv_lia.
Qed.

(** Decoding inverts encoding, character by character. *)
Lemma utf8_decode_encode c s :
  is_scalar c = true -> utf8_decode (utf8_encode c +:+ s) = Some c :: utf8_decode s.
Proof.
  intros Hs. pose proof (proj1 (is_scalar_range c) Hs) as Hr. unfold utf8_encode, bstr.
  destruct (Z.ltb_spec c 128); [|destruct (Z.ltb_spec c 2048); [|destruct (Z.ltb_spec c 65536)]];
    rewrite ?app_cons_str, app_nil_l_str; cbn [utf8_decode];
    rewrite !byte_val_of by zdiv_lia.
  - decide_tests. done.
  - decide_tests. rewrite cont_byte_low. do 2 f_equal. zdiv_lia.
  - decide_tests. rewrite second_ok_3 by (done || lia). rewrite cont_byte_low.
    do 2 f_equal. zdiv_lia.
  - decide_tests. rewrite second_ok_4 by lia. rewrite !cont_byte_low. do 2 f_equal. zdiv_lia.
Qed.

Lemma utf8_decode_of_chars l :
  forallb is_scalar l = true -> utf8_decode (of_chars l) = map Some l.
Proof.
  induction l as [|c l IH]; [done|]. cbn [forallb of_chars map]. intros H. reflect_bools.
  rewrite utf8_decode_encode by done. by rewrite IH.
Qed.

Lemma chars_of_chars l : forallb is_scalar l = true -> chars (of_chars l) = l.
Proof.
  intros H. unfold chars. rewrite utf8_decode_of_chars by done.
  rewrite List.map_map. apply List.map_id.
Qed.

Lemma of_chars_app l1 l2 : of_chars (l1 ++ l2) = of_chars l1 +:+ of_chars l2.
Proof. induction l1 as [|c l1 IH]; [done|]. simpl. rewrite IH. by autorewrite with waf_str. Qed.

(** [utf8_encode] of a code point whose bytes are known. *)
Lemma encode_2 a0 a1 s :
  let b0 := byte_val a0 in let b1 := byte_val a1 in
  194 <= b0 < 224 -> cont_byte b1 = true ->
  let c := (b0 - 192) * 64 + (b1 - 128) in
  is_scalar c = true /\ utf8_encode c +:+ s = String a0 (String a1 s).
Proof.
  intros b0 b1 H0 H1 c. unfold cont_byte in H1. split; [apply is_scalar_range; lia|].
  unfold utf8_encode. decide_tests. rewrite !app_cons_str, app_nil_l_str.
  replace (192 + c / 64) with b0 by (subst c; zdiv_lia).
  replace (128 + c mod 64) with b1 by (subst c; zdiv_lia).
  unfold b0, b1. by rewrite !byte_of_val.
Qed.

Lemma encode_3 a0 a1 a2 s :
  let b0 := byte_val a0 in let b1 := byte_val a1 in let b2 := byte_val a2 in
  224 <= b0 < 240 -> second_ok b0 b1 = true -> cont_byte b2 = true ->
  let c := (b0 - 224) * 4096 + (b1 - 128) * 64 + (b2 - 128) in
  is_scalar c = true /\ utf8_encode c +:+ s = String a0 (String a1 (String a2 s)).
Proof.
  intros b0 b1 b2 H0 H1 H2 c. unfold second_ok, cont_byte in *.
  assert (2048 <= c < 65536 /\ is_scalar c = true /\ 128 <= b1 < 192) as (Hc & Hs & Hb).
  { rewrite is_scalar_range. repeat split_if; lia. }
  split; [done|].
  unfold utf8_encode. decide_tests. rewrite !app_cons_str, app_nil_l_str.
  replace (224 + c / 4096) with b0 by (subst c; zdiv_lia).
  replace (128 + (c / 64) mod 64) with b1 by (subst c; zdiv_lia).
  replace (128 + c mod 64) with b2 by (subst c; zdiv_lia).
  unfold b0, b1, b2. by rewrite !byte_of_val.
Qed.

Lemma encode_4 a0 a1 a2 a3 s :
  let b0 := byte_val a0 in let b1 := byte_val a1 in
  let b2 := byte_val a2 in let b3 := byte_val a3 in
  240 <= b0 < 245 -> second_ok b0 b1 = true -> cont_byte b2 = true -> cont_byte b3 = true ->
  let c := (b0 - 240) * 262144 + (b1 - 128) * 4096 + (b2 - 128) * 64 + (b3 - 128) in
  is_scalar c = true /\ utf8_encode c +:+ s = String a0 (String a1 (String a2 (String a3 s))).
Proof.
  intros b0 b1 b2 b3 H0 H1 H2 H3 c. unfold second_ok, cont_byte in *.
  assert (65536 <= c < 1114112 /\ is_scalar c = true /\ 128 <= b1 < 192) as (Hc & Hs & Hb).
  { rewrite is_scalar_range. repeat split_if; lia. }
  split; [done|].
  unfold utf8_encode. decide_tests. rewrite !app_cons_str, app_nil_l_str.
  replace (240 + c / 262144) with b0 by (subst c; zdiv_lia).
  replace (128 + (c / 4096) mod 64) with b1 by (subst c; zdiv_lia).
  replace (128 + (c / 64) mod 64) with b2 by (subst c; zdiv_lia).
  replace (128 + c mod 64) with b3 by (subst c; zdiv_lia).
  unfold b0, b1, b2, b3. by rewrite !byte_of_val.
Qed.

(** A non-empty valid string starts with the encoding of a character. *)
Lemma valid_utf8_head s :
  valid_utf8 s = true ->
  s = "" \/ exists c s', is_scalar c = true /\ s = utf8_encode c +:+ s' /\
                     utf8_decode s = Some c :: utf8_decode s'.
Proof.
  destruct s as [|a0 s1]; [by left|]. intros Hv. right. revert Hv.
  unfold valid_utf8. cbn [utf8_decode].
  destruct (Z.ltb_spec (byte_val a0) 128) as [Hb|Hb].
  { intros _. exists (byte_val a0), s1. pose proof (byte_val_range a0).
    split; [apply is_scalar_range; lia|]. rewrite utf8_encode_ascii by done.
    unfold bstr. by rewrite byte_of_val. }
  destruct (_ && _) eqn:E2.
  { destruct s1 as [|a1 s2]; [done|]. destruct (cont_byte _) eqn:Hc1; [|done]. intros _.
    destruct (encode_2 a0 a1 s2) as [Hs He]; [lia|done|]. do 2 eexists; repeat split; eauto. }
  destruct (_ && _) eqn:E3 in |- *.
  { destruct s1 as [|a1 s2]; [done|]. destruct (second_ok _ _) eqn:Hc1; [|done].
    destruct s2 as [|a2 s3]; [done|]. destruct (cont_byte _) eqn:Hc2; [|done]. intros _.
    destruct (encode_3 a0 a1 a2 s3) as [Hs He]; [lia|done..|]. do 2 eexists; repeat split; eauto. }
  destruct (_ && _) eqn:E4 in |- *; [|done].
  destruct s1 as [|a1 s2]; [done|]. destruct (second_ok _ _) eqn:Hc1; [|done].
  destruct s2 as [|a2 s3]; [done|]. destruct (cont_byte (byte_val a2)) eqn:Hc2; [|done].
  destruct s3 as [|a3 s4]; [done|]. destruct (cont_byte (byte_val a3)) eqn:Hc3; [|done]. intros _.
  destruct (encode_4 a0 a1 a2 a3 s4) as [Hs He]; [lia|done..|]. do 2 eexists; repeat split; eauto.
Qed.

Lemma utf8_encode_nonempty c : (1 <= str_len (utf8_encode c))%nat.
Proof. unfold utf8_encode, bstr. repeat split_if; simpl; lia. Qed.

(** Induction on the characters of a valid string. *)
Lemma valid_utf8_ind (P : string -> Prop) :
  P "" ->
  (forall c s, is_scalar c = true -> valid_utf8 s = true -> P s -> P (utf8_encode c +:+ s)) ->
  forall s, valid_utf8 s = true -> P s.
Proof.
  intros Hnil Hcons s. remember (str_len s) as n eqn:Hn. revert s Hn.
  induction (lt_wf n) as [n _ IH]. intros s -> Hv.
  destruct (valid_utf8_head s Hv) as [->|(c & s' & Hc & -> & Hd)]; [done|].
  assert (Hv' : valid_utf8 s' = true).
  { unfold valid_utf8 in *. rewrite Hd in Hv. cbn [forallb] in Hv. by reflect_bools. }
  apply Hcons; [done..|]. eapply IH; [|done|done].
  rewrite str_len_app. pose proof (utf8_encode_nonempty c). lia.
Qed.

(** [chars] and [of_chars] are inverse on valid strings. *)
Lemma of_chars_chars s : valid_utf8 s = true -> of_chars (chars s) = s.
Proof.
  revert s. apply (valid_utf8_ind (fun s => of_chars (chars s) = s)); [reflexivity|].
  intros c s' Hc _ IH. unfold chars.
  rewrite utf8_decode_encode by done. cbn [map of_chars default]. by f_equal.
Qed.

Lemma lossy_valid s : valid_utf8 s = true -> from_utf8_lossy s = s.
Proof. apply of_chars_chars. Qed.

Lemma chars_scalar s : forallb is_scalar (chars s) = true.
Proof.
  remember (str_len s) as n eqn:Hn. revert s Hn.
  induction (lt_wf n) as [n _ IH]. intros s ->. unfold chars.
  assert (Hbad : forall t, (str_len t < str_len s)%nat ->
            forallb is_scalar (map (default 65533) (None :: utf8_decode t)) = true).
  { intros t Ht. simpl. eapply (IH (str_len t)); [lia|done]. }
  assert (Hok : forall c t, is_scalar c = true -> (str_len t < str_len s)%nat ->
            forallb is_scalar (map (default 65533) (Some c :: utf8_decode t)) = true).
  { intros c t Hc Ht. simpl. rewrite Hc. eapply (IH (str_len t)); [lia|done]. }
  destruct s as [|a0 s1]; [reflexivity|]. cbn [utf8_decode].
  destruct (Z.ltb_spec (byte_val a0) 128).
  { apply Hok; [apply is_scalar_range; pose proof (byte_val_range a0); lia|simpl; lia]. }
  destruct (_ && _) eqn:E2.
  { destruct s1 as [|a1 s2]; [reflexivity|]. destruct (cont_byte _) eqn:Hc1; [|apply Hbad; simpl; lia].
    apply Hok; [|simpl; lia]. apply (encode_2 a0 a1 s2); [lia|done]. }
  destruct (_ && _) eqn:E3 in |- *.
  { destruct s1 as [|a1 s2]; [reflexivity|]. destruct (second_ok _ _) eqn:Hc1; [|apply Hbad; simpl; lia].
    destruct s2 as [|a2 s3]; [reflexivity|]. destruct (cont_byte _) eqn:Hc2; [|apply Hbad; simpl; lia].
    apply Hok; [|simpl; lia]. apply (encode_3 a0 a1 a2 s3); [lia|done..]. }
  destruct (_ && _) eqn:E4 in |- *; [|apply Hbad; simpl; lia].
  destruct s1 as [|a1 s2]; [reflexivity|]. destruct (second_ok _ _) eqn:Hc1; [|apply Hbad; simpl; lia].
  destruct s2 as [|a2 s3]; [reflexivity|]. destruct (cont_byte (byte_val a2)) eqn:Hc2; [|apply Hbad; simpl; lia].
  destruct s3 as [|a3 s4]; [reflexivity|]. destruct (cont_byte (byte_val a3)) eqn:Hc3; [|apply Hbad; simpl; lia].
  apply Hok; [|simpl; lia]. apply (encode_4 a0 a1 a2 a3 s4); [lia|done..].
Qed.

Lemma of_chars_valid l : forallb is_scalar l = true -> valid_utf8 (of_chars l) = true.
Proof.
  intros H. unfold valid_utf8. rewrite utf8_decode_of_chars by done.
  induction l as [|c l IH]; [done|]. simpl in *. reflect_bools. by apply IH.
Qed.

(** The result of a lossy conversion is always a valid string. *)
Lemma from_utf8_lossy_valid s : valid_utf8 (from_utf8_lossy s) = true.
Proof. apply of_chars_valid, chars_scalar. Qed.
