(* ===== verification/RustStd.v ===== *)
(** The string, character, integer and hashing operations of the Rust standard
    library that the program calls.  The Unicode tables the standard library
    carries for non-ASCII text and the iteration order of a [HashMap] are
    parameters, given as type classes. *)
From S2P Require Import Prelude Utf8.
Local Open Scope Z_scope.

(** * Character classes *)

Definition is_ascii_digit (a : ascii) : bool := (48 <=? byte_val a) && (byte_val a <=? 57).
Definition is_ascii_uppercase (a : ascii) : bool := (65 <=? byte_val a) && (byte_val a <=? 90).
Definition is_ascii_lowercase (a : ascii) : bool := (97 <=? byte_val a) && (byte_val a <=? 122).

Definition to_ascii_lowercase (a : ascii) : ascii :=
  if is_ascii_uppercase a then byte_of (byte_val a + 32) else a.
Definition to_ascii_uppercase (a : ascii) : ascii :=
  if is_ascii_lowercase a then byte_of (byte_val a - 32) else a.

Fixpoint str_map (f : ascii -> ascii) (s : string) : string :=
  match s with EmptyString => "" | String a s => String (f a) (str_map f s) end.

(** [str::eq_ignore_ascii_case] *)
Definition eq_ignore_ascii_case (s t : string) : bool :=
  bool_decide (str_map to_ascii_lowercase s = str_map to_ascii_lowercase t).

(** [char::is_whitespace]: the Unicode [White_Space] property. *)
Definition is_whitespace (c : Z) : bool :=
  ((9 <=? c) && (c <=? 13)) || (c =? 32) || (c =? 133) || (c =? 160) || (c =? 5760)
  || ((8192 <=? c) && (c <=? 8202)) || (c =? 8232) || (c =? 8233) || (c =? 8239)
  || (c =? 8287) || (c =? 12288).

(** Case mapping and printability of non-ASCII text, from the Unicode tables. *)
Class UnicodeTables := {
  uni_lowercase : string -> string;
  uni_uppercase : string -> string;
  uni_printable : Z -> bool
}.

(** [str::to_lowercase]: ASCII text is mapped byte by byte. *)
Definition to_lowercase `{UnicodeTables} (s : string) : string :=
  if is_ascii s then str_map to_ascii_lowercase s else uni_lowercase s.
Definition to_uppercase `{UnicodeTables} (s : string) : string :=
  if is_ascii s then str_map to_ascii_uppercase s else uni_uppercase s.

(** Iteration over a [HashMap] visits every entry once, in an unspecified order. *)
Class HashOrder := {
  hash_iter : forall {K : Type} `{Countable K} {V : Type}, gmap K V -> list (K * V);
  hash_iter_perm : forall {K : Type} `{Countable K} {V : Type} (m : gmap K V),
    hash_iter m ≡ₚ map_to_list m
}.

(** * Searching and slicing *)

Definition is_empty (s : string) : bool := match s with EmptyString => true | _ => false end.

Fixpoint strip_prefix (p s : string) : option string :=
  match p, s with
  | EmptyString, _ => Some s
  | String a p, String b s => if Ascii.eqb a b then strip_prefix p s else None
  | String _ _, EmptyString => None
  end.

Definition starts_with (s p : string) : bool := bool_decide (is_Some (strip_prefix p s)).

(** [s.strip_suffix(t)] *)
Fixpoint strip_suffix (t s : string) : option string :=
  if String.eqb s t then Some "" else
  match s with
  | EmptyString => None
  | String a s => String a <$> strip_suffix t s
  end.

Definition ends_with (s t : string) : bool := bool_decide (is_Some (strip_suffix t s)).

(** [s.find(t)] for a string [t]: the byte offset, with the text before and after. *)
Fixpoint find_str (t s : string) : option (string * string) :=
  match strip_prefix t s with
  | Some rest => Some ("", rest)
  | None =>
    match s with
    | EmptyString => None
    | String a s => '(pre, post) ← find_str t s; Some (String a pre, post)
    end
  end.

Definition contains (s t : string) : bool := bool_decide (is_Some (find_str t s)).

(** [s.split_once(c)] *)
Fixpoint split_once (c : ascii) (s : string) : option (string * string) :=
  match s with
  | EmptyString => None
  | String a s =>
    if Ascii.eqb a c then Some ("", s)
    else '(pre, post) ← split_once c s; Some (String a pre, post)
  end.

(** [s.split(c)]: always at least one piece. *)
Fixpoint split_char (c : ascii) (s : string) : list string :=
  match s with
  | EmptyString => [""]
  | String a s =>
    if Ascii.eqb a c then "" :: split_char c s
    else match split_char c s with
         | [] => [String a ""]
         | x :: l => String a x :: l
         end
  end.

(** The text before and after the last [c]: [s.rfind(c)]. *)
Fixpoint rsplit_once (c : ascii) (s : string) : option (string * string) :=
  match s with
  | EmptyString => None
  | String a s =>
    match rsplit_once c s with
    | Some (pre, post) => Some (String a pre, post)
    | None => if Ascii.eqb a c then Some ("", s) else None
    end
  end.

(** [s.replace(from, to)] for a non-empty [from]: matches are taken from the
    left and do not overlap; [skip] counts the bytes of a match still to drop. *)
Fixpoint replace_go (from to : string) (skip : nat) (s : string) : string :=
  match s with
  | EmptyString => ""
  | String a s' =>
    match skip with
    | S k => replace_go from to k s'
    | O =>
      if starts_with s from
      then to +:+ replace_go from to (Nat.pred (str_len from)) s'
      else String a (replace_go from to 0 s')
    end
  end.
Definition str_replace (s from to : string) : string := replace_go from to 0 s.

(** [trim], [trim_start], [trim_end] *)
Fixpoint drop_while {A} (p : A -> bool) (l : list A) : list A :=
  match l with [] => [] | x :: l' => if p x then drop_while p l' else l end.
Definition trim_start (s : string) : string := of_chars (drop_while is_whitespace (chars s)).
Definition trim_end (s : string) : string :=
  of_chars (rev (drop_while is_whitespace (rev (chars s)))).
Definition trim (s : string) : string := trim_end (trim_start s).

(** [trim_matches(c)] for an ASCII character *)
Definition trim_matches (c : ascii) (s : string) : string :=
  let p := fun a => Ascii.eqb a c in
  str_of (rev (drop_while p (rev (drop_while p (str_bytes s))))).

(** [split_whitespace] *)
Fixpoint split_ws_go (cur : list Z) (l : list Z) : list string :=
  let flush := match cur with [] => [] | _ => [of_chars (rev cur)] end in
  match l with
  | [] => flush
  | c :: l => if is_whitespace c then flush ++ split_ws_go [] l else split_ws_go (c :: cur) l
  end.
Definition split_whitespace (s : string) : list string := split_ws_go [] (chars s).

(** The text before and after the first character satisfying [p]; the
    character stays at the head of the second part: [s.find(p)]. *)
Fixpoint find_char_go (p : Z -> bool) (pre : list Z) (l : list Z) : option (string * string) :=
  match l with
  | [] => None
  | c :: l' => if p c then Some (of_chars (rev pre), of_chars l) else find_char_go p (c :: pre) l'
  end.
Definition find_char (p : Z -> bool) (s : string) : option (string * string) :=
  find_char_go p [] (chars s).

(** [s.lines()]: a line loses its newline and a carriage return before it; what is
    left after the last newline, if anything, is a line as it stands. *)
Definition chop_cr (s : string) : string := default s (strip_suffix (bstr 13) s).
Definition lines (s : string) : list string :=
  match rev (split_char (byte_of 10) s) with
  | [] => []
  | last :: l => map chop_cr (rev l) ++ (if is_empty last then [] else [last])
  end.

(** * Integers *)

Definition digit_val (a : ascii) : option Z :=
  if is_ascii_digit a then Some (byte_val a - 48) else None.

(** Decimal digits after the sign; [None] on an empty or ill-formed text. *)
Fixpoint parse_digits (acc : Z) (s : string) : option Z :=
  match s with
  | EmptyString => Some acc
  | String a s => d ← digit_val a; parse_digits (10 * acc + d) s
  end.
Definition parse_nat_text (s : string) : option Z :=
  if is_empty s then None else parse_digits 0 s.

(** [s.parse::<iN>().ok()] *)
Definition parse_signed (w : Z) (s : string) : option Z :=
  z ← match s with
      | String a r =>
        if Ascii.eqb a "-" then Z.opp <$> parse_nat_text r
        else if Ascii.eqb a "+" then parse_nat_text r
        else parse_nat_text s
      | EmptyString => None
      end;
  if (- 2 ^ (w - 1) <=? z) && (z <? 2 ^ (w - 1)) then Some z else None.

(** [s.parse::<uN>().ok()] *)
Definition parse_unsigned (w : Z) (s : string) : option Z :=
  z ← match s with
      | String a r => if Ascii.eqb a "+" then parse_nat_text r else parse_nat_text s
      | EmptyString => None
      end;
  if z <? 2 ^ w then Some z else None.

(** [n.to_string()] for an integer *)
Fixpoint nat_digits (fuel : nat) (n : Z) (acc : string) : string :=
  match fuel with
  | O => acc
  | S f =>
    let acc := String (byte_of (48 + n mod 10)) acc in
    if n <? 10 then acc else nat_digits f (n / 10) acc
  end.
Definition print_nat (n : Z) : string := nat_digits (S (Z.to_nat (Z.log2_up (n + 1)))) n "".
Definition print_int (n : Z) : string :=
  if n <? 0 then String "-" (print_nat (- n)) else print_nat n.

(** [b.to_string()] for a [bool] *)
Definition print_bool (b : bool) : string := if b then "true" else "false".

(** * Debug formatting of a string ([{:?}]) *)

Definition hex_digit (lower_base : Z) (d : Z) : ascii :=
  if d <? 10 then byte_of (48 + d) else byte_of (lower_base + d - 10).
Fixpoint hex_go (fuel : nat) (n : Z) (acc : string) : string :=
  match fuel with
  | O => acc
  | S f =>
    let acc := String (hex_digit 97 (n mod 16)) acc in
    if n <? 16 then acc else hex_go f (n / 16) acc
  end.
Definition print_hex (n : Z) : string := hex_go 8 n "".

Definition dquote : ascii := byte_of 34.
Definition backslash : ascii := byte_of 92.

Definition debug_char `{UnicodeTables} (c : Z) : string :=
  if c =? 0 then String backslash "0"
  else if c =? 9 then String backslash "t"
  else if c =? 10 then String backslash "n"
  else if c =? 13 then String backslash "r"
  else if c =? 34 then String backslash (String dquote "")
  else if c =? 92 then String backslash (String backslash "")
  else if (if c <? 128 then (32 <=? c) && (c <? 127) else uni_printable c) then utf8_encode c
  else String backslash "u{" +:+ print_hex c +:+ "}".

Fixpoint debug_chars `{UnicodeTables} (l : list Z) : string :=
  match l with [] => "" | c :: l => debug_char c +:+ debug_chars l end.

Definition debug_str `{UnicodeTables} (s : string) : string :=
  String dquote (debug_chars (chars s) +:+ String dquote "").

(** * Paths and files ([std::path], [std::fs]) *)

(** [Path::extension] of a file name: what follows the last dot, if something
    precedes it. *)
Definition extension (name : string) : option string :=
  match rsplit_once "." name with
  | Some (pre, ext) => if is_empty pre then None else Some ext
  | None => None
  end.

(** [path.extension().and_then(|e| e.to_str())] *)
Definition path_extension (path : string) : option string :=
  extension (match rsplit_once "/" path with Some (_, name) => name | None => path end).

(** The file system at the time of a call.  An entry of a directory can fail. *)
Record FileSystem := mkFs {
  fs_exists : string -> bool;
  fs_is_file : string -> bool;
  fs_read_dir : string -> option (list (option string));
  fs_read : string -> option string
}.

(** * Lemmas on searches *)

Lemma split_once_Some c s pre post : split_once c s = Some (pre, post) -> s = pre +:+ String c post.
Proof.
  revert pre. induction s as [|a s IH]; intros pre; [done|]. cbn [split_once].
  destruct (Ascii.eqb_spec a c) as [->|]; [by intros [= <- <-]|].
  destruct (split_once c s) as [[p q]|]; [|done]. cbn. intros [= <- <-]. by rewrite (IH p).
Qed.
Lemma split_once_app c pre post :
  ~ In c (str_bytes pre) -> split_once c (pre +:+ String c post) = Some (pre, post).
Proof.
  induction pre as [|a pre IH]; cbn [str_bytes]; intros Hn.
  - rewrite app_nil_l_str. cbn [split_once]. by rewrite Ascii.eqb_refl.
  - rewrite app_cons_str. cbn [split_once]. destruct (Ascii.eqb_spec a c) as [->|];
      [exfalso; apply Hn; by left|]. rewrite IH; [done|]. intros ?; apply Hn; by right.
Qed.

Lemma strip_prefix_Some p s r : strip_prefix p s = Some r <-> s = p +:+ r.
Proof.
  revert s. induction p as [|a p IH]; intros s; cbn [strip_prefix].
  - rewrite app_nil_l_str. split; congruence.
  - destruct s as [|b s]; [done|]. rewrite app_cons_str.
    destruct (Ascii.eqb_spec a b) as [->|Hne]; [rewrite IH; split; congruence|].
    split; [done|congruence].
Qed.

Lemma strip_prefix_app p s : strip_prefix p (p +:+ s) = Some s.
Proof. by apply strip_prefix_Some. Qed.

Lemma strip_suffix_app t s : strip_suffix t (s +:+ t) = Some s.
Proof.
  induction s as [|a s IH].
  - rewrite app_nil_l_str. destruct t; cbn [strip_suffix]; by rewrite String.eqb_refl.
  - rewrite app_cons_str. cbn [strip_suffix]. rewrite IH.
    destruct (String.eqb_spec (String a (s +:+ t)) t) as [Heq|]; [|done].
    assert (str_len (String a (s +:+ t)) = str_len t) as Hl by congruence.
    cbn in Hl. rewrite str_len_app in Hl. lia.
Qed.

Lemma strip_suffix_Some t s r : strip_suffix t s = Some r <-> s = r +:+ t.
Proof.
  split; [|intros ->; apply strip_suffix_app]. revert r.
  induction s as [|a s IH]; intros r; cbn [strip_suffix].
  - destruct (String.eqb_spec "" t) as [<-|]; [|done]. by intros [= <-].
  - destruct (String.eqb_spec (String a s) t) as [<-|]; [by intros [= <-]|].
    destruct (strip_suffix t s) as [r'|]; [|done]. cbn. intros [= <-]. rewrite app_cons_str. by rewrite (IH r').
Qed.

Lemma starts_with_spec s p : starts_with s p = true <-> exists r, s = p +:+ r.
Proof.
  unfold starts_with, is_Some. rewrite bool_decide_eq_true. split; intros [r Hr]; exists r;
    by apply strip_prefix_Some.
Qed.

(** * Integer texts *)

Lemma digit_byte d : 0 <= d < 10 ->
  is_ascii_digit (byte_of (48 + d)) = true /\ digit_val (byte_of (48 + d)) = Some d.
Proof.
  intros Hd. unfold digit_val, is_ascii_digit. rewrite byte_val_of by lia. decide_tests.
  split; [done|]. f_equal. lia.
Qed.

Lemma nat_digits_parse fuel n acc :
  0 <= n < 10 ^ Z.of_nat fuel -> (0 < fuel)%nat ->
  parse_digits 0 (nat_digits fuel n acc) = parse_digits n acc.
Proof.
  revert n acc. induction fuel as [|f IH]; intros n acc Hn Hf; [lia|]. cbn [nat_digits].
  assert (Hm : 0 <= n mod 10 < 10) by (apply Z.mod_pos_bound; lia).
  destruct (Z.ltb_spec n 10).
  - cbn [parse_digits]. rewrite (proj2 (digit_byte _ Hm)). cbn.
    rewrite Z.mod_small by lia. done.
  - rewrite Nat2Z.inj_succ, Z.pow_succ_r in Hn by lia.
    destruct f as [|f]; [simpl in Hn; lia|].
    rewrite IH; [|split; [apply Z.div_pos; lia|apply Z.div_lt_upper_bound; lia]|lia].
    cbn [parse_digits]. rewrite (proj2 (digit_byte _ Hm)). cbn. f_equal. zdiv_lia.
Qed.

Lemma nat_digits_digits fuel n acc :
  0 <= n -> Forall (fun a => is_ascii_digit a = true) (str_bytes acc) ->
  Forall (fun a => is_ascii_digit a = true) (str_bytes (nat_digits fuel n acc)).
Proof.
  revert n acc. induction fuel as [|f IH]; intros n acc Hn Ha; [done|]. cbn [nat_digits].
  assert (Hc : Forall (fun a => is_ascii_digit a = true)
                 (str_bytes (String (byte_of (48 + n mod 10)) acc))).
  { cbn. constructor; [|done]. apply digit_byte, Z.mod_pos_bound. lia. }
  split_if; [done|]. apply IH; [apply Z.div_pos; lia|done].
Qed.

Lemma nat_digits_nonempty fuel n acc :
  is_empty acc = false \/ (0 < fuel)%nat -> is_empty (nat_digits fuel n acc) = false.
Proof.
  revert n acc. induction fuel as [|f IH]; intros n acc [H|H]; [done|lia|..];
    cbn [nat_digits]; split_if; try done; apply IH; by left.
Qed.

Lemma print_nat_digits n : 0 <= n ->
  Forall (fun a => is_ascii_digit a = true) (str_bytes (print_nat n)).
Proof. intros. apply nat_digits_digits; [done|constructor]. Qed.

Lemma print_nat_nonempty n : is_empty (print_nat n) = false.
Proof. apply nat_digits_nonempty. right. lia. Qed.

Lemma parse_print_nat n : 0 <= n -> parse_nat_text (print_nat n) = Some n.
Proof.
  intros Hn. unfold parse_nat_text. rewrite print_nat_nonempty. unfold print_nat.
  rewrite nat_digits_parse; [done| |lia]. split; [done|].
  rewrite Nat2Z.inj_succ, Z2Nat.id by apply Z.log2_up_nonneg.
  assert (n + 1 <= 2 ^ Z.log2_up (n + 1)).
  { destruct (Z.eq_dec n 0) as [->|]; [done|]. apply Z.log2_up_spec. lia. }
  pose proof (Z.log2_up_nonneg (n + 1)).
  assert (2 ^ Z.log2_up (n + 1) <= 10 ^ Z.log2_up (n + 1)) by (apply Z.pow_le_mono_l; lia).
  rewrite Z.pow_succ_r by done. lia.
Qed.

(** The first byte of a printed natural number is a digit. *)
Lemma print_nat_head n : 0 <= n ->
  exists a r, print_nat n = String a r /\ is_ascii_digit a = true.
Proof.
  intros Hn. pose proof (print_nat_digits n Hn) as Hd. pose proof (print_nat_nonempty n).
  destruct (print_nat n) as [|a r]; [done|]. inversion Hd; eauto.
Qed.

Lemma digit_not_sign a : is_ascii_digit a = true -> Ascii.eqb a "-" = false /\ Ascii.eqb a "+" = false.
Proof.
  unfold is_ascii_digit. intros H. split; apply Ascii.eqb_neq; intros ->; vm_compute in H; done.
Qed.

(** Reading a printed [i64] gives it back. *)
Lemma parse_print_int w n : in_s w n -> parse_signed w (print_int n) = Some n.
Proof.
  intros Hr. unfold parse_signed, print_int. destruct (Z.ltb_spec n 0).
  - change (Ascii.eqb "-" "-") with true. cbn -[parse_nat_text print_nat Z.pow].
    rewrite parse_print_nat by lia. cbn -[Z.pow]. rewrite Z.opp_involutive.
    destruct (_ && _) eqn:E; [done|]. unfold in_s in Hr. lia.
  - destruct (print_nat_head n) as (a & r & Hp & Hd); [lia|].
    rewrite <-(parse_print_nat n) by lia. rewrite Hp.
    destruct (digit_not_sign a Hd) as [-> ->]. rewrite <-Hp, parse_print_nat by lia. cbn -[Z.pow].
    destruct (_ && _) eqn:E; [done|]. unfold in_s in Hr. lia.
Qed.

Lemma print_int_inj n m : print_int n = print_int m -> n = m.
Proof.
  unfold print_int. intros H.
  assert (Hne : forall a b, 0 <= a -> print_nat a <> String "-" b).
  { intros a b Ha Heq. destruct (print_nat_head a Ha) as (c & r & Hp & Hd).
    destruct (digit_not_sign c Hd) as [Hs _]. rewrite Hp in Heq. by injection Heq as -> _. }
  assert (Hinj : forall a b, 0 <= a -> 0 <= b -> print_nat a = print_nat b -> a = b).
  { intros a b Ha Hb Heq. pose proof (parse_print_nat a Ha) as Hpa.
    rewrite Heq, parse_print_nat in Hpa by done. congruence. }
  destruct (Z.ltb_spec n 0), (Z.ltb_spec m 0).
  - injection H as H. apply Hinj in H; lia.
  - symmetry in H. by apply Hne in H; [|lia].
  - by apply Hne in H; [|lia].
  - by apply Hinj.
Qed.

(** * Texts read in one way only *)

(** [s] is empty or starts with a byte outside [p]. *)
Definition stops (p : ascii -> bool) (s : string) : Prop :=
  match s with EmptyString => True | String a _ => p a = false end.
Definition all_in (p : ascii -> bool) (s : string) : Prop := Forall (fun a => p a = true) (str_bytes s).

Lemma span_inj (p : ascii -> bool) x y u v :
  all_in p x -> all_in p y -> stops p u -> stops p v ->
  x +:+ u = y +:+ v -> x = y /\ u = v.
Proof.
  unfold all_in. intros Hx. revert y. induction x as [|a x IH]; intros y Hy Hu Hv.
  - destruct y as [|b y]; [done|]. rewrite app_nil_l_str, app_cons_str. intros ->.
    inversion Hy; subst. cbn in Hu. congruence.
  - inversion Hx; subst. destruct y as [|b y].
    + rewrite app_nil_l_str, app_cons_str. intros <-. cbn in Hv. congruence.
    + inversion Hy; subst. rewrite !app_cons_str. intros [= -> Heq].
      destruct (IH ltac:(done) y) as [-> ->]; done.
Qed.

Lemma app_inv_head_str (x u v : string) : x +:+ u = x +:+ v -> u = v.
Proof. induction x as [|a x IH]; [done|]. rewrite !app_cons_str. intros [= H]. auto. Qed.

(** * Debug text is read in one way only *)

Definition is_hex_lower (a : ascii) : bool :=
  is_ascii_digit a || ((97 <=? byte_val a) && (byte_val a <=? 102)).
Definition hex_lower_val (a : ascii) : Z :=
  if is_ascii_digit a then byte_val a - 48 else byte_val a - 87.
Fixpoint read_hex (acc : Z) (s : string) : Z :=
  match s with EmptyString => acc | String a s => read_hex (16 * acc + hex_lower_val a) s end.

Lemma hex_digit_ok d : 0 <= d < 16 ->
  is_hex_lower (hex_digit 97 d) = true /\ hex_lower_val (hex_digit 97 d) = d.
Proof.
  intros Hd. unfold hex_digit, is_hex_lower, hex_lower_val, is_ascii_digit.
  destruct (Z.ltb_spec d 10); rewrite byte_val_of by lia; decide_tests; split; done || lia.
Qed.

Lemma hex_go_read fuel n acc :
  0 <= n < 16 ^ Z.of_nat fuel -> (0 < fuel)%nat -> read_hex 0 (hex_go fuel n acc) = read_hex n acc.
Proof.
  revert n acc. induction fuel as [|f IH]; intros n acc Hn Hf; [lia|]. cbn [hex_go].
  assert (Hm : 0 <= n mod 16 < 16) by (apply Z.mod_pos_bound; lia).
  destruct (Z.ltb_spec n 16).
  - cbn [read_hex]. rewrite (proj2 (hex_digit_ok _ Hm)). rewrite Z.mod_small by lia. done.
  - rewrite Nat2Z.inj_succ, Z.pow_succ_r in Hn by lia.
    destruct f as [|f]; [simpl in Hn; lia|].
    rewrite IH; [|split; [apply Z.div_pos; lia|apply Z.div_lt_upper_bound; lia]|lia].
    cbn [read_hex]. rewrite (proj2 (hex_digit_ok _ Hm)). f_equal. zdiv_lia.
Qed.

Lemma hex_go_all fuel n acc : 0 <= n -> all_in is_hex_lower acc -> all_in is_hex_lower (hex_go fuel n acc).
Proof.
  revert n acc. induction fuel as [|f IH]; intros n acc Hn Ha; [done|]. cbn [hex_go].
  assert (all_in is_hex_lower (String (hex_digit 97 (n mod 16)) acc)).
  { constructor; [apply hex_digit_ok, Z.mod_pos_bound; lia|done]. }
  split_if; [done|]. apply IH; [apply Z.div_pos; lia|done].
Qed.

Lemma print_hex_inj n m u v :
  is_scalar n = true -> is_scalar m = true ->
  print_hex n +:+ "}" +:+ u = print_hex m +:+ "}" +:+ v -> n = m /\ u = v.
Proof.
  intros Hn%is_scalar_range Hm%is_scalar_range Heq. unfold print_hex in Heq.
  apply (span_inj is_hex_lower) in Heq as [Hh Hr];
    [| (apply hex_go_all; [lia|constructor]).. | done | done].
  split; [|by injection Hr].
  assert (read_hex 0 (hex_go 8 n "") = read_hex 0 (hex_go 8 m "")) as H by congruence.
  rewrite !hex_go_read in H by (change (16 ^ Z.of_nat 8) with 4294967296; lia). done.
Qed.

Lemma utf8_encode_inj c d u v :
  is_scalar c = true -> is_scalar d = true ->
  utf8_encode c +:+ u = utf8_encode d +:+ v -> c = d /\ u = v.
Proof.
  intros Hc Hd Heq.
  assert (utf8_decode (utf8_encode c +:+ u) = utf8_decode (utf8_encode d +:+ v)) as H by congruence.
  rewrite !utf8_decode_encode in H by done. injection H as -> _.
  split; [done|]. by eapply app_inv_head_str.
Qed.

Section DebugInj.
Context `{UnicodeTables}.

(** The shapes of an escaped character: a two-byte escape, a numeric escape, or
    the character itself, which is neither a quote nor a backslash. *)
Inductive debug_shape (c : Z) : string -> Prop :=
| shape_escape a : In (c, a) [(0, "0"); (9, "t"); (10, "n"); (13, "r");
                              (34, dquote); (92, backslash)]%char ->
    debug_shape c (String backslash (String a ""))
| shape_plain : c <> 34 -> c <> 92 -> debug_shape c (utf8_encode c)
| shape_hex : debug_shape c (String backslash "u{" +:+ print_hex c +:+ "}").

Lemma debug_char_shape c : debug_shape c (debug_char c).
Proof.
  unfold debug_char.
  repeat match goal with
  | |- context [if c =? ?n then _ else _] => destruct (Z.eqb_spec c n) as [->|?];
      [solve [constructor; simpl; tauto]|]
  end.
  split_if; [by apply shape_plain|apply shape_hex].
Qed.

(** Reading an encoded character that is not a quote or a backslash does not
    give either byte first. *)
Lemma utf8_encode_head c u a s :
  is_scalar c = true -> utf8_encode c +:+ u = String a s -> byte_val a < 128 -> c = byte_val a.
Proof.
  intros Hc Heq Ha.
  assert (utf8_decode (utf8_encode c +:+ u) = utf8_decode (String a s)) as Hd by congruence.
  rewrite utf8_decode_encode, utf8_decode_cons in Hd by done. congruence.
Qed.

Lemma backslash_val : byte_val backslash = 92. Proof. reflexivity. Qed.
Lemma dquote_val : byte_val dquote = 34. Proof. reflexivity. Qed.

Lemma debug_char_inj c d u v :
  is_scalar c = true -> is_scalar d = true ->
  debug_char c +:+ u = debug_char d +:+ v -> c = d /\ u = v.
Proof.
  intros Hc Hd.
  assert (Hpl : forall x w a r, is_scalar x = true -> x <> 92 ->
            utf8_encode x +:+ w <> String backslash (String a r)).
  { intros x w a r Hx Hne Heq. apply Hne. rewrite <-backslash_val.
    eapply utf8_encode_head; [done|exact Heq|]. rewrite backslash_val. lia. }
  destruct (debug_char_shape c) as [a Ha|? ?|], (debug_char_shape d) as [b Hb|? ?|];
    rewrite ?app_cons_str, ?app_assoc_str, ?app_cons_str, ?app_nil_l_str; intros Heq.
  - injection Heq as -> ->. split; [|done]. cbn in Ha, Hb. unfold dquote, backslash in *.
    intuition (simplify_eq; try done).
  - symmetry in Heq. by apply Hpl in Heq.
  - exfalso. injection Heq as -> _. cbn in Ha. unfold dquote, backslash in *.
    intuition (simplify_eq; try done).
  - by apply Hpl in Heq.
  - by apply utf8_encode_inj.
  - by apply Hpl in Heq.
  - exfalso. injection Heq as <- _. cbn in Hb. unfold dquote, backslash in *.
    intuition (simplify_eq; try done).
  - symmetry in Heq. by apply Hpl in Heq.
  - injection Heq as Heq. by apply print_hex_inj in Heq.
Qed.

Lemma debug_char_not_quote c u s :
  is_scalar c = true -> debug_char c +:+ u <> String dquote s.
Proof.
  intros Hc Heq. destruct (debug_char_shape c) as [a Ha|Hq Hb|];
    rewrite ?app_cons_str in Heq; try done.
  apply Hq. rewrite <-dquote_val. eapply utf8_encode_head; [done|exact Heq|].
  rewrite dquote_val. lia.
Qed.

Lemma debug_chars_inj l m u v :
  forallb is_scalar l = true -> forallb is_scalar m = true ->
  debug_chars l +:+ String dquote u = debug_chars m +:+ String dquote v -> l = m /\ u = v.
Proof.
  revert m. induction l as [|c l IH]; intros [|d m] Hl Hm; cbn [debug_chars forallb] in *;
    reflect_bools; rewrite ?app_nil_l_str, ?app_assoc_str; intros Heq.
  - by injection Heq.
  - symmetry in Heq. by apply debug_char_not_quote in Heq.
  - by apply debug_char_not_quote in Heq.
  - apply debug_char_inj in Heq as [-> Heq]; [|done..].
    by destruct (IH m) as [-> ->].
Qed.

(** Two valid strings with the same quoted text are equal, whatever follows. *)
Lemma debug_str_inj s t u v :
  valid_utf8 s = true -> valid_utf8 t = true ->
  debug_str s +:+ u = debug_str t +:+ v -> s = t /\ u = v.
Proof.
  intros Hs Ht. unfold debug_str. rewrite !app_cons_str, !app_assoc_str, !app_cons_str, !app_nil_l_str.
  intros [= Heq]. apply debug_chars_inj in Heq as [Heq ->]; [|apply chars_scalar..].
  split; [|done]. rewrite <-(of_chars_chars s), <-(of_chars_chars t) by done. by rewrite Heq.
Qed.
End DebugInj.

(** * Searching and replacing *)

Lemma find_str_cons t a s :
  contains (String a s) t = starts_with (String a s) t || contains s t.
Proof.
  unfold contains, starts_with. change (find_str t (String a s)) with
    (match strip_prefix t (String a s) with
     | Some rest => Some ("", rest)
     | None => '(pre, post) ← find_str t s; Some (String a pre, post)
     end).
  destruct (strip_prefix t (String a s)) as [rest|].
  - by rewrite !bool_decide_eq_true_2 by eauto.
  - rewrite (bool_decide_eq_false_2 (is_Some None)) by (by intros []). cbn [orb].
    apply bool_decide_ext. destruct (find_str t s) as [[]|]; cbn; split; intros []; eauto; done.
Qed.

Lemma contains_app_l t r u : contains t u = true -> contains (t +:+ r) u = true.
Proof.
  induction t as [|c t IH]; intros Ht.
  - destruct u as [|d u]; [by destruct r|done].
  - rewrite app_cons_str, find_str_cons in *. apply orb_true_iff in Ht as [Ht|Ht]; apply orb_true_iff; [left|by right; apply IH].
    apply starts_with_spec in Ht as [x Hx]. apply starts_with_spec. exists (x +:+ r).
    by rewrite <-app_assoc_str, <-Hx.
Qed.
Lemma contains_trans s t u : contains s t = true -> contains t u = true -> contains s u = true.
Proof.
  intros Hst Htu. induction s as [|c s IH].
  - destruct t as [|d t]; [done|]. by vm_compute in Hst.
  - rewrite find_str_cons in Hst. apply orb_true_iff in Hst as [Hs|Hs].
    + apply starts_with_spec in Hs as [r ->]. by apply contains_app_l.
    + rewrite find_str_cons, IH by done. apply orb_true_r.
Qed.
Lemma contains_map f s t : contains s t = true -> contains (str_map f s) (str_map f t) = true.
Proof.
  assert (Hpre : forall s t, starts_with s t = true -> starts_with (str_map f s) (str_map f t) = true).
  { clear. intros s t [r ->]%starts_with_spec. apply starts_with_spec. exists (str_map f r).
    induction t as [|a t IH]; [done|]. rewrite !app_cons_str. cbn [str_map]. by rewrite IH. }
  induction s as [|a s IH]; intros Hc.
  - destruct t as [|b t]; [done|]. by vm_compute in Hc.
  - cbn [str_map]. rewrite find_str_cons in *. apply orb_true_iff in Hc as [Hc|Hc]; apply orb_true_iff; [left|by right; apply IH].
    by apply (Hpre (String a s)).
Qed.

Lemma replace_go_absent from to s :
  contains s from = false -> replace_go from to 0 s = s.
Proof.
  induction s as [|a s IH]; [done|]. rewrite find_str_cons. intros H. reflect_bools.
  cbn [replace_go]. rewrite H. by rewrite IH.
Qed.

Lemma str_replace_absent s from to : contains s from = false -> str_replace s from to = s.
Proof. apply replace_go_absent. Qed.

Lemma starts_with_len s p : starts_with s p = true -> (str_len p <= str_len s)%nat.
Proof. intros [r ->]%starts_with_spec. rewrite str_len_app. lia. Qed.

(** A text that contains [t] contains every prefix of [t]. *)
Lemma contains_prefix s t p : starts_with t p = true -> contains s t = true -> contains s p = true.
Proof.
  intros [r ->]%starts_with_spec. induction s as [|a s IH].
  - unfold contains at 1. cbn. destruct (strip_prefix (p +:+ r) "") as [x|] eqn:Hx; [|done].
    apply strip_prefix_Some in Hx. intros _. destruct p; done.
  - rewrite !find_str_cons. intros [H|H]%orb_true_iff; [|by rewrite IH, orb_true_r].
    apply starts_with_spec in H as [x Hx]. rewrite app_assoc_str in Hx.
    apply orb_true_iff. left. apply starts_with_spec. eauto.
Qed.

Lemma replace_go_len from to s k :
  (str_len to < str_len from)%nat -> (k <= str_len s)%nat ->
  (str_len (replace_go from to k s) + k <= str_len s)%nat /\
  (k = 0%nat -> contains s from = true -> (str_len (replace_go from to k s) < str_len s)%nat).
Proof.
  intros Hlt. revert k. induction s as [|a s IH]; intros k Hk.
  - cbn in *. split; [lia|]. intros -> Hc. unfold contains in Hc. cbn in Hc.
    destruct from; [cbn in *; lia|done].
  - cbn [replace_go]. change (str_len (String a s)) with (S (str_len s)) in *. destruct k as [|k].
    + destruct (starts_with (String a s) from) eqn:Hs.
      * apply starts_with_len in Hs. change (str_len (String a s)) with (S (str_len s)) in Hs.
        destruct (IH (Nat.pred (str_len from))) as [Hl _]; [lia|]. rewrite str_len_app. split; [lia|].
        intros _ _. lia.
      * destruct (IH 0%nat) as [Hl Hc]; [lia|].
        change (str_len (String a (replace_go from to 0 s))) with (S (str_len (replace_go from to 0 s))).
        split; [lia|]. intros _. rewrite find_str_cons, Hs. cbn [orb]. intros Hcs.
        specialize (Hc eq_refl Hcs). lia.
    + destruct (IH k) as [Hl _]; [lia|]. split; [lia|done].
Qed.

Lemma str_replace_shrinks s from to :
  (str_len to < str_len from)%nat -> contains s from = true ->
  (str_len (str_replace s from to) < str_len s)%nat.
Proof. intros Hlt Hc. by apply (replace_go_len from to s 0 Hlt); [lia| |]. Qed.
