(* ===== verification/Net.v ===== *)
(** [std::net::IpAddr]: the two address families as numbers, and the textual
    parser of the standard library ([core::net::parser]), which has no
    backtracking past an address that reads correctly. *)
From S2P Require Import Prelude Utf8 RustStd.
Local Open Scope Z_scope.

(** [IpAddr]; [u32::from] and [u128::from] are the identity on the contents. *)
Inductive IpAddr : Type := V4 (a : Z) | V6 (a : Z).

#[export] Instance IpAddr_eq_dec : EqDecision IpAddr.
Proof. solve_decision. Defined.
#[export] Instance IpAddr_countable : Countable IpAddr.
Proof.
  apply (inj_countable' (fun a => match a with V4 z => inl z | V6 z => inr z end)
           (fun s => match s with inl z => V4 z | inr z => V6 z end)).
  by intros [].
Defined.

(** A reader consumes a prefix of the text or fails without consuming. *)
Definition reader (A : Type) : Type := string -> option (A * string).

Definition read_given (c : ascii) : reader unit := fun s =>
  match s with String a s => if Ascii.eqb a c then Some (tt, s) else None | _ => None end.

Definition radix_digit (radix : Z) (a : ascii) : option Z :=
  let b := byte_val a in
  let d := if (48 <=? b) && (b <=? 57) then Some (b - 48)
           else if (97 <=? b) && (b <=? 122) then Some (b - 87)
           else if (65 <=? b) && (b <=? 90) then Some (b - 55) else None in
  match d with Some v => if v <? radix then Some v else None | None => None end.

(** Digits while there are any; more than [max] digits, or a value of
    [bound] or above, is a failure. *)
Fixpoint read_digits (radix bound : Z) (max : nat) (count : nat) (acc : Z) (s : string)
  : option (Z * nat * string) :=
  match s with
  | EmptyString => Some (acc, count, s)
  | String a s' =>
    match radix_digit radix a with
    | None => Some (acc, count, s)
    | Some d =>
      let acc' := acc * radix + d in
      if (bound <=? acc') then None
      else if (max <? S count)%nat then None
      else read_digits radix bound max (S count) acc' s'
    end
  end.

Definition read_number (radix bound : Z) (max : nat) (allow_zero_prefix : bool) : reader Z :=
  fun s =>
  let leading_zero := match s with String a _ => Ascii.eqb a "0" | _ => false end in
  '(v, n, rest) ← read_digits radix bound max 0 0 s;
  if (n =? 0)%nat then None
  else if negb allow_zero_prefix && leading_zero && (1 <? n)%nat then None
  else Some (v, rest).

(** [read_separator(sep, index, inner)] *)
Definition read_separator {A} (sep : ascii) (index : nat) (inner : reader A) : reader A :=
  fun s =>
  match index with
  | O => inner s
  | S _ => '(_, s) ← read_given sep s; inner s
  end.

Definition read_octet (i : nat) : reader Z :=
  read_separator "." i (read_number 10 256 3 false).

Definition read_ipv4_addr : reader Z := fun s =>
  '(a, s) ← read_octet 0 s; '(b, s) ← read_octet 1 s;
  '(c, s) ← read_octet 2 s; '(d, s) ← read_octet 3 s;
  Some (((a * 256 + b) * 256 + c) * 256 + d, s).

(** [read_groups]: up to [limit] sixteen-bit groups from index [i], the last
    two of which may be written as an IPv4 address.  Returns the groups read and
    whether they end in an IPv4 address. *)
Fixpoint read_groups (fuel : nat) (limit i : nat) (s : string) : list Z * bool * string :=
  match fuel with
  | O => ([], false, s)
  | S f =>
    let v4 := if (i + 1 <? limit)%nat then read_separator ":" i read_ipv4_addr s else None in
    match v4 with
    | Some (a, s') => ([a / 65536; a mod 65536], true, s')
    | None =>
      match read_separator ":" i (read_number 16 65536 4 true) s with
      | Some (g, s') =>
        let '(gs, e, s'') := read_groups f limit (S i) s' in (g :: gs, e, s'')
      | None => ([], false, s)
      end
    end
  end.

Definition groups_val (gs : list Z) : Z := fold_left (fun acc g => acc * 65536 + g) gs 0.

Definition read_ipv6_addr : reader Z := fun s =>
  let '(head, head_ipv4, s) := read_groups 8 8 0 s in
  if (length head =? 8)%nat then Some (groups_val head, s)
  else if (head_ipv4 : bool) then None
  else
    '(_, s) ← read_given ":" s; '(_, s) ← read_given ":" s;
    let limit := (8 - (length head + 1))%nat in
    let '(tail, _, s) := read_groups limit limit 0 s in
    Some (groups_val (head ++ replicate (8 - length head - length tail) 0 ++ tail), s).

(** [s.parse::<IpAddr>().ok()] *)
Definition parse_ip (s : string) : option IpAddr :=
  '(a, rest) ← match read_ipv4_addr s with
               | Some (a, r) => Some (V4 a, r)
               | None => '(a, r) ← read_ipv6_addr s; Some (V6 a, r)
               end;
  if is_empty rest then Some a else None.

Definition ip_width (a : IpAddr) : Z := match a with V4 _ => 32 | V6 _ => 128 end.
Definition ip_num (a : IpAddr) : Z := match a with V4 z => z | V6 z => z end.
Definition ip_wf (a : IpAddr) : Prop := in_u (ip_width a) (ip_num a).

Example parse_ip_v4 : parse_ip "10.1.2.255" = Some (V4 167838463).
Proof. reflexivity. Qed.
Example parse_ip_leading_zero : parse_ip "10.01.2.255" = None.
Proof. reflexivity. Qed.
Example parse_ip_v6 : parse_ip "2001:db8::1" = Some (V6 42540766411282592856903984951653826561).
Proof. reflexivity. Qed.
Example parse_ip_v6_mapped : parse_ip "::ffff:1.2.3.4" = Some (V6 281470698652420).
Proof. reflexivity. Qed.
Example parse_ip_v6_bad : parse_ip "1:2:3:4:5:6:7:8:9" = None.
Proof. reflexivity. Qed.

(** The mask test of two numbers agrees with equality of their top bits. *)
Lemma mask_eq_bits (w p a b : Z) :
  0 < p <= w -> in_u w a -> in_u w b ->
  let mask := wrap_u w (Z.shiftl (2 ^ w - 1) (w - p)) in
  Z.land a mask = Z.land b mask <-> a / 2 ^ (w - p) = b / 2 ^ (w - p).
Proof.
  intros Hp Ha Hb mask.
  assert (Hm : mask = Z.shiftl (Z.ones p) (w - p)).
  { unfold mask, wrap_u. rewrite !Z.shiftl_mul_pow2, Z.ones_equiv by lia.
    pose proof (Z.pow_pos_nonneg 2 (w - p) ltac:(lia) ltac:(lia)).
    pose proof (Z.pow_pos_nonneg 2 p ltac:(lia) ltac:(lia)).
    assert (Hw : 2 ^ w = 2 ^ p * 2 ^ (w - p)) by (rewrite <-Z.pow_add_r by lia; f_equal; lia).
    symmetry. apply (Z.mod_unique _ _ (2 ^ (w - p) - 1)); [left; nia|]. nia. }
  assert (Hland : forall x, in_u w x -> Z.land x mask = Z.shiftl (x / 2 ^ (w - p)) (w - p)).
  { intros x Hx. rewrite Hm, <-Z.shiftr_div_pow2 by lia. apply Z.bits_inj'. intros n Hn.
    rewrite Z.land_spec, !Z.shiftl_spec by lia.
    destruct (Z.lt_ge_cases n (w - p)).
    - rewrite !(Z.testbit_neg_r _ (n - (w - p))) by lia. by rewrite andb_false_r.
    - rewrite Z.shiftr_spec by lia. replace (n - (w - p) + (w - p)) with n by lia.
      rewrite Z.testbit_ones_nonneg by lia.
      destruct (Z.lt_ge_cases n w).
      + replace (n - (w - p) <? p) with true by (symmetry; apply Z.ltb_lt; lia). by rewrite andb_true_r.
      + rewrite (Z.bits_above_log2 x n); [done|unfold in_u in Hx; lia|].
        unfold in_u in Hx. destruct (Z.eq_dec x 0) as [->|]; [simpl; lia|].
        apply Z.log2_lt_pow2; [lia|].
        eapply Z.lt_le_trans; [apply Hx|]. apply Z.pow_le_mono_r; lia. }
  rewrite !Hland by done. rewrite !Z.shiftl_mul_pow2 by lia.
  pose proof (Z.pow_pos_nonneg 2 (w - p) ltac:(lia) ltac:(lia)). nia.
Qed.

(** * Parsed addresses fit their width *)

Lemma radix_digit_range radix a d : radix_digit radix a = Some d -> 0 <= d.
Proof.
  unfold radix_digit. intros H. cbv zeta in H.
  repeat (split_if || case_match); simplify_eq; reflect_bools; lia.
Qed.

Lemma read_digits_range radix bound max n acc s v m rest :
  0 < bound -> 0 <= radix -> 0 <= acc < bound ->
  read_digits radix bound max n acc s = Some (v, m, rest) -> 0 <= v < bound.
Proof.
  intros Hb Hr. revert n acc. induction s as [|a s IH]; cbn [read_digits]; intros n acc Hacc E.
  { by simplify_eq. }
  destruct (radix_digit radix a) as [d|] eqn:Hd; [|by simplify_eq].
  apply radix_digit_range in Hd. destruct (Z.leb_spec bound (acc * radix + d)); [done|].
  destruct (max <? S n)%nat; [done|]. eapply IH; [|exact E]. nia.
Qed.

Lemma read_number_range radix bound max z s v rest :
  0 < bound -> 0 <= radix -> read_number radix bound max z s = Some (v, rest) -> 0 <= v < bound.
Proof.
  intros Hb Hr. unfold read_number.
  destruct (read_digits _ _ _ _ _ _) as [[[v' n] r]|] eqn:E; cbn; [|done].
  intros H. repeat split_if; simplify_eq. eapply read_digits_range; eauto; lia.
Qed.

Lemma read_separator_Some {A} sep i (f : reader A) s x rest :
  read_separator sep i f s = Some (x, rest) -> exists s', f s' = Some (x, rest).
Proof.
  destruct i; cbn; [eauto|]. destruct (read_given sep s) as [[? ?]|]; cbn; [eauto|done].
Qed.

Lemma read_octet_range i s v rest : read_octet i s = Some (v, rest) -> 0 <= v < 256.
Proof. intros [s' H]%read_separator_Some. eapply read_number_range; [| |exact H]; lia. Qed.

Lemma read_ipv4_range s v rest : read_ipv4_addr s = Some (v, rest) -> in_u 32 v.
Proof.
  unfold read_ipv4_addr. repeat (let E := fresh "E" in
    destruct (read_octet _ _) as [[? ?]|] eqn:E; cbn -[read_octet]; [apply read_octet_range in E|done]).
  intros H. simplify_eq. unfold in_u. change (2 ^ 32) with 4294967296. lia.
Qed.

Lemma read_groups_range fuel limit i s gs e rest :
  read_groups fuel limit i s = (gs, e, rest) -> Forall (fun g => 0 <= g < 65536) gs.
Proof.
  revert i s gs e rest. induction fuel as [|f IH]; intros i s gs e rest; cbn [read_groups].
  { intros. simplify_eq. constructor. }
  destruct (if (i + 1 <? limit)%nat then _ else _) as [[a s']|] eqn:E4.
  { intros. simplify_eq. destruct (i + 1 <? limit)%nat; [|done].
    apply read_separator_Some in E4 as [t Ht]. apply read_ipv4_range in Ht.
    unfold in_u in Ht. change (2 ^ 32) with 4294967296 in Ht.
    repeat constructor; try (apply Z.mod_pos_bound; lia); zdiv_lia. }
  destruct (read_separator ":" i (read_number 16 65536 4 true) s) as [[g s']|] eqn:Eg;
    [|intros; simplify_eq; constructor].
  destruct (read_groups f limit (S i) s') as [[gs' e'] r'] eqn:Er. intros. simplify_eq.
  apply read_separator_Some in Eg as [t Ht]. apply read_number_range in Ht; [|lia..].
  constructor; [done|]. by eapply IH.
Qed.

Lemma groups_val_range gs :
  Forall (fun g => 0 <= g < 65536) gs -> 0 <= groups_val gs < 65536 ^ Z.of_nat (length gs).
Proof.
  intros H. unfold groups_val.
  assert (Hg : forall l acc, Forall (fun g => 0 <= g < 65536) l -> 0 <= acc ->
    0 <= fold_left (fun acc g => acc * 65536 + g) l acc < (acc + 1) * 65536 ^ Z.of_nat (length l)).
  { induction l as [|g l IHl]; intros acc Hl Hacc; cbn [fold_left length]; [simpl; lia|].
    inversion Hl; subst. destruct (IHl (acc * 65536 + g)) as [HA HB]; [done|lia|].
    split; [done|]. rewrite Nat2Z.inj_succ, Z.pow_succ_r by lia.
    pose proof (Z.pow_pos_nonneg 65536 (Z.of_nat (length l)) ltac:(lia) ltac:(lia)). nia. }
  pose proof (Hg gs 0 H). lia.
Qed.

(** [i + length] never exceeds the limit when the fuel is what is left of it. *)
Lemma read_groups_bound fuel limit i s :
  (i + fuel <= limit)%nat -> (length (fst (fst (read_groups fuel limit i s))) <= limit - i)%nat.
Proof.
  revert i s. induction fuel as [|f IH]; intros i s Hl; cbn [read_groups]; [simpl; lia|].
  destruct (Nat.ltb_spec (i + 1) limit).
  - destruct (read_separator ":" i read_ipv4_addr s) as [[a s']|]; [simpl; lia|].
    destruct (read_separator _ _ _ _) as [[g s']|]; [|simpl; lia].
    specialize (IH (S i) s'). destruct (read_groups f limit (S i) s') as [[? ?] ?]. simpl in *. lia.
  - destruct (read_separator _ _ _ _) as [[g s']|]; [|simpl; lia].
    specialize (IH (S i) s'). destruct (read_groups f limit (S i) s') as [[? ?] ?]. simpl in *. lia.
Qed.

Lemma read_ipv6_range s v rest : read_ipv6_addr s = Some (v, rest) -> in_u 128 v.
Proof.
  unfold read_ipv6_addr, in_u. intros H. change (2 ^ 128) with (65536 ^ Z.of_nat 8).
  destruct (read_groups 8 8 0 s) as [[hd e] r] eqn:E.
  pose proof (read_groups_range _ _ _ _ _ _ _ E) as Hh.
  pose proof (read_groups_bound 8 8 0 s ltac:(lia)) as Hl. rewrite E in Hl. cbn in Hl.
  destruct (Nat.eqb_spec (length hd) 8) as [H8|].
  { simplify_eq. rewrite <-H8. by apply groups_val_range. }
  destruct e; [done|]. destruct (read_given ":" r) as [[? r1]|]; cbn in H; [|done].
  destruct (read_given ":" r1) as [[? r2]|]; cbn in H; [|done].
  set (lim := (8 - (length hd + 1))%nat) in *.
  destruct (read_groups lim lim 0 r2) as [[tl e'] r'] eqn:E'.
  pose proof (read_groups_range _ _ _ _ _ _ _ E') as Ht.
  pose proof (read_groups_bound lim lim 0 r2 ltac:(lia)) as Hl'. rewrite E' in Hl'. cbn in Hl'.
  simplify_eq.
  replace 8%nat with (length (hd ++ replicate (8 - length hd - length tl) 0 ++ tl))
    at 3 by (rewrite !length_app, length_replicate; lia).
  apply groups_val_range. rewrite !List.Forall_app. split; [done|]. split; [|done].
  apply Forall_replicate. lia.
Qed.

Lemma parse_ip_wf s a : parse_ip s = Some a -> ip_wf a.
Proof.
  unfold parse_ip, ip_wf.
  destruct (read_ipv4_addr s) as [[v r]|] eqn:E4; cbn.
  { intros. split_if; simplify_eq. by apply read_ipv4_range in E4. }
  destruct (read_ipv6_addr s) as [[v r]|] eqn:E6; cbn; [|done].
  intros. split_if; simplify_eq. by apply read_ipv6_range in E6.
Qed.
