(* ===== verification/Extern.v ===== *)
(** Interfaces of the third-party crates the program calls: [regex] and
    [ipnet].  Each class lists the operations used and, as laws, the documented
    behaviour the theorems rely on; instances for concrete evaluation are at the
    end of the file. *)
From S2P Require Import Prelude Utf8 RustStd Net.
Local Open Scope Z_scope.

(** The [regex] crate: [Regex::new], [Regex::is_match], and the value of
    [Regex::new(p).unwrap()] for the literal patterns of the source. *)
Class RegexLib := {
  regex : Type;
  regex_new : string -> option regex;
  is_match : regex -> string -> bool;
  regex_unwrap : string -> regex;
  regex_unwrap_new : forall p r, regex_new p = Some r -> regex_unwrap p = r
}.

(** [Regex::new(p).map(|r| r.is_match(s)).unwrap_or(false)] *)
Definition regex_match `{RegexLib} (p s : string) : bool :=
  match regex_new p with Some r => is_match r s | None => false end.

(** The [ipnet] crate: a network has an address and a prefix length. *)
Class IpNetLib := {
  IpNet : Type;
  ipnet_parse : string -> option IpNet;
  ipnet_addr : IpNet -> IpAddr;
  ipnet_prefix_len : IpNet -> Z;
  ipnet_contains : IpNet -> IpAddr -> bool;
  (** [IpNet::from(addr)] *)
  ipnet_from : IpAddr -> IpNet;
  ipnet_from_addr : forall a, ipnet_addr (ipnet_from a) = a;
  ipnet_from_len : forall a, ipnet_prefix_len (ipnet_from a) = ip_width a;
  (** a full-length network contains its own address only *)
  ipnet_host_contains : forall n a,
    ipnet_prefix_len n = ip_width (ipnet_addr n) ->
    ipnet_contains n a = bool_decide (a = ipnet_addr n)
}.

(** * Concrete instances, used to evaluate the model *)

(** Literal patterns: a pattern matches where it occurs; ["["] is ill-formed. *)
Definition literal_new (p : string) : option string := if String.eqb p "[" then None else Some p.
Lemma literal_new_id p r : literal_new p = Some r -> p = r.
Proof. unfold literal_new. destruct (String.eqb p "["); congruence. Qed.

Definition literal_regex : RegexLib := {|
  regex := string;
  regex_new := literal_new;
  is_match r s := contains s r;
  regex_unwrap p := p;
  regex_unwrap_new := literal_new_id
|}.

(** Networks as an address and a prefix length, read from [addr/len]. *)
Definition same_net (a : IpAddr) (len : Z) (b : IpAddr) : bool :=
  match a, b with
  | V4 x, V4 y => (len =? 32) && (x =? y) || negb (len =? 32) && (x / 2 ^ (32 - len) =? y / 2 ^ (32 - len))
  | V6 x, V6 y => (len =? 128) && (x =? y) || negb (len =? 128) && (x / 2 ^ (128 - len) =? y / 2 ^ (128 - len))
  | _, _ => false
  end.

Lemma same_net_host a b : same_net a (ip_width a) b = bool_decide (b = a).
Proof.
  destruct a as [x|x], b as [y|y]; unfold same_net; cbn [ip_width];
    try (symmetry; by apply bool_decide_eq_false_2).
  all: rewrite Z.eqb_refl; cbn [andb negb orb]; rewrite orb_false_r.
  all: destruct (Z.eqb_spec x y) as [->|Hne]; symmetry;
    [by apply bool_decide_eq_true_2 | apply bool_decide_eq_false_2; congruence].
Qed.

Definition pair_ipnet : IpNetLib := {|
  IpNet := IpAddr * Z;
  ipnet_parse s :=
    '(a, l) ← split_once "/" s;
    a ← parse_ip a; l ← parse_unsigned 8 l;
    if l <=? ip_width a then Some (a, l) else None;
  ipnet_addr := fst;
  ipnet_prefix_len := snd;
  ipnet_contains n b := same_net (fst n) (snd n) b;
  ipnet_from a := (a, ip_width a);
  ipnet_from_addr a := eq_refl;
  ipnet_from_len a := eq_refl;
  ipnet_host_contains := ltac:(intros [a l] b; simpl; intros ->; apply same_net_host)
|}.

(** ASCII-only tables: non-ASCII text is left alone and printable. *)
Definition plain_unicode : UnicodeTables := {|
  uni_lowercase s := s; uni_uppercase s := s; uni_printable _ := true
|}.

Definition sorted_hash_order : HashOrder := {|
  hash_iter K _ _ V m := map_to_list m;
  hash_iter_perm K _ _ V m := reflexivity _
|}.
