(* ===== verification/WafTypes.v ===== *)
(** The [waf-types] crate: decisions, risk scores, tiers and audit entries. *)
From S2P Require Import Prelude Utf8 RustStd.
Local Open Scope Z_scope.

Inductive Tier : Type := Critical | High | Medium | CatchAll.
#[export] Instance Tier_eq_dec : EqDecision Tier.
Proof. solve_decision. Defined.

(** The derived [Debug] text of a tier. *)
Definition tier_debug (t : Tier) : string :=
  match t with
  | Critical => "Critical" | High => "High" | Medium => "Medium" | CatchAll => "CatchAll"
  end.

Inductive FailMode : Type := Close | Open.

Inductive ChallengeKind : Type := JsChallenge | ProofOfWork.

Inductive Decision : Type :=
| Allow
| Block (reason : string)
| Challenge (kind : ChallengeKind)
| RateLimit (retry_after_secs : Z).
#[export] Instance ChallengeKind_eq_dec : EqDecision ChallengeKind.
Proof. solve_decision. Defined.
#[export] Instance Decision_eq_dec : EqDecision Decision.
Proof. solve_decision. Defined.

(** [RiskScore(pub u32)] *)
Record RiskScore := mkRiskScore { risk_value : Z }.
Definition RiskScore_MAX : RiskScore := mkRiskScore 100.
Definition RiskScore_ZERO : RiskScore := mkRiskScore 0.
Definition is_max (s : RiskScore) : bool := risk_value RiskScore_MAX <=? risk_value s.

Inductive AnomalyKind : Type :=
| UniformRequestTiming | ZeroDepthSession | MissingRefererOnSensitiveRoute
| InterRequestIntervalTooFast | TransactionSequenceViolation.

Inductive RiskEvent : Type :=
| RuleMatchEvent (rule_id : string) (delta : Z)
| FailedChallenge
| BehaviouralAnomaly (k : AnomalyKind)
| SuspiciousAsn
| DeviceFingerprintConflict
| CanaryHit
| SuccessfulChallenge
| NormalBehaviourDecay.

Record AuditEntry := mkAuditEntry {
  ae_request_id : string; ae_ts_ms : Z; ae_ip : string;
  ae_device_fp : option string; ae_session_id : option string;
  ae_method : string; ae_path : string; ae_risk_score : Z;
  ae_rule_id : option string; ae_action : Decision; ae_tier : Tier
}.

(** [RiskConfig] of [config/schema.rs] and [risk/scorer.rs]. *)
Record RiskConfig := mkRiskConfig { allow_threshold : Z; challenge_threshold : Z }.

Definition threshold_decision (score : RiskScore) (config : RiskConfig) : Decision :=
  let v := risk_value score in
  if v <? allow_threshold config then Allow
  else if v <? challenge_threshold config then Challenge JsChallenge
  else Block ("risk score " +:+ print_int v +:+ " exceeds block threshold").

(** Severity order of the decisions the thresholds produce. *)
Definition severity (d : Decision) : Z :=
  match d with Allow => 0 | Challenge _ => 1 | RateLimit _ => 1 | Block _ => 2 end.

(** The three bands: below the first threshold, between them, and above both. *)
Lemma threshold_decision_bands v c :
  let s := mkRiskScore v in
  (v < allow_threshold c -> threshold_decision s c = Allow) /\
  (allow_threshold c <= v < challenge_threshold c ->
     threshold_decision s c = Challenge JsChallenge) /\
  (allow_threshold c <= v -> challenge_threshold c <= v ->
     severity (threshold_decision s c) = 2).
Proof.
  unfold threshold_decision. simpl. repeat split; intros; repeat split_if; try done; lia.
Qed.

(** A higher score never yields a milder decision. *)
Lemma threshold_decision_monotone v1 v2 c :
  v1 <= v2 ->
  severity (threshold_decision (mkRiskScore v1) c) <=
  severity (threshold_decision (mkRiskScore v2) c).
Proof. intros H. unfold threshold_decision. simpl. repeat split_if; simpl; lia. Qed.
