(* ===== verification/RuleTypes.v ===== *)
(** The rule schema of the YAML rule engine ([crates/rule/src/types.rs]) and the
    condition tree, over a type of leaves so that the engines that extend the
    leaf with a regex-cache key share the tree and its induction principle. *)
From S2P Require Import Prelude Utf8 RustStd WafTypes.
Local Open Scope Z_scope.

(** * Schema *)

Inductive Action : Type := ActAllow | ActBlock | ActChallenge | ActRateLimit | ActLog.
Inductive Field : Type :=
| FIp | FPath | FHeader | FPayload | FCookie | FMethod | FContentType | FSessionId | FDeviceFp.
Inductive MatchType : Type := MExact | MWildcard | MRegex | MCidr | MPresence | MAbsence.

#[export] Instance Action_eq_dec : EqDecision Action. Proof. solve_decision. Defined.
#[export] Instance Field_eq_dec : EqDecision Field. Proof. solve_decision. Defined.
#[export] Instance MatchType_eq_dec : EqDecision MatchType. Proof. solve_decision. Defined.

Record ConditionLeaf := mkLeaf {
  field : Field;
  match_type : MatchType;
  value : string;
  header_name : option string;
  cookie_name : option string;
  case_sensitive : bool;
  negate : bool
}.

Inductive Cond (L : Type) : Type :=
| CAnd (children : list (Cond L))
| COr (children : list (Cond L))
| CLeaf (leaf : L).
Arguments CAnd {L} children.
Arguments COr {L} children.
Arguments CLeaf {L} leaf.

Definition ConditionNode : Type := Cond ConditionLeaf.

Record ResponseConfig := mkResponseConfig {
  status : Z; rc_body : option string; rc_headers : option (gmap string string)
}.
Inductive RateLimitScope : Type := PerIp | PerSession | PerApiKey.
Record RateLimitRule := mkRateLimitRule {
  rl_scope : RateLimitScope; window_seconds : Z; max_requests : Z;
  burst_tokens : Z; on_breach : string
}.
Inductive ChallengeType : Type := Js | Pow.
Record ChallengeRule := mkChallengeRule {
  challenge_type : ChallengeType; pow_difficulty : option Z
}.

(** [RuleRaw]: a rule as deserialised, over the type of its condition. *)
Record RuleRaw (C : Type) := mkRuleRaw {
  raw_id : string;
  raw_description : string;
  raw_enabled : bool;
  raw_priority : Z;
  raw_condition : C;
  raw_action : Action;
  raw_risk_score_delta : Z;
  raw_response : option ResponseConfig;
  raw_rate_limit : option RateLimitRule;
  raw_challenge : option ChallengeRule;
  raw_tier : option string;
  raw_source : option string
}.
Arguments mkRuleRaw {C}.
Arguments raw_id {C} _. Arguments raw_description {C} _. Arguments raw_enabled {C} _.
Arguments raw_priority {C} _. Arguments raw_condition {C} _. Arguments raw_action {C} _.
Arguments raw_risk_score_delta {C} _. Arguments raw_response {C} _. Arguments raw_rate_limit {C} _.
Arguments raw_challenge {C} _. Arguments raw_tier {C} _. Arguments raw_source {C} _.

(** The rule with another condition. *)
Definition with_condition {C D} (r : RuleRaw C) (c : D) : RuleRaw D :=
  mkRuleRaw (raw_id r) (raw_description r) (raw_enabled r) (raw_priority r) c (raw_action r)
    (raw_risk_score_delta r) (raw_response r) (raw_rate_limit r) (raw_challenge r) (raw_tier r) (raw_source r).

(** [Rule]: a compiled rule. *)
Record Rule (C : Type) := mkRule {
  id : string;
  source : string;
  description : string;
  enabled : bool;
  priority : Z;
  condition : C;
  action : Action;
  risk_score_delta : Z;
  response : option ResponseConfig;
  rate_limit : option RateLimitRule;
  challenge : option ChallengeRule;
  tier : option string
}.
Arguments mkRule {C}.
Arguments id {C} _. Arguments source {C} _. Arguments description {C} _. Arguments enabled {C} _.
Arguments priority {C} _. Arguments condition {C} _. Arguments action {C} _.
Arguments risk_score_delta {C} _. Arguments response {C} _. Arguments rate_limit {C} _.
Arguments challenge {C} _. Arguments tier {C} _.

(** [RuleMatch]: what the evaluator reports. *)
Record RuleMatch := mkRuleMatch {
  rule_id : string; rm_description : string; rm_action : Action;
  rm_risk_score_delta : Z; rm_source : string
}.

(** * Condition trees *)

Section CondInd.
Context {L : Type} (P : Cond L -> Prop).
Hypothesis HAnd : forall l, Forall P l -> P (CAnd l).
Hypothesis HOr : forall l, Forall P l -> P (COr l).
Hypothesis HLeaf : forall x, P (CLeaf x).

Fixpoint Cond_ind' (c : Cond L) : P c :=
  let fix go (l : list (Cond L)) : Forall P l :=
    match l with
    | [] => @List.Forall_nil _ P
    | c :: l => @List.Forall_cons _ P c l (Cond_ind' c) (go l)
    end in
  match c with
  | CAnd l => HAnd l (go l)
  | COr l => HOr l (go l)
  | CLeaf x => HLeaf x
  end.
End CondInd.

(** [all]/[any] over the children, short-circuiting like the iterators. *)
Fixpoint cond_eval {L} (f : L -> bool) (c : Cond L) : bool :=
  match c with
  | CAnd l => forallb (cond_eval f) l
  | COr l => existsb (cond_eval f) l
  | CLeaf x => f x
  end.

Fixpoint cond_map {L M} (f : L -> M) (c : Cond L) : Cond M :=
  match c with
  | CAnd l => CAnd (map (cond_map f) l)
  | COr l => COr (map (cond_map f) l)
  | CLeaf x => CLeaf (f x)
  end.

(** The leaves, in evaluation order. *)
Fixpoint leaves {L} (c : Cond L) : list L :=
  match c with
  | CAnd l | COr l => flat_map leaves l
  | CLeaf x => [x]
  end.

Lemma cond_map_id {L} (c : Cond L) : cond_map (fun x => x) c = c.
Proof.
  induction c as [l IH|l IH|x] using Cond_ind'; cbn [cond_map]; [| |done]; f_equal;
    induction IH as [|c l Hc _ IHl]; cbn [map]; congruence.
Qed.

Lemma leaves_map {L M} (f : L -> M) (c : Cond L) : leaves (cond_map f c) = map f (leaves c).
Proof.
  induction c as [l IH|l IH|x] using Cond_ind'; cbn [cond_map leaves]; [| |done];
    induction IH as [|c l Hc _ IHl]; cbn [map flat_map]; rewrite ?List.map_app; congruence.
Qed.

Lemma cond_eval_map {L M} (g : L -> M) (f : M -> bool) (h : L -> bool) (c : Cond L) :
  Forall (fun x => f (g x) = h x) (leaves c) ->
  cond_eval f (cond_map g c) = cond_eval h c.
Proof.
  induction c as [l IH|l IH|x] using Cond_ind'; simpl; intros H.
  - apply forallb_map_ext. induction IH as [|c l Hc _ IHl]; constructor; simpl in H;
      rewrite List.Forall_app in H; destruct H; auto.
  - apply existsb_map_ext. induction IH as [|c l Hc _ IHl]; constructor; simpl in H;
      rewrite List.Forall_app in H; destruct H; auto.
  - by inversion H.
Qed.

(** Validation of every leaf, stopping at the first error. *)
Fixpoint cond_check {L E} (f : L -> result E unit) (c : Cond L) : result E unit :=
  let fix go (l : list (Cond L)) : result E unit :=
    match l with
    | [] => Ok tt
    | c :: l => _ ← cond_check f c; go l
    end in
  match c with
  | CAnd l | COr l => go l
  | CLeaf x => f x
  end.

Lemma cond_check_ok {L E} (f : L -> result E unit) (c : Cond L) :
  cond_check f c = Ok tt <-> Forall (fun x => f x = Ok tt) (leaves c).
Proof.
  induction c as [l IH|l IH|x] using Cond_ind'; cbn [cond_check leaves];
    [| |by rewrite List.Forall_cons_iff; intuition].
  all: induction IH as [|c l Hc _ IHl]; cbn [flat_map]; [by split; [constructor|]|].
  all: rewrite List.Forall_app, <-Hc, <-IHl; cbn.
  all: destruct (cond_check f c) as [[]|]; cbn; intuition congruence.
Qed.

(** The first failing leaf gives the error. *)
Lemma cond_check_err {L E} (f : L -> result E unit) (c : Cond L) e :
  cond_check f c = Err e -> exists x, In x (leaves c) /\ f x = Err e.
Proof.
  induction c as [l IH|l IH|x] using Cond_ind'; cbn [cond_check leaves];
    [| |by intros; exists x; simpl; auto].
  all: induction IH as [|c l Hc _ IHl]; cbn [flat_map]; [done|].
  all: cbn; destruct (cond_check f c) as [[]|e'] eqn:Hcc; cbn; intros He;
    [destruct IHl as (x & Hx & Hf) | destruct Hc as (x & Hx & Hf)]; try congruence;
    exists x; split; try apply in_app_iff; auto; congruence.
Qed.

(** A change of every leaf that can fail, stopping at the first error. *)
Fixpoint cond_traverse {L M E} (f : L -> result E M) (c : Cond L) : result E (Cond M) :=
  let fix go (l : list (Cond L)) : result E (list (Cond M)) :=
    match l with
    | [] => Ok []
    | c :: l => c ← cond_traverse f c; l ← go l; Ok (c :: l)
    end in
  match c with
  | CAnd l => l ← go l; Ok (CAnd l)
  | COr l => l ← go l; Ok (COr l)
  | CLeaf x => x ← f x; Ok (CLeaf x)
  end.

Lemma cond_traverse_ok {L M E} (f : L -> result E M) (g : L -> M) (c : Cond L) :
  (forall x, In x (leaves c) -> f x = Ok (g x)) -> cond_traverse f c = Ok (cond_map g c).
Proof.
  induction c as [l IH|l IH|x] using Cond_ind'; cbn [cond_traverse cond_map leaves]; intros Hf;
    [| |by rewrite Hf by (by left)].
  all: match goal with |- mbind _ ?r = _ => assert (Hgo : r = Ok (map (cond_map g) l)); [|by rewrite Hgo] end.
  all: induction IH as [|c l Hc _ IHl]; cbn [flat_map map]; [done|].
  all: cbn in Hf; rewrite Hc by (intros x Hx; apply Hf, in_app_iff; by left); cbn [mbind result_mbind].
  all: by rewrite IHl by (intros x Hx; apply Hf, in_app_iff; by right).
Qed.

Lemma cond_map_map {L M N} (g : M -> N) (f : L -> M) (c : Cond L) :
  cond_map g (cond_map f c) = cond_map (fun x => g (f x)) c.
Proof.
  induction c as [l IH|l IH|x] using Cond_ind'; cbn [cond_map]; [| |done]; f_equal;
    induction IH as [|c l Hc _ IHl]; cbn [map]; congruence.
Qed.
