(* ===== verification/RuleEngine.v ===== *)
(** The YAML rule engine of [crates/rule]: condition evaluation
    ([condition.rs]), rule compilation ([loader.rs]) and priority evaluation
    with its glob and CIDR helpers ([lib.rs]). *)
From S2P Require Import Prelude Utf8 RustStd Net Extern WafTypes RuleTypes.
Local Open Scope Z_scope.

(** [RequestContext<'_>] of the rule crate. *)
Record RequestContext := mkRequestContext {
  ip : string;
  path : string;
  method : string;
  headers : gmap string string;
  payload : string;
  cookies : gmap string string;
  ctx_tier : Tier;
  session_id : string;
  device_fp : string;
  content_type : option string
}.

(** [RuleError]; the third-party error values carried by three of the variants
    are not modelled. *)
Inductive RuleError : Type :=
| ParseError (file : string)
| IoError (file : string)
| ValidationError (id reason : string)
| DuplicateId (id : string)
| RegexError (id : string).
#[export] Instance RuleError_eq_dec : EqDecision RuleError.
Proof. solve_decision. Defined.

(** * Glob and CIDR matching *)

(** [match_recursive] of [simple_glob_match], on characters. *)
Fixpoint match_recursive (p : list Z) : list Z -> bool :=
  match p with
  | [] => fun t => match t with [] => true | _ => false end
  | c :: p' =>
    if c =? 42 (* '*' *) then
      fix star (t : list Z) : bool :=
        if match_recursive p' t then true
        else match t with [] => false | _ :: t' => star t' end
    else if c =? 63 (* '?' *) then
      fun t => match t with [] => false | _ :: t' => match_recursive p' t' end
    else
      fun t => match t with
               | [] => false
               | d :: t' => if d =? c then match_recursive p' t' else false
               end
  end.

(** What a glob denotes: ['*'] any sequence, ['?'] one character. *)
Inductive glob_matches : list Z -> list Z -> Prop :=
| glob_nil : glob_matches [] []
| glob_star p t1 t2 : glob_matches p t2 -> glob_matches (42 :: p) (t1 ++ t2)
| glob_any p c t : glob_matches p t -> glob_matches (63 :: p) (c :: t)
| glob_char p c t : c <> 42 -> c <> 63 -> glob_matches p t -> glob_matches (c :: p) (c :: t).

Lemma match_recursive_sound p t : match_recursive p t = true -> glob_matches p t.
Proof.
  revert t. induction p as [|c p IH]; intros t; cbn [match_recursive].
  { destruct t; [constructor|done]. }
  destruct (Z.eqb_spec c 42) as [->|Hs].
  { induction t as [|d t IHt]; destruct (match_recursive p _) eqn:Hm; try done.
    - intros _. apply (glob_star p []). auto.
    - intros _. apply (glob_star p []). auto.
    - intros Ht. specialize (IHt Ht). inversion IHt as [|? t1 t2 Hg| |]; subst; [|lia..].
      by apply (glob_star p (d :: t1)). }
  destruct (Z.eqb_spec c 63) as [->|Hq].
  { destruct t; [done|]. intros. constructor. auto. }
  destruct t as [|d t]; [done|]. destruct (Z.eqb_spec d c) as [->|]; [|done].
  intros. constructor; auto.
Qed.

Lemma match_recursive_complete p t : glob_matches p t -> match_recursive p t = true.
Proof.
  induction 1 as [|p t1 t2 _ IH|p c t _ IH|p c t Hs Hq _ IH]; cbn [match_recursive]; [done|..].
  - rewrite Z.eqb_refl.
    induction t1 as [|d t1 IHt]; cbn [app].
    + destruct t2; by rewrite IH.
    + destruct (match_recursive p (d :: t1 ++ t2)); [done|exact IHt].
  - done.
  - rewrite (proj2 (Z.eqb_neq c 42)), (proj2 (Z.eqb_neq c 63)), Z.eqb_refl by done. done.
Qed.

Definition simple_glob_match `{UnicodeTables} (pattern text : string) (case_insensitive : bool) : bool :=
  let '(pattern, text) :=
    if case_insensitive then (to_lowercase pattern, to_lowercase text) else (pattern, text) in
  match_recursive (chars pattern) (chars text).

(** [cidr_contains] *)
Definition cidr_mask_eq (w prefix net ip : Z) : bool :=
  if prefix =? 0 then true
  else
    let mask := wrap_u w (Z.shiftl (2 ^ w - 1) (w - Z.min prefix w)) in
    Z.land net mask =? Z.land ip mask.

Definition cidr_contains (cidr ip : string) : bool :=
  match parse_ip ip with
  | None => false
  | Some ip_addr =>
    match split_once "/" cidr with
    | Some (net_str, prefix_str) =>
      let prefix := default 0 (parse_unsigned 8 prefix_str) in
      match parse_ip net_str with
      | None => false
      | Some net =>
        match net, ip_addr with
        | V4 net4, V4 ip4 => cidr_mask_eq 32 prefix net4 ip4
        | V6 net6, V6 ip6 => cidr_mask_eq 128 prefix net6 ip6
        | _, _ => false
        end
      end
    | None =>
      match parse_ip cidr with
      | Some a => bool_decide (a = ip_addr)
      | None => false
      end
    end
  end.

(** * Condition evaluation *)

Section Evaluator.
Context `{UnicodeTables, RegexLib}.

(** The pattern handed to the regex engine: case folding is requested with a
    prefix, unless the pattern already has it. *)
Definition regex_pattern (leaf : ConditionLeaf) : string :=
  if negb (case_sensitive leaf) && negb (starts_with (value leaf) "(?i)")
  then "(?i)" +:+ value leaf else value leaf.

Definition match_value (subject : string) (leaf : ConditionLeaf) : bool :=
  match match_type leaf with
  | MExact =>
    if case_sensitive leaf then bool_decide (subject = value leaf)
    else eq_ignore_ascii_case subject (value leaf)
  | MWildcard => simple_glob_match (value leaf) subject (negb (case_sensitive leaf))
  | MRegex => regex_match (regex_pattern leaf) subject
  | MCidr => cidr_contains (value leaf) subject
  | MPresence => negb (is_empty subject)
  | MAbsence => is_empty subject
  end.

Definition eval_leaf (leaf : ConditionLeaf) (ctx : RequestContext) : bool :=
  let result :=
    match field leaf with
    | FIp => match_value (ip ctx) leaf
    | FPath => match_value (path ctx) leaf
    | FMethod => match_value (method ctx) leaf
    | FSessionId => match_value (session_id ctx) leaf
    | FDeviceFp => match_value (device_fp ctx) leaf
    | FContentType => match_value (default "" (content_type ctx)) leaf
    | FHeader =>
      let name := default "" (header_name leaf) in
      let value := default "" (headers ctx !! name) in
      match match_type leaf with
      | MPresence => negb (is_empty value)
      | MAbsence => is_empty value
      | _ => match_value value leaf
      end
    | FCookie =>
      let name := default "" (cookie_name leaf) in
      let value := default "" (cookies ctx !! name) in
      match match_type leaf with
      | MPresence => negb (is_empty value)
      | MAbsence => is_empty value
      | _ => match_value value leaf
      end
    | FPayload =>
      let body_str := default "" (from_utf8 (payload ctx)) in
      match match_type leaf with
      | MPresence => negb (is_empty (payload ctx))
      | MAbsence => is_empty (payload ctx)
      | _ => match_value body_str leaf
      end
    end in
  if negate leaf then negb result else result.

Definition eval_node (node : ConditionNode) (ctx : RequestContext) : bool :=
  cond_eval (fun leaf => eval_leaf leaf ctx) node.

(** * Priority evaluation *)

Definition RuleSet : Type := list (Rule ConditionNode).

(** The guards that skip a rule before its condition is evaluated. *)
Definition tier_applies (ctx : RequestContext) (r : Rule ConditionNode) : bool :=
  match tier r with
  | None => true
  | Some t =>
    let tier_lower := to_lowercase t in
    negb (negb (bool_decide (tier_lower = "global")) &&
          negb (bool_decide (tier_lower = to_lowercase (tier_debug (ctx_tier ctx)))))
  end.

Definition rule_match {C} (r : Rule C) : RuleMatch :=
  mkRuleMatch (id r) (description r) (action r) (risk_score_delta r) (source r).

Fixpoint evaluate (rules : RuleSet) (ctx : RequestContext) (skip_rules : list string)
  : option RuleMatch :=
  match rules with
  | [] => None
  | rule :: rest =>
    if negb (enabled rule) then evaluate rest ctx skip_rules
    else if bool_decide (id rule ∈ skip_rules) then evaluate rest ctx skip_rules
    else if negb (tier_applies ctx rule) then evaluate rest ctx skip_rules
    else if eval_node (condition rule) ctx then
      if bool_decide (action rule = ActLog) then evaluate rest ctx skip_rules
      else Some (rule_match rule)
    else evaluate rest ctx skip_rules
  end.
End Evaluator.

(** * Compilation *)

(** [sort_unstable_by_key] leaves the order of equal keys unspecified. *)
Class UnstableSort := {
  sort_unstable : forall {A : Type}, (A -> Z) -> list A -> list A;
  sort_unstable_perm : forall {A} (key : A -> Z) l, sort_unstable key l ≡ₚ l;
  sort_unstable_sorted : forall {A} (key : A -> Z) l,
    StronglySorted (key_le key) (sort_unstable key l)
}.

Definition insertion_sort : UnstableSort := {|
  sort_unstable A key l := sort_by_key key l;
  sort_unstable_perm A key l := sort_by_key_perm key l;
  sort_unstable_sorted A key l := sort_by_key_sorted key l
|}.

Section Loader.
Context `{RegexLib, UnstableSort}.

Definition check_leaf_regex (rule_id : string) (leaf : ConditionLeaf) : result RuleError unit :=
  if bool_decide (match_type leaf = MRegex)
  then match regex_new (value leaf) with Some _ => Ok tt | None => Err (RegexError rule_id) end
  else Ok tt.

Definition validate_condition_regexes (rule_id : string) (node : ConditionNode)
  : result RuleError unit :=
  cond_check (check_leaf_regex rule_id) node.

(** [Rule { .. }] from a raw rule. *)
Definition build_rule {C} (r : RuleRaw C) : Rule C := {|
  id := raw_id r;
  source := default "system" (raw_source r);
  description := raw_description r;
  enabled := raw_enabled r;
  priority := raw_priority r;
  condition := raw_condition r;
  action := raw_action r;
  risk_score_delta := raw_risk_score_delta r;
  response := raw_response r;
  rate_limit := raw_rate_limit r;
  challenge := raw_challenge r;
  tier := raw_tier r
|}.

(** The per-rule checks of the loop body, in order. *)
Definition check_rule {C} (seen_ids : gset string) (r : RuleRaw C)
  (check_condition : string -> C -> result RuleError unit) : result RuleError unit :=
  if bool_decide (raw_id r ∈ seen_ids) then Err (DuplicateId (raw_id r))
  else if (raw_risk_score_delta r <? -100) || (100 <? raw_risk_score_delta r) then
    Err (ValidationError (raw_id r)
           ("risk_score_delta " +:+ print_int (raw_risk_score_delta r)
            +:+ " out of range [-100, 100]"))
  else if raw_priority r =? 0 then
    Err (ValidationError (raw_id r) "priority must be >= 1")
  else check_condition (raw_id r) (raw_condition r).

(** The loop over the rules, without building them. *)
Fixpoint validate_rules {C} (check_condition : string -> C -> result RuleError unit)
  (seen_ids : gset string) (raw : list (RuleRaw C)) : result RuleError unit :=
  match raw with
  | [] => Ok tt
  | r :: raw =>
    _ ← check_rule seen_ids r check_condition;
    validate_rules check_condition ({[raw_id r]} ∪ seen_ids) raw
  end.

Fixpoint compile_loop (seen_ids : gset string) (raw : list (RuleRaw ConditionNode))
  : result RuleError (list (Rule ConditionNode)) :=
  match raw with
  | [] => Ok []
  | r :: raw =>
    _ ← check_rule seen_ids r validate_condition_regexes;
    rules ← compile_loop ({[raw_id r]} ∪ seen_ids) raw;
    Ok (build_rule r :: rules)
  end.

Definition compile (raw : list (RuleRaw ConditionNode)) : result RuleError RuleSet :=
  rules ← compile_loop ∅ raw;
  Ok (sort_unstable priority rules).

(** [load_from_path]: the five files in order, over the file system and the
    YAML parser. *)
Definition file_names : list string :=
  ["global.yaml"; "critical.yaml"; "high.yaml"; "medium.yaml"; "catch-all.yaml"].

Definition set_system {C} (r : RuleRaw C) : RuleRaw C :=
  mkRuleRaw (raw_id r) (raw_description r) (raw_enabled r) (raw_priority r) (raw_condition r)
    (raw_action r) (raw_risk_score_delta r) (raw_response r) (raw_rate_limit r)
    (raw_challenge r) (raw_tier r) (Some "system").

Definition load_system_files {C} (read_to_string : string -> option string)
  (join : string -> string -> string)
  (parse_rule_file : string -> option (list (RuleRaw C)))
  (base : string) : result RuleError (list (RuleRaw C)) :=
  let load name :=
    let file_path := join base name in
    content ← ok_or (read_to_string file_path) (IoError file_path);
    rules ← ok_or (parse_rule_file content) (ParseError name);
    Ok (map set_system rules) in
  files ← collect_result load file_names;
  Ok (concat files).

Definition load_from_path (read_to_string : string -> option string)
  (join : string -> string -> string)
  (parse_rule_file : string -> option (list (RuleRaw ConditionNode)))
  (base : string) : result RuleError RuleSet :=
  raw ← load_system_files read_to_string join parse_rule_file base;
  compile raw.

(** [load_from_dir]: the custom rules of a directory, unchecked; the first entry
    the directory cannot give ends the list without an error. *)
Fixpoint load_dir_entries {C} (fs : FileSystem)
  (parse_rule_file : string -> option (list (RuleRaw C)))
  (entries : list (option string)) (raw : list (RuleRaw C)) : result RuleError (list (RuleRaw C)) :=
  match entries with
  | Some path :: entries =>
    if bool_decide (path_extension path = Some "yaml") then
      content ← ok_or (fs_read fs path) (IoError path);
      rules ← ok_or (parse_rule_file content) (ParseError path);
      load_dir_entries fs parse_rule_file entries (raw ++ rules)
    else load_dir_entries fs parse_rule_file entries raw
  | _ => Ok raw
  end.
Definition load_from_dir {C} (fs : FileSystem)
  (parse_rule_file : string -> option (list (RuleRaw C))) (dir : string) : result RuleError (list (RuleRaw C)) :=
  entries ← ok_or (fs_read_dir fs dir) (IoError dir);
  load_dir_entries fs parse_rule_file entries [].

(** [load_from_consul] and [seed_rules_to_consul] of this crate. *)
Definition load_from_consul : result RuleError RuleSet := Err (IoError "consul:waf/rules/").
Definition seed_rules_to_consul (_rules_dir : string) : result RuleError unit :=
  Err (IoError "consul:waf/rules/").
End Loader.

(** * Evaluation: the first deciding rule wins *)

Section EvaluateSpec.
Context `{UnicodeTables, RegexLib}.

(** A rule decides the request when no guard skips it, its condition holds
    and its action is not [log]. *)
Definition decides (ctx : RequestContext) (skip : list string) (r : Rule ConditionNode) : bool :=
  enabled r && negb (bool_decide (id r ∈ skip)) && tier_applies ctx r
  && eval_node (condition r) ctx && negb (bool_decide (action r = ActLog)).

Lemma evaluate_cons r rs ctx skip :
  evaluate (r :: rs) ctx skip =
  if decides ctx skip r then Some (rule_match r) else evaluate rs ctx skip.
Proof.
  unfold decides. cbn [evaluate].
  destruct (enabled r), (bool_decide (id r ∈ skip)), (tier_applies ctx r),
    (eval_node (condition r) ctx), (bool_decide (action r = ActLog)); done.
Qed.

Lemma evaluate_find rs ctx skip :
  evaluate rs ctx skip = rule_match <$> List.find (decides ctx skip) rs.
Proof.
  induction rs as [|r rs IH]; [done|]. rewrite evaluate_cons. cbn [List.find].
  by destruct (decides ctx skip r).
Qed.
End EvaluateSpec.

(** The evaluator returns the match of the first rule of the list that is
    enabled, not in [skip_rules], applies to the tier of the request, whose
    condition holds and whose action is not [log]; it returns nothing exactly
    when there is no such rule. *)
Theorem evaluate_first_deciding `{UnicodeTables, RegexLib} rs ctx skip m :
  (evaluate rs ctx skip = Some m <->
     exists pre r post, rs = pre ++ r :: post /\ m = rule_match r /\
       decides ctx skip r = true /\ Forall (fun x => decides ctx skip x = false) pre) /\
  (evaluate rs ctx skip = None <-> Forall (fun x => decides ctx skip x = false) rs).
Proof.
  rewrite evaluate_find. split.
  - destruct (List.find _ _) as [r|] eqn:Hf; cbn; split.
    + intros [= <-]. apply find_first in Hf as (pre & post & -> & Hd & Hpre). eauto 10.
    + intros (pre & r' & post & -> & -> & Hd & Hpre).
      assert (List.find (decides ctx skip) (pre ++ r' :: post) = Some r') as Hf'
        by (apply find_first; eauto). congruence.
    + done.
    + intros (pre & r & post & -> & _ & Hd & _).
      eapply List.find_none in Hf; [|apply in_app_iff; right; by left]. congruence.
  - split.
    + destruct (List.find _ _) as [r|] eqn:Hf; cbn; [done|]. intros _.
      apply List.Forall_forall. intros x Hx. by apply (List.find_none _ _ Hf).
    + intros Hall. destruct (List.find _ _) as [r|] eqn:Hf; [|done].
      apply List.find_some in Hf as [Hin Hd]. rewrite List.Forall_forall in Hall.
      by rewrite Hall in Hd.
Qed.

(** * Compilation: what is accepted, and what comes out *)

Section CompileSpec.
Context `{RegexLib, UnstableSort}.

(** The checks on the fields of a rule. *)
Definition fields_ok {C} (r : RuleRaw C) : Prop :=
  -100 <= raw_risk_score_delta r <= 100 /\ raw_priority r <> 0.

(** The checks on a rule by itself. *)
Definition rule_ok (r : RuleRaw ConditionNode) : Prop :=
  -100 <= raw_risk_score_delta r <= 100 /\ raw_priority r <> 0 /\
  Forall (fun l => match_type l = MRegex -> is_Some (regex_new (value l))) (leaves (raw_condition r)).

Lemma check_leaf_regex_ok rid l :
  check_leaf_regex rid l = Ok tt <-> (match_type l = MRegex -> is_Some (regex_new (value l))).
Proof.
  unfold check_leaf_regex. case_bool_decide as Hm.
  - destruct (regex_new _); split; intros; eauto; try done.
    destruct (H1 Hm) as [? ?]. done.
  - split; intros; [congruence|done].
Qed.

Lemma check_rule_ok {C} chk seen (r : RuleRaw C) :
  check_rule seen r chk = Ok tt <->
  (raw_id r ∉ seen) /\ fields_ok r /\ chk (raw_id r) (raw_condition r) = Ok tt.
Proof.
  unfold check_rule, fields_ok.
  case_bool_decide; [split; [done|tauto]|].
  destruct (_ || _) eqn:Hr; [split; [done|intros (_ & ? & _); lia]|].
  destruct (Z.eqb_spec (raw_priority r) 0); [split; [done|tauto]|].
  split; [intros Hc; repeat split; auto; lia|tauto].
Qed.

Lemma rule_ok_check r :
  rule_ok r <-> fields_ok r /\ validate_condition_regexes (raw_id r) (raw_condition r) = Ok tt.
Proof.
  unfold rule_ok, fields_ok, validate_condition_regexes.
  rewrite cond_check_ok, (Forall_iff _ _ _ (check_leaf_regex_ok (raw_id r))). tauto.
Qed.

Lemma validate_rules_ok {C} chk seen (raw : list (RuleRaw C)) :
  validate_rules chk seen raw = Ok tt <->
  NoDup (map raw_id raw) /\
  Forall (fun r => (raw_id r ∉ seen) /\ fields_ok r /\ chk (raw_id r) (raw_condition r) = Ok tt) raw.
Proof.
  revert seen. induction raw as [|r raw IH]; intros seen; cbn [validate_rules map].
  { split; [intros _; repeat constructor|done]. }
  rewrite NoDup_cons, List.Forall_cons_iff, <-check_rule_ok.
  destruct (check_rule _ _ _) as [[]|e]; cbn; [|split; [done|intros (_ & ? & _); done]].
  rewrite IH, !List.Forall_forall.
  assert (Hfresh : (forall x, In x raw -> raw_id x <> raw_id r) <-> raw_id r ∉ map raw_id raw).
  { rewrite list_elem_of_In, List.in_map_iff. split; [intros Hx (x & ? & ?); by eapply Hx|].
    intros Hn x Hx Heq. apply Hn. eauto. }
  rewrite <-Hfresh. split.
  - intros [Hnd Hall]. split; [split; [|done]|split; [done|]]; intros y Hy; destruct (Hall y Hy); set_solver.
  - intros ((Hne & Hnd) & _ & Hall). split; [done|]. intros y Hy.
    specialize (Hne y Hy). destruct (Hall y Hy). set_solver.
Qed.

Lemma validate_rules_start {C} chk (raw : list (RuleRaw C)) :
  validate_rules chk ∅ raw = Ok tt <->
  NoDup (map raw_id raw) /\ Forall (fun r => fields_ok r /\ chk (raw_id r) (raw_condition r) = Ok tt) raw.
Proof. rewrite validate_rules_ok, !List.Forall_forall. set_solver. Qed.

Lemma compile_loop_validate seen raw :
  compile_loop seen raw =
  (_ ← validate_rules validate_condition_regexes seen raw; Ok (map build_rule raw)).
Proof.
  revert seen. induction raw as [|r raw IH]; intros seen; [done|]. cbn [compile_loop validate_rules].
  destruct (check_rule _ _ _); cbn; [|done]. rewrite IH. by destruct (validate_rules _ _ raw).
Qed.

Lemma compile_ok raw rs :
  compile raw = Ok rs <->
  rs = sort_unstable priority (map build_rule raw) /\ NoDup (map raw_id raw) /\
  Forall rule_ok raw.
Proof.
  unfold compile. rewrite compile_loop_validate, (Forall_iff _ _ _ rule_ok_check).
  pose proof (validate_rules_start validate_condition_regexes raw) as Hv.
  destruct (validate_rules _ _ _) as [[]|e]; cbn.
  - split; [intros [= <-]; split; [done|by apply Hv]|by intros (-> & _)].
  - split; [done|]. intros (_ & Hok). by apply Hv in Hok.
Qed.

Lemma compile_loop_err seen raw e :
  compile_loop seen raw = Err e ->
  exists pre r post, raw = pre ++ r :: post /\
    compile_loop seen pre = Ok (map build_rule pre) /\
    check_rule (seen ∪ list_to_set (map raw_id pre)) r validate_condition_regexes = Err e.
Proof.
  revert seen. induction raw as [|r raw IH]; intros seen; cbn [compile_loop]; [done|].
  destruct (check_rule _ _ _) as [[]|e'] eqn:Hc; cbn.
  - destruct (compile_loop _ raw) eqn:Hl; cbn; [done|]. intros [= ->].
    destruct (IH _ Hl) as (pre & r' & post & -> & Hok & Herr).
    exists (r :: pre), r', post. split; [done|]. split.
    + cbn [compile_loop map]. rewrite Hc. cbn. by rewrite Hok.
    + cbn [map list_to_set]. rewrite <-Herr. f_equal. set_solver.
  - intros [= ->]. exists [], r, raw. split; [done|]. split; [done|]. cbn.
    rewrite <-Hc. f_equal. set_solver.
Qed.
End CompileSpec.

(** C22: [RuleLoader::compile] succeeds exactly when the ids are pairwise distinct
    and every rule has a score delta in [-100, 100], a non-zero priority and only
    well-formed regex patterns; the rule set is then the built rules, all of them
    and nothing else, in ascending priority. *)
Theorem compile_accepts_iff `{RegexLib, UnstableSort} raw :
  ((exists rs, compile raw = Ok rs) <-> NoDup (map raw_id raw) /\ Forall rule_ok raw) /\
  (forall rs, compile raw = Ok rs ->
     rs ≡ₚ map build_rule raw /\ StronglySorted (key_le priority) rs).
Proof.
  split.
  - split.
    + intros [rs Hrs]. by apply compile_ok in Hrs as (_ & ?).
    + intros [Hnd Hok]. eexists. by apply compile_ok.
  - intros rs (-> & _)%compile_ok. split; [apply sort_unstable_perm|apply sort_unstable_sorted].
Qed.

(** A rejected rule list has a first offending rule: everything before it
    compiles, and the reported error is the error of the checks on that rule
    against the ids seen before it. *)
Theorem compile_reports_first_error `{RegexLib, UnstableSort} raw e :
  compile raw = Err e ->
  exists pre r post, raw = pre ++ r :: post /\
    compile pre = Ok (sort_unstable priority (map build_rule pre)) /\
    check_rule (list_to_set (map raw_id pre)) r validate_condition_regexes = Err e.
Proof.
  unfold compile. destruct (compile_loop ∅ raw) as [|e'] eqn:Hl; cbn; [done|]. intros [= ->].
  apply compile_loop_err in Hl as (pre & r & post & -> & Hok & Herr).
  exists pre, r, post. rewrite Hok. cbn. split; [done|]. split; [done|]. rewrite <-Herr. f_equal. set_solver.
Qed.

(** C9: on a compiled rule set the reported match belongs to a deciding rule of
    the input, and no deciding rule of the input has a smaller priority number;
    nothing is reported exactly when no rule of the input decides. *)
Theorem evaluate_compiled_minimal_priority `{UnicodeTables, RegexLib, UnstableSort} raw rs ctx skip :
  compile raw = Ok rs ->
  (forall m, evaluate rs ctx skip = Some m ->
     exists r, In r raw /\ m = rule_match (build_rule r) /\
       decides ctx skip (build_rule r) = true /\
       forall r', In r' raw -> decides ctx skip (build_rule r') = true ->
                  raw_priority r <= raw_priority r') /\
  (evaluate rs ctx skip = None <-> Forall (fun r => decides ctx skip (build_rule r) = false) raw).
Proof.
  intros (-> & _ & _)%compile_ok. rewrite evaluate_find.
  pose proof (find_least priority (decides ctx skip) _ (map build_rule raw)
                (sort_unstable_sorted priority _) (sort_unstable_perm priority _)) as Hf.
  destruct (List.find _ _) as [x|]; cbn.
  - destruct Hf as ((r & <- & Hr)%in_map_iff & Hd & Hmin). split.
    + intros m [= <-]. exists r. repeat split; [done..|]. intros r' Hr' Hd'.
      apply (Hmin (build_rule r')); [by apply in_map|done].
    + split; [done|]. rewrite List.Forall_forall. intros Hall. by rewrite Hall in Hd.
  - split; [done|]. split; [|done]. intros _. apply List.Forall_forall. intros r Hr.
    by apply Hf, in_map.
Qed.

(** C36: wildcard matching accepts exactly the texts the glob denotes: ['*'] any
    sequence of characters, ['?'] any one character, every other character itself,
    on the lowercased texts when matching ignores case. *)
Theorem simple_glob_match_correct `{UnicodeTables} pattern text ci :
  simple_glob_match pattern text ci = true <->
  glob_matches (chars (if (ci : bool) then to_lowercase pattern else pattern))
               (chars (if ci then to_lowercase text else text)).
Proof.
  unfold simple_glob_match. destruct ci;
    (split; [apply match_recursive_sound|apply match_recursive_complete]).
Qed.

(** The mask test against the top bits of the two addresses. *)
Lemma cidr_mask_eq_spec w p net ip :
  0 < w -> 0 <= p -> in_u w net -> in_u w ip ->
  cidr_mask_eq w p net ip =
  ((p =? 0) || (net / 2 ^ (w - Z.min p w) =? ip / 2 ^ (w - Z.min p w))).
Proof.
  intros Hw Hp Hn Hi. unfold cidr_mask_eq. destruct (Z.eqb_spec p 0); [done|]. cbn [orb].
  apply Bool.eq_true_iff_eq. rewrite !Z.eqb_eq. apply mask_eq_bits; [lia|done..].
Qed.

(** C35: whether a network contains an address: for a well-formed [net/prefix] the test
    holds exactly when the two addresses are of the same family and their first
    [min prefix width] bits agree; a text without a slash is compared as an address,
    and contains nothing when it is not one. *)
Theorem cidr_contains_prefix_bits cidr ip_str ip :
  parse_ip ip_str = Some ip ->
  (forall net_str prefix_str net prefix,
     cidr = net_str +:+ "/" +:+ prefix_str -> ~ In ("/"%char) (str_bytes net_str) ->
     parse_ip net_str = Some net -> parse_unsigned 8 prefix_str = Some prefix -> 0 <= prefix ->
     cidr_contains cidr ip_str =
     (ip_width net =? ip_width ip) &&
     (let host_bits := ip_width net - Z.min prefix (ip_width net) in
      (prefix =? 0) || (ip_num net / 2 ^ host_bits =? ip_num ip / 2 ^ host_bits))) /\
  (~ In ("/"%char) (str_bytes cidr) -> cidr_contains cidr ip_str = bool_decide (parse_ip cidr = Some ip)).
Proof.
  intros Hi. split.
  - intros net_str prefix_str net prefix -> Hsplit Hn Hp Hp0. unfold cidr_contains.
    change ("/" +:+ prefix_str) with (String "/" prefix_str).
    rewrite (split_once_app "/" net_str prefix_str Hsplit), Hi, Hp, Hn. cbn [default].
    apply parse_ip_wf in Hn, Hi. destruct net, ip; cbn in *; try done;
      by rewrite cidr_mask_eq_spec by (done || lia).
  - intros Hno. unfold cidr_contains. rewrite Hi.
    destruct (split_once "/" cidr) as [[x y]|] eqn:Hs.
    + apply split_once_Some in Hs as ->. destruct Hno. rewrite str_bytes_app. apply in_or_app. right. by left.
    + destruct (parse_ip cidr) as [a|]; [|by rewrite bool_decide_eq_false_2].
      apply bool_decide_ext. split; [by intros ->|by intros [= ->]].
Qed.

(** A CIDR whose prefix is not a number from 0 to 255 is read as prefix 0: it
    contains every address of the family of its network. *)
Theorem cidr_bad_prefix_matches_family net_str prefix_str ip_str net ip :
  parse_ip net_str = Some net -> parse_ip ip_str = Some ip ->
  parse_unsigned 8 prefix_str = None ->
  ~ In ("/"%char) (str_bytes net_str) ->
  cidr_contains (net_str +:+ "/" +:+ prefix_str) ip_str = (ip_width net =? ip_width ip).
Proof.
  intros Hn Hi Hp Hsplit. unfold cidr_contains.
  change ("/" +:+ prefix_str) with (String "/" prefix_str).
  rewrite (split_once_app "/" net_str prefix_str Hsplit), Hi, Hp, Hn. by destruct net, ip.
Qed.

(** * Evaluation on concrete rules *)

Definition sample_leaf (f : Field) (m : MatchType) (v : string) : ConditionLeaf :=
  mkLeaf f m v None None false false.
Definition sample_raw (rid : string) (prio : Z) (c : ConditionNode) (a : Action)
  : RuleRaw ConditionNode :=
  mkRuleRaw rid "" true prio c a 5 None None None None None.
Definition sample_rules : list (RuleRaw ConditionNode) :=
  [sample_raw "late" 20 (CLeaf (sample_leaf FPath MWildcard "/API/*")) ActBlock;
   sample_raw "audit" 1 (CLeaf (sample_leaf FMethod MExact "get")) ActLog;
   sample_raw "early" 10 (CAnd [CLeaf (sample_leaf FIp MCidr "10.0.0.0/8");
                                CLeaf (sample_leaf FPath MRegex "data")]) ActRateLimit].
Definition sample_ctx : RequestContext :=
  mkRequestContext "10.9.8.7" "/api/(?i)data" "GET" ∅ "" ∅ CatchAll "sess" "fp" None.

Definition sample_set : RuleSet :=
  sort_unstable (UnstableSort := insertion_sort) priority (map build_rule sample_rules).

Example sample_compiles :
  compile (H := literal_regex) (H0 := insertion_sort) sample_rules = Ok sample_set.
Proof. reflexivity. Qed.

Lemma evaluate_compiled_minimal_priority_witness :
  evaluate (H := plain_unicode) (H0 := literal_regex) sample_set sample_ctx [] =
    Some (mkRuleMatch "early" "" ActRateLimit 5 "system") /\
  (evaluate (H := plain_unicode) (H0 := literal_regex) sample_set sample_ctx ["early"; "late"] = None <->
   Forall (fun r => decides (H := plain_unicode) (H0 := literal_regex) sample_ctx ["early"; "late"]
                      (build_rule r) = false) sample_rules).
Proof.
  split; [reflexivity|].
  exact (proj2 (@evaluate_compiled_minimal_priority plain_unicode literal_regex insertion_sort
           sample_rules sample_set sample_ctx ["early"; "late"] eq_refl)).
Defined.

Lemma compile_reports_first_error_witness :
  exists pre r post,
    sample_rules ++ [sample_raw "late" 0 (COr []) ActLog] = pre ++ r :: post /\
    compile (H := literal_regex) (H0 := insertion_sort) pre =
      Ok (sort_unstable (UnstableSort := insertion_sort) priority (map build_rule pre)) /\
    check_rule (list_to_set (map raw_id pre)) r
      (validate_condition_regexes (H := literal_regex)) = Err (DuplicateId "late").
Proof.
  apply (@compile_reports_first_error literal_regex insertion_sort). reflexivity.
Defined.

Lemma cidr_contains_prefix_bits_witness :
  cidr_contains ("192.168.0.0" +:+ "/" +:+ "20") "192.168.15.1" = true /\
  cidr_contains ("192.168.0.0" +:+ "/" +:+ "20") "192.168.16.1" = false /\
  cidr_contains "192.168.15.1" "192.168.15.1" = true.
Proof.
  split; [|split].
  - rewrite (proj1 (cidr_contains_prefix_bits ("192.168.0.0" +:+ "/" +:+ "20") "192.168.15.1" (V4 3232239361) eq_refl)
               "192.168.0.0" "20" (V4 3232235520) 20);
      [vm_compute; reflexivity | reflexivity | vm_compute; intuition discriminate | reflexivity | reflexivity | lia].
  - rewrite (proj1 (cidr_contains_prefix_bits ("192.168.0.0" +:+ "/" +:+ "20") "192.168.16.1" (V4 3232239617) eq_refl)
               "192.168.0.0" "20" (V4 3232235520) 20);
      [vm_compute; reflexivity | reflexivity | vm_compute; intuition discriminate | reflexivity | reflexivity | lia].
  - rewrite (proj2 (cidr_contains_prefix_bits "192.168.15.1" "192.168.15.1" (V4 3232239361) eq_refl));
      [vm_compute; reflexivity | vm_compute; intuition discriminate].
Defined.

Lemma cidr_bad_prefix_matches_family_witness :
  cidr_contains ("10.0.0.0" +:+ "/" +:+ "8x") "203.0.113.9" = true.
Proof.
  apply (cidr_bad_prefix_matches_family "10.0.0.0" "8x" "203.0.113.9" (V4 167772160) (V4 3405803785));
    [reflexivity | reflexivity | reflexivity | vm_compute; intuition discriminate].
Defined.

(** * Custom rules *)

(** The paths before the first entry that the directory cannot give. *)
Fixpoint given (entries : list (option string)) : list string :=
  match entries with Some path :: entries => path :: given entries | _ => [] end.

(** The rules of one file of the directory. *)
Definition dir_file_rules {C} (fs : FileSystem) (parse : string -> option (list (RuleRaw C))) (path : string)
  : result RuleError (list (RuleRaw C)) :=
  if bool_decide (path_extension path = Some "yaml") then
    content ← ok_or (fs_read fs path) (IoError path); ok_or (parse content) (ParseError path)
  else Ok [].

(** The custom rules of a directory are those of its YAML files in order, up to the first
    entry the directory cannot give, which ends the list silently; a file that cannot be
    read or parsed before that makes the whole directory fail with its error. *)
Theorem load_from_dir_files {C} fs (parse : string -> option (list (RuleRaw C))) dir :
  load_from_dir fs parse dir =
  (entries ← ok_or (fs_read_dir fs dir) (IoError dir);
   files ← collect_result (dir_file_rules fs parse) (given entries);
   Ok (concat files)).
Proof.
  unfold load_from_dir. destruct (fs_read_dir fs dir) as [entries|]; [|done]. cbn [ok_or mbind result_mbind].
  assert (Hgo : forall raw, load_dir_entries fs parse entries raw =
            (files ← collect_result (dir_file_rules fs parse) (given entries); Ok (raw ++ concat files)));
    [|apply Hgo].
  assert (Hstep : forall path entries raw, load_dir_entries fs parse (Some path :: entries) raw =
            (rules ← dir_file_rules fs parse path; load_dir_entries fs parse entries (raw ++ rules))).
  { intros path es raw. cbn [load_dir_entries]. unfold dir_file_rules. case_bool_decide; [|cbn; by rewrite app_nil_r].
    destruct (fs_read fs path) as [content|]; cbn; [|done]. by destruct (parse content). }
  induction entries as [|[path|] entries IH]; intros raw; [by cbn; rewrite app_nil_r| |by cbn; rewrite app_nil_r].
  rewrite Hstep. cbn [given collect_result]. destruct (dir_file_rules fs parse path) as [rules|]; [|done].
  cbn [mbind result_mbind]. rewrite IH. destruct (collect_result _ _); cbn; by rewrite <-?app_assoc.
Qed.
