(* ===== verification/Glob.v ===== *)
(** The glob matcher of [crates/rule/src/lib.rs], which nothing calls: it indexes
    characters but slices bytes, and after a star it wants more text. *)
From S2P Require Import Prelude Utf8 RustStd Net Extern WafTypes RuleTypes RuleEngine.
Local Open Scope Z_scope.

(** [&s[i..]]: it panics ([None]) beyond the end and inside a character. *)
Definition slice_from (s : string) (i : nat) : option string :=
  let bytes := str_bytes s in
  match skipn i bytes with
  | [] => if (i =? length bytes)%nat then Some "" else None
  | b :: rest => if cont_byte (byte_val b) then None else Some (str_of (b :: rest))
  end.

Section Loops.
(** The recursive call. *)
Context (rec : string -> string -> option bool) (pattern text : string).

(** The loop over the text after a star. *)
Fixpoint star_loop (pi ti : nat) (t_rest : list Z) : option bool :=
  match t_rest with
  | [] => Some false
  | _ :: t_rest =>
    p ← slice_from pattern (S pi);
    t ← slice_from text ti;
    found ← rec p t;
    if (found : bool) then Some true else star_loop pi (S ti) t_rest
  end.

(** The outer loop, on the characters from [pi] and from [ti]. *)
Fixpoint glob_loop (p_rest t_rest : list Z) (pi ti : nat) : option bool :=
  match p_rest, t_rest with
  | c :: p_rest', d :: t_rest' =>
    if c =? 42 then
      match p_rest' with
      | [] => Some true
      | _ => star_loop pi ti t_rest
      end
    else if c =? 63 then glob_loop p_rest' t_rest' (S pi) (S ti)
    else if c =? d then glob_loop p_rest' t_rest' (S pi) (S ti)
    else Some false
  | [], [] => Some true
  | _, _ => Some false
  end.
End Loops.

(** Each call is on a shorter pattern. *)
Fixpoint glob_fuel (fuel : nat) (pattern text : string) : option bool :=
  match fuel with
  | O => None
  | S fuel => glob_loop (glob_fuel fuel) pattern text (chars pattern) (chars text) 0 0
  end.
Definition glob_match (pattern text : string) : option bool := glob_fuel (S (str_len pattern)) pattern text.

(** What it matches: a star stands for any text, but only before more of it. *)
Inductive greedy_glob : list Z -> list Z -> Prop :=
| greedy_nil : greedy_glob [] []
| greedy_last t : t <> [] -> greedy_glob [42] t
| greedy_star p t1 t2 : p <> [] -> t2 <> [] -> greedy_glob p t2 -> greedy_glob (42 :: p) (t1 ++ t2)
| greedy_any p c t : greedy_glob p t -> greedy_glob (63 :: p) (c :: t)
| greedy_char p c t : c <> 42 -> c <> 63 -> greedy_glob p t -> greedy_glob (c :: p) (c :: t).

Lemma greedy_is_glob p t : greedy_glob p t -> glob_matches p t.
Proof.
  induction 1 as [|t _|p t1 t2 _ _ _ IH| |]; [constructor| |by constructor..].
  rewrite <-(app_nil_r t). by repeat constructor.
Qed.

(** * On ASCII text *)

Definition text_of (l : list Z) : string := str_of (map byte_of l).
Definition all_ascii (l : list Z) : Prop := Forall (fun z => 0 <= z < 128) l.

Lemma text_bytes l : str_bytes (text_of l) = map byte_of l.
Proof. apply str_bytes_of. Qed.
Lemma text_chars l : all_ascii l -> chars (text_of l) = l.
Proof.
  intros Hl. rewrite chars_ascii.
  - rewrite text_bytes, List.map_map. rewrite <-(List.map_id l) at 2. apply List.map_ext_in. intros z Hz.
    apply byte_val_of. apply (List.Forall_forall _ _) with (x := z) in Hl; [lia|done].
  - apply is_ascii_Forall. rewrite text_bytes. apply List.Forall_forall. intros a (z & <- & Hz)%in_map_iff.
    apply (List.Forall_forall _ _) with (x := z) in Hl; [|done]. rewrite byte_val_of; lia.
Qed.

Lemma slice_text l1 l2 : all_ascii l2 -> slice_from (text_of (l1 ++ l2)) (length l1) = Some (text_of l2).
Proof.
  intros Hl. unfold slice_from. rewrite text_bytes, List.map_app.
  rewrite <-(length_map byte_of l1), skipn_app, skipn_all, Nat.sub_diag, skipn_O. cbn [app].
  destruct l2 as [|z l2]; cbn [map].
  - by rewrite app_nil_r, Nat.eqb_refl.
  - inversion Hl; subst. unfold cont_byte. rewrite byte_val_of by lia.
    destruct (Z.leb_spec 128 z); [lia|done].
Qed.

Section Ascii.
Context (fuel : nat) (IH : forall p t, (length p < fuel)%nat -> all_ascii p -> all_ascii t ->
  exists b, glob_fuel fuel (text_of p) (text_of t) = Some b /\ (b = true <-> greedy_glob p t)).

Lemma star_loop_ascii p1 p2 t1 t2 :
  all_ascii p2 -> all_ascii t2 -> (length p2 < fuel)%nat ->
  exists b, star_loop (glob_fuel fuel) (text_of (p1 ++ 42 :: p2)) (text_of (t1 ++ t2)) (length p1) (length t1) t2 = Some b /\
    (b = true <-> exists u1 u2, t2 = u1 ++ u2 /\ u2 <> [] /\ greedy_glob p2 u2).
Proof using IH.
  intros Hp. revert t1. induction t2 as [|d t2 IHt]; intros t1 Ht Hlen; cbn [star_loop].
  - exists false. split; [done|]. split; [done|]. intros (u1 & u2 & Hu & Hne & _). by destruct u1, u2.
  - replace (S (length p1)) with (length (p1 ++ [42])) by (rewrite length_app; cbn; lia).
    replace (p1 ++ 42 :: p2) with ((p1 ++ [42]) ++ p2) by (by rewrite <-app_assoc).
    rewrite slice_text by done. cbn [mbind option_bind]. rewrite slice_text by done. cbn [mbind option_bind].
    destruct (IH p2 (d :: t2) Hlen Hp Ht) as (b & Hb & Hbg). rewrite Hb. cbn [mbind option_bind]. destruct b.
    + exists true. split; [done|]. split; [|done]. intros _. exists [], (d :: t2). split; [done|]. split; [done|]. by apply Hbg.
    + replace (S (length t1)) with (length (t1 ++ [d])) by (rewrite length_app; cbn; lia).
      replace (t1 ++ d :: t2) with ((t1 ++ [d]) ++ t2) by (by rewrite <-app_assoc).
      inversion Ht; subst.
      destruct (IHt (t1 ++ [d])) as (b & Hl & Hg); [done|done|]. rewrite <-app_assoc in Hl. cbn [app] in Hl.
      exists b. rewrite <-!app_assoc. cbn [app]. rewrite length_app, Nat.add_1_r in *.
      split; [exact Hl|]. rewrite Hg. split.
      * intros (u1 & u2 & -> & Hne & Hu). by exists (d :: u1), u2.
      * intros ([|x u1] & u2 & Hu & Hne & Hgr); cbn in Hu; [subst; by apply Hbg in Hgr|].
        injection Hu as -> ->. by exists u1, u2.
Qed.

Lemma glob_loop_ascii p1 p2 t1 t2 :
  all_ascii p2 -> all_ascii t2 -> (length p2 <= fuel)%nat ->
  exists b, glob_loop (glob_fuel fuel) (text_of (p1 ++ p2)) (text_of (t1 ++ t2)) p2 t2 (length p1) (length t1) = Some b /\
    (b = true <-> greedy_glob p2 t2).
Proof using IH.
  revert p1 t1 t2. induction p2 as [|c p2 IHp]; intros p1 t1 t2 Hp Ht Hlen.
  { exists (match t2 with [] => true | _ => false end). split; [by destruct t2|].
    destruct t2; split; try done; [constructor|]. intros Hg. inversion Hg. }
  inversion Hp as [|? ? Hc Hp2]; subst. cbn [length] in Hlen.
  destruct t2 as [|d t2]; cbn [glob_loop].
  { exists false. split; [done|]. split; [done|]. intros Hg. inversion Hg as [|t Hne|p u1 u2 _ Hne| |]; subst; [done|].
    by destruct u1, u2. }
  inversion Ht as [|? ? Hd Ht2]; subst.
  assert (Hnext : exists b, glob_loop (glob_fuel fuel) (text_of (p1 ++ c :: p2)) (text_of (t1 ++ d :: t2)) p2 t2
                              (S (length p1)) (S (length t1)) = Some b /\ (b = true <-> greedy_glob p2 t2)).
  { destruct (IHp (p1 ++ [c]) (t1 ++ [d]) t2 Hp2 Ht2 ltac:(lia)) as (b & Hb & Hg).
    rewrite <-!app_assoc, !length_app, !Nat.add_1_r in Hb. cbn [app] in Hb. by exists b. }
  destruct (Z.eqb_spec c 42) as [->|Hs].
  - destruct p2 as [|c' p2]; [exists true; split; [done|]; split; [|done]; intros _; by constructor|].
    destruct (star_loop_ascii p1 (c' :: p2) t1 (d :: t2) Hp2 Ht) as (b & Hb & Hg); [lia|].
    exists b. split; [exact Hb|]. rewrite Hg. split.
    + intros (u1 & u2 & -> & Hne & Hu). by apply greedy_star.
    + intros Hgr. inversion Hgr as [|?|? u1 u2 _ Hne Hu| |]; subst; [|done]. by exists u1, u2.
  - destruct (Z.eqb_spec c 63) as [->|Hq].
    + destruct Hnext as (b & Hb & Hg). exists b. split; [exact Hb|]. rewrite Hg.
      split; [by constructor|]. intros Hgr. by inversion Hgr; subst.
    + destruct (Z.eqb_spec c d) as [->|Hne].
      * destruct Hnext as (b & Hb & Hg). exists b. split; [exact Hb|]. rewrite Hg.
        split; [by constructor|]. intros Hgr. by inversion Hgr; subst.
      * exists false. split; [done|]. split; [done|]. intros Hgr. by inversion Hgr; subst.
Qed.
End Ascii.

(** On ASCII text the matcher never panics and runs to an answer. *)
Theorem glob_match_ascii p t :
  all_ascii p -> all_ascii t ->
  exists b, glob_match (text_of p) (text_of t) = Some b /\ (b = true <-> greedy_glob p t).
Proof.
  assert (Hfuel : forall fuel p t, (length p < fuel)%nat -> all_ascii p -> all_ascii t ->
            exists b, glob_fuel fuel (text_of p) (text_of t) = Some b /\ (b = true <-> greedy_glob p t)).
  { induction fuel as [|fuel IH]; intros q u Hlen Hq Hu; [lia|]. cbn [glob_fuel]. rewrite !text_chars by done.
    by apply (glob_loop_ascii fuel IH [] q [] u); [| |lia]. }
  intros Hp Ht. unfold glob_match. apply Hfuel; [|done|done].
  assert (Hl : str_len (text_of p) = length p); [|lia]. clear. unfold text_of. induction p as [|z p IH]; [done|]. cbn. by rewrite IH.
Qed.

(** A star does not stand for the empty end of a text, and a character of more than
    one byte before a star makes the slice panic. *)
Example star_wants_text : glob_match "a*" "a" = Some false. Proof. reflexivity. Qed.
Example wide_char_panics : glob_match (utf8_encode 233 +:+ "*b") (utf8_encode 233 +:+ "ab") = None. Proof. reflexivity. Qed.
