(* ===== verification/Serde.v ===== *)
(** Reading typed data from a document: the data model of [serde] as an interface,
    and what its derived readers do with structs, enums and their attributes.  The
    schemas of the rule crates are written with these readers. *)
From S2P Require Import Prelude.
Local Open Scope Z_scope.

(** * The data model *)

(** A self-describing value as a reader sees it: each accessor is the value that the
    format offers to a visitor of that type.  Names of fields and variants are texts;
    a map is given with its entries in order. *)
Class DataModel (T : Type) := {
  dm_str : T -> option string;
  dm_bool : T -> option bool;
  dm_int : T -> option Z;
  dm_null : T -> bool;
  dm_seq : T -> option (list T);
  dm_map : T -> option (list (string * T));
  (** the name of a variant and its payload *)
  dm_enum : T -> option (string * option T);
  dm_size : T -> nat;
  dm_seq_size : forall v l, dm_seq v = Some l -> (list_sum (map (fun x => S (dm_size x)) l) <= dm_size v)%nat;
  dm_map_size : forall v m, dm_map v = Some m -> (list_sum (map (fun kv => S (dm_size (snd kv))) m) <= dm_size v)%nat;
  dm_enum_size : forall v k x, dm_enum v = Some (k, Some x) -> (dm_size x < dm_size v)%nat
}.

(** A format: documents, and the contents a reader that must look twice (an untagged
    or internally tagged enum) keeps of them. *)
Class Format (D C : Type) `{DataModel D, DataModel C} := { buffered : D -> option C }.

(** Contents are of one shape, and an enum is a text or a map of one entry. *)
Class ContentLaws (C : Type) `{DataModel C} := {
  content_map_seq : forall c m, dm_map c = Some m -> dm_seq c = None;
  content_enum : forall c,
    dm_enum c = match dm_str c, dm_map c with
                | Some s, _ => Some (s, None)
                | None, Some [(k, x)] => Some (k, Some x)
                | None, _ => None
                end;
  content_map_str : forall c m, dm_map c = Some m -> dm_str c = None
}.

(** YAML names a variant with data by a tag: a map is not an enum. *)
Class TagFormat (D : Type) `{DataModel D} := {
  map_not_enum : forall d m, dm_map d = Some m -> dm_enum d = None
}.

(** * Readers of scalars, options and variants *)

Section Readers.
Context {T : Type} `{DataModel T}.

(** An integer of a machine type. *)
Definition int_in (lo hi : Z) (v : T) : option Z :=
  z ← dm_int v; if (lo <=? z) && (z <=? hi) then Some z else None.
Definition u8 : T -> option Z := int_in 0 255.
Definition u16 : T -> option Z := int_in 0 65535.
Definition u32 : T -> option Z := int_in 0 4294967295.
Definition u64 : T -> option Z := int_in 0 18446744073709551615.
Definition i8 : T -> option Z := int_in (-128) 127.
Definition i32 : T -> option Z := int_in (-2147483648) 2147483647.

Definition assoc {A} (k : string) (l : list (string * A)) : option A :=
  snd <$> List.find (fun kv => String.eqb (fst kv) k) l.

(** A variant without data, by the names that [rename_all] and [alias] give. *)
Definition unit_variant {A} (names : list (string * A)) (v : T) : option A :=
  '(k, payload) ← dm_enum v;
  match payload with
  | None => assoc k names
  | Some x => if dm_null x then assoc k names else None
  end.

Definition seq_of {A} (read : T -> option A) (v : T) : option (list A) := l ← dm_seq v; mapM read l.

(** [HashMap<String, String>]: a later entry replaces an earlier one. *)
Definition string_map (v : T) : option (gmap string string) :=
  m ← dm_map v;
  kvs ← mapM (fun kv => s ← dm_str (snd kv); Some (fst kv, s)) m;
  Some (foldl (fun acc kv => <[fst kv := snd kv]> acc) ∅ kvs).

(** * Structs *)

(** What a struct is read from: the entries of a map, or values in the order of the
    fields. *)
Inductive parts : Type :=
| Named (entries : list (string * T))
| Positional (values : list T).

Definition parts_of (v : T) : option parts :=
  match dm_map v with
  | Some m => Some (Named m)
  | None => Positional <$> dm_seq v
  end.

(** The value of each field.  A field given twice is an error, and so is a position
    beyond the fields; an unknown field is ignored. *)
Definition field_value (m : list (string * T)) (name : string) : option (option T) :=
  match List.filter (fun kv => String.eqb (fst kv) name) m with
  | [] => Some None
  | [kv] => Some (Some (snd kv))
  | _ => None
  end.

Record fields := mkFields { by_name : bool; value_at : nat -> option T }.

Definition struct_fields (names : list string) (p : parts) : option fields :=
  match p with
  | Named m => l ← mapM (field_value m) names; Some (mkFields true (fun i => nth i l None))
  | Positional l =>
    if (length l <=? length names)%nat then Some (mkFields false (fun i => nth_error l i)) else None
  end.

Definition required {A} (read : T -> option A) (s : fields) (i : nat) : option A := value_at s i ≫= read.
(** [Option<A>]: a missing entry is [None], a missing position an error. *)
Definition optional {A} (read : T -> option A) (s : fields) (i : nat) : option (option A) :=
  match value_at s i with
  | None => if by_name s then Some None else None
  | Some v => if dm_null v then Some None else Some <$> read v
  end.
(** [#[serde(default)]] *)
Definition defaulted {A} (d : A) (read : T -> option A) (s : fields) (i : nat) : option A :=
  match value_at s i with
  | None => Some d
  | Some v => read v
  end.
(** [#[serde(default)]] on an option. *)
Definition optional_default {A} (read : T -> option A) (s : fields) (i : nat) : option (option A) :=
  match value_at s i with
  | None => Some None
  | Some v => if dm_null v then Some None else Some <$> read v
  end.
End Readers.
Arguments parts T : clear implicits.
Arguments fields T : clear implicits.
Arguments Named {T} entries.
Arguments Positional {T} values.

(** * Internally tagged enums *)

(** [#[serde(tag = "type")]]: the tag is the entry [type], or the first position; the
    rest is what the variant is read from. *)
Definition split_tag {T} `{DataModel T} (p : parts T) : option (string * parts T) :=
  match p with
  | Named m =>
    t ← mjoin (field_value m "type");
    tag ← dm_str t;
    Some (tag, Named (List.filter (fun kv => negb (String.eqb (fst kv) "type")) m))
  | Positional [] => None
  | Positional (t :: l) => tag ← dm_str t; Some (tag, Positional l)
  end.

(** A variant without data ignores the entries of a map, but no positions. *)
Definition no_data {T} (p : parts T) : option unit :=
  match p with Named _ | Positional [] => Some tt | Positional _ => None end.

Definition parts_size {T} `{DataModel T} (p : parts T) : nat :=
  match p with
  | Named m => list_sum (map (fun kv => S (dm_size (snd kv))) m)
  | Positional l => list_sum (map (fun x => S (dm_size x)) l)
  end.

(** * Writing *)

(** [Serializer]; a struct is written as a map of its fields, and a variant without
    data as a text. *)
Class Serializer (O : Type) := {
  s_str : string -> O;
  s_bool : bool -> O;
  s_null : O;
  s_seq : list O -> O;
  s_map : list (string * O) -> O;
  (** a variant with data, as the derived writer asks for it *)
  s_variant : string -> O -> O
}.

(** What is written is read back. *)
Class ReadsBack (C : Type) `{DataModel C, Serializer C} := {
  rb_str : forall s, dm_str (s_str s) = Some s;
  rb_enum : forall s, dm_enum (s_str s) = Some (s, None);
  rb_bool : forall b, dm_bool (s_bool b) = Some b;
  rb_null : dm_null s_null = true;
  rb_not_null : forall s, dm_null (s_str s) = false;
  rb_seq : forall l, dm_seq (s_seq l) = Some l;
  rb_map : forall m, dm_map (s_map m) = Some m;
  rb_map_enum : forall m,
    dm_enum (s_map m) = match m with [(k, x)] => Some (k, Some x) | _ => None end
}.

(** * Lemmas *)

Lemma mapM_ext_In {A B} (f g : A -> option B) l : (forall x, In x l -> f x = g x) -> mapM f l = mapM g l.
Proof.
  induction l as [|x l IH]; intros Hfg; [done|]. cbn. rewrite (Hfg x) by (by left).
  rewrite IH; [done|]. intros y Hy. apply Hfg. by right.
Qed.

Lemma mapM_map {A B C} (f : B -> option C) (g : A -> B) l : mapM f (map g l) = mapM (fun x => f (g x)) l.
Proof. induction l as [|x l IH]; [done|]. cbn. by rewrite IH. Qed.

Lemma mapM_total {A B} (f : A -> option B) (g : A -> B) l :
  Forall (fun x => f x = Some (g x)) l -> mapM f l = Some (map g l).
Proof. induction 1 as [|x l Hx _ IH]; [done|]. cbn. rewrite Hx. cbn. by rewrite IH. Qed.

Lemma mapM_fmap_after {A B B'} (f : A -> option B') (g : A -> option B) (h : B -> B') l :
  (forall x, f x = h <$> g x) -> mapM f l = map h <$> mapM g l.
Proof.
  intros Hf. induction l as [|x l IH]; [done|]. cbn. rewrite Hf. destruct (g x); cbn; [|done].
  rewrite IH. by destruct (mapM g l).
Qed.

Lemma mapM_In {A B} (f : A -> option B) l ys x : mapM f l = Some ys -> In x l -> exists y, f x = Some y.
Proof.
  intros Hm%mapM_Some_1 Hx. induction Hm as [|a y l ys Ha _ IH]; [done|].
  destruct Hx as [<-|Hx]; eauto.
Qed.

Lemma mapM_None_In {A B} (f : A -> option B) l x : In x l -> f x = None -> mapM f l = None.
Proof.
  intros Hx Hn. destruct (mapM f l) eqn:Hm; [|done]. destruct (mapM_In _ _ _ _ Hm Hx) as [y Hy]. congruence.
Qed.

Lemma list_sum_le {A} (f : A -> nat) x l : In x l -> (f x <= list_sum (map f l))%nat.
Proof. induction l as [|y l IH]; intros []; cbn; [subst; lia|]. specialize (IH ltac:(done)). unfold list_sum in IH. lia. Qed.

Section ReaderLemmas.
Context {T : Type} `{DataModel T}.

Lemma int_in_range lo hi (v : T) z : int_in lo hi v = Some z -> dm_int v = Some z /\ lo <= z <= hi.
Proof.
  unfold int_in. destruct (dm_int v) as [y|]; [|done]. cbn.
  destruct ((lo <=? y) && (y <=? hi)) eqn:Hy; [|done]. intros [= ->]. split; [done|].
  apply andb_true_iff in Hy as [Hl Hh]. lia.
Qed.

Lemma field_value_assoc (m : list (string * T)) k o : field_value m k = Some o -> assoc k m = o.
Proof.
  unfold field_value, assoc. revert o. induction m as [|[k' x] m IH]; intros o; cbn; [by intros [= <-]|].
  destruct (String.eqb k' k) eqn:Hk; cbn.
  - destruct (List.filter _ m); [|done]. by intros [= <-].
  - apply IH.
Qed.

Lemma struct_fields_named names (m : list (string * T)) s i :
  struct_fields names (Named m) = Some s -> (i < length names)%nat ->
  by_name s = true /\ field_value m (nth i names "") = Some (value_at s i).
Proof.
  cbn [struct_fields]. destruct (mapM (field_value m) names) as [l|] eqn:Hl; [|done].
  intros [= <-] Hi. split; [done|]. cbn [value_at]. apply mapM_Some_1 in Hl.
  revert i Hi. induction Hl as [|k o ks os Hk _ IH]; intros i Hi; cbn in Hi; [lia|].
  destruct i as [|i]; [done|]. cbn. apply IH. lia.
Qed.

Lemma struct_required names (m : list (string * T)) s i {A} (read : T -> option A) a :
  struct_fields names (Named m) = Some s -> (i < length names)%nat -> required read s i = Some a ->
  exists v, assoc (nth i names "") m = Some v /\ read v = Some a.
Proof.
  intros Hs Hi Hr. destruct (struct_fields_named _ _ _ _ Hs Hi) as [_ Hf]. apply field_value_assoc in Hf.
  unfold required in Hr. destruct (value_at s i); [eauto|done].
Qed.

Lemma split_tag_size (p : parts T) tag r :
  split_tag p = Some (tag, r) ->
  (parts_size r <= parts_size p)%nat /\ match r with Positional _ => (parts_size r < parts_size p)%nat | _ => True end.
Proof.
  destruct p as [m|[|t l]]; cbn [split_tag]; [| done|].
  - destruct (mjoin (field_value m "type")) as [t|]; [|done]. cbn.
    destruct (dm_str t); [|done]. intros [= <- <-]. split; [|done]. cbn [parts_size].
    induction m as [|[k x] m IH]; cbn; [done|]. unfold list_sum in IH. destruct (negb _); cbn; lia.
  - destruct (dm_str t); [|done]. intros [= <- <-]. cbn [parts_size map list_sum foldr]. unfold list_sum. lia.
Qed.

Lemma parts_of_size (v : T) p : parts_of v = Some p -> (parts_size p <= dm_size v)%nat.
Proof.
  unfold parts_of. destruct (dm_map v) as [m|] eqn:Hm; [intros [= <-]; by apply dm_map_size|].
  destruct (dm_seq v) as [l|] eqn:Hl; [|done]. intros [= <-]. by apply dm_seq_size.
Qed.

Lemma seq_member_size (v : T) l x : dm_seq v = Some l -> In x l -> (dm_size x < dm_size v)%nat.
Proof.
  intros Hl Hx. pose proof (dm_seq_size _ _ Hl). pose proof (list_sum_le (fun x => S (dm_size x)) x l Hx).
  cbn beta in *. lia.
Qed.
End ReaderLemmas.
