(* ===== verification/Schema.v ===== *)
(** What a rule file may hold: the types of [crates/rule/src/types.rs] as [serde]
    reads them, with the attributes of the source.  The schemas of the three engines
    derived from the crate are instances
    ([OptSchema], [LegacySchema], [LegacyOptSchema]). *)
From S2P Require Import Prelude Utf8 WafTypes RuleTypes Serde.
Local Open Scope Z_scope.

(** * Variants *)

Section Variants.
Context {T : Type} `{DataModel T}.

(** [rename_all = "snake_case"] *)
Definition read_action : T -> option Action :=
  unit_variant [("allow", ActAllow); ("block", ActBlock); ("challenge", ActChallenge);
                ("rate_limit", ActRateLimit); ("log", ActLog)].

(** [rename_all = "snake_case"], with the aliases of [Path] and [Payload]. *)
Definition read_field : T -> option Field :=
  unit_variant [("ip", FIp); ("path", FPath); ("uri", FPath); ("header", FHeader); ("payload", FPayload);
                ("body", FPayload); ("cookie", FCookie); ("method", FMethod);
                ("content_type", FContentType); ("session_id", FSessionId); ("device_fp", FDeviceFp)].

(** [rename_all = "lowercase"] *)
Definition read_match_type : T -> option MatchType :=
  unit_variant [("exact", MExact); ("wildcard", MWildcard); ("regex", MRegex); ("cidr", MCidr);
                ("presence", MPresence); ("absence", MAbsence)].

(** [rename_all = "kebab-case"] *)
Definition read_rate_limit_scope : T -> option RateLimitScope :=
  unit_variant [("per-ip", PerIp); ("per-session", PerSession); ("per-api-key", PerApiKey)].

(** [rename_all = "lowercase"] *)
Definition read_challenge_type : T -> option ChallengeType := unit_variant [("js", Js); ("pow", Pow)].

(** * Structs without conditions *)

Definition default_403 : Z := 403.

Definition read_response_config (v : T) : option ResponseConfig :=
  s ← parts_of v ≫= struct_fields ["status"; "body"; "headers"];
  status ← defaulted default_403 u16 s 0;
  body ← optional dm_str s 1;
  headers ← optional string_map s 2;
  Some (mkResponseConfig status body headers).

(** [on_breach] is read at the type that the schema gives it. *)
Definition read_rate_limit_rule (read_breach : T -> option string) (v : T) : option RateLimitRule :=
  s ← parts_of v ≫= struct_fields ["scope"; "window_seconds"; "max_requests"; "burst_tokens"; "on_breach"];
  scope ← required read_rate_limit_scope s 0;
  window_seconds ← required u64 s 1;
  max_requests ← required u64 s 2;
  burst_tokens ← required u64 s 3;
  on_breach ← required read_breach s 4;
  Some (mkRateLimitRule scope window_seconds max_requests burst_tokens on_breach).

Definition read_challenge_rule (v : T) : option ChallengeRule :=
  s ← parts_of v ≫= struct_fields ["type"; "pow_difficulty"];
  challenge_type ← required read_challenge_type s 0;
  pow_difficulty ← optional u8 s 1;
  Some (mkChallengeRule challenge_type pow_difficulty).

(** * Conditions *)

Definition read_leaf (v : T) : option ConditionLeaf :=
  s ← parts_of v ≫= struct_fields ["field"; "match"; "value"; "header_name"; "cookie_name"; "case_sensitive"; "negate"];
  field ← required read_field s 0;
  match_type ← required read_match_type s 1;
  value ← required dm_str s 2;
  header_name ← optional dm_str s 3;
  cookie_name ← optional dm_str s 4;
  case_sensitive ← defaulted false dm_bool s 5;
  negate ← defaulted false dm_bool s 6;
  Some (mkLeaf field match_type value header_name cookie_name case_sensitive negate).

Section Node.
Context {L : Type} (read_leaf : T -> option L).

(** The variants [And] and [Or], given the reader of the members. *)
Definition read_branch (read : T -> option (Cond L)) (v : T) : option (Cond L) :=
  '(k, payload) ← dm_enum v;
  x ← payload;
  if String.eqb k "and" then CAnd <$> seq_of read x
  else if String.eqb k "or" then COr <$> seq_of read x
  else None.

(** A condition that is not one of these variants is read as a leaf. *)
Fixpoint read_node_fuel (fuel : nat) (v : T) : option (Cond L) :=
  match fuel with
  | O => None
  | S fuel =>
    match read_branch (read_node_fuel fuel) v with
    | Some node => Some node
    | None => CLeaf <$> read_leaf v
    end
  end.
Definition read_node (v : T) : option (Cond L) := read_node_fuel (S (dm_size v)) v.

Lemma read_branch_ext f g v :
  (forall x, (dm_size x < dm_size v)%nat -> f x = g x) -> read_branch f v = read_branch g v.
Proof.
  intros Hfg. unfold read_branch, seq_of. destruct (dm_enum v) as [[k [x|]]|] eqn:He; [|done..]. cbn.
  apply dm_enum_size in He. destruct (dm_seq x) as [l|] eqn:Hl; cbn; [|done].
  assert (Hm : mapM f l = mapM g l); [|by rewrite Hm].
  apply mapM_ext_In. intros y Hy. apply Hfg. pose proof (seq_member_size x l y Hl Hy). lia.
Qed.

Lemma read_node_enough fuel v : (dm_size v < fuel)%nat -> read_node_fuel fuel v = read_node v.
Proof.
  unfold read_node. assert (Hgen : forall n m v, (dm_size v < n)%nat -> (dm_size v < m)%nat ->
    read_node_fuel n v = read_node_fuel m v); [|intros; apply Hgen; lia].
  induction n as [|n IH]; intros [|m] w Hn Hm; [lia..|]. cbn [read_node_fuel].
  rewrite (read_branch_ext (read_node_fuel n) (read_node_fuel m)); [done|]. intros x Hx. apply IH; lia.
Qed.

(** The equation of the reader, without fuel. *)
Lemma read_node_unfold v :
  read_node v = match read_branch read_node v with Some node => Some node | None => CLeaf <$> read_leaf v end.
Proof.
  unfold read_node at 1. cbn [read_node_fuel].
  rewrite (read_branch_ext _ read_node); [done|]. intros x Hx. by apply read_node_enough.
Qed.
End Node.

(** A reader of leaves that decorates them decorates the conditions. *)
Lemma read_node_map {L M} (read_leaf : T -> option L) (read_leaf' : T -> option M) (g : L -> M) v :
  (forall v, read_leaf' v = g <$> read_leaf v) -> read_node read_leaf' v = cond_map g <$> read_node read_leaf v.
Proof.
  intros Hg. unfold read_node. generalize (S (dm_size v)). intros n. revert v.
  induction n as [|n IH]; intros w; [done|]. cbn [read_node_fuel].
  assert (Hb : read_branch (read_node_fuel read_leaf' n) w = cond_map g <$> read_branch (read_node_fuel read_leaf n) w).
  { unfold read_branch, seq_of. destruct (dm_enum w) as [[k [x|]]|]; [|done..]. cbn.
    destruct (dm_seq x) as [l|]; cbn; [|by repeat split_if].
    rewrite (mapM_fmap_after _ _ (cond_map g) l IH).
    destruct (mapM (read_node_fuel read_leaf n) l); cbn; by repeat split_if. }
  rewrite Hb. destruct (read_branch (read_node_fuel read_leaf n) w); [done|]. cbn.
  rewrite Hg. by destruct (read_leaf w).
Qed.
End Variants.

(** * Rules *)

Definition default_true : bool := true.

Section Rule.
Context {D : Type} `{DataModel D} {C : Type}.
Context (read_condition : D -> option C) (read_breach : D -> option string).

Definition read_rule_raw (v : D) : option (RuleRaw C) :=
  s ← parts_of v ≫= struct_fields ["id"; "description"; "enabled"; "priority"; "condition"; "action";
    "risk_score_delta"; "response"; "rate_limit"; "challenge"; "tier"; "source"];
  id ← required dm_str s 0;
  description ← defaulted "" dm_str s 1;
  enabled ← defaulted default_true dm_bool s 2;
  priority ← required u32 s 3;
  condition ← required read_condition s 4;
  action ← required read_action s 5;
  risk_score_delta ← defaulted 0 i8 s 6;
  response ← optional read_response_config s 7;
  rate_limit ← optional (read_rate_limit_rule read_breach) s 8;
  challenge ← optional read_challenge_rule s 9;
  tier ← optional dm_str s 10;
  source ← optional dm_str s 11;
  Some (mkRuleRaw id description enabled priority condition action risk_score_delta response rate_limit
          challenge tier source).

(** [RuleFile], and the list that the Consul loader also accepts. *)
Definition read_rule_file (v : D) : option (list (RuleRaw C)) :=
  s ← parts_of v ≫= struct_fields ["rules"];
  required (seq_of read_rule_raw) s 0.
Definition read_rule_list : D -> option (list (RuleRaw C)) := seq_of read_rule_raw.
End Rule.

(** A condition is read from contents, since a leaf is tried after the variants. *)
Definition read_buffered {D C L} `{Format D C} (read_leaf : C -> option L) (v : D) : option (Cond L) :=
  c ← buffered v; read_node read_leaf c.

(** The files of [crates/rule]. *)
Section RuleCrate.
Context {D C : Type} `{Format D C}.
Definition read_condition : D -> option ConditionNode := read_buffered read_leaf.
Definition read_raw : D -> option (RuleRaw ConditionNode) := read_rule_raw read_condition dm_str.
Definition read_file : D -> option (list (RuleRaw ConditionNode)) := read_rule_file read_condition dm_str.
End RuleCrate.

(** * What a rule that was read is *)

(** The machine types of a rule's numbers. *)
Record rule_in_range {C} (r : RuleRaw C) : Prop := {
  priority_u32 : 0 <= raw_priority r < 2 ^ 32;
  delta_i8 : -128 <= raw_risk_score_delta r < 128;
  status_u16 : forall c, raw_response r = Some c -> 0 <= status c < 2 ^ 16;
  counts_u64 : forall l, raw_rate_limit r = Some l ->
    0 <= window_seconds l < 2 ^ 64 /\ 0 <= max_requests l < 2 ^ 64 /\ 0 <= burst_tokens l < 2 ^ 64;
  difficulty_u8 : forall c d, raw_challenge r = Some c -> pow_difficulty c = Some d -> 0 <= d < 2 ^ 8
}.

Lemma required_Some {T A} (read : T -> option A) s i a :
  required read s i = Some a -> exists v, value_at s i = Some v /\ read v = Some a.
Proof. unfold required. destruct (value_at s i); [eauto|done]. Qed.

Lemma defaulted_Some {T A} (d : A) (read : T -> option A) s i a :
  defaulted d read s i = Some a -> a = d \/ exists v, value_at s i = Some v /\ read v = Some a.
Proof. unfold defaulted. destruct (value_at s i); [eauto|intros [= ->]; auto]. Qed.

Lemma optional_Some {T A} `{DataModel T} (read : T -> option A) s i a :
  optional read s i = Some (Some a) -> exists v, value_at s i = Some v /\ read v = Some a.
Proof.
  unfold optional. destruct (value_at s i) as [v|]; [|by destruct (by_name s)].
  destruct (dm_null v); [done|]. destruct (read v) eqn:Hr; [|done]. intros [= <-]. eauto.
Qed.

(** Take the readers of a struct apart, field by field. *)
Ltac read_fields H :=
  repeat match type of H with
  | (?o ≫= _) = Some _ => let E := fresh "E" in destruct o eqn:E; cbn [mbind option_bind] in H; [|discriminate H]
  end.

Section Ranges.
Context {D : Type} `{DataModel D} {C : Type}.
Context (read_condition : D -> option C) (read_breach : D -> option string).

Lemma read_response_range v c : read_response_config v = Some c -> 0 <= status c < 2 ^ 16.
Proof.
  unfold read_response_config. intros Hr. read_fields Hr. injection Hr as <-. cbn.
  destruct (defaulted_Some _ _ _ _ _ E0) as [->|(w & _ & Hw)]; [by unfold default_403|].
  apply int_in_range in Hw as [_ ?]. lia.
Qed.

Lemma read_rate_limit_range v l :
  read_rate_limit_rule read_breach v = Some l ->
  0 <= window_seconds l < 2 ^ 64 /\ 0 <= max_requests l < 2 ^ 64 /\ 0 <= burst_tokens l < 2 ^ 64.
Proof.
  unfold read_rate_limit_rule. intros Hr. read_fields Hr. injection Hr as <-. cbn.
  repeat match goal with
  | E : required u64 _ _ = Some _ |- _ =>
    apply required_Some in E as (? & _ & E); apply int_in_range in E as [_ E]
  end. lia.
Qed.

Lemma read_challenge_range v c d :
  read_challenge_rule v = Some c -> pow_difficulty c = Some d -> 0 <= d < 2 ^ 8.
Proof.
  unfold read_challenge_rule. intros Hr. read_fields Hr. injection Hr as <-. cbn. intros ->.
  apply optional_Some in E1 as (w & _ & Hw). apply int_in_range in Hw as [_ ?]. lia.
Qed.

(** The bounds that the compilers do not check hold of every rule that was read. *)
Lemma read_rule_range v r : read_rule_raw read_condition read_breach v = Some r -> rule_in_range r.
Proof.
  unfold read_rule_raw. intros Hr. read_fields Hr. injection Hr as <-. split; cbn.
  - apply required_Some in E3 as (w & _ & Hw). apply int_in_range in Hw as [_ ?]. lia.
  - apply defaulted_Some in E6 as [->|(w & _ & Hw)]; [lia|]. apply int_in_range in Hw as [_ ?]. lia.
  - intros cfg ->. apply optional_Some in E7 as (w & _ & Hw). by apply read_response_range in Hw.
  - intros lim ->. apply optional_Some in E8 as (w & _ & Hw). by apply read_rate_limit_range in Hw.
  - intros ch d ->. apply optional_Some in E9 as (w & _ & Hw). by eapply read_challenge_range.
Qed.
End Ranges.

(** Reading with a condition reader that only changes the condition. *)
Section Change.
Context {D : Type} `{DataModel D} {C C' : Type}.
Context (read_c : D -> option C) (read_c' : D -> option C') (h : C -> C') (read_breach : D -> option string).
Hypothesis Hread : forall v, read_c' v = h <$> read_c v.

Definition change_condition (r : RuleRaw C) : RuleRaw C' := with_condition r (h (raw_condition r)).

Lemma read_rule_change v :
  read_rule_raw read_c' read_breach v = change_condition <$> read_rule_raw read_c read_breach v.
Proof using Hread.
  unfold read_rule_raw.
  destruct (parts_of v ≫= struct_fields _) as [s|]; [|done]. cbn [mbind option_bind].
  assert (Hc : required read_c' s 4 = h <$> required read_c s 4).
  { unfold required. destruct (value_at s 4); cbn; [apply Hread|done]. }
  rewrite Hc.
  repeat (match goal with
          | |- (?o ≫= _) = _ <$> (?o ≫= _) => destruct o; cbn [mbind option_bind]; [|done]
          | |- ((h <$> ?o) ≫= _) = _ => destruct o; cbn [mbind option_bind fmap option_fmap option_map]; [|done]
          end).
  done.
Qed.

Lemma read_list_change v :
  read_rule_list read_c' read_breach v = map change_condition <$> read_rule_list read_c read_breach v.
Proof using Hread.
  unfold read_rule_list, seq_of. destruct (dm_seq v); cbn; [|done]. apply mapM_fmap_after, read_rule_change.
Qed.

Lemma read_file_change v :
  read_rule_file read_c' read_breach v = map change_condition <$> read_rule_file read_c read_breach v.
Proof using Hread.
  unfold read_rule_file. destruct (parts_of v ≫= _) as [s|]; [|done]. cbn. unfold required.
  destruct (value_at s 0); cbn; [apply read_list_change|done].
Qed.
End Change.
