(* ===== verification/Float64.v ===== *)
(** [f64]: binary64 values of the Standard Library's [SpecFloat], with the
    operations the rule language uses: comparison, the saturating cast to [i64]
    and the [Display] text (the shortest decimal that reads back as the value). *)
From S2P Require Import Prelude Utf8 RustStd.
From Stdlib Require Import SpecFloat.
Local Open Scope Z_scope.

Definition f64 : Type := spec_float.
Definition prec : Z := 53.
Definition emax : Z := 1024.

Definition f64_eqb (a b : f64) : bool := SFeqb a b.
(** [f != 0.0] *)
Definition f64_nonzero (a : f64) : bool := negb (SFeqb a (S754_zero false)).

(** [f as i64]: truncation toward zero, saturating; NaN is 0. *)
Definition f64_as_i64 (a : f64) : Z :=
  match a with
  | S754_zero _ | S754_nan => 0
  | S754_infinity true => - 2 ^ 63
  | S754_infinity false => 2 ^ 63 - 1
  | S754_finite s m e =>
    let t := if 0 <=? e then Zpos m * 2 ^ e else Zpos m / 2 ^ (- e) in
    let v := if s then - t else t in
    Z.max (- 2 ^ 63) (Z.min (2 ^ 63 - 1) v)
  end.

(** The correctly rounded value of [d * 10 ^ k], for a positive [d]. *)
Definition f64_of_decimal (neg : bool) (d k : Z) : f64 :=
  match d with
  | Zpos p =>
    if 0 <=? k then binary_normalize prec emax (if neg then - (d * 10 ^ k) else d * 10 ^ k) 0 neg
    else
      let '(m, e, l) := SFdiv_core_binary prec emax (Zpos p) 0 (10 ^ (- k)) 0 in
      binary_round_aux prec emax neg m e l
  | _ => S754_zero neg
  end.

(** [n.nnn] decimal texts of the rule grammar: [s.parse::<f64>()]. *)
Definition f64_parse (s : string) : option f64 :=
  let '(neg, body) := match s with
                      | String a r => if Ascii.eqb a "-" then (true, r) else (false, s)
                      | _ => (false, s)
                      end in
  match split_once "." body with
  | Some (i, f) =>
    i' ← parse_nat_text i; f' ← parse_nat_text f;
    let k := Z.of_nat (str_len f) in
    Some (f64_of_decimal neg (i' * 10 ^ k + f') (- k))
  | None => i' ← parse_nat_text body; Some (f64_of_decimal neg i' 0)
  end.

(** The value [m * 2 ^ e] as a fraction. *)
Definition frac (m : positive) (e : Z) : Z * Z :=
  if 0 <=? e then (Zpos m * 2 ^ e, 1) else (Zpos m, 2 ^ (- e)).

(** The least [k] with [v < 10 ^ k], searched upward from [k]. *)
Fixpoint dec_point (fuel : nat) (num den k : Z) : Z :=
  match fuel with
  | O => k
  | S f =>
    let below := if 0 <=? k then num <? den * 10 ^ k else num * 10 ^ (- k) <? den in
    if below then k else dec_point f num den (k + 1)
  end.

(** Among the two [n]-digit decimals around the value, the closest that rounds to it. *)
Definition digits_at (m : positive) (e k n : Z) : option Z :=
  let '(num, den) := frac m e in
  let sc := n - k in
  let '(num', den') := if 0 <=? sc then (num * 10 ^ sc, den) else (num, den * 10 ^ (- sc)) in
  let d := num' / den' in
  let ok d := SFeqb (f64_of_decimal false d (- sc)) (S754_finite false m e) in
  let near_lo := 2 * (num' - d * den') <=? den' in
  if ok d then (if ok (d + 1) then (if near_lo then Some d else Some (d + 1)) else Some d)
  else if ok (d + 1) then Some (d + 1) else None.

Fixpoint shortest (fuel : nat) (m : positive) (e k n : Z) : Z * Z :=
  match fuel with
  | O => (0, n)
  | S f => match digits_at m e k n with Some d => (d, n) | None => shortest f m e k (n + 1) end
  end.

Fixpoint strip_zeros (fuel : nat) (d z : Z) : Z * Z :=
  match fuel with
  | O => (d, z)
  | S f => if (d mod 10 =? 0) && (0 <? d) then strip_zeros f (d / 10) (z + 1) else (d, z)
  end.

Definition zeros (n : Z) : string := str_of (replicate (Z.to_nat n) (byte_of 48)).

Definition f64_display_pos (m : positive) (e : Z) : string :=
  let '(num, den) := frac m e in
  let est := (Z.log2 (Zpos m) + e) * 30103 / 100000 - 1 in
  let k := dec_point 8 num den est in
  let '(d, n) := shortest 18 m e k 1 in
  let '(d, z) := strip_zeros 20 d 0 in
  let ds := print_nat d in
  (* the value is [d * 10 ^ x] *)
  let x := k - n + z in
  let len := Z.of_nat (str_len ds) in
  if 0 <=? x then ds +:+ zeros x
  else if 0 <? len + x
  then String.substring 0 (Z.to_nat (len + x)) ds +:+ "."
       +:+ String.substring (Z.to_nat (len + x)) (Z.to_nat (- x)) ds
  else "0." +:+ zeros (- (len + x)) +:+ ds.

(** [f.to_string()] *)
Definition f64_display (a : f64) : string :=
  match a with
  | S754_zero s => if s then "-0" else "0"
  | S754_infinity s => if s then "-inf" else "inf"
  | S754_nan => "NaN"
  | S754_finite s m e => if s then String "-" (f64_display_pos m e) else f64_display_pos m e
  end.

Definition f64_lit (s : string) : f64 := default S754_nan (f64_parse s).

Example f64_display_1 : f64_display (f64_lit "0.1") = "0.1". Proof. vm_compute. reflexivity. Qed.
Example f64_display_2 : f64_display (f64_lit "1234.5") = "1234.5". Proof. vm_compute. reflexivity. Qed.
Example f64_display_3 : f64_display (f64_lit "-3.0") = "-3". Proof. vm_compute. reflexivity. Qed.
Example f64_display_4 : f64_display (f64_lit "0.00025") = "0.00025". Proof. vm_compute. reflexivity. Qed.
Example f64_display_5 : f64_display (f64_lit "9007199254740993.0") = "9007199254740992".
Proof. vm_compute. reflexivity. Qed.
Example f64_display_6 : f64_display (f64_lit "123456789012345678901234.0") = "123456789012345690000000".
Proof. vm_compute. reflexivity. Qed.
Example f64_cast_1 : f64_as_i64 (f64_lit "-2.9") = -2. Proof. vm_compute. reflexivity. Qed.
