(* ===== verification/Ast.v ===== *)
(** The GRL abstract syntax ([grl/ast.rs]), values and their conversions, and the
    request context the rules read ([context.rs]). *)
From S2P Require Import Prelude Utf8 RustStd Float64 WafTypes.
Local Open Scope Z_scope.

(** * Values *)

Inductive Value : Type :=
| VNull
| VBool (b : bool)
| VInt (i : Z)
| VFloat (f : f64)
| VStr (s : string).

#[export] Instance f64_eq_dec : EqDecision f64.
Proof. unfold f64. solve_decision. Defined.
#[export] Instance Value_eq_dec : EqDecision Value.
Proof. solve_decision. Defined.

Definition as_bool (v : Value) : bool :=
  match v with
  | VBool b => b
  | VNull => false
  | VInt i => negb (i =? 0)
  | VFloat f => f64_nonzero f
  | VStr s => negb (is_empty s)
  end.

Definition as_int (v : Value) : Z :=
  match v with
  | VInt i => i
  | VFloat f => f64_as_i64 f
  | VBool b => if b then 1 else 0
  | VStr s => default 0 (parse_signed 64 s)
  | VNull => 0
  end.

Definition as_str (v : Value) : string :=
  match v with
  | VStr s => s
  | VInt i => print_int i
  | VFloat f => f64_display f
  | VBool b => print_bool b
  | VNull => ""
  end.

(** * Paths and expressions *)

Inductive PathSeg : Type := SegField (s : string) | SegIndex (s : string).
#[export] Instance PathSeg_eq_dec : EqDecision PathSeg.
Proof. solve_decision. Defined.
#[export] Instance PathSeg_countable : Countable PathSeg.
Proof.
  apply (inj_countable' (fun p => match p with SegField s => inl s | SegIndex s => inr s end)
           (fun s => match s with inl s => SegField s | inr s => SegIndex s end)).
  by intros [].
Defined.

(** [Path { segments }] *)
Definition Path : Type := list PathSeg.

Inductive BinOp : Type :=
| BAnd | BOr | BEq | BNeq | BLt | BLte | BGt | BGte | BAdd | BSub | BMul | BDiv.
#[export] Instance BinOp_eq_dec : EqDecision BinOp.
Proof. solve_decision. Defined.

Inductive UnaryOp : Type := UNot.

Inductive Expr : Type :=
| ELiteral (v : Value)
| EPath (p : Path)
| ECall (name : string) (args : list Expr)
| EBinary (op : BinOp) (left right : Expr)
| EUnary (op : UnaryOp) (e : Expr).

(** [CallExpr { name, args }] as a pair. *)
Definition CallExpr : Type := string * list Expr.

Inductive Stmt : Type :=
| SAssign (target : Path) (value : Expr)
| SCall (c : CallExpr).

Record RuleAst := mkRuleAst {
  ra_name : string; ra_salience : Z; ra_when : Expr; ra_then : list Stmt
}.

Section ExprInd.
Context (P : Expr -> Prop).
Hypothesis HLit : forall v, P (ELiteral v).
Hypothesis HPath : forall p, P (EPath p).
Hypothesis HCall : forall n args, Forall P args -> P (ECall n args).
Hypothesis HBin : forall op l r, P l -> P r -> P (EBinary op l r).
Hypothesis HUn : forall op e, P e -> P (EUnary op e).

Fixpoint Expr_ind' (e : Expr) : P e :=
  match e with
  | ELiteral v => HLit v
  | EPath p => HPath p
  | ECall n args =>
    HCall n args
      ((fix go (l : list Expr) : Forall P l :=
          match l with
          | [] => @List.Forall_nil _ P
          | e :: l => @List.Forall_cons _ P e l (Expr_ind' e) (go l)
          end) args)
  | EBinary op l r => HBin op l r (Expr_ind' l) (Expr_ind' r)
  | EUnary op e => HUn op e (Expr_ind' e)
  end.
End ExprInd.

(** [impl Display for Path] *)
Definition fmt_seg (i : nat) (seg : PathSeg) : string :=
  match seg with
  | SegField name => (if (0 <? i)%nat then "." else "") +:+ name
  | SegIndex key => "[" +:+ String dquote (key +:+ String dquote "]")
  end.

Fixpoint fmt_segs (i : nat) (l : list PathSeg) : string :=
  match l with [] => "" | seg :: l => fmt_seg i seg +:+ fmt_segs (S i) l end.

Definition path_display (p : Path) : string := fmt_segs 0 p.

(** * Request context ([RequestContext]) *)

Record RequestContext := mkContext {
  request_id : string;
  arrived_at_ms : Z;
  method : string;
  path : string;
  query : option string;
  tier : Tier;
  client_ip : string;
  xff_header : option string;
  headers : gmap string string;
  body : option string;
  session_id : option string;
  device_fp : option string;
  risk_score : RiskScore;
  matched_rule_id : option string;
  extensions : gmap string string
}.

Definition header_count (ctx : RequestContext) : Z := Z.of_nat (size (headers ctx)).
Definition has_header `{UnicodeTables} (ctx : RequestContext) (name : string) : bool :=
  bool_decide (is_Some (headers ctx !! to_lowercase name)).
Definition is_path_under (ctx : RequestContext) (prefix : string) : bool :=
  starts_with (path ctx) prefix.

Definition with_extension (k v : string) (ctx : RequestContext) : RequestContext :=
  mkContext (request_id ctx) (arrived_at_ms ctx) (method ctx) (path ctx) (query ctx) (tier ctx)
    (client_ip ctx) (xff_header ctx) (headers ctx) (body ctx) (session_id ctx) (device_fp ctx)
    (risk_score ctx) (matched_rule_id ctx) (<[k := v]> (extensions ctx)).
Definition with_matched_rule (r : string) (ctx : RequestContext) : RequestContext :=
  mkContext (request_id ctx) (arrived_at_ms ctx) (method ctx) (path ctx) (query ctx) (tier ctx)
    (client_ip ctx) (xff_header ctx) (headers ctx) (body ctx) (session_id ctx) (device_fp ctx)
    (risk_score ctx) (Some r) (extensions ctx).
Definition with_risk (s : RiskScore) (ctx : RequestContext) : RequestContext :=
  mkContext (request_id ctx) (arrived_at_ms ctx) (method ctx) (path ctx) (query ctx) (tier ctx)
    (client_ip ctx) (xff_header ctx) (headers ctx) (body ctx) (session_id ctx) (device_fp ctx)
    s (matched_rule_id ctx) (extensions ctx).
