(* ===== verification/Functions.v ===== *)
(** The GRL built-in functions ([grl/functions.rs]) and the function registry
    with its context defaults ([grl/registry.rs]), and the plugin interface
    ([plugin.rs]). *)
From S2P Require Import Prelude Utf8 RustStd Float64 Extern WafTypes Ast.
Local Open Scope Z_scope.

Section Functions.
Context `{UnicodeTables, RegexLib}.

(** * Detection patterns *)

Definition sqli_pattern : string :=
  "(?ix)
          (?:'\s*or\s*'?\d+'?\s*=\s*'?\d+)
        | (?:--\s)
        | (?:\bunion\b\s+\bselect\b)
        | (?:\bdrop\s+table\b)
        | (?:\bselect\b\s+\*\s+\bfrom\b)
        | (?:\bor\b\s+\d+\s*=\s*\d+)
        | (?:;\s*--)
        | (?:\bxp_cmdshell\b)
        | (?:\bsleep\s*\(\s*\d+\s*\))
        ".
Definition xss_pattern : string :=
  "(?ix)
          <\s*script[^>]*>
        | javascript\s*:
        | on(?:error|load|click|mouseover)\s*=
        | <\s*img[^>]*\bonerror\b
        | <\s*svg[^>]*on\w+
        | document\.cookie
        ".
Definition traversal_pattern : string := "(?:\.\./|\.\.\\|%2e%2e%2f|%2e%2e/|\.\.%2f)".
Definition cmd_pattern : string :=
  "(?ix)
          (?:[;&|`]\s*(?:cat|ls|whoami|id|uname|wget|curl|nc|bash|sh)\b)
        | (?:\$\([^)]*\))
        | (?:`[^`]*`)
        ".
Definition header_pattern : string := "(?:\r\n|\n\r|\r|\n)".

Definition detect_sqli (s : string) : bool := is_match (regex_unwrap sqli_pattern) s.
Definition detect_xss (s : string) : bool := is_match (regex_unwrap xss_pattern) s.
Definition detect_path_traversal (s : string) : bool := is_match (regex_unwrap traversal_pattern) s.
Definition detect_cmd_injection (s : string) : bool := is_match (regex_unwrap cmd_pattern) s.
Definition detect_header_injection (s : string) : bool := is_match (regex_unwrap header_pattern) s.

(** * Dispatch *)

Definition arg_str (args : list Value) (i : nat) : string := default "" (as_str <$> args !! i).

Definition fn_matches (args : list Value) : Value :=
  VBool (regex_match (arg_str args 1) (arg_str args 0)).
Definition fn_contains (args : list Value) : Value :=
  VBool (contains (arg_str args 0) (arg_str args 1)).
Definition fn_starts_with (args : list Value) : Value :=
  VBool (starts_with (arg_str args 0) (arg_str args 1)).
Definition fn_ends_with (args : list Value) : Value :=
  VBool (ends_with (arg_str args 0) (arg_str args 1)).

Definition dispatch (name : string) (args : list Value) : Value :=
  if String.eqb name "matches" then fn_matches args
  else if String.eqb name "contains" then fn_contains args
  else if String.eqb name "starts_with" then fn_starts_with args
  else if String.eqb name "ends_with" then fn_ends_with args
  else if String.eqb name "lower" then VStr (to_lowercase (arg_str args 0))
  else if String.eqb name "upper" then VStr (to_uppercase (arg_str args 0))
  else if String.eqb name "len" then VInt (Z.of_nat (length (chars (arg_str args 0))))
  else if String.eqb name "contains_sqli" then VBool (detect_sqli (arg_str args 0))
  else if String.eqb name "contains_xss" then VBool (detect_xss (arg_str args 0))
  else if String.eqb name "contains_path_traversal" then
    VBool (detect_path_traversal (arg_str args 0))
  else if String.eqb name "contains_cmd_injection" then
    VBool (detect_cmd_injection (arg_str args 0))
  else if String.eqb name "contains_header_injection" then
    VBool (detect_header_injection (arg_str args 0))
  else VNull.

(** * Registry *)

Definition CtxFn : Type := RequestContext -> list Value -> Value.
Definition FunctionRegistry : Type := gmap string CtxFn.

Definition register (name : string) (f : CtxFn) (registry : FunctionRegistry) : FunctionRegistry :=
  <[name := f]> registry.

Definition call (registry : FunctionRegistry) (name : string) (ctx : RequestContext)
  (args : list Value) : Value :=
  match (registry !! name : option CtxFn) with
  | Some f => f ctx args
  | None => dispatch name args
  end.

Lemma lookup_register_eq name f (registry : FunctionRegistry) :
  register name f registry !! name = Some f.
Proof. apply (lookup_insert_eq (M := gmap string)). Qed.

Lemma lookup_register_ne name name' f (registry : FunctionRegistry) :
  name <> name' -> register name f registry !! name' = registry !! name'.
Proof. apply (lookup_insert_ne (M := gmap string)). Qed.

Lemma call_unregistered registry name ctx args :
  registry !! name = None -> call registry name ctx args = dispatch name args.
Proof. intros Hn. unfold call. by rewrite Hn. Qed.

Lemma call_registered registry name (f : CtxFn) ctx args :
  registry !! name = Some f -> call registry name ctx args = f ctx args.
Proof. intros Hn. unfold call. by rewrite Hn. Qed.

(** [args.first().map(|v| v.as_str()).unwrap_or_default()] *)
Definition first_str (args : list Value) : string := default "" (as_str <$> head args).

Definition register_context_defaults (registry : FunctionRegistry) : FunctionRegistry :=
  let registry := register "header_count" (fun ctx _ => VInt (header_count ctx)) registry in
  let registry := register "has_header"
    (fun ctx args => VBool (has_header ctx (first_str args))) registry in
  register "is_path_under" (fun ctx args => VBool (is_path_under ctx (first_str args))) registry.
End Functions.

(** * Plugins *)

(** [trait Plugin]: what a plugin contributes when it is installed and per request. *)
Record Plugin := mkPlugin {
  plugin_name : string;
  plugin_register : FunctionRegistry -> FunctionRegistry;
  plugin_enrich : RequestContext -> RequestContext
}.

(** The functions a plugin adds, and the promise its clients rely on: names
    outside the plugin's set keep their registration, and names inside it get a
    registration that does not depend on the registry. *)
Class PluginSpec (p : Plugin) := {
  provided : gset string;
  register_other : forall reg n, n ∉ provided -> plugin_register p reg !! n = reg !! n;
  register_provided : forall reg reg' n, n ∈ provided ->
    plugin_register p reg !! n = plugin_register p reg' !! n /\
    is_Some (plugin_register p reg !! n)
}.
