(* ===== verification/Printer.v ===== *)
(** The canonical pretty-printer of expressions ([grl/printer.rs]), whose output
    is the key under which the RETE network shares alpha nodes, and the proof that
    it separates the expressions the grammar can produce. *)
From S2P Require Import Prelude Utf8 RustStd Float64 Extern Ast.
Local Open Scope Z_scope.

Section Printer.
Context `{UnicodeTables}.

Definition bin_sym (op : BinOp) : string :=
  match op with
  | BAnd => "&&" | BOr => "||"
  | BEq => "==" | BNeq => "!="
  | BLt => "<" | BLte => "<="
  | BGt => ">" | BGte => ">="
  | BAdd => "+" | BSub => "-"
  | BMul => "*" | BDiv => "/"
  end.

Definition fmt_value (v : Value) (out : string) : string :=
  match v with
  | VNull => out +:+ "null"
  | VBool b => out +:+ (if b then "true" else "false")
  | VInt i => out +:+ print_int i
  | VFloat f => out +:+ f64_display f
  | VStr s => out +:+ debug_str s
  end.

(** The writer threads the output text, as [fmt_expr] does. *)
Fixpoint fmt_expr (e : Expr) (out : string) : string :=
  match e with
  | ELiteral v => fmt_value v out
  | EPath p => out +:+ path_display p
  | ECall name args =>
    let out := out +:+ name +:+ "(" in
    let out := (fix go (i : nat) (l : list Expr) (out : string) : string :=
                  match l with
                  | [] => out
                  | a :: l => go (S i) l (fmt_expr a (if (0 <? i)%nat then push out "," else out))
                  end) 0%nat args out in
    push out ")"
  | EUnary UNot e =>
    let out := push out "(" in
    let out := out +:+ "!" in
    let out := fmt_expr e out in
    push out ")"
  | EBinary op l r =>
    let out := push out "(" in
    let out := fmt_expr l out in
    let out := push (push out " " +:+ bin_sym op) " " in
    let out := fmt_expr r out in
    push out ")"
  end.

Definition print_expr (e : Expr) : string := fmt_expr e "".

(** The same text, without the accumulator. *)
Definition value_text (v : Value) : string := fmt_value v "".
Fixpoint expr_text (e : Expr) : string :=
  match e with
  | ELiteral v => value_text v
  | EPath p => path_display p
  | ECall name args => name +:+ "(" +:+ str_join "," (map expr_text args) +:+ ")"
  | EUnary UNot e => "(!" +:+ expr_text e +:+ ")"
  | EBinary op l r => "(" +:+ expr_text l +:+ " " +:+ bin_sym op +:+ " " +:+ expr_text r +:+ ")"
  end.

Lemma fmt_value_text v out : fmt_value v out = out +:+ value_text v.
Proof. by destruct v. Qed.

(** The arguments after the first are each preceded by a comma. *)
Fixpoint args_tail (l : list string) : string :=
  match l with [] => "" | x :: l => "," +:+ x +:+ args_tail l end.

Lemma str_join_tail x l : str_join "," (x :: l) = x +:+ args_tail l.
Proof.
  revert x. induction l as [|y l IH]; intros x; [symmetry; apply app_nil_r_str|].
  change (x +:+ "," +:+ str_join "," (y :: l) = x +:+ "," +:+ y +:+ args_tail l).
  by rewrite IH.
Qed.

Lemma fmt_expr_text e out : fmt_expr e out = out +:+ expr_text e.
Proof.
  revert out. induction e as [v|p|n args IH|op l r IHl IHr|[] e IH] using Expr_ind'; intros out;
    cbn [fmt_expr expr_text]; unfold push.
  - apply fmt_value_text.
  - done.
  - set (go := fix go (i : nat) (l : list Expr) (out : string) : string :=
                  match l with
                  | [] => out
                  | a :: l => go (S i) l (fmt_expr a (if (0 <? i)%nat then out +:+ "," else out))
                  end).
    assert (Htail : forall i l out, Forall (fun e => forall out, fmt_expr e out = out +:+ expr_text e) l ->
              go (S i) l out = out +:+ args_tail (map expr_text l)).
    { intros i l. revert i. induction l as [|a l IHl]; intros i out' Hl.
      - cbn. by rewrite app_nil_r_str.
      - apply List.Forall_cons_iff in Hl as [Ha Hl]. cbn [map args_tail].
        change (go (S i) (a :: l) out') with (go (S (S i)) l (fmt_expr a (out' +:+ ","))).
        rewrite IHl, Ha by done. by autorewrite with waf_str. }
    assert (Hgo : go 0%nat args (out +:+ n +:+ "(") =
                  (out +:+ n +:+ "(") +:+ str_join "," (map expr_text args)).
    { destruct args as [|a args]; [by rewrite app_nil_r_str|].
      apply List.Forall_cons_iff in IH as [Ha IH]. cbn [map]. rewrite str_join_tail.
      change (go 0%nat (a :: args) (out +:+ n +:+ "("))
        with (go 1%nat args (fmt_expr a (out +:+ n +:+ "("))).
      rewrite Htail, Ha by done. by autorewrite with waf_str. }
    rewrite Hgo. by autorewrite with waf_str.
  - rewrite IHr, IHl. by autorewrite with waf_str.
  - rewrite IH. by autorewrite with waf_str.
Qed.

Lemma print_expr_text e : print_expr e = expr_text e.
Proof. apply fmt_expr_text. Qed.
End Printer.

(** * Expressions the grammar produces *)

Definition ident_start (a : ascii) : bool :=
  is_ascii_uppercase a || is_ascii_lowercase a || Ascii.eqb a "_".
Definition ident_char (a : ascii) : bool := ident_start a || is_ascii_digit a.
Definition num_char (a : ascii) : bool := is_ascii_digit a || Ascii.eqb a "-" || Ascii.eqb a ".".

Definition is_ident (s : string) : bool :=
  match s with
  | EmptyString => false
  | String a r => ident_start a && forallb ident_char (str_bytes r)
  end.

(** Keywords of the grammar that a path cannot start with. *)
Definition is_keyword (s : string) : bool :=
  String.eqb s "null" || String.eqb s "true" || String.eqb s "false".

Definition wf_seg (seg : PathSeg) : bool :=
  match seg with
  | SegField s => is_ident s
  | SegIndex s => forallb (fun a => negb (Ascii.eqb a dquote)) (str_bytes s)
  end.
Definition wf_path (p : Path) : bool :=
  match p with
  | SegField h :: rest => is_ident h && negb (is_keyword h) && forallb wf_seg rest
  | _ => false
  end.

(** A float literal is written with a point and reads back from its own text. *)
Definition wf_value (v : Value) : bool :=
  match v with
  | VStr s => valid_utf8 s
  | VFloat f =>
    forallb num_char (str_bytes (f64_display f)) && contains (f64_display f) "."
    && bool_decide (f64_parse (f64_display f) = Some f)
  | _ => true
  end.

Fixpoint wf_expr (e : Expr) : bool :=
  match e with
  | ELiteral v => wf_value v
  | EPath p => wf_path p
  | ECall n args => is_ident n && forallb wf_expr args
  | EBinary _ l r => wf_expr l && wf_expr r
  | EUnary _ e => wf_expr e
  end.

(** What may follow an expression inside a printed text. *)
Definition delim (a : ascii) : bool := Ascii.eqb a " " || Ascii.eqb a ")" || Ascii.eqb a ",".
Definition ends (k : string) : Prop := match k with EmptyString => True | String a _ => delim a = true end.

Lemma delim_cases a : delim a = true -> a = " "%char \/ a = ")"%char \/ a = ","%char.
Proof.
  unfold delim. intros H. apply orb_true_iff in H as [H|H]; [apply orb_true_iff in H as [H|H]|];
    apply Ascii.eqb_eq in H; tauto.
Qed.

Lemma ends_stops (p : ascii -> bool) k :
  p " "%char = false -> p ")"%char = false -> p ","%char = false -> ends k -> stops p k.
Proof. intros ??? Hk. destruct k as [|a k]; [done|]. by apply delim_cases in Hk as [->|[->| ->]]. Qed.

(** The first byte tells the shape of the text. *)
Inductive text_kind : Type := KNum | KStr | KParen | KIdent.
Definition kind_of (a : ascii) : option text_kind :=
  if num_char a then Some KNum
  else if Ascii.eqb a dquote then Some KStr
  else if Ascii.eqb a "(" then Some KParen
  else if ident_start a then Some KIdent
  else None.

Definition expr_kind (e : Expr) : text_kind :=
  match e with
  | ELiteral (VInt _ | VFloat _) => KNum
  | ELiteral (VStr _) => KStr
  | ELiteral (VNull | VBool _) | EPath _ | ECall _ _ => KIdent
  | EBinary _ _ _ | EUnary _ _ => KParen
  end.

Lemma ident_start_kind a : ident_start a = true -> kind_of a = Some KIdent.
Proof. destruct a as [[] [] [] [] [] [] [] []]; vm_compute; congruence. Qed.

Lemma is_ident_head s : is_ident s = true ->
  exists a r, s = String a r /\ ident_start a = true /\ all_in ident_char s.
Proof.
  destruct s as [|a r]; [done|]. cbn. intros H. reflect_bools. exists a, r. repeat split; [done|].
  constructor; [unfold ident_char; by rewrite H|]. by apply List.forallb_forall, List.Forall_forall in H0
    || (apply List.Forall_forall; by apply List.forallb_forall).
Qed.

Lemma print_int_head i : exists a r, print_int i = String a r /\ num_char a = true.
Proof.
  unfold print_int, num_char. destruct (Z.ltb_spec i 0); [by do 2 eexists|].
  destruct (print_nat_head i) as (a & r & -> & Hd); [lia|]. exists a, r. by rewrite Hd.
Qed.

Lemma contains_point_cons a s : a <> "."%char -> contains (String a s) "." = contains s ".".
Proof.
  intros Hne. unfold contains. apply bool_decide_ext.
  change (find_str "." (String a s)) with
    (match (if Ascii.eqb "." a then Some s else None) with
     | Some rest => Some ("", rest)
     | None => '(pre, post) ← find_str "." s; Some (String a pre, post)
     end).
  destruct (Ascii.eqb_spec "." a); [congruence|].
  destruct (find_str "." s) as [[? ?]|]; cbn; split; intros []; eauto; done.
Qed.

Lemma print_int_all i : all_in num_char (print_int i) /\ contains (print_int i) "." = false.
Proof.
  assert (Hd : forall n, 0 <= n -> all_in is_ascii_digit (print_nat n)) by apply print_nat_digits.
  assert (Hc : forall s, all_in is_ascii_digit s -> contains s "." = false).
  { intros s. unfold all_in. induction s as [|a s IH]; cbn [str_bytes]; [done|].
    intros H. inversion H; subst. rewrite contains_point_cons; [auto|]. intros ->. done. }
  assert (Hn : forall s, all_in is_ascii_digit s -> all_in num_char s).
  { intros s. apply List.Forall_impl. intros a Ha. unfold num_char. by rewrite Ha. }
  unfold print_int. destruct (Z.ltb_spec i 0).
  - split.
    + constructor; [done|]. apply Hn, Hd. lia.
    + rewrite contains_point_cons by done. apply Hc, Hd. lia.
  - split; [apply Hn|apply Hc]; apply Hd; lia.
Qed.

Section Injective.
Context `{UnicodeTables}.

Lemma f64_parse_empty : f64_parse "" = None.
Proof. reflexivity. Qed.

(** Numbers: maximal runs of number characters. *)
Lemma num_text v : wf_value v = true -> expr_kind (ELiteral v) = KNum ->
  all_in num_char (value_text v) /\ value_text v <> "".
Proof.
  unfold value_text. destruct v as [| |i|f|]; try done; intros Hw _; cbn [fmt_value wf_value] in *;
    rewrite app_nil_l_str.
  - split; [apply print_int_all|]. destruct (print_int_head i) as (a & r & -> & _). done.
  - reflect_bools. split; [apply List.Forall_forall, List.forallb_forall, H0|].
    intros He. rewrite He, f64_parse_empty in H1. done.
Qed.

Lemma num_text_inj v w : wf_value v = true -> wf_value w = true ->
  expr_kind (ELiteral v) = KNum -> expr_kind (ELiteral w) = KNum ->
  value_text v = value_text w -> v = w.
Proof.
  unfold value_text. intros Hv Hw Hkv Hkw.
  destruct v as [| |i|f|], w as [| |j|g|]; try done; cbn [fmt_value]; rewrite !app_nil_l_str;
    cbn [wf_value] in *; reflect_bools; intros Heq.
  - apply print_int_inj in Heq. by f_equal.
  - exfalso. rewrite <-Heq in *. by rewrite (proj2 (print_int_all i)) in *.
  - exfalso. rewrite Heq in *. by rewrite (proj2 (print_int_all j)) in *.
  - f_equal. congruence.
Qed.

(** The first byte of an expression has the kind of the expression. *)
Lemma expr_text_head e : wf_expr e = true ->
  exists a r, expr_text e = String a r /\ kind_of a = Some (expr_kind e).
Proof.
  assert (Hid : forall n k, is_ident n = true ->
            exists a r, n +:+ k = String a r /\ kind_of a = Some KIdent).
  { intros n k (a & r & -> & Ha & _)%is_ident_head. exists a, (r +:+ k).
    split; [apply app_cons_str|by apply ident_start_kind]. }
  destruct e as [v|p|n args|op l r|[] e]; cbn [wf_expr expr_text]; intros Hw.
  - destruct v as [|[]|i|f|s]; try (do 2 eexists; split; [reflexivity|done]).
    + cbn. destruct (print_int_head i) as (a & r & Hp & Ha). exists a, r. split; [done|].
      unfold kind_of. by rewrite Ha.
    + destruct (num_text (VFloat f)) as [Hall Hne]; [done..|]. cbn in *.
      unfold all_in in Hall. destruct (f64_display f) as [|a r]; [done|]. inversion Hall; subst.
      exists a, r. split; [done|]. unfold kind_of. by rewrite H2.
  - destruct p as [|[h|] rest]; try done. cbn [wf_path] in Hw. reflect_bools.
    unfold path_display. cbn [fmt_segs fmt_seg Nat.ltb Nat.leb]. rewrite app_nil_l_str. by apply Hid.
  - reflect_bools. by apply Hid.
  - by do 2 eexists.
  - by do 2 eexists.
Qed.

(** Path segments after the first start with a point or a bracket. *)
Lemma fmt_segs_stops i l k : ends k -> stops ident_char (fmt_segs (S i) l +:+ k).
Proof.
  intros Hk. destruct l as [|[s|s] l]; [|done..]. by apply ends_stops.
Qed.

Lemma is_ident_all s : is_ident s = true -> all_in ident_char s.
Proof. by intros (? & ? & _ & _ & ?)%is_ident_head. Qed.

Lemma fmt_segs_inj l1 l2 i j k1 k2 :
  forallb wf_seg l1 = true -> forallb wf_seg l2 = true -> ends k1 -> ends k2 ->
  fmt_segs (S i) l1 +:+ k1 = fmt_segs (S j) l2 +:+ k2 -> l1 = l2 /\ k1 = k2.
Proof.
  intros H1 H2 Hk1 Hk2. revert l2 i j H1 H2.
  induction l1 as [|seg1 l1 IH]; intros [|seg2 l2] i j Hw1 Hw2; cbn [fmt_segs forallb] in *;
    reflect_bools; rewrite ?app_nil_l_str, ?app_assoc_str.
  - done.
  - intros ->. destruct seg2; done.
  - intros <-. destruct seg1; done.
  - destruct seg1 as [s|s], seg2 as [t|t]; cbn [fmt_seg Nat.ltb Nat.leb wf_seg] in *;
      rewrite ?app_assoc_str, ?app_cons_str, ?app_assoc_str, ?app_cons_str, ?app_nil_l_str;
      intros Heq; try done.
    + injection Heq as Heq.
      apply (span_inj ident_char) in Heq as [-> Heq];
        [|by apply is_ident_all|by apply is_ident_all|by apply fmt_segs_stops|by apply fmt_segs_stops].
      apply IH in Heq as [-> ->]; done.
    + injection Heq as Heq.
      apply (span_inj (fun a => negb (Ascii.eqb a dquote))) in Heq as [-> Heq];
        [|by apply List.Forall_forall, List.forallb_forall|by apply List.Forall_forall, List.forallb_forall|done|done].
      injection Heq as Heq. apply IH in Heq as [-> ->]; done.
Qed.

(** Texts that start with an identifier: the identifier and what follows it. *)
Definition ident_split (e : Expr) : string * string :=
  match e with
  | ELiteral VNull => ("null", "")
  | ELiteral (VBool b) => (if b then "true" else "false", "")
  | EPath (SegField h :: rest) => (h, fmt_segs 1 rest)
  | ECall n args => (n, "(" +:+ str_join "," (map expr_text args) +:+ ")")
  | _ => ("", "")
  end.

Lemma ident_split_text e k :
  wf_expr e = true -> expr_kind e = KIdent -> ends k ->
  let '(n, r) := ident_split e in
  expr_text e = n +:+ r /\ all_in ident_char n /\ stops ident_char (r +:+ k).
Proof.
  intros Hw Hkind Hk. destruct e as [v|p|n args|op l r|op e]; try done.
  - destruct v as [|b| | |]; try done.
    + cbn [ident_split]. repeat split; [repeat constructor|by apply ends_stops].
    + cbn [ident_split]. destruct b; repeat split; try (repeat constructor); by apply ends_stops.
  - destruct p as [|[h|] rest]; try done. cbn [wf_expr wf_path ident_split] in *. reflect_bools.
    split; [|split; [by apply is_ident_all|by apply fmt_segs_stops]].
    unfold expr_text, path_display. cbn [fmt_segs fmt_seg Nat.ltb Nat.leb]. by rewrite app_nil_l_str.
  - cbn [wf_expr ident_split] in *. reflect_bools. split; [done|]. split; [by apply is_ident_all|done].
Qed.

Lemma bin_sym_inj op1 op2 u v :
  bin_sym op1 +:+ String " " u = bin_sym op2 +:+ String " " v -> op1 = op2 /\ u = v.
Proof.
  intros Heq. apply (span_inj (fun a => negb (Ascii.eqb a " "))) in Heq as [Hs Hr];
    [|destruct op1; repeat constructor|destruct op2; repeat constructor|done|done].
  injection Hr as ->. split; [|done]. destruct op1, op2; done.
Qed.

Definition text_inj (e1 : Expr) : Prop :=
  forall e2 k1 k2, wf_expr e1 = true -> wf_expr e2 = true -> ends k1 -> ends k2 ->
    expr_text e1 +:+ k1 = expr_text e2 +:+ k2 -> e1 = e2 /\ k1 = k2.

Lemma args_tail_ends l k : ends (args_tail l +:+ ")" +:+ k).
Proof. by destruct l. Qed.

Lemma args_inj l1 : Forall text_inj l1 -> forall l2 k1 k2,
  forallb wf_expr l1 = true -> forallb wf_expr l2 = true ->
  args_tail (map expr_text l1) +:+ ")" +:+ k1 = args_tail (map expr_text l2) +:+ ")" +:+ k2 ->
  l1 = l2 /\ k1 = k2.
Proof.
  induction 1 as [|e1 l1 He _ IH]; intros [|e2 l2] k1 k2 Hw1 Hw2; cbn [map args_tail forallb] in *;
    reflect_bools; rewrite ?app_assoc_str; intros Heq; [by injection Heq|done|done|].
  rewrite !app_cons_str, !app_nil_l_str in Heq. injection Heq as Heq.
  apply He in Heq as [-> Heq]; [|done|done|apply args_tail_ends..].
  apply IH in Heq as [-> ->]; done.
Qed.

Lemma call_args_inj l1 : Forall text_inj l1 -> forall l2 k1 k2,
  forallb wf_expr l1 = true -> forallb wf_expr l2 = true ->
  str_join "," (map expr_text l1) +:+ ")" +:+ k1 = str_join "," (map expr_text l2) +:+ ")" +:+ k2 ->
  l1 = l2 /\ k1 = k2.
Proof.
  assert (Hne : forall e k r, wf_expr e = true -> expr_text e +:+ r <> ")" +:+ k).
  { intros e k r Hw. destruct (expr_text_head e Hw) as (a & t & -> & Hk).
    rewrite !app_cons_str. intros [= -> _]. done. }
  intros [|e1 l1' He Hl]; intros [|e2 l2] k1 k2; cbn [map forallb]; intros Hw1 Hw2; reflect_bools;
    rewrite ?str_join_tail, ?app_assoc_str; cbn [str_join]; intros Heq.
  - by injection Heq.
  - symmetry in Heq. by apply Hne in Heq.
  - by apply Hne in Heq.
  - apply He in Heq as [-> Heq]; [|done|done|apply args_tail_ends..].
    apply (args_inj _ Hl) in Heq as [-> ->]; done.
Qed.

(** Keywords are not the head of a well-formed path. *)
Lemma keyword_path s rest : is_keyword s = true -> wf_expr (EPath (SegField s :: rest)) = false.
Proof. cbn. intros ->. by rewrite andb_false_r. Qed.

Lemma ident_inj e1 : (forall n args, e1 = ECall n args -> Forall text_inj args) ->
  expr_kind e1 = KIdent -> forall e2 k1 k2, expr_kind e2 = KIdent ->
  wf_expr e1 = true -> wf_expr e2 = true -> ends k1 -> ends k2 ->
  expr_text e1 +:+ k1 = expr_text e2 +:+ k2 -> e1 = e2 /\ k1 = k2.
Proof.
  intros IH Hk1 e2 k1 k2 Hk2 Hw1 Hw2 He1 He2 Heq.
  pose proof (ident_split_text e1 k1 Hw1 Hk1 He1) as H1.
  pose proof (ident_split_text e2 k2 Hw2 Hk2 He2) as H2.
  destruct (ident_split e1) as [n1 r1] eqn:E1, (ident_split e2) as [n2 r2] eqn:E2.
  destruct H1 as (Ht1 & Ha1 & Hs1), H2 as (Ht2 & Ha2 & Hs2).
  rewrite Ht1, Ht2, !app_assoc_str in Heq.
  apply (span_inj ident_char) in Heq as [-> Heq]; [|done..]. clear Ht1 Ht2 Ha1 Ha2 Hs1 Hs2.
  assert (Hcall : forall args u k, ends k -> k <> ("(" +:+ str_join "," (map expr_text args) +:+ ")") +:+ u)
    by (intros args u k Hk ->; done).
  assert (Hseg : forall l args u k, ends k ->
            fmt_segs 1 l +:+ k <> ("(" +:+ str_join "," (map expr_text args) +:+ ")") +:+ u).
  { intros [|[s|s] l] args u k Hk Hx; [rewrite app_nil_l_str in Hx; subst; done|done|done]. }
  destruct e1 as [[|b1| | |]|[|[h1|] p1]|m1 args1| |]; try done;
  destruct e2 as [[|b2| | |]|[|[h2|] p2]|m2 args2| |]; try done;
    cbn [ident_split] in E1, E2; simplify_eq.
  all: try rewrite !app_nil_l_str in Heq.
  all: try (by subst).
  all: try solve [try destruct b1; try destruct b2; simplify_eq; done].
  all: try (exfalso; rewrite keyword_path in Hw1 || rewrite keyword_path in Hw2;
            [done|try destruct b1; try destruct b2; done]).
  all: try (exfalso; eapply Hcall; [|exact Heq]; done).
  all: try (exfalso; symmetry in Heq; eapply Hcall; [|exact Heq]; done).
  all: try (exfalso; eapply Hseg; [|exact Heq]; done).
  all: try (exfalso; symmetry in Heq; eapply Hseg; [|exact Heq]; done).
  - cbn [wf_expr wf_path] in *. reflect_bools. by apply fmt_segs_inj in Heq as [-> ->].
  - cbn [wf_expr] in *. reflect_bools. rewrite !app_assoc_str in Heq.
    apply (call_args_inj args1) in Heq as [-> ->]; eauto.
Qed.

Lemma head_kind e1 e2 k1 k2 : wf_expr e1 = true -> wf_expr e2 = true ->
  expr_text e1 +:+ k1 = expr_text e2 +:+ k2 -> expr_kind e1 = expr_kind e2.
Proof.
  intros H1 H2. destruct (expr_text_head e1 H1) as (a & r & -> & Ha).
  destruct (expr_text_head e2 H2) as (b & t & -> & Hb). rewrite !app_cons_str.
  intros [= -> _]. congruence.
Qed.

Lemma num_inj v w k1 k2 : wf_value v = true -> wf_value w = true ->
  expr_kind (ELiteral v) = KNum -> expr_kind (ELiteral w) = KNum -> ends k1 -> ends k2 ->
  value_text v +:+ k1 = value_text w +:+ k2 -> v = w /\ k1 = k2.
Proof.
  intros Hv Hw Hkv Hkw H1 H2 Heq.
  apply (span_inj num_char) in Heq as [Heq ->];
    [|by apply num_text|by apply num_text|by apply ends_stops|by apply ends_stops].
  split; [|done]. by apply num_text_inj.
Qed.

Lemma expr_text_sep e : text_inj e.
Proof.
  induction e as [v|p|n args IH|op l r IHl IHr|[] e IH] using Expr_ind';
    intros e2 k1 k2 Hw1 Hw2 He1 He2 Heq; pose proof (head_kind _ _ _ _ Hw1 Hw2 Heq) as Hk.
  1: destruct v as [|b|i|f|s].
  1,2,6,7: by eapply ident_inj; [..|exact Heq]; auto; intros ?? [= -> ->].
  1,2: destruct e2 as [[]| | | |]; try done; cbn [expr_text wf_expr] in *; apply num_inj in Heq as [-> ->]; done.
  1: { destruct e2 as [[| | | |t]| | | |]; try done. cbn in Hw1, Hw2.
       unfold expr_text, value_text in Heq. cbn [fmt_value] in Heq. rewrite !app_nil_l_str in Heq.
       by apply debug_str_inj in Heq as [-> ->]. }
  - destruct e2 as [[]| | |op2 l2 r2|[] e2]; try done; cbn [wf_expr expr_text] in *; reflect_bools;
      rewrite !app_assoc_str, !app_cons_str, !app_nil_l_str in Heq.
    + injection Heq as Heq. apply IHl in Heq as [-> Heq]; [|done..]. injection Heq as Heq.
      apply bin_sym_inj in Heq as [-> Heq]. apply IHr in Heq as [-> Heq]; [|done..].
      by injection Heq as ->.
    + exfalso. destruct (expr_text_head l) as (a & t & Hl & Ha); [done|]. rewrite Hl in Heq.
      rewrite app_cons_str in Heq. by injection Heq as -> _.
  - destruct e2 as [[]| | |op2 l2 r2|[] e2]; try done; cbn [wf_expr expr_text] in *; reflect_bools;
      rewrite !app_assoc_str, !app_cons_str, !app_nil_l_str in Heq.
    + exfalso. destruct (expr_text_head l2) as (a & t & Hl & Ha); [done|]. rewrite Hl in Heq.
      rewrite app_cons_str in Heq. by injection Heq as <- _.
    + injection Heq as Heq. apply IH in Heq as [-> Heq]; [|done..]. by injection Heq as ->.
Qed.

Lemma expr_text_inj e1 e2 : wf_expr e1 = true -> wf_expr e2 = true ->
  expr_text e1 = expr_text e2 -> e1 = e2.
Proof.
  intros H1 H2 Heq. apply (expr_text_sep e1 e2 "" ""); try done. by rewrite Heq.
Qed.
End Injective.

(** The canonical text separates the expressions the grammar produces, so two
    conditions share an alpha node only when they are the same condition. *)
Theorem print_expr_inj `{UnicodeTables} e1 e2 :
  wf_expr e1 = true -> wf_expr e2 = true ->
  print_expr e1 = print_expr e2 -> e1 = e2.
Proof. rewrite !print_expr_text. apply expr_text_inj. Qed.

(** A quote inside an index, which a GRL string literal can hold, breaks the
    separation: one index and two indices print alike. *)
Definition quoted_index : Expr :=
  EPath [SegField "Headers"; SegIndex ("a" +:+ String dquote ("][" +:+ String dquote "b"))].
Definition two_indices : Expr := EPath [SegField "Headers"; SegIndex "a"; SegIndex "b"].

(** Without the condition on indices the text does not separate expressions:
    a key that holds a quote prints like two keys. *)
Theorem print_expr_index_collision `{UnicodeTables} :
  print_expr quoted_index = print_expr two_indices /\ quoted_index <> two_indices.
Proof. split; [reflexivity|discriminate]. Qed.

Lemma print_expr_inj_witness :
  EBinary BEq (EPath [SegField "Request"; SegField "Path"]) (ELiteral (VStr "a(b) c")) =
  EBinary BEq (EPath [SegField "Request"; SegField "Path"]) (ELiteral (VStr ("a(b)" +:+ " c"))).
Proof. apply (@print_expr_inj plain_unicode); reflexivity. Defined.
