(* ===== verification/Rete.v ===== *)
(** The RETE network ([rete/mod.rs], [alpha.rs], [terminal.rs]): alpha nodes
    shared by canonical text, guards over alpha indices, and the compilation of a
    rule batch.  The main result is that a compiled guard computes the boolean
    structure of the condition it was compiled from. *)
From S2P Require Import Prelude Utf8 RustStd Float64 Extern Ast Printer.
Local Open Scope Z_scope.

Definition AlphaId : Type := nat.

(** * Guards ([terminal.rs]) *)

Inductive Guard : Type :=
| GTrue
| GFalse
| GAlpha (id : AlphaId)
| GAnd (gs : list Guard)
| GOr (gs : list Guard)
| GNot (g : Guard).

(** [alphas.get(id).copied().unwrap_or(false)] *)
Definition alpha_value (alphas : list bool) (id : AlphaId) : bool := default false (alphas !! id).

Fixpoint guard_eval (alphas : list bool) (g : Guard) : bool :=
  match g with
  | GTrue => true
  | GFalse => false
  | GAlpha id => alpha_value alphas id
  | GAnd gs => forallb (guard_eval alphas) gs
  | GOr gs => existsb (guard_eval alphas) gs
  | GNot g => negb (guard_eval alphas g)
  end.

Record Terminal := mkTerminal {
  rule_name : string; salience : Z; guard : Guard; actions : list Stmt
}.

Definition merge_and (l r : Guard) : Guard :=
  match l, r with
  | GAnd a, GAnd b => GAnd (a ++ b)
  | GAnd a, b => GAnd (a ++ [b])
  | a, GAnd b => GAnd (a :: b)
  | a, b => GAnd [a; b]
  end.

Definition merge_or (l r : Guard) : Guard :=
  match l, r with
  | GOr a, GOr b => GOr (a ++ b)
  | GOr a, b => GOr (a ++ [b])
  | a, GOr b => GOr (a :: b)
  | a, b => GOr [a; b]
  end.

Lemma merge_and_eval v l r :
  guard_eval v (merge_and l r) = guard_eval v l && guard_eval v r.
Proof.
  destruct l, r; cbn; rewrite ?forallb_app; cbn; rewrite ?andb_true_r; done.
Qed.

Lemma merge_or_eval v l r :
  guard_eval v (merge_or l r) = guard_eval v l || guard_eval v r.
Proof.
  destruct l, r; cbn; rewrite ?existsb_app; cbn; rewrite ?orb_false_r; done.
Qed.

Section Network.
Context `{UnicodeTables, RegexLib}.

Inductive CompiledAlpha : Type :=
| MatchesRegex (haystack : Expr) (re : regex).

Record AlphaNode := mkAlpha {
  an_id : AlphaId; an_expr : Expr; an_key : string; an_compiled : option CompiledAlpha
}.

Record Network := mkNetwork {
  alphas : list AlphaNode;
  terminals : list Terminal;
  alpha_index : gmap string AlphaId
}.

Definition Network_new : Network := mkNetwork [] [] ∅.

Definition compile_alpha (expr : Expr) : option CompiledAlpha :=
  match expr with
  | ECall name [haystack; ELiteral (VStr pat)] =>
    if String.eqb name "matches" then MatchesRegex haystack <$> regex_new pat else None
  | _ => None
  end.

Definition intern_alpha (expr : Expr) (net : Network) : AlphaId * Network :=
  let key := print_expr expr in
  match alpha_index net !! key with
  | Some id => (id, net)
  | None =>
    let id := length (alphas net) in
    let node := mkAlpha id expr key (compile_alpha expr) in
    (id, mkNetwork (alphas net ++ [node]) (terminals net) (<[key := id]> (alpha_index net)))
  end.

Fixpoint compile_guard (e : Expr) (net : Network) : Guard * Network :=
  match e with
  | EBinary BAnd lhs rhs =>
    let '(l, net) := compile_guard lhs net in
    let '(r, net) := compile_guard rhs net in
    (merge_and l r, net)
  | EBinary BOr lhs rhs =>
    let '(l, net) := compile_guard lhs net in
    let '(r, net) := compile_guard rhs net in
    (merge_or l r, net)
  | EUnary UNot expr => let '(g, net) := compile_guard expr net in (GNot g, net)
  | ELiteral (VBool true) => (GTrue, net)
  | ELiteral (VBool false) => (GFalse, net)
  | other => let '(id, net) := intern_alpha other net in (GAlpha id, net)
  end.

Definition add_rule (net : Network) (r : RuleAst) : Network :=
  let '(g, net) := compile_guard (ra_when r) net in
  mkNetwork (alphas net)
    (terminals net ++ [mkTerminal (ra_name r) (ra_salience r) g (ra_then r)]) (alpha_index net).

(** [sort_by(|a, b| b.salience.cmp(&a.salience))] *)
Definition sort_terminals (l : list Terminal) : list Terminal :=
  sort_by_key (fun t => - salience t) l.

Definition compile (rules : list RuleAst) : Network :=
  let net := foldl add_rule Network_new rules in
  mkNetwork (alphas net) (sort_terminals (terminals net)) (alpha_index net).

Definition alpha_count (net : Network) : nat := length (alphas net).
Definition rule_count (net : Network) : nat := length (terminals net).

(** * The boolean structure of a condition *)

(** [bool_sem val e]: the value of [e] when the non-boolean leaves have value
    [val]. *)
Fixpoint bool_sem (val : Expr -> bool) (e : Expr) : bool :=
  match e with
  | EBinary BAnd l r => bool_sem val l && bool_sem val r
  | EBinary BOr l r => bool_sem val l || bool_sem val r
  | EUnary UNot e => negb (bool_sem val e)
  | ELiteral (VBool b) => b
  | e => val e
  end.

(** The leaves that become alpha nodes. *)
Fixpoint alpha_leaves (e : Expr) : list Expr :=
  match e with
  | EBinary BAnd l r | EBinary BOr l r => alpha_leaves l ++ alpha_leaves r
  | EUnary UNot e => alpha_leaves e
  | ELiteral (VBool _) => []
  | e => [e]
  end.

Lemma alpha_leaves_wf e : wf_expr e = true -> Forall (fun x => wf_expr x = true) (alpha_leaves e).
Proof.
  induction e as [[]|p|n args|op l r IHl IHr|[] e IH] using Expr_ind'; intros Hw;
    try (by repeat constructor).
  - cbn in Hw. reflect_bools. destruct op; cbn [alpha_leaves];
      try (constructor; [cbn; by rewrite H1, H2|constructor]);
      apply List.Forall_app; auto.
  - auto.
Qed.

(** * The network invariant *)

(** Node [i] carries index [i], the text and the fast path of its expression,
    and the table maps exactly the texts of the nodes to their indices. *)
Record network_wf (net : Network) : Prop := {
  wf_nodes : forall i a, alphas net !! i = Some a ->
    an_id a = i /\ an_key a = print_expr (an_expr a) /\
    an_compiled a = compile_alpha (an_expr a) /\ wf_expr (an_expr a) = true;
  wf_index : forall k i, alpha_index net !! k = Some i <->
    exists a, alphas net !! i = Some a /\ an_key a = k
}.

Lemma network_new_wf : network_wf Network_new.
Proof. split; cbn; [done|]. intros k i. split; [done|]. by intros (? & ? & _). Qed.

Lemma intern_alpha_spec e net id net' :
  network_wf net -> wf_expr e = true -> intern_alpha e net = (id, net') ->
  network_wf net' /\ terminals net' = terminals net /\
  (exists more, alphas net' = alphas net ++ more) /\
  exists a, alphas net' !! id = Some a /\ an_expr a = e.
Proof.
  intros [Hn Hi] He. unfold intern_alpha. destruct (alpha_index net !! _) as [id'|] eqn:Hk.
  - intros [= <- <-]. split; [done|]. split; [done|]. split; [exists []; by rewrite app_nil_r|].
    apply Hi in Hk as (a & Ha & Hkey). exists a. split; [done|].
    destruct (Hn _ _ Ha) as (_ & Hkey' & _ & Hw).
    apply expr_text_inj; [done..|]. rewrite <-!print_expr_text. congruence.
  - intros [= <- <-]. cbn [alphas terminals]. split; [|split; [done|split; [eauto|]]].
    + split; cbn [alphas alpha_index].
      * intros i a [Ha|[Hlen Ha]]%lookup_app_Some; [by apply Hn|].
        destruct (i - _)%nat eqn:Hi0; [|done]. cbn in Ha. injection Ha as <-. cbn.
        repeat split; [lia|done].
      * intros k i. rewrite lookup_insert_Some, Hi. split.
        { intros [[<- <-]|[Hne (a & Ha & Hkey)]].
          - exists (mkAlpha (length (alphas net)) e (print_expr e) (compile_alpha e)).
            split; [|done]. rewrite lookup_app_r by lia. by rewrite Nat.sub_diag.
          - exists a. split; [by apply lookup_app_l_Some|done]. }
        { intros (a & [Ha|[Hlen Ha]]%lookup_app_Some & Hkey).
          - right. split; [|by exists a]. intros <-.
            assert (alpha_index net !! print_expr e = Some i) by (apply Hi; eauto). congruence.
          - destruct (i - _)%nat eqn:Hi0; [|done]. cbn in Ha. injection Ha as <-. left.
            cbn in Hkey. split; [done|lia]. }
    + eexists. split; [rewrite lookup_app_r by lia; by rewrite Nat.sub_diag|done].
Qed.

(** What a guard compiled in [net] means in every later network. *)
Definition guard_means (net : Network) (g : Guard) (e : Expr) : Prop :=
  forall (val : Expr -> bool) more,
    guard_eval (map (fun a => val (an_expr a)) (alphas net ++ more)) g = bool_sem val e.

Lemma guard_means_mono net net' more g e :
  alphas net' = alphas net ++ more -> guard_means net g e -> guard_means net' g e.
Proof. intros Heq Hg val more'. rewrite Heq, <-app_assoc. apply Hg. Qed.

Lemma compile_leaf_spec e net id net' :
  network_wf net -> wf_expr e = true -> (forall val, bool_sem val e = val e) ->
  intern_alpha e net = (id, net') ->
  network_wf net' /\ terminals net' = terminals net /\
  (exists more, alphas net' = alphas net ++ more) /\ guard_means net' (GAlpha id) e.
Proof.
  intros Hwf He Hsem Hi.
  destruct (intern_alpha_spec _ _ _ _ Hwf He Hi) as (? & ? & ? & a & Ha & <-).
  split; [done|]. split; [done|]. split; [done|]. intros val more. cbn [guard_eval]. unfold alpha_value.
  rewrite Hsem. apply (lookup_app_l_Some _ more) in Ha.
  change (default false (((fun x => val (an_expr x)) <$> (alphas net' ++ more)) !! (id : nat)) =
          val (an_expr a)).
  by rewrite list_lookup_fmap, Ha.
Qed.

Lemma compile_guard_spec e : wf_expr e = true -> forall net g net',
  network_wf net -> compile_guard e net = (g, net') ->
  network_wf net' /\ terminals net' = terminals net /\
  (exists more, alphas net' = alphas net ++ more) /\ guard_means net' g e.
Proof.
  induction e as [v|p|n args _|op l r IHl IHr|[] e IH] using Expr_ind'; intros He net g net' Hwf Hc.
  - destruct v as [|[]| | |]; cbn [compile_guard] in Hc;
      try (destruct (intern_alpha _ net) as [id net1] eqn:Hi; injection Hc as <- <-;
           by eapply compile_leaf_spec);
      injection Hc as <- <-; (split; [done|split; [done|split; [exists []; by rewrite app_nil_r|done]]]).
  - cbn [compile_guard] in Hc. destruct (intern_alpha _ net) as [id net1] eqn:Hi.
    injection Hc as <- <-. by eapply compile_leaf_spec.
  - cbn [compile_guard] in Hc. destruct (intern_alpha _ net) as [id net1] eqn:Hi.
    injection Hc as <- <-. by eapply compile_leaf_spec.
  - cbn [wf_expr] in He. reflect_bools.
    destruct op; cbn [compile_guard] in Hc;
      try (destruct (intern_alpha _ net) as [id net1] eqn:Hi; injection Hc as <- <-;
           eapply compile_leaf_spec; [done| |done|exact Hi]; cbn; by rewrite H1, H2).
    all: destruct (compile_guard l net) as [gl net1] eqn:Hl, (compile_guard r net1) as [gr net2] eqn:Hr.
    all: injection Hc as <- <-.
    all: destruct (IHl H1 _ _ _ Hwf Hl) as (Hwf1 & Ht1 & [m1 Hm1] & Hg1).
    all: destruct (IHr H2 _ _ _ Hwf1 Hr) as (Hwf2 & Ht2 & [m2 Hm2] & Hg2).
    all: split; [done|split; [congruence|split; [exists (m1 ++ m2); by rewrite Hm2, Hm1, app_assoc|]]].
    all: intros val more; rewrite ?merge_and_eval, ?merge_or_eval; cbn [bool_sem].
    all: by rewrite (Hg2 val more), (guard_means_mono _ _ _ _ _ Hm2 Hg1 val more).
  - cbn [compile_guard] in Hc. destruct (compile_guard e net) as [g1 net1] eqn:H1.
    injection Hc as <- <-. destruct (IH He _ _ _ Hwf H1) as (? & ? & ? & Hg).
    split; [done|]. split; [done|]. split; [done|]. intros val more. cbn. by rewrite (Hg val more).
Qed.

(** * Whole batches *)

(** A terminal that stands for a rule in [net]. *)
Definition terminal_for (net : Network) (t : Terminal) (r : RuleAst) : Prop :=
  rule_name t = ra_name r /\ salience t = ra_salience r /\ actions t = ra_then r /\
  guard_means net (guard t) (ra_when r).

Definition wf_rule (r : RuleAst) : bool := wf_expr (ra_when r).

Lemma add_rule_spec net done_ r :
  network_wf net -> wf_rule r = true -> Forall2 (terminal_for net) (terminals net) done_ ->
  network_wf (add_rule net r) /\
  Forall2 (terminal_for (add_rule net r)) (terminals (add_rule net r)) (done_ ++ [r]).
Proof.
  intros Hwf Hr Hall. unfold add_rule. destruct (compile_guard _ net) as [g net1] eqn:Hg.
  destruct (compile_guard_spec _ Hr _ _ _ Hwf Hg) as (Hwf1 & Ht & [more Hm] & Hmeans).
  split; [by destruct Hwf1; split|]. cbn [terminals]. rewrite Ht. apply Forall2_app.
  - eapply Forall2_impl; [exact Hall|]. intros t x (? & ? & ? & Hx). repeat split; [done..|].
    eapply (guard_means_mono net1 _ []); [by rewrite app_nil_r|]. by eapply guard_means_mono.
  - repeat constructor. eapply (guard_means_mono net1 _ []); [by rewrite app_nil_r|done].
Qed.

Lemma add_rules_spec rules net done_ :
  network_wf net -> forallb wf_rule rules = true ->
  Forall2 (terminal_for net) (terminals net) done_ ->
  let net' := foldl add_rule net rules in
  network_wf net' /\ Forall2 (terminal_for net') (terminals net') (done_ ++ rules).
Proof.
  revert net done_. induction rules as [|r rules IH]; intros net done_ Hwf Hr Hall; cbn.
  - by rewrite app_nil_r.
  - cbn in Hr. reflect_bools. destruct (add_rule_spec net done_ r) as [? ?]; [done..|].
    change (r :: rules) with ([r] ++ rules). rewrite app_assoc. by apply IH.
Qed.

Definition sort_rules (l : list RuleAst) : list RuleAst := sort_by_key (fun r => - ra_salience r) l.

Lemma compile_spec rules :
  forallb wf_rule rules = true ->
  network_wf (compile rules) /\
  Forall2 (terminal_for (compile rules)) (terminals (compile rules)) (sort_rules rules).
Proof.
  intros Hr. destruct (add_rules_spec rules Network_new []) as [[? ?] Hall];
    [apply network_new_wf|done|constructor|].
  split; [by split|]. unfold compile, sort_rules. cbn [terminals].
  apply sort_by_key_Forall2; [|exact Hall]. intros t r (_ & -> & _). done.
Qed.

(** * Sharing *)

Definition exprs (net : Network) : list Expr := map an_expr (alphas net).

Lemma network_exprs_nodup net : network_wf net -> NoDup (exprs net).
Proof.
  intros [Hn Hi]. apply NoDup_alt. intros i j e Hx Hy. unfold exprs in Hx, Hy.
  apply list_lookup_fmap_Some in Hx as (a & -> & Ha). apply list_lookup_fmap_Some in Hy as (b & Heq & Hb).
  destruct (Hn _ _ Ha) as (_ & Hka & _), (Hn _ _ Hb) as (_ & Hkb & _).
  assert (alpha_index net !! an_key a = Some i) as H1 by (apply Hi; eauto).
  assert (alpha_index net !! an_key a = Some j) as H2
    by (apply Hi; exists b; split; [done|congruence]). congruence.
Qed.

Lemma intern_exprs e net id net' :
  network_wf net -> wf_expr e = true -> intern_alpha e net = (id, net') ->
  forall x, In x (exprs net') <-> In x (exprs net) \/ x = e.
Proof.
  intros Hwf He Hi x. pose proof (intern_alpha_spec _ _ _ _ Hwf He Hi) as (_ & _ & _ & a & Ha & <-).
  assert (Hin : In (an_expr a) (exprs net')).
  { apply in_map, list_elem_of_In. by eapply list_elem_of_lookup_2. }
  revert Hi. unfold intern_alpha. destruct (alpha_index net !! _); intros [= <- <-].
  - intuition congruence.
  - unfold exprs in *. cbn [alphas] in *. rewrite map_app, in_app_iff. cbn. intuition congruence.
Qed.

Lemma compile_guard_exprs e : wf_expr e = true -> forall net g net',
  network_wf net -> compile_guard e net = (g, net') ->
  forall x, In x (exprs net') <-> In x (exprs net) \/ In x (alpha_leaves e).
Proof.
  assert (Hleaf : forall e net net' g x, network_wf net -> wf_expr e = true ->
            (let '(id, net) := intern_alpha e net in (GAlpha id, net)) = (g, net') ->
            In x (exprs net') <-> In x (exprs net) \/ In x [e]).
  { intros e' net net' g x Hwf He. destruct (intern_alpha e' net) as [i n] eqn:Hi. intros [= _ ->].
    rewrite (intern_exprs _ _ _ _ Hwf He Hi x). cbn. intuition (subst; auto). }
  induction e as [v|p|n args _|op l r IHl IHr|[] e IH] using Expr_ind'; intros He net g net' Hwf Hc x;
    cbn [compile_guard alpha_leaves] in *.
  - destruct v as [|[]| | |]; try (by eapply Hleaf).
    all: injection Hc as <- <-; cbn; tauto.
  - by eapply Hleaf.
  - by eapply Hleaf.
  - pose proof He as He'. cbn [wf_expr] in He'. reflect_bools.
    destruct op; try (by eapply Hleaf).
    all: destruct (compile_guard l net) as [gl net1] eqn:Hl, (compile_guard r net1) as [gr net2] eqn:Hr.
    all: injection Hc as <- <-.
    all: destruct (compile_guard_spec l) with net gl net1 as (Hwf1 & _); [done..|].
    all: rewrite (IHr H2 _ _ _ Hwf1 Hr x), (IHl H1 _ _ _ Hwf Hl x), in_app_iff; tauto.
  - destruct (compile_guard e net) as [g1 net1] eqn:H1. injection Hc as <- <-. by eapply IH.
Qed.

Lemma add_rules_exprs rules net :
  network_wf net -> forallb wf_rule rules = true ->
  forall x, In x (exprs (foldl add_rule net rules)) <->
            In x (exprs net) \/ exists r, In r rules /\ In x (alpha_leaves (ra_when r)).
Proof.
  revert net. induction rules as [|r rules IH]; intros net Hwf Hr x; cbn.
  { split; [auto|]. by intros [|(? & [] & _)]. }
  cbn in Hr. reflect_bools. unfold add_rule at 2.
  destruct (compile_guard _ net) as [g net1] eqn:Hg.
  destruct (compile_guard_spec (ra_when r) H1 _ _ _ Hwf Hg) as (Hwf1 & _).
  rewrite IH by (done || (destruct Hwf1; by split)).
  unfold exprs at 1. cbn [alphas]. fold (exprs net1).
  rewrite (compile_guard_exprs (ra_when r) H1 _ _ _ Hwf Hg x).
  split; [intros [[|]|(r' & ? & ?)]; eauto|intros [|(r' & [->|?] & ?)]; eauto].
Qed.
End Network.

(** C8: every terminal of a compiled batch stands for its rule: in descending
    salience, rules of equal salience in batch order, each with the name and
    actions of its rule and a guard that computes the rule's condition from the
    values of the alpha nodes, whatever those values are.  The conditions of the rules
    are to print without ambiguity ([wf_rule]): names are identifiers, floats have a
    point, and no index key has a quote in it, which a parsed rule could have. *)
Theorem compile_guards_sound `{UnicodeTables, RegexLib} rules :
  forallb wf_rule rules = true ->
  let net := compile rules in
  Forall2 (fun t r =>
    rule_name t = ra_name r /\ salience t = ra_salience r /\ actions t = ra_then r /\
    forall val, guard_eval (map (fun a => val (an_expr a)) (alphas net)) (guard t) =
                bool_sem val (ra_when r)) (terminals net) (sort_rules rules).
Proof.
  intros Hr. destruct (compile_spec rules Hr) as [_ Hall].
  eapply Forall2_impl; [exact Hall|]. intros t r (? & ? & ? & Hg). repeat split; [done..|].
  intros val. rewrite <-(Hg val []). by rewrite app_nil_r.
Qed.

(** C37: alpha nodes are shared: there is exactly one node for each distinct leaf
    of the batch's conditions, and its index is its position.  The conditions are to
    print without ambiguity ([wf_rule]): names are identifiers, floats have a point, and
    no index key has a quote in it, which a parsed rule could have. *)
Theorem alpha_nodes_shared `{UnicodeTables, RegexLib} rules :
  forallb wf_rule rules = true ->
  let net := compile rules in
  NoDup (map an_expr (alphas net)) /\
  (forall e, In e (map an_expr (alphas net)) <->
             exists r, In r rules /\ In e (alpha_leaves (ra_when r))) /\
  (forall i a, alphas net !! i = Some a -> an_id a = i).
Proof.
  intros Hr. destruct (compile_spec rules Hr) as [Hwf _]. split; [|split].
  - by apply network_exprs_nodup.
  - intros e. change (map an_expr (alphas (compile rules)))
      with (exprs (foldl add_rule Network_new rules)).
    rewrite add_rules_exprs by (apply network_new_wf || done). cbn. tauto.
  - intros i a Ha. by destruct Hwf as [Hn _], (Hn _ _ Ha).
Qed.

(** Two rules that share a condition. *)
Definition shared_leaf : Expr := ECall "contains_sqli" [EPath [SegField "Request"; SegField "Body"]].
Definition post_leaf : Expr :=
  EBinary BEq (EPath [SegField "Request"; SegField "Method"]) (ELiteral (VStr "POST")).
Definition shared_rules : list RuleAst :=
  [mkRuleAst "B" 5 (EBinary BOr shared_leaf (EUnary UNot post_leaf)) [SCall ("allow", [])];
   mkRuleAst "A" 10 (EBinary BAnd shared_leaf (EBinary BAnd post_leaf (ELiteral (VBool true))))
     [SCall ("block", [])]].

Lemma compile_guards_sound_witness :
  let net := compile (H := plain_unicode) (H0 := literal_regex) shared_rules in
  rule_name <$> terminals net = ["A"; "B"] /\
  exists t, terminals net !! 0%nat = Some t /\
    forall val, guard_eval (map (fun a => val (an_expr (H0 := literal_regex) a)) (alphas net)) (guard t) =
      val shared_leaf && (val post_leaf && true).
Proof.
  cbn zeta. split; [reflexivity|].
  destruct (Forall2_lookup_r _ _ _ 0%nat _ (@compile_guards_sound plain_unicode literal_regex shared_rules eq_refl)
    eq_refl) as (t & Ht & _ & _ & _ & Hg).
  exists t. split; [exact Ht|]. intros val. exact (Hg val).
Defined.

Lemma alpha_nodes_shared_witness :
  alpha_count (compile (H := plain_unicode) (H0 := literal_regex) shared_rules) = 2%nat /\
  NoDup (map (an_expr (H0 := literal_regex))
    (alphas (compile (H := plain_unicode) (H0 := literal_regex) shared_rules))).
Proof.
  split; [reflexivity|]. exact (proj1 (@alpha_nodes_shared plain_unicode literal_regex shared_rules eq_refl)).
Defined.
