(* ===== verification/WorkingMemory.v ===== *)
(** Working memory of the rule engine ([rete/working_memory.rs]): the request
    fact, the overlay of assignments, the outcome, path resolution and the
    percent decoder. *)
From S2P Require Import Prelude Utf8 RustStd Float64 Extern WafTypes Ast Functions.
Local Open Scope Z_scope.

Inductive ChallengeReq : Type := ReqJs | ReqPow.
#[export] Instance ChallengeReq_eq_dec : EqDecision ChallengeReq.
Proof. solve_decision. Defined.

Record Outcome := mkOutcome {
  block_reason : option string;
  allow : bool;
  challenge : option ChallengeReq;
  rate_limit_secs : option Z;
  log_messages : list string;
  matched_rules : list string;
  risk_delta : Z
}.
Definition Outcome_default : Outcome := mkOutcome None false None None [] [] 0.

(** Field updates of the outcome. *)
Definition set_block (r : string) (o : Outcome) : Outcome :=
  mkOutcome (Some r) (allow o) (challenge o) (rate_limit_secs o) (log_messages o) (matched_rules o) (risk_delta o).
Definition set_allow (o : Outcome) : Outcome :=
  mkOutcome (block_reason o) true (challenge o) (rate_limit_secs o) (log_messages o) (matched_rules o) (risk_delta o).
Definition set_challenge (c : ChallengeReq) (o : Outcome) : Outcome :=
  mkOutcome (block_reason o) (allow o) (Some c) (rate_limit_secs o) (log_messages o) (matched_rules o) (risk_delta o).
Definition set_rate_limit (secs : Z) (o : Outcome) : Outcome :=
  mkOutcome (block_reason o) (allow o) (challenge o) (Some secs) (log_messages o) (matched_rules o) (risk_delta o).
Definition push_log (m : string) (o : Outcome) : Outcome :=
  mkOutcome (block_reason o) (allow o) (challenge o) (rate_limit_secs o) (log_messages o ++ [m]) (matched_rules o) (risk_delta o).
Definition push_matched (n : string) (o : Outcome) : Outcome :=
  mkOutcome (block_reason o) (allow o) (challenge o) (rate_limit_secs o) (log_messages o) (matched_rules o ++ [n]) (risk_delta o).

(** * Percent decoding *)

Definition hex_val (b : ascii) : option Z :=
  let v := byte_val b in
  if is_ascii_digit b then Some (v - 48)
  else if (97 <=? v) && (v <=? 102) then Some (v - 97 + 10)
  else if (65 <=? v) && (v <=? 70) then Some (v - 65 + 10)
  else None.

(** The loop of [url_decode] over the bytes; the index test [i + 2 < len] is the
    presence of two more bytes. *)
Fixpoint url_decode_bytes (s : string) : string :=
  match s with
  | EmptyString => ""
  | String b s' =>
    match s' with
    | String h (String l rest) =>
      if Ascii.eqb b "%" then
        match hex_val h, hex_val l with
        | Some h, Some l => String (byte_of (Z.lor (wrap_u 8 (Z.shiftl h 4)) l)) (url_decode_bytes rest)
        | _, _ => String b (url_decode_bytes s')
        end
      else String b (url_decode_bytes s')
    | _ => String b (url_decode_bytes s')
    end
  end.

Definition url_decode (s : string) : string := from_utf8_lossy (url_decode_bytes s).
Definition form_decode (s : string) : string := url_decode (str_replace s "+" " ").

(** * Path resolution *)

Section Memory.
Context `{UnicodeTables, HashOrder}.

(** [ctx.headers.iter().find(|(k, _)| k.to_lowercase() == key)]: the first
    match in the map's iteration order. *)
Definition find_header (ctx : RequestContext) (name : string) : string :=
  let key := to_lowercase name in
  default "" (snd <$> List.find (fun kv => String.eqb (to_lowercase (fst kv)) key) (hash_iter (headers ctx))).

Definition resolve (p : Path) (ctx : RequestContext) : Value :=
  match p with
  | SegField head :: rest =>
    if negb (String.eqb head "Request") then VNull else
    match rest with
    | SegField field :: rest =>
      if String.eqb field "Method" then VStr (method ctx)
      else if String.eqb field "Path" then VStr (url_decode (path ctx))
      else if String.eqb field "RawPath" then VStr (path ctx)
      else if String.eqb field "Query" then VStr (form_decode (default "" (query ctx)))
      else if String.eqb field "RawQuery" then VStr (default "" (query ctx))
      else if String.eqb field "Body" then VStr (default "" (from_utf8_lossy <$> body ctx))
      else if String.eqb field "ClientIp" then VStr (client_ip ctx)
      else if String.eqb field "RequestId" then VStr (request_id ctx)
      else if String.eqb field "SessionId" then VStr (default "" (session_id ctx))
      else if String.eqb field "DeviceFp" then VStr (default "" (device_fp ctx))
      else if String.eqb field "Tier" then VStr (to_lowercase (tier_debug (tier ctx)))
      else if String.eqb field "RiskScore" then VInt (risk_value (risk_score ctx))
      else if String.eqb field "Xff" then VStr (default "" (xff_header ctx))
      else if String.eqb field "Headers" then
        match rest with SegIndex name :: _ => VStr (find_header ctx name) | _ => VNull end
      else if String.eqb field "Ext" then
        match rest with
        | SegIndex key :: _ => VStr (default "" (extensions ctx !! key))
        | _ => VNull
        end
      else VNull
    | _ => VNull
    end
  | _ => VNull
  end.

(** * The memory *)

Record WorkingMemory := mkMemory {
  fact : RequestContext;
  scratch : gmap Path Value;
  outcome : Outcome;
  registry : FunctionRegistry
}.

Definition WorkingMemory_new (fact : RequestContext) (registry : FunctionRegistry) : WorkingMemory :=
  mkMemory fact ∅ Outcome_default registry.

Definition read_path (wm : WorkingMemory) (p : Path) : Value :=
  match scratch wm !! p with
  | Some v => v
  | None => resolve p (fact wm)
  end.

Definition write_path (p : Path) (v : Value) (wm : WorkingMemory) : WorkingMemory :=
  mkMemory (fact wm) (<[p := v]> (scratch wm)) (outcome wm) (registry wm).

Definition on_outcome (f : Outcome -> Outcome) (wm : WorkingMemory) : WorkingMemory :=
  mkMemory (fact wm) (scratch wm) (f (outcome wm)) (registry wm).
End Memory.

(** * The decoder inverts percent encoding *)

Definition hex_upper (d : Z) : ascii := if d <? 10 then byte_of (48 + d) else byte_of (55 + d).

(** Percent-encode the bytes that [keep] does not select, and every ['%']. *)
Fixpoint percent_encode (keep : ascii -> bool) (s : string) : string :=
  match s with
  | EmptyString => ""
  | String b s =>
    if keep b && negb (Ascii.eqb b "%") then String b (percent_encode keep s)
    else String "%" (String (hex_upper (byte_val b / 16)) (String (hex_upper (byte_val b mod 16))
                       (percent_encode keep s)))
  end.

Lemma hex_pair_val b :
  hex_val (hex_upper (byte_val b / 16)) = Some (byte_val b / 16) /\
  hex_val (hex_upper (byte_val b mod 16)) = Some (byte_val b mod 16) /\
  byte_of (Z.lor (wrap_u 8 (Z.shiftl (byte_val b / 16) 4)) (byte_val b mod 16)) = b.
Proof. destruct b as [[] [] [] [] [] [] [] []]; vm_compute; auto. Qed.

Lemma url_decode_plain b s : Ascii.eqb b "%" = false ->
  url_decode_bytes (String b s) = String b (url_decode_bytes s).
Proof. intros Hb. destruct s as [|h [|l rest]]; cbn; [done..|]. by rewrite Hb. Qed.

Lemma url_decode_bytes_encode keep s : url_decode_bytes (percent_encode keep s) = s.
Proof.
  induction s as [|b s IH]; [done|]. cbn [percent_encode]. destruct (_ && _) eqn:Hb.
  - reflect_bools. by rewrite url_decode_plain, IH.
  - destruct (hex_pair_val b) as (Hh & Hl & Hv).
    cbn [url_decode_bytes]. rewrite Hh, Hl, Hv, IH. done.
Qed.

(** Percent decoding inverts percent encoding: whatever bytes an encoder
    chose to escape, the decoded path is the original text. *)
Theorem url_decode_inverts_encode keep s :
  valid_utf8 s = true -> url_decode (percent_encode keep s) = s.
Proof. intros Hs. unfold url_decode. rewrite url_decode_bytes_encode. by apply lossy_valid. Qed.

Lemma url_decode_inverts_encode_witness :
  url_decode (percent_encode (fun _ => false) "/a%41 b") = "/a%41 b".
Proof. apply url_decode_inverts_encode. reflexivity. Defined.

(** Reading a path after an assignment to it gives the assigned value, and
    every other path is unchanged. *)
Theorem read_after_write `{UnicodeTables, HashOrder} p q v wm :
  read_path (write_path p v wm) q = if decide (p = q) then v else read_path wm q.
Proof.
  unfold read_path, write_path. cbn [scratch fact]. case_decide as Hpq.
  - subst. by rewrite lookup_insert_eq.
  - by rewrite lookup_insert_ne.
Qed.
