(* ===== verification/Engine.v ===== *)
(** The rule engine ([rete/engine.rs]): expression evaluation, actions and the
    firing loop over the compiled network, with its refinement to a production
    system that works on the rules themselves. *)
From S2P Require Import Prelude Utf8 RustStd Float64 Extern WafTypes Ast Functions Printer Rete WorkingMemory.
Local Open Scope Z_scope.

Definition MAX_CYCLES : nat := 16.

(** * Values *)

Definition value_eq (a b : Value) : bool :=
  match a, b with
  | VNull, VNull => true
  | VBool x, VBool y => Bool.eqb x y
  | VInt x, VInt y => x =? y
  | VFloat x, VFloat y => f64_eqb x y
  | VStr x, VStr y => String.eqb x y
  | _, _ => String.eqb (as_str a) (as_str b)
  end.

Section Engine.
Context `{UnicodeTables, RegexLib, HashOrder}.

(** * Expressions *)

(** [eval_binary], given the evaluation of the operands; 64-bit arithmetic
    wraps. *)
Definition eval_binary (eval_expr : Expr -> Value) (op : BinOp) (l r : Expr) : Value :=
  match op with
  | BAnd => VBool (if as_bool (eval_expr l) then as_bool (eval_expr r) else false)
  | BOr => VBool (if as_bool (eval_expr l) then true else as_bool (eval_expr r))
  | _ =>
    let lv := eval_expr l in
    let rv := eval_expr r in
    match op with
    | BEq => VBool (value_eq lv rv)
    | BNeq => VBool (negb (value_eq lv rv))
    | BLt => VBool (as_int lv <? as_int rv)
    | BLte => VBool (as_int lv <=? as_int rv)
    | BGt => VBool (as_int rv <? as_int lv)
    | BGte => VBool (as_int rv <=? as_int lv)
    | BAdd =>
      match lv, rv with
      | VStr a, b => VStr (a +:+ as_str b)
      | a, VStr b => VStr (as_str a +:+ b)
      | _, _ => VInt (wrap_s 64 (as_int lv + as_int rv))
      end
    | BSub => VInt (wrap_s 64 (as_int lv - as_int rv))
    | BMul => VInt (wrap_s 64 (as_int lv * as_int rv))
    | BDiv => VInt (Z.quot (as_int lv) (Z.max (as_int rv) 1))
    | _ => VNull
    end
  end.

Fixpoint eval_expr (wm : WorkingMemory) (e : Expr) : Value :=
  match e with
  | ELiteral v => v
  | EPath p => read_path wm p
  | ECall name args => call (registry wm) name (fact wm) (map (eval_expr wm) args)
  | EUnary UNot e => VBool (negb (as_bool (eval_expr wm e)))
  | EBinary op l r => eval_binary (eval_expr wm) op l r
  end.

Definition eval_alpha (node : AlphaNode) (wm : WorkingMemory) : bool :=
  match an_compiled node with
  | Some (MatchesRegex haystack re) =>
    match eval_expr wm haystack with
    | VStr s => is_match re s
    | v => is_match re (as_str v)
    end
  | None => as_bool (eval_expr wm (an_expr node))
  end.

(** * Statements *)

Definition run_action (c : CallExpr) (wm : WorkingMemory) (fired : gset string)
  : WorkingMemory * gset string :=
  let '(name, args) := c in
  let args := map (eval_expr wm) args in
  if String.eqb name "block" then (on_outcome (set_block (first_str args)) wm, fired)
  else if String.eqb name "allow" then (on_outcome set_allow wm, fired)
  else if String.eqb name "challenge" then
    let kind := first_str args in
    (on_outcome (set_challenge (if String.eqb kind "pow" then ReqPow else ReqJs)) wm, fired)
  else if String.eqb name "rate_limit" then
    (on_outcome (set_rate_limit (default 60 ((fun v => wrap_u 64 (as_int v)) <$> head args))) wm, fired)
  else if String.eqb name "log" then (on_outcome (push_log (first_str args)) wm, fired)
  else if String.eqb name "retract" then (wm, {[first_str args]} ∪ fired)
  else (on_outcome (push_log ("unknown action: " +:+ name)) wm, fired).

Definition run_stmt (s : Stmt) (wm : WorkingMemory) (fired : gset string)
  : WorkingMemory * gset string :=
  match s with
  | SAssign target value => (write_path target (eval_expr wm value) wm, fired)
  | SCall c => run_action c wm fired
  end.

Definition run_actions (l : list Stmt) (st : WorkingMemory * gset string)
  : WorkingMemory * gset string :=
  foldl (fun st s => run_stmt s st.1 st.2) st l.

(** * Firing *)

(** The scan of the conflict set: the first terminal whose guard holds and whose
    rule has not fired. *)
Fixpoint scan (alphas : list bool) (fired : gset string) (l : list Terminal) : option Terminal :=
  match l with
  | [] => None
  | term :: l =>
    if negb (guard_eval alphas (guard term)) then scan alphas fired l
    else if bool_decide (rule_name term ∈ fired) then scan alphas fired l
    else Some term
  end.

Definition fire_terminal (term : Terminal) (wm : WorkingMemory) (fired : gset string)
  : WorkingMemory * gset string :=
  run_actions (actions term)
    (on_outcome (push_matched (rule_name term)) wm, {[rule_name term]} ∪ fired).

Definition stops_firing (wm : WorkingMemory) : bool :=
  bool_decide (is_Some (block_reason (outcome wm))) || allow (outcome wm).

Fixpoint fire_cycles (cycles : nat) (net : Network) (wm : WorkingMemory) (fired : gset string)
  : WorkingMemory :=
  match cycles with
  | O => wm
  | S cycles =>
    let alphas := map (fun a => eval_alpha a wm) (alphas net) in
    match scan alphas fired (terminals net) with
    | None => wm
    | Some term =>
      let '(wm, fired) := fire_terminal term wm fired in
      if stops_firing wm then wm else fire_cycles cycles net wm fired
    end
  end.

Record Engine := mkEngine {
  network : Network; engine_registry : FunctionRegistry; plugins : list Plugin
}.

Definition Engine_new (net : Network) : Engine :=
  mkEngine net (register_context_defaults ∅) [].

Definition install (p : Plugin) (eng : Engine) : Engine :=
  mkEngine (network eng) (plugin_register p (engine_registry eng)) (plugins eng ++ [p]).

Definition enrich (eng : Engine) (ctx : RequestContext) : RequestContext :=
  foldl (fun ctx p => plugin_enrich p ctx) ctx (plugins eng).

Definition fire (eng : Engine) (ctx : RequestContext) : Outcome :=
  outcome (fire_cycles MAX_CYCLES (network eng) (WorkingMemory_new ctx (engine_registry eng)) ∅).

Definition outcome_to_decision (o : Outcome) : Decision :=
  match block_reason o with
  | Some reason => Block reason
  | None =>
    match challenge o with
    | Some ReqJs => Challenge JsChallenge
    | Some ReqPow => Challenge ProofOfWork
    | None =>
      match rate_limit_secs o with
      | Some secs => RateLimit secs
      | None => Allow
      end
    end
  end.
End Engine.
