(* ===== verification/EngineSpec.v ===== *)
(** What the firing loop promises, on the rules themselves: a production system
    that repeatedly fires the rule of highest salience among the eligible ones,
    the refinement of the loop over the compiled network to it, and the
    consequences for decisions. *)
From stdpp Require Import relations.
From S2P Require Import Prelude Utf8 RustStd Float64 Extern WafTypes Ast Functions Printer Rete WorkingMemory Engine.
Local Open Scope Z_scope.

Section Spec.
Context `{UnicodeTables, RegexLib, HashOrder}.

Definition State : Type := WorkingMemory * gset string.

(** The condition of a rule, evaluated directly. *)
Definition holds (wm : WorkingMemory) (r : RuleAst) : bool := as_bool (eval_expr wm (ra_when r)).
Definition eligible (st : State) (r : RuleAst) : bool :=
  holds st.1 r && negb (bool_decide (ra_name r ∈ st.2)).

(** The rule to fire: no eligible rule has a higher salience, and none of equal
    salience comes before it in the batch. *)
Definition picks (rules : list RuleAst) (st : State) (r : RuleAst) : Prop :=
  exists pre post, rules = pre ++ r :: post /\ eligible st r = true /\
    (forall r', In r' pre -> eligible st r' = true -> ra_salience r' < ra_salience r) /\
    (forall r', In r' post -> eligible st r' = true -> ra_salience r' <= ra_salience r).

Definition fire_rule (r : RuleAst) (st : State) : State :=
  run_actions (ra_then r) (on_outcome (push_matched (ra_name r)) st.1, {[ra_name r]} ∪ st.2).

Inductive fire_step (rules : list RuleAst) : State -> State -> Prop :=
| fire_step_intro st r :
    stops_firing st.1 = false -> picks rules st r -> fire_step rules st (fire_rule r st).

(** A run: at most [MAX_CYCLES] steps, ended by a stop, by quiescence or by the
    bound. *)
Definition run_ends (rules : list RuleAst) (n : nat) (st : State) : Prop :=
  stops_firing st.1 = true \/ (forall r, In r rules -> eligible st r = false) \/ n = MAX_CYCLES.
Definition maximal_run (rules : list RuleAst) (st0 st : State) : Prop :=
  exists n, (n <= MAX_CYCLES)%nat /\ nsteps (fire_step rules) n st0 st /\ run_ends rules n st.

Definition initial (ctx : RequestContext) (reg : FunctionRegistry) : State :=
  (WorkingMemory_new ctx reg, ∅).

(** * Evaluation facts *)

Lemma bool_sem_eval wm e :
  as_bool (eval_expr wm e) = bool_sem (fun x => as_bool (eval_expr wm x)) e.
Proof.
  induction e as [[]|p|n args _|op l r IHl IHr|[] e IH] using Expr_ind'; try done.
  - destruct op; try done; cbn; by rewrite IHl, IHr.
  - cbn. by rewrite IH.
Qed.

Lemma eval_alpha_expr wm a :
  registry wm !! "matches" = None -> an_compiled a = compile_alpha (an_expr a) ->
  eval_alpha a wm = as_bool (eval_expr wm (an_expr a)).
Proof.
  intros Hreg Hc. unfold eval_alpha. rewrite Hc.
  destruct (an_expr a) as [| |name [|h [|[[| | | |pat]| | | |] [|]]]| |]; try done.
  cbn [compile_alpha]. destruct (String.eqb_spec name "matches") as [->|]; [|done].
  destruct (regex_new pat) as [re|] eqn:Hre; [|done]. cbn [fmap option_fmap option_map].
  cbn [eval_expr map]. rewrite call_unregistered by done. cbn -[eval_expr].
  unfold fn_matches, regex_match, arg_str. cbn -[eval_expr]. rewrite Hre. by destruct (eval_expr wm h).
Qed.

Lemma guards_eval net wm t r :
  network_wf net -> registry wm !! "matches" = None -> terminal_for net t r ->
  guard_eval (map (fun a => eval_alpha a wm) (alphas net)) (guard t) = holds wm r.
Proof.
  intros [Hn _] Hreg (_ & _ & _ & Hg). unfold holds. rewrite bool_sem_eval.
  rewrite <-(Hg _ []), app_nil_r. f_equal. apply map_ext_in. intros a Ha.
  apply list_elem_of_In, list_elem_of_lookup_1 in Ha as [i Ha].
  destruct (Hn _ _ Ha) as (_ & _ & Hc & _). by apply eval_alpha_expr.
Qed.

(** * Frame: what the actions of a rule leave alone *)

Record frame (st st' : State) : Prop := {
  frame_fact : fact st'.1 = fact st.1;
  frame_registry : registry st'.1 = registry st.1;
  frame_matched : matched_rules (outcome st'.1) = matched_rules (outcome st.1);
  frame_risk : risk_delta (outcome st'.1) = risk_delta (outcome st.1);
  frame_fired : st.2 ⊆ st'.2
}.

Lemma frame_trans st1 st2 st3 : frame st1 st2 -> frame st2 st3 -> frame st1 st3.
Proof. intros [] []. split; try congruence. set_solver. Qed.

Lemma run_stmt_frame s st : frame st (run_stmt s st.1 st.2).
Proof.
  destruct s as [p v|[name args]]; [by split|]. unfold run_stmt, run_action.
  repeat split_if; split; cbn; set_solver.
Qed.

Lemma run_actions_frame l st : frame st (run_actions l st).
Proof.
  revert st. induction l as [|s l IH]; intros st; [by split|]. unfold run_actions. cbn [foldl].
  eapply frame_trans; [apply run_stmt_frame|apply IH].
Qed.

(** * The loop implements the production system *)

Lemma scan_find alphas fired l : 
  scan alphas fired l =
  List.find (fun t => guard_eval alphas (guard t) && negb (bool_decide (rule_name t ∈ fired))) l.
Proof.
  induction l as [|t l IH]; [done|]. cbn. rewrite IH.
  destruct (guard_eval _ _); [|done]. by destruct (bool_decide _).
Qed.

Lemma scan_rules net wm fired ts rs :
  network_wf net -> registry wm !! "matches" = None -> Forall2 (terminal_for net) ts rs ->
  match scan (map (fun a => eval_alpha a wm) (alphas net)) fired ts with
  | Some t => exists r, List.find (eligible (wm, fired)) rs = Some r /\ terminal_for net t r
  | None => List.find (eligible (wm, fired)) rs = None
  end.
Proof.
  intros Hwf Hreg Hall. rewrite scan_find.
  induction Hall as [|t r ts rs Ht _ IH]; [done|]. cbn [List.find].
  rewrite (guards_eval net wm t r Hwf Hreg Ht).
  assert (rule_name t = ra_name r) as -> by apply Ht.
  change (holds wm r && negb (bool_decide (ra_name r ∈ fired))) with (eligible (wm, fired) r).
  destruct (eligible (wm, fired) r); [by eauto|exact IH].
Qed.

Lemma picks_sorted rules st r :
  List.find (eligible st) (sort_rules rules) = Some r -> picks rules st r.
Proof.
  intros (pre & post & Heq & Hp & Hpre & Hpost)%find_sort_by_key.
  exists pre, post. split; [done|]. split; [done|]. split; intros r' Hr' He.
  - specialize (Hpre r' Hr' He). lia.
  - specialize (Hpost r' Hr' He). lia.
Qed.

Lemma picks_unique rules st r r' : picks rules st r -> picks rules st r' -> r = r'.
Proof.
  assert (Hl : forall r, picks rules st r ->
            first_least (fun r => - ra_salience r) (eligible st) rules r).
  { intros x (pre & post & Heq & Hp & Hpre & Hpost). exists pre, post. split; [done|].
    split; [done|]. split; intros y Hy He; [specialize (Hpre y Hy He)|specialize (Hpost y Hy He)]; lia. }
  intros Hr%Hl Hr'%Hl. by eapply first_least_unique.
Qed.

Lemma fire_cycles_runs rules net cycles st :
  network_wf net -> Forall2 (terminal_for net) (terminals net) (sort_rules rules) ->
  registry st.1 !! "matches" = None -> stops_firing st.1 = false ->
  exists n st', (n <= cycles)%nat /\ nsteps (fire_step rules) n st st' /\
    st'.1 = fire_cycles cycles net st.1 st.2 /\
    (stops_firing st'.1 = true \/ (forall r, In r rules -> eligible st' r = false) \/ n = cycles).
Proof.
  intros Hwf Hall. revert st.
  induction cycles as [|cycles IH]; intros st Hreg Hstop; cbn [fire_cycles].
  { exists 0%nat, st. repeat split; [lia|constructor|auto]. }
  pose proof (scan_rules net st.1 st.2 _ _ Hwf Hreg Hall) as Hscan.
  destruct (scan _ _ _) as [t|].
  - destruct Hscan as (r & Hf & Hname & _ & Hact & _).
    assert (Hfire : fire_terminal t st.1 st.2 = fire_rule r st)
      by (unfold fire_terminal, fire_rule; by rewrite Hname, Hact).
    rewrite Hfire.
    assert (Hstep : fire_step rules st (fire_rule r st)).
    { constructor; [done|]. apply picks_sorted. by destruct st. }
    assert (Hreg' : registry (fire_rule r st).1 !! "matches" = None).
    { unfold fire_rule. by destruct (run_actions_frame (ra_then r)
        (on_outcome (push_matched (ra_name r)) st.1, {[ra_name r]} ∪ st.2)) as [_ -> _ _ _]. }
    destruct (fire_rule r st) as [wm' fired'] eqn:Heq. destruct (stops_firing wm') eqn:Hs.
    + exists 1%nat, (wm', fired'). repeat split; [lia|by apply nsteps_once|by left].
    + destruct (IH (wm', fired') Hreg' Hs) as (n & st' & Hn & Hsteps & Hst & Hend).
      exists (S n), st'. repeat split; [lia|by econstructor|done|].
      destruct Hend as [|[|]]; auto.
  - exists 0%nat, st. repeat split; [lia|constructor|]. right. left.
    apply (find_sort_by_key_None (fun r => - ra_salience r) (eligible st)). by destruct st.
Qed.

(** The steps are deterministic, so maximal runs are unique. *)
Lemma fire_step_det rules st st1 st2 : fire_step rules st st1 -> fire_step rules st st2 -> st1 = st2.
Proof. intros [? r1 _ H3] H4. inversion H4 as [? r2 _ H6]; subst. by rewrite (picks_unique _ _ _ _ H3 H6). Qed.

Lemma run_ends_no_step rules n st st' :
  run_ends rules n st -> (n < MAX_CYCLES)%nat -> fire_step rules st st' -> False.
Proof.
  intros Hend Hn Hst. inversion Hst as [? r Hs Hp]; subst. destruct Hend as [|[Hq|]]; [congruence| |lia].
  destruct Hp as (pre & post & -> & He & _). rewrite Hq in He; [done|].
  apply in_or_app. right. by left.
Qed.

Lemma runs_agree rules b k1 k2 st0 st1 st2 :
  nsteps (fire_step rules) k1 st0 st1 -> nsteps (fire_step rules) k2 st0 st2 ->
  (b + k1 <= MAX_CYCLES)%nat -> (b + k2 <= MAX_CYCLES)%nat ->
  run_ends rules (b + k1) st1 -> run_ends rules (b + k2) st2 -> st1 = st2.
Proof.
  intros Hs1. revert k2 b.
  induction Hs1 as [st|k1 st st' st1 Hst Hs1 IH]; intros k2 b Hs2 Hb1 Hb2 He1 He2;
    inversion Hs2 as [|k ? st'' ? Hst' Hs]; subst.
  - done.
  - exfalso. eapply run_ends_no_step; [exact He1|lia|exact Hst'].
  - exfalso. eapply run_ends_no_step; [exact He2|lia|exact Hst].
  - rewrite (fire_step_det _ _ _ _ Hst' Hst) in Hs.
    apply (IH k (S b)); [done|lia|lia|by rewrite Nat.add_succ_comm..].
Qed.

Lemma maximal_run_det rules st0 st1 st2 :
  maximal_run rules st0 st1 -> maximal_run rules st0 st2 -> st1 = st2.
Proof.
  intros (n1 & Hn1 & Hs1 & He1) (n2 & Hn2 & Hs2 & He2). by apply (runs_agree rules 0 n1 n2 st0).
Qed.

Lemma fire_maximal_run rules eng ctx :
  forallb wf_rule rules = true -> network eng = compile rules ->
  engine_registry eng !! "matches" = None ->
  exists st, maximal_run rules (initial ctx (engine_registry eng)) st /\ outcome st.1 = fire eng ctx.
Proof.
  intros Hw Hnet Hreg. destruct (compile_spec rules Hw) as [Hwf Hall].
  destruct (fire_cycles_runs rules (compile rules) MAX_CYCLES (initial ctx (engine_registry eng)))
    as (n & st & Hn & Hsteps & Hst & Hend); [done..|].
  exists st. split; [by exists n|]. unfold fire. by rewrite Hnet, Hst.
Qed.

(** * Invariants of runs *)

(** A counted invariant of the steps holds at the end of a run. *)
Lemma nsteps_inv rules (P : nat -> State -> Prop) n st0 st :
  (forall k st st', P k st -> fire_step rules st st' -> P (S k) st') ->
  P 0%nat st0 -> nsteps (fire_step rules) n st0 st -> P n st.
Proof.
  intros Hstep Hinit Hs. change n with (0 + n)%nat. revert Hinit. generalize 0%nat as b.
  induction Hs as [st|n st st' st'' Hst _ IH]; intros b Hb; [by rewrite Nat.add_0_r|].
  rewrite <-Nat.add_succ_comm. eauto.
Qed.

Lemma maximal_run_inv rules (P : nat -> State -> Prop) st0 st :
  (forall k st st', P k st -> fire_step rules st st' -> P (S k) st') ->
  P 0%nat st0 -> maximal_run rules st0 st ->
  exists n, (n <= MAX_CYCLES)%nat /\ P n st /\ run_ends rules n st.
Proof. intros Hstep Hinit (n & Hn & Hs & He). exists n. split; [done|]. split; [by eapply nsteps_inv|done]. Qed.

Lemma picks_in rules st r : picks rules st r -> In r rules /\ eligible st r = true.
Proof. intros (pre & post & -> & He & _). split; [|done]. apply in_or_app. right. by left. Qed.

(** The outcome of firing a rule, before its actions run. *)
Lemma fire_rule_frame r st :
  let st' := fire_rule r st in
  fact st'.1 = fact st.1 /\ registry st'.1 = registry st.1 /\
  matched_rules (outcome st'.1) = matched_rules (outcome st.1) ++ [ra_name r] /\
  risk_delta (outcome st'.1) = risk_delta (outcome st.1) /\
  {[ra_name r]} ∪ st.2 ⊆ st'.2.
Proof.
  unfold fire_rule. pose proof (run_actions_frame (ra_then r)
    (on_outcome (push_matched (ra_name r)) st.1, {[ra_name r]} ∪ st.2)) as [Hf Hr Hm Hk Hd].
  cbn in *. auto.
Qed.

Record matched_inv (rules : list RuleAst) (k : nat) (st : State) : Prop := {
  mi_length : length (matched_rules (outcome st.1)) = k;
  mi_nodup : NoDup (matched_rules (outcome st.1));
  mi_fired : forall x, In x (matched_rules (outcome st.1)) -> x ∈ st.2;
  mi_names : forall x, In x (matched_rules (outcome st.1)) ->
    exists r, In r rules /\ ra_name r = x;
  mi_risk : risk_delta (outcome st.1) = 0
}.

Lemma matched_inv_step rules k st st' :
  matched_inv rules k st -> fire_step rules st st' -> matched_inv rules (S k) st'.
Proof.
  intros [Hl Hnd Hf Hn Hr] Hst. inversion Hst as [? r _ Hp]; subst.
  apply picks_in in Hp as [Hin He]. unfold eligible in He. reflect_bools.
  destruct (fire_rule_frame r st) as (_ & _ & Hm & Hk & Hs).
  split; rewrite ?Hm, ?Hk; [|apply NoDup_app| | |done].
  - rewrite length_app. cbn. lia.
  - split; [done|]. split; [|apply NoDup_singleton]. intros x Hx ->%list_elem_of_singleton.
    apply list_elem_of_In in Hx. by apply Hf in Hx.
  - intros x [Hx%Hf|[<-|[]]]%in_app_or; set_solver.
  - intros x [Hx|[<-|[]]]%in_app_or; eauto.
Qed.

Lemma matched_inv_initial rules ctx reg : matched_inv rules 0 (initial ctx reg).
Proof. split; cbn; try done. constructor. Qed.

(** * Rules that only log *)

Definition is_log (s : Stmt) : bool :=
  match s with SCall (name, _) => String.eqb name "log" | _ => false end.
Definition always_logs (r : RuleAst) : bool :=
  match ra_when r with ELiteral (VBool b) => b | _ => false end && forallb is_log (ra_then r).

(** Logging changes the messages only. *)
Definition same_verdict (o o' : Outcome) : Prop :=
  block_reason o' = block_reason o /\ allow o' = allow o /\
  challenge o' = challenge o /\ rate_limit_secs o' = rate_limit_secs o.

Lemma run_logs l st : forallb is_log l = true ->
  same_verdict (outcome st.1) (outcome (run_actions l st).1) /\ (run_actions l st).2 = st.2.
Proof.
  revert st. induction l as [|[|[name args]] l IH]; intros st Hl; cbn in Hl; try done.
  reflect_bools. apply String.eqb_eq in H2 as ->. unfold run_actions in *. cbn [foldl].
  destruct (IH (run_stmt (SCall ("log", args)) st.1 st.2) H3) as [Hv Hf]. by rewrite Hf.
Qed.

(** * Blocking *)

Definition is_block (s : Stmt) : bool :=
  match s with SCall (name, _) => String.eqb name "block" | _ => false end.

Lemma run_actions_block l st :
  block_reason (outcome st.1) = None -> is_Some (block_reason (outcome (run_actions l st).1)) ->
  existsb is_block l = true.
Proof.
  revert st. induction l as [|s l IH]; intros st Hb; [cbn; rewrite Hb; by intros []|].
  unfold run_actions. cbn [foldl existsb]. intros Hs. destruct (is_block s) eqn:Hs'; [done|].
  apply (IH (run_stmt s st.1 st.2)); [|exact Hs]. destruct s as [|[name args]]; [done|].
  unfold run_stmt, run_action. cbn in Hs'. rewrite Hs'. by repeat split_if.
Qed.

Definition block_inv (rules : list RuleAst) (k : nat) (st : State) : Prop :=
  is_Some (block_reason (outcome st.1)) ->
  exists r, In r rules /\ existsb is_block (ra_then r) = true /\
    last (matched_rules (outcome st.1)) = Some (ra_name r).

Lemma block_inv_step rules k st st' :
  block_inv rules k st -> fire_step rules st st' -> block_inv rules (S k) st'.
Proof.
  intros _ Hst Hb. inversion Hst as [? r Hs Hp]; subst. apply picks_in in Hp as [Hin _].
  exists r. split; [done|]. destruct (fire_rule_frame r st) as (_ & _ & -> & _).
  rewrite last_snoc. split; [|done]. eapply run_actions_block; [|exact Hb]. cbn.
  unfold stops_firing in Hs. reflect_bools. by apply eq_None_not_Some.
Qed.

(** * Retraction *)

Lemma run_actions_retract l st n :
  In (SCall ("retract", [ELiteral (VStr n)])) l -> n ∈ (run_actions l st).2.
Proof.
  revert st. induction l as [|s l IH]; intros st; [done|]. unfold run_actions. cbn [foldl].
  intros [->|Hin]; [|by apply IH].
  apply (frame_fired _ _ (run_actions_frame l (run_stmt _ st.1 st.2))). cbn. set_solver.
Qed.

(** * Starvation *)

(** At least [MAX_CYCLES] rules that always hold and only log, above all others. *)
Record log_flood (rules L : list RuleAst) : Prop := {
  flood_in : incl L rules;
  flood_logs : Forall (fun r => always_logs r = true) L;
  flood_names : NoDup (map ra_name L);
  flood_length : (MAX_CYCLES <= length L)%nat;
  flood_above : forall r, In r rules -> In r L \/ forall l, In l L -> ra_salience r < ra_salience l
}.

Record flood_inv (rules L : list RuleAst) (k : nat) (st : State) : Prop := {
  fi_matched : matched_inv rules k st;
  fi_fired : forall x, x ∈ st.2 -> In x (matched_rules (outcome st.1));
  fi_verdict : same_verdict Outcome_default (outcome st.1);
  fi_names : incl (matched_rules (outcome st.1)) (map ra_name L)
}.

Lemma flood_eligible L k rules st :
  log_flood rules L -> flood_inv rules L k st -> (k < MAX_CYCLES)%nat ->
  exists l, In l L /\ eligible st l = true.
Proof.
  intros HL Hinv Hk.
  destruct (List.find (eligible st) L) as [l|] eqn:Hf;
    [apply List.find_some in Hf as []; eauto|exfalso].
  assert (Hincl : incl (map ra_name L) (matched_rules (outcome st.1))).
  { intros x (l & <- & Hl)%in_map_iff. apply (fi_fired _ _ _ _ Hinv).
    pose proof (List.find_none _ _ Hf l Hl) as He.
    pose proof (flood_logs _ _ HL) as Hlog. rewrite List.Forall_forall in Hlog.
    specialize (Hlog l Hl). unfold always_logs in Hlog. unfold eligible, holds in He.
    destruct (ra_when l) as [[|[]| | |]| | | |]; try done. cbn in He. by reflect_bools. }
  apply NoDup_incl_length in Hincl; [|apply NoDup_ListNoDup, (flood_names _ _ HL)].
  rewrite length_map, (mi_length _ _ _ (fi_matched _ _ _ _ Hinv)) in Hincl.
  pose proof (flood_length _ _ HL). lia.
Qed.

Lemma flood_picks rules L k st r :
  log_flood rules L -> flood_inv rules L k st -> (k < MAX_CYCLES)%nat ->
  picks rules st r -> In r L.
Proof.
  intros HL Hinv Hk Hp. destruct (flood_eligible _ _ _ _ HL Hinv Hk) as (l & Hl & He).
  destruct (flood_above _ _ HL r) as [|Hlt]; [by apply picks_in in Hp as []|done|exfalso].
  specialize (Hlt l Hl). pose proof (flood_in _ _ HL l Hl) as Hlr.
  destruct Hp as (pre & post & -> & _ & Hpre & Hpost).
  apply in_app_or in Hlr as [Hlr|[->|Hlr]]; [specialize (Hpre l Hlr He)| |specialize (Hpost l Hlr He)]; lia.
Qed.

Lemma flood_step rules L k st st' :
  log_flood rules L -> (k < MAX_CYCLES)%nat -> flood_inv rules L k st ->
  fire_step rules st st' -> flood_inv rules L (S k) st'.
Proof.
  intros HL Hk Hinv Hst. split; [by eapply matched_inv_step, Hst; destruct Hinv| | |];
    inversion Hst as [? r _ Hp]; subst; pose proof (flood_picks _ _ _ _ _ HL Hinv Hk Hp) as Hr;
    pose proof (flood_logs _ _ HL) as Hlog; rewrite List.Forall_forall in Hlog;
    specialize (Hlog r Hr); unfold always_logs in Hlog; apply andb_true_iff in Hlog as [_ Hlog];
    destruct (run_logs (ra_then r) (on_outcome (push_matched (ra_name r)) st.1, {[ra_name r]} ∪ st.2)
                Hlog) as [Hv Hf].
  - destruct (fire_rule_frame r st) as (_ & _ & -> & _). unfold fire_rule. rewrite Hf. cbn.
    intros x [->%elem_of_singleton|Hx]%elem_of_union; apply in_or_app; [right; by left|left].
    by apply (fi_fired _ _ _ _ Hinv).
  - destruct (fi_verdict _ _ _ _ Hinv) as (Ha & Hb & Hc & Hd), Hv as (Ha' & Hb' & Hc' & Hd').
    cbn in *. unfold fire_rule, same_verdict. by rewrite Ha', Hb', Hc', Hd'.
  - destruct (fire_rule_frame r st) as (_ & _ & -> & _). intros x [Hx|[<-|[]]]%in_app_or; [by apply (fi_names _ _ _ _ Hinv)|].
    by apply in_map.
Qed.

(** The run takes all its cycles. *)
Lemma flood_run rules L ctx reg st :
  log_flood rules L -> maximal_run rules (initial ctx reg) st -> flood_inv rules L MAX_CYCLES st.
Proof.
  intros HL Hrun.
  destruct (maximal_run_inv rules (fun k st => (k <= MAX_CYCLES)%nat -> flood_inv rules L k st))
    with (initial ctx reg) st as (n & Hn & Hinv & Hend); [| |done|].
  - intros k s s' Hs Hst Hk. eapply flood_step; [exact HL|lia|apply Hs; lia|exact Hst].
  - intros _. split; [apply matched_inv_initial|done|done|by intros ? []].
  - specialize (Hinv Hn). destruct (decide (n = MAX_CYCLES)) as [->|Hne]; [done|exfalso].
    destruct Hend as [Hstop|[Hnone|Heq]]; [| |done].
    + destruct (fi_verdict _ _ _ _ Hinv) as (Hb & Ha & _). unfold stops_firing in Hstop. rewrite Hb, Ha in Hstop. by vm_compute in Hstop.
    + destruct (flood_eligible _ _ _ _ HL Hinv ltac:(lia)) as (l & Hl & He).
      rewrite (Hnone l) in He; [done|]. by apply (flood_in _ _ HL).
Qed.
End Spec.

(** C7: the firing loop implements the production system: its outcome is that of
    the run which, at most sixteen times and until a rule blocks or allows, fires
    the eligible rule of highest salience (first of the batch among equals), each
    rule once; that run exists and is the only one.  It holds when no installed
    function takes the name [matches] and the conditions of the rules print without
    ambiguity ([wf_rule]): names are identifiers, floats have a point, and no index key
    has a quote in it, which a parsed rule could have. *)
Theorem fire_implements_production_system `{UnicodeTables, RegexLib, HashOrder} rules eng ctx :
  forallb wf_rule rules = true -> network eng = compile rules ->
  engine_registry eng !! "matches" = None ->
  exists st, maximal_run rules (initial ctx (engine_registry eng)) st /\
    outcome st.1 = fire eng ctx /\
    forall st', maximal_run rules (initial ctx (engine_registry eng)) st' -> st' = st.
Proof.
  intros Hw Hnet Hreg. destruct (fire_maximal_run rules eng ctx Hw Hnet Hreg) as (st & Hrun & Ho).
  exists st. split; [done|]. split; [done|]. intros st' Hrun'. by eapply maximal_run_det.
Qed.

(** Names of different rules of the batch. *)
Definition distinct_rules_of (rules : list RuleAst) (names : list string) : Prop :=
  NoDup names /\ forall x, In x names -> exists r, In r rules /\ ra_name r = x.

(** The matched rules are distinct rules of the batch, at most sixteen, and
    the risk delta of the outcome is always zero. *)
Theorem fire_matched_rules `{UnicodeTables, RegexLib, HashOrder} rules eng ctx :
  forallb wf_rule rules = true -> network eng = compile rules ->
  engine_registry eng !! "matches" = None ->
  let o := fire eng ctx in
  distinct_rules_of rules (matched_rules o) /\ (length (matched_rules o) <= MAX_CYCLES)%nat /\ risk_delta o = 0.
Proof.
  intros Hw Hnet Hreg. destruct (fire_maximal_run rules eng ctx Hw Hnet Hreg) as (st & Hrun & <-).
  destruct (maximal_run_inv rules (matched_inv rules) _ _ (matched_inv_step rules)
    (matched_inv_initial rules ctx (engine_registry eng)) Hrun) as (n & Hn & [Hl Hnd _ Hnm Hr] & _).
  cbn zeta. rewrite Hl. unfold distinct_rules_of. auto.
Qed.

(** A request is blocked only by the actions of a rule: the last rule that
    fired holds a [block] action, so a batch without one never blocks. *)
Theorem block_comes_from_last_rule `{UnicodeTables, RegexLib, HashOrder} rules eng ctx reason :
  forallb wf_rule rules = true -> network eng = compile rules ->
  engine_registry eng !! "matches" = None ->
  outcome_to_decision (fire eng ctx) = Block reason ->
  exists r, In r rules /\ existsb is_block (ra_then r) = true /\
    last (matched_rules (fire eng ctx)) = Some (ra_name r).
Proof.
  intros Hw Hnet Hreg. destruct (fire_maximal_run rules eng ctx Hw Hnet Hreg) as (st & Hrun & <-).
  assert (Hinit : block_inv rules 0 (initial ctx (engine_registry eng))) by (by intros []).
  intros Hd. destruct (maximal_run_inv rules (block_inv rules) _ _ (block_inv_step rules) Hinit Hrun)
    as (n & _ & Hinv & _).
  apply Hinv. unfold outcome_to_decision in Hd. repeat case_match; simplify_eq; eauto.
Qed.

(** C38: sixteen higher-salience rules that always hold and only log use up the
    cycles: the rules that match are sixteen of them, no rule below them is reached,
    whether it would block, challenge or log, and the request is allowed.  The
    conditions of the rules print without ambiguity ([wf_rule]: no index key with a
    quote in it), and no installed function takes the name [matches]. *)
Theorem log_flood_starves_lower_rules `{UnicodeTables, RegexLib, HashOrder} rules L eng ctx :
  forallb wf_rule rules = true -> network eng = compile rules ->
  engine_registry eng !! "matches" = None -> log_flood rules L ->
  let o := fire eng ctx in
  length (matched_rules o) = MAX_CYCLES /\ NoDup (matched_rules o) /\ incl (matched_rules o) (map ra_name L) /\
  block_reason o = None /\ challenge o = None /\ rate_limit_secs o = None /\ outcome_to_decision o = Allow.
Proof.
  intros Hw Hnet Hreg HL. destruct (fire_maximal_run rules eng ctx Hw Hnet Hreg) as (st & Hrun & <-).
  destruct (flood_run _ _ _ _ _ HL Hrun) as [Hm _ (Hb & _ & Hc & Hr) Hn]. unfold outcome_to_decision.
  rewrite Hb, Hc, Hr. split; [apply (mi_length _ _ _ Hm)|]. split; [apply (mi_nodup _ _ _ Hm)|]. done.
Qed.

(** A rule that fires first and retracts another keeps it from ever firing. *)
Theorem retracted_rule_never_fires `{UnicodeTables, RegexLib, HashOrder} rules eng ctx r n :
  forallb wf_rule rules = true -> network eng = compile rules ->
  engine_registry eng !! "matches" = None ->
  picks rules (initial ctx (engine_registry eng)) r ->
  In (SCall ("retract", [ELiteral (VStr n)])) (ra_then r) -> n <> ra_name r ->
  ~ In n (matched_rules (fire eng ctx)).
Proof.
  intros Hw Hnet Hreg Hp Hin Hne.
  destruct (fire_maximal_run rules eng ctx Hw Hnet Hreg) as (st & Hrun & <-).
  set (P := fun (k : nat) (s : State) => match k with
            | O => s = initial ctx (engine_registry eng)
            | S _ => n ∈ s.2 /\ ~ In n (matched_rules (outcome s.1)) end).
  destruct (maximal_run_inv rules P (initial ctx (engine_registry eng)) st) as (k & _ & Hk & _);
    [|done|done|destruct k; hnf in Hk; [rewrite Hk; by intros []|by destruct Hk]].
  intros k s s' Hs Hst. inversion Hst as [? x _ Hx]; subst. destruct (fire_rule_frame x s) as (_ & _ & Hm & _ & Hf).
  destruct k as [|k].
  - hnf in Hs. subst s. rewrite (picks_unique _ _ _ _ Hx Hp) in *. split.
    + by apply run_actions_retract.
    + rewrite Hm. cbn. intros [Heq|[]]. by apply Hne.
  - destruct Hs as [Hn Hnm]. split; [set_solver|]. rewrite Hm.
    intros [?|[<-|[]]]%in_app_or; [done|]. apply picks_in in Hx as [_ He].
    unfold eligible in He. by reflect_bools.
Qed.

(** A node compiled from [matches] with a literal pattern ignores the
    registry: a function installed under that name is used when the condition is
    evaluated directly, and not by the node. *)
Theorem compiled_matches_bypasses_registry `{UnicodeTables, RegexLib, HashOrder} wm h pat re (f : CtxFn) id :
  regex_new pat = Some re -> registry wm !! "matches" = Some f ->
  let e := ECall "matches" [h; ELiteral (VStr pat)] in
  eval_expr wm e = f (fact wm) [eval_expr wm h; VStr pat] /\
  eval_alpha (mkAlpha id e (print_expr e) (compile_alpha e)) wm =
    is_match re (as_str (eval_expr wm h)).
Proof.
  intros Hre Hreg. cbn zeta. split.
  - cbn [eval_expr map]. by apply call_registered.
  - unfold eval_alpha. cbn [an_compiled compile_alpha]. rewrite String.eqb_refl, Hre. cbn.
    by destruct (eval_expr wm h).
Qed.


(** * Evaluation on a concrete batch *)

Definition field_path (f : string) : Expr := EPath [SegField "Request"; SegField f].
Definition score_rules : list RuleAst :=
  [mkRuleAst "BlockHighRisk" 10 (EBinary BGte (field_path "RiskScore") (ELiteral (VInt 80)))
     [SCall ("block", [ELiteral (VStr "high risk")])];
   mkRuleAst "Score" 50
     (EBinary BAnd (EBinary BEq (field_path "Method") (ELiteral (VStr "POST")))
                   (EUnary UNot (ECall "matches" [field_path "Body"; ELiteral (VStr "safe")])))
     [SAssign [SegField "Request"; SegField "RiskScore"] (ELiteral (VInt 90))]].
Definition post_request : RequestContext :=
  mkContext "r1" 0 "POST" "/x" None CatchAll "127.0.0.1" None ∅ (Some "data") None None
    RiskScore_ZERO None ∅.
Definition sample_engine (rules : list RuleAst) : Engine (H0 := literal_regex) :=
  Engine_new (H := plain_unicode) (compile (H := plain_unicode) (H0 := literal_regex) rules).
Definition sample_fire (rules : list RuleAst) : Outcome :=
  fire (H := plain_unicode) (H0 := literal_regex) (H1 := sorted_hash_order) (sample_engine rules) post_request.

Definition retract_rules : list RuleAst :=
  [mkRuleAst "Target" 1 (ELiteral (VBool true)) [SCall ("block", [])];
   mkRuleAst "Blocker" 99 (ELiteral (VBool true)) [SCall ("retract", [ELiteral (VStr "Target")])]].

Definition log_rules : list RuleAst :=
  map (fun i => mkRuleAst ("log" +:+ print_nat (Z.of_nat i)) 100 (ELiteral (VBool true))
                  [SCall ("log", [ELiteral (VStr "seen")])]) (seq 0 16).
Definition flooded_rules : list RuleAst := score_rules ++ log_rules.

Lemma flooded_rules_flood : log_flood flooded_rules log_rules.
Proof.
  split.
  - apply incl_appr, incl_refl.
  - by repeat constructor.
  - apply (bool_decide_unpack _). vm_compute. done.
  - done.
  - intros r [[<-|[<-|[]]]|Hr]%in_app_or; [right|right|by left]; intros l (i & <- & _)%in_map_iff; done.
Qed.

Lemma fire_implements_production_system_witness :
  exists st, maximal_run (H := plain_unicode) (H0 := literal_regex) (H1 := sorted_hash_order) score_rules
    (initial post_request (engine_registry (sample_engine score_rules))) st /\
    block_reason (outcome st.1) = Some "high risk".
Proof.
  destruct (@fire_implements_production_system plain_unicode literal_regex sorted_hash_order
    score_rules (sample_engine score_rules) post_request) as (st & Hrun & Ho & _);
    [reflexivity|reflexivity|reflexivity|].
  exists st. split; [exact Hrun|]. rewrite Ho. vm_compute. reflexivity.
Defined.

Lemma fire_matched_rules_witness :
  matched_rules (sample_fire score_rules) = ["Score"; "BlockHighRisk"] /\
  risk_delta (sample_fire score_rules) = 0.
Proof.
  split; [vm_compute; reflexivity|].
  apply (@fire_matched_rules plain_unicode literal_regex sorted_hash_order score_rules
           (sample_engine score_rules) post_request); reflexivity.
Defined.

Lemma block_comes_from_last_rule_witness :
  exists r, In r score_rules /\ existsb is_block (ra_then r) = true /\
    last (matched_rules (sample_fire score_rules)) = Some (ra_name r).
Proof.
  apply (@block_comes_from_last_rule plain_unicode literal_regex sorted_hash_order score_rules
           (sample_engine score_rules) post_request "high risk"); reflexivity.
Defined.

Lemma log_flood_starves_lower_rules_witness :
  outcome_to_decision (sample_fire score_rules) = Block "high risk" /\
  outcome_to_decision (sample_fire flooded_rules) = Allow.
Proof.
  split; [vm_compute; reflexivity|].
  apply (@log_flood_starves_lower_rules plain_unicode literal_regex sorted_hash_order flooded_rules
           log_rules (sample_engine flooded_rules) post_request eq_refl eq_refl eq_refl flooded_rules_flood).
Defined.

Lemma retracted_rule_never_fires_witness :
  ~ In "Target" (matched_rules (sample_fire retract_rules)).
Proof.
  apply (@retracted_rule_never_fires plain_unicode literal_regex sorted_hash_order retract_rules
           (sample_engine retract_rules) post_request
           (mkRuleAst "Blocker" 99 (ELiteral (VBool true)) [SCall ("retract", [ELiteral (VStr "Target")])]));
    [reflexivity|reflexivity|reflexivity| |by left|done].
  exists [mkRuleAst "Target" 1 (ELiteral (VBool true)) [SCall ("block", [])]], [].
  split; [reflexivity|]. split; [reflexivity|]. split; [intros r' [<-|[]] _; done|intros ? []].
Defined.

Lemma compiled_matches_bypasses_registry_witness :
  let wm := WorkingMemory_new post_request (<["matches" := fun _ _ => VBool false]> ∅) in
  let e := ECall "matches" [field_path "Method"; ELiteral (VStr "POST")] in
  eval_expr (H := plain_unicode) (H0 := literal_regex) (H1 := sorted_hash_order) wm e = VBool false /\
  eval_alpha (H := plain_unicode) (H0 := literal_regex) (H1 := sorted_hash_order)
    (mkAlpha (H0 := literal_regex) 0%nat e (print_expr (H := plain_unicode) e)
       (compile_alpha (H0 := literal_regex) e)) wm = true.
Proof.
  cbn zeta.
  destruct (@compiled_matches_bypasses_registry plain_unicode literal_regex sorted_hash_order
    (WorkingMemory_new post_request (<["matches" := fun _ _ => VBool false]> ∅))
    (field_path "Method") "POST" "POST" (fun _ _ => VBool false) 0%nat) as [He Ha];
    [reflexivity|reflexivity|].
  split; [exact He|]. rewrite Ha. vm_compute. reflexivity.
Defined.
