(* ===== verification/CrsTypes.v ===== *)
(** Data of the CRS integration ([crs/types.rs]) and the interfaces of the
    crates it calls: the Aho-Corasick automata, regex replacement and the
    ModSecurity engine. *)
From S2P Require Import Prelude Utf8 RustStd Net Extern.
Local Open Scope Z_scope.

(** * Third-party interfaces *)

(** [AhoCorasick::builder().ascii_case_insensitive(true).build(..)] and
    [is_match]; building can fail on too many patterns, not on none. *)
Class AhoCorasickLib := {
  automaton : Type;
  ac_build : list string -> option automaton;
  ac_build_empty : automaton;
  ac_is_match : automaton -> string -> bool;
  ac_build_nil : ac_build [] = Some ac_build_empty
}.

(** [Regex::replace_all] with a fixed text and with a function of the captures. *)
Class RegexReplaceLib `{RegexLib} := {
  replace_all : regex -> string -> string -> string;
  replace_all_with : regex -> (list string -> string) -> string -> string
}.

(** A matcher for concrete evaluation: a phrase matches where it occurs, in any
    ASCII case. *)
Definition phrase_automaton : AhoCorasickLib := {|
  automaton := list string;
  ac_build l := Some l;
  ac_build_empty := [];
  ac_is_match l s :=
    existsb (fun p => contains (str_map to_ascii_lowercase s) (str_map to_ascii_lowercase p)) l;
  ac_build_nil := eq_refl
|}.

(** Replacement for the literal patterns of [literal_regex]. *)
Definition literal_replace : @RegexReplaceLib literal_regex := {|
  replace_all := fun (p : @regex literal_regex) s r => str_replace s p r;
  replace_all_with := fun (p : @regex literal_regex) f s => str_replace s p (f [p])
|}.

(** * Rules *)

Inductive CrsTarget : Type :=
| TArgs
| TArgsNames
| TRequestCookies
| TRequestCookiesNames
| TRequestHeaders (name : option string)
| TRequestUri
| TRequestUriRaw
| TRequestFilename
| TRequestBasename
| TRequestMethod
| TRequestBody
| TRequestLine
| TQueryString
| TRemoteAddr
| TTx (var : string)
| TTxCount (var : string)
| TRequestHeadersCount (name : string)
| TArgsCount.

Inductive CrsTransform : Type :=
| Lowercase
| UrlDecodeUni
| RemoveNulls
| Utf8ToUnicode
| CompressWhitespace
| NormalizePath
| HtmlEntityDecode
| JsDecode
| CssDecode
| Base64Decode
| Trim
| RemoveWhitespace
| ReplaceComments
| Length
| EscapeSeqDecode.
#[export] Instance CrsTransform_eq_dec : EqDecision CrsTransform.
Proof. solve_decision. Defined.

Inductive DefaultAction : Type := DaBlock | DaPass.
Inductive VarOp : Type := Assign | IncrBy | DecrBy.
#[export] Instance VarOp_eq_dec : EqDecision VarOp.
Proof. solve_decision. Defined.
Inductive SetVarRhs : Type := RhsInt (n : Z) | RhsTxRef (var : string).
#[export] Instance SetVarRhs_eq_dec : EqDecision SetVarRhs.
Proof. solve_decision. Defined.

Record SetVarOp := mkSetVarOp { sv_var : string; sv_op : VarOp; sv_rhs : SetVarRhs }.
#[export] Instance SetVarOp_eq_dec : EqDecision SetVarOp.
Proof. solve_decision. Defined.

Record CrsActions := mkCrsActions {
  skip_after : option string;
  setvars : list SetVarOp;
  tags : list string;
  severity_text : option string;
  is_nolog : bool;
  default_action : DefaultAction;
  is_chain : bool;
  is_capture : bool;
  is_multi_match : bool
}.

Section Rules.
Context `{RegexLib, AhoCorasickLib, IpNetLib}.

Inductive CrsOperator : Type :=
| Rx (re : regex)
| Pm (ac : automaton)
| PmFromFile (file : string)
| DetectSQLi
| DetectXSS
| Lt (n : Z)
| Le (n : Z)
| Gt (n : Z)
| Ge (n : Z)
| Eq (n : Z)
| GtTxRef (var : string)
| GeTxRef (var : string)
| LtTxRef (var : string)
| LeTxRef (var : string)
| EqTxRef (var : string)
| Contains (s : string)
| Streq (s : string)
| Within (l : list string)
| BeginsWith (s : string)
| EndsWith (s : string)
| IpMatch (nets : list IpNet)
| ValidateUrlEncoding
| ValidateUtf8Encoding.

Record SecRule := mkSecRule {
  sr_id : Z;
  sr_phase : Z;
  sr_targets : list CrsTarget;
  sr_operator : CrsOperator;
  sr_negate_op : bool;
  sr_transforms : list CrsTransform;
  sr_actions : CrsActions;
  sr_cache_slot : list (option Z);
  sr_needs_body : bool
}.

Record ChainRule := mkChainRule { chain_head : SecRule; chain_members : list SecRule }.

Inductive RuleItem : Type :=
| ItemRule (r : SecRule)
| ItemChain (c : ChainRule)
| ItemMarker (name : string).

(** [DataAutomata]: file name to automaton. *)
Definition DataAutomata : Type := gmap string automaton.
End Rules.

Record CrsResult := mkCrsResult {
  inbound_score : Z;
  sql_injection_score : Z;
  xss_score : Z;
  lfi_score : Z;
  rce_score : Z;
  matched_tags : gset string;
  matched_rule_ids : list Z
}.
Definition CrsResult_default : CrsResult := mkCrsResult 0 0 0 0 0 ∅ [].
