(* ===== verification/CrsTx.v ===== *)
(** The transaction variables of a CRS evaluation ([crs/tx.rs]). *)
From S2P Require Import Prelude Utf8 RustStd Net Extern CrsTypes.
Local Open Scope Z_scope.

Section Tx.
Context `{UnicodeTables}.

Record TxState := mkTx { vars : gmap string Z; str_vars : gmap string string }.

Definition initial_vars : list (string * Z) :=
  [("critical_anomaly_score", 5); ("error_anomaly_score", 4);
   ("warning_anomaly_score", 3); ("notice_anomaly_score", 2);
   ("detection_paranoia_level", 2); ("blocking_paranoia_level", 2);
   ("inbound_anomaly_score_threshold", 5); ("outbound_anomaly_score_threshold", 4);
   ("inbound_anomaly_score_pl1", 0); ("inbound_anomaly_score_pl2", 0);
   ("inbound_anomaly_score_pl3", 0); ("inbound_anomaly_score_pl4", 0);
   ("sql_injection_score", 0); ("xss_score", 0); ("lfi_score", 0); ("rce_score", 0);
   ("http_violation_score", 0); ("php_injection_score", 0); ("rbl_score", 0);
   ("session_score", 0);
   ("arg_name_length", 100); ("arg_length", 400); ("total_arg_length", 64000);
   ("max_num_args", 255); ("crs_setup_version", 400); ("crs_validate_utf8_encoding", 1)].

Definition TxState_new : TxState :=
  mkTx (foldl (fun m kv => <[kv.1 := kv.2]> m) ∅ initial_vars)
    (<["allowed_request_content_type" :=
       "application/x-www-form-urlencoded|multipart/form-data|multipart/related|text/xml|application/xml|application/soap+xml|application/json|application/cloudevents+json|application/cloudevents-batch+json"]>
     (<["allowed_methods" := "GET HEAD POST OPTIONS"]> ∅)).

Definition tx_get (tx : TxState) (var : string) : Z := default 0 (vars tx !! to_lowercase var).
Definition tx_get_str (tx : TxState) (var : string) : string :=
  default "" (str_vars tx !! to_lowercase var).

Definition rhs_value (tx : TxState) (rhs : SetVarRhs) : Z :=
  match rhs with RhsInt n => n | RhsTxRef r => tx_get tx r end.

(** [apply]: 64-bit arithmetic wraps. *)
Definition tx_apply (op : SetVarOp) (tx : TxState) : TxState :=
  let rhs := rhs_value tx (sv_rhs op) in
  let key := to_lowercase (sv_var op) in
  let entry := default 0 (vars tx !! key) in
  let new :=
    match sv_op op with
    | Assign => rhs
    | IncrBy => wrap_s 64 (entry + rhs)
    | DecrBy => wrap_s 64 (entry - rhs)
    end in
  mkTx (<[key := new]> (vars tx)) (str_vars tx).

Definition tx_inbound_score (tx : TxState) : Z :=
  wrap_s 64 (wrap_s 64 (wrap_s 64
    (tx_get tx "inbound_anomaly_score_pl1" + tx_get tx "inbound_anomaly_score_pl2")
    + tx_get tx "inbound_anomaly_score_pl3") + tx_get tx "inbound_anomaly_score_pl4").

(** * Scores accumulate *)

Definition pl_vars : list string :=
  ["inbound_anomaly_score_pl1"; "inbound_anomaly_score_pl2";
   "inbound_anomaly_score_pl3"; "inbound_anomaly_score_pl4"].
Definition is_pl (op : SetVarOp) : bool := bool_decide (to_lowercase (sv_var op) ∈ pl_vars).

(** What one operation adds to the inbound score. *)
Definition contribution (tx : TxState) (op : SetVarOp) : Z :=
  if is_pl op then
    match sv_op op with
    | IncrBy => rhs_value tx (sv_rhs op)
    | DecrBy => - rhs_value tx (sv_rhs op)
    | Assign => 0
    end
  else 0.

Fixpoint total_contribution (tx : TxState) (ops : list SetVarOp) : Z :=
  match ops with
  | [] => 0
  | op :: ops => contribution tx op + total_contribution (tx_apply op tx) ops
  end.

Lemma tx_get_apply op tx v :
  tx_get (tx_apply op tx) v =
  if decide (to_lowercase v = to_lowercase (sv_var op)) then
    match sv_op op with
    | Assign => rhs_value tx (sv_rhs op)
    | IncrBy => wrap_s 64 (tx_get tx (sv_var op) + rhs_value tx (sv_rhs op))
    | DecrBy => wrap_s 64 (tx_get tx (sv_var op) - rhs_value tx (sv_rhs op))
    end
  else tx_get tx v.
Proof.
  unfold tx_get, tx_apply. cbn [vars]. case_decide as Hv.
  - rewrite Hv, lookup_insert_eq. done.
  - by rewrite lookup_insert_ne.
Qed.

(** The score as a sum modulo 2^64. *)
Definition pl_sum (tx : TxState) : Z :=
  tx_get tx "inbound_anomaly_score_pl1" + tx_get tx "inbound_anomaly_score_pl2"
  + tx_get tx "inbound_anomaly_score_pl3" + tx_get tx "inbound_anomaly_score_pl4".

Lemma tx_inbound_score_sum tx : tx_inbound_score tx = wrap_s 64 (pl_sum tx).
Proof. unfold tx_inbound_score, pl_sum. rewrite wrap_s64_add_l. wrap_cancel. Qed.

Lemma pl_sum_apply op tx :
  (is_pl op = true -> sv_op op <> Assign) ->
  wrap_s 64 (pl_sum (tx_apply op tx)) = wrap_s 64 (pl_sum tx + contribution tx op).
Proof.
  intros Ha. unfold pl_sum, contribution. rewrite !tx_get_apply.
  change (to_lowercase "inbound_anomaly_score_pl1") with "inbound_anomaly_score_pl1".
  change (to_lowercase "inbound_anomaly_score_pl2") with "inbound_anomaly_score_pl2".
  change (to_lowercase "inbound_anomaly_score_pl3") with "inbound_anomaly_score_pl3".
  change (to_lowercase "inbound_anomaly_score_pl4") with "inbound_anomaly_score_pl4".
  unfold is_pl in *. case_bool_decide as Hpl.
  - specialize (Ha eq_refl). unfold pl_vars in Hpl. rewrite !elem_of_cons in Hpl.
    assert (Hg : forall v, to_lowercase (sv_var op) = v -> to_lowercase v = v ->
              tx_get tx (sv_var op) = tx_get tx v).
    { intros v Hop Hv. unfold tx_get. by rewrite Hv, Hop. }
    destruct Hpl as [Hp|[Hp|[Hp|[Hp|Hp]]]]; [| | | |by apply elem_of_nil in Hp].
    all: rewrite (Hg _ Hp eq_refl), Hp.
    all: destruct (sv_op op); [done| |].
    all: repeat (case_decide; [|try congruence]); try congruence; wrap_cancel.
  - rewrite !decide_False by (intros Hd; apply Hpl; rewrite <-Hd; by apply (bool_decide_unpack _)).
    by rewrite Z.add_0_r.
Qed.
End Tx.

(** The inbound anomaly score accumulates: after any sequence of [setvar]
    operations that does not assign one of the four paranoia-level scores, it is
    the initial score plus the increments and minus the decrements of those four
    variables, in 64-bit arithmetic; operations on other variables do not count. *)
Theorem inbound_score_accumulates `{UnicodeTables} ops tx :
  Forall (fun op => is_pl op = true -> sv_op op <> Assign) ops ->
  tx_inbound_score (foldl (fun tx op => tx_apply op tx) tx ops) =
  wrap_s 64 (tx_inbound_score tx + total_contribution tx ops).
Proof.
  intros Hall. revert tx. induction Hall as [|op ops Hop _ IH]; intros tx; cbn [foldl total_contribution].
  - rewrite Z.add_0_r. symmetry. apply wrap_s64_id. unfold tx_inbound_score. apply wrap_s64_range.
  - rewrite IH, !tx_inbound_score_sum, pl_sum_apply, !wrap_s64_add_l by done. f_equal. lia.
Qed.

(** One operation changes one variable, named without regard to case, and the
    string variables never change. *)
Theorem tx_apply_frame `{UnicodeTables} op tx v :
  to_lowercase v <> to_lowercase (sv_var op) ->
  tx_get (tx_apply op tx) v = tx_get tx v /\
  tx_get_str (tx_apply op tx) v = tx_get_str tx v.
Proof. intros Hv. rewrite tx_get_apply. by rewrite decide_False. Qed.

Definition critical_hit : list SetVarOp :=
  [mkSetVarOp "sql_injection_score" IncrBy (RhsTxRef "critical_anomaly_score");
   mkSetVarOp "INBOUND_anomaly_score_pl1" IncrBy (RhsTxRef "critical_anomaly_score");
   mkSetVarOp "inbound_anomaly_score_pl2" IncrBy (RhsInt 3)].

Lemma inbound_score_accumulates_witness :
  tx_inbound_score (H := plain_unicode)
    (foldl (fun tx op => tx_apply (H := plain_unicode) op tx) TxState_new critical_hit) = 8.
Proof.
  rewrite (@inbound_score_accumulates plain_unicode critical_hit TxState_new).
  - vm_compute. reflexivity.
  - repeat constructor; discriminate.
Defined.

Lemma tx_apply_frame_witness :
  tx_get (H := plain_unicode)
    (tx_apply (H := plain_unicode) (mkSetVarOp "xss_score" Assign (RhsInt 7)) TxState_new) "arg_length" = 400.
Proof.
  destruct (@tx_apply_frame plain_unicode (mkSetVarOp "xss_score" Assign (RhsInt 7)) TxState_new "arg_length")
    as [Hg _]; [vm_compute; discriminate|]. rewrite Hg. vm_compute. reflexivity.
Defined.
