(* ===== verification/CrsTransform.v ===== *)
(** Input transformations of the CRS rules ([crs/transform.rs]). *)
From S2P Require Import Prelude Utf8 RustStd Net Extern Float64 WafTypes Ast Functions WorkingMemory CrsTypes.
Local Open Scope Z_scope.

(** * Decoders on bytes *)

(** [url_decode_uni] and [hex] are the loop and the digit table of the percent
    decoder, written again in this module of the program. *)
Definition hex (b : ascii) : option Z :=
  let v := byte_val b in
  if (48 <=? v) && (v <=? 57) then Some (v - 48)
  else if (97 <=? v) && (v <=? 102) then Some (v - 97 + 10)
  else if (65 <=? v) && (v <=? 70) then Some (v - 65 + 10)
  else None.

(** [(h << 4) | l] on [u8]. *)
Definition hex_byte (h l : Z) : Z := Z.lor (wrap_u 8 (Z.shiftl h 4)) l.

Fixpoint url_decode_uni_bytes (s : string) : string :=
  match s with
  | EmptyString => ""
  | String b s1 =>
    match s1 with
    | String h (String l s3) =>
      if Ascii.eqb b "%" then
        match hex h, hex l with
        | Some h, Some l => String (byte_of (hex_byte h l)) (url_decode_uni_bytes s3)
        | _, _ => String b (url_decode_uni_bytes s1)
        end
      else String b (url_decode_uni_bytes s1)
    | _ => String b (url_decode_uni_bytes s1)
    end
  end.
Definition url_decode_uni (s : string) : string := from_utf8_lossy (url_decode_uni_bytes s).

(** The code point of four hexadecimal digits. *)
Definition hex4 (a b c d : ascii) : option Z :=
  match hex a, hex b, hex c, hex d with
  | Some h1, Some h2, Some l1, Some l2 =>
    Some (Z.lor (Z.lor (Z.lor (Z.shiftl h1 12) (Z.shiftl h2 8)) (Z.shiftl l1 4)) l2)
  | _, _, _, _ => None
  end.

Fixpoint escape_seq_bytes (s : string) : string :=
  match s with
  | EmptyString => ""
  | String b s1 =>
    match s1 with
    | EmptyString => String b ""
    | String c s2 =>
      if negb (Ascii.eqb b backslash) then String b (escape_seq_bytes s1)
      else if Ascii.eqb c "n" then String (byte_of 10) (escape_seq_bytes s2)
      else if Ascii.eqb c "r" then String (byte_of 13) (escape_seq_bytes s2)
      else if Ascii.eqb c "t" then String (byte_of 9) (escape_seq_bytes s2)
      else if Ascii.eqb c "x" then
        match s2 with
        | String h (String l s4) =>
          match hex h, hex l with
          | Some h, Some l => String (byte_of (hex_byte h l)) (escape_seq_bytes s4)
          | _, _ => String b (escape_seq_bytes s1)
          end
        | _ => String b (escape_seq_bytes s1)
        end
      else if Ascii.eqb c "u" then
        match s2 with
        | String h1 (String h2 (String l1 (String l2 s6))) =>
          match hex4 h1 h2 l1 l2 with
          | Some cp =>
            match char_from_u32 cp with
            | Some ch => utf8_encode ch +:+ escape_seq_bytes s6
            | None => String b (escape_seq_bytes s1)
            end
          | None => String b (escape_seq_bytes s1)
          end
        | _ => String b (escape_seq_bytes s1)
        end
      else String b (escape_seq_bytes s1)
    end
  end.
Definition escape_seq_decode (s : string) : string := from_utf8_lossy (escape_seq_bytes s).

(** [out.push(byte as char)]: the byte as a Latin-1 code point. *)
Definition latin1 (b : ascii) : string := utf8_encode (byte_val b).

(** The fold over [u16] of [js_decode] gives the same code point as [hex4]. *)
Fixpoint js_decode (s : string) : string :=
  match s with
  | EmptyString => ""
  | String b s1 =>
    match s1 with
    | EmptyString => latin1 b
    | String c s2 =>
      if negb (Ascii.eqb b backslash) then latin1 b +:+ js_decode s1
      else if Ascii.eqb c "x" then
        match s2 with
        | String h (String l s4) =>
          match hex h, hex l with
          | Some h, Some l => utf8_encode (hex_byte h l) +:+ js_decode s4
          | _, _ => latin1 b +:+ js_decode s1
          end
        | _ => latin1 b +:+ js_decode s1
        end
      else if Ascii.eqb c "u" then
        match s2 with
        | String h1 (String h2 (String l1 (String l2 s6))) =>
          match hex4 h1 h2 l1 l2 with
          | Some cp =>
            match char_from_u32 cp with
            | Some ch => utf8_encode ch +:+ js_decode s6
            | None => latin1 b +:+ js_decode s1
            end
          | None => latin1 b +:+ js_decode s1
          end
        | _ => latin1 b +:+ js_decode s1
        end
      else if Ascii.eqb c "n" then bstr 10 +:+ js_decode s2
      else if Ascii.eqb c "r" then bstr 13 +:+ js_decode s2
      else if Ascii.eqb c "t" then bstr 9 +:+ js_decode s2
      else latin1 b +:+ js_decode s1
    end
  end.

(** * Paths and entities *)

(** [while out.contains("//") { out = out.replace("//", "/"); }] *)
Fixpoint collapse_slashes (fuel : nat) (s : string) : string :=
  match fuel with
  | O => s
  | S fuel => if contains s "//" then collapse_slashes fuel (str_replace s "//" "/") else s
  end.

Definition normalize_path (s : string) : string :=
  let s := url_decode_uni s in
  let s := str_replace (str_replace s "../" "/") "..\" "\" in
  collapse_slashes (str_len s) s.

Definition entities : list (string * string) :=
  [("&lt;", "<"); ("&gt;", ">"); ("&amp;", "&"); ("&quot;", String dquote "");
   ("&#x27;", "'"); ("&#39;", "'"); ("&apos;", "'"); ("&#x3C;", "<"); ("&#x3E;", ">");
   ("&nbsp;", " ")].
Definition html_entity_decode (s : string) : string :=
  foldl (fun s e => str_replace s e.1 e.2) s entities.

(** * Base64 *)

Definition b64_alphabet : string :=
  "ABCDEFGHIJKLMNOPQRSTUVWXYZabcdefghijklmnopqrstuvwxyz0123456789+/".

Fixpoint b64_index (i : Z) (l : list ascii) (b : ascii) : option Z :=
  match l with
  | [] => None
  | c :: l => if Ascii.eqb c b then Some i else b64_index (i + 1) l b
  end.
(** [table[b]]: the index in the alphabet; [None] is the code's [INVALID]. *)
Definition b64_table (b : ascii) : option Z := b64_index 0 (str_bytes b64_alphabet) b.

Definition b64_keep (b : ascii) : bool := bool_decide (is_Some (b64_table b)) || Ascii.eqb b "=".

(** The loop over groups of four kept bytes. *)
Fixpoint b64_groups (l : list ascii) : string :=
  match l with
  | a :: b :: c :: d :: rest =>
    match b64_table a, b64_table b with
    | Some a, Some b =>
      let o1 := Z.lor (wrap_u 8 (Z.shiftl a 2)) (Z.shiftr (Z.land b 48) 4) in
      String (byte_of o1)
        match b64_table c with
        | Some c =>
          let o2 := Z.lor (wrap_u 8 (Z.shiftl (Z.land b 15) 4)) (Z.shiftr (Z.land c 60) 2) in
          String (byte_of o2)
            match b64_table d with
            | Some d =>
              let o3 := Z.lor (wrap_u 8 (Z.shiftl (Z.land c 3) 6)) d in
              String (byte_of o3) (b64_groups rest)
            | None => b64_groups rest
            end
        | None => b64_groups rest
        end
    | _, _ => ""
    end
  | _ => ""
  end.

Definition base64_decode (s : string) : string :=
  from_utf8_lossy (b64_groups (filter (fun b => b64_keep b = true) (str_bytes s))).

(** * Comments *)

(** Which of the nested scans is running. *)
Inductive scan_mode : Type := Text | BlockComment | LineComment.

Fixpoint replace_comments_go (m : scan_mode) (s : string) : string :=
  match s with
  | EmptyString => ""
  | String b s1 =>
    match m with
    | BlockComment =>
      match s1 with
      | String c s2 =>
        if Ascii.eqb b "*" && Ascii.eqb c "/" then replace_comments_go Text s2
        else replace_comments_go BlockComment s1
      | EmptyString => ""
      end
    | LineComment =>
      if negb (Ascii.eqb b (byte_of 10)) then replace_comments_go LineComment s1
      else latin1 b +:+ replace_comments_go Text s1
    | Text =>
      match s1 with
      | String c s2 =>
        if Ascii.eqb b "/" && Ascii.eqb c "*" then replace_comments_go BlockComment s2
        else if Ascii.eqb b "-" && Ascii.eqb c "-" then replace_comments_go LineComment s1
        else latin1 b +:+ replace_comments_go Text s1
      | EmptyString => latin1 b
      end
    end
  end.
Definition replace_comments (s : string) : string := replace_comments_go Text s.

(** * Applying transforms *)

Section Transforms.
Context `{UnicodeTables, RegexLib, !RegexReplaceLib}.

Definition compress_whitespace (s : string) : string := replace_all (regex_unwrap "\s+") s " ".
Definition remove_whitespace (s : string) : string :=
  of_chars (List.filter (fun c => negb (is_whitespace c)) (chars s)).
Definition length_text (s : string) : string := print_int (Z.of_nat (length (chars s))).

Definition apply_transform (result : string) (t : CrsTransform) : string :=
  match t with
  | Utf8ToUnicode => result
  | CssDecode => result
  | RemoveNulls =>
    if negb (contains result (bstr 0)) then result else str_replace result (bstr 0) ""
  | Trim =>
    let trimmed := trim result in
    if (str_len trimmed =? str_len result)%nat then result else trimmed
  | Lowercase =>
    if forallb (fun b => negb (is_ascii_uppercase b)) (str_bytes result) then result
    else to_lowercase result
  | UrlDecodeUni => if negb (contains result "%") then result else url_decode_uni result
  | HtmlEntityDecode => if negb (contains result "&") then result else html_entity_decode result
  | ReplaceComments =>
    if negb (contains result "/*") && negb (contains result "--") then result
    else replace_comments result
  | CompressWhitespace => compress_whitespace result
  | NormalizePath => normalize_path result
  | JsDecode => js_decode result
  | Base64Decode => base64_decode result
  | RemoveWhitespace => remove_whitespace result
  | Length => length_text result
  | EscapeSeqDecode => escape_seq_decode result
  end.

Definition apply_transforms (s : string) (transforms : list CrsTransform) : string :=
  foldl apply_transform s transforms.

(** The transforms without the borrowing fast paths. *)
Definition full_transform (s : string) (t : CrsTransform) : string :=
  match t with
  | RemoveNulls => str_replace s (bstr 0) ""
  | Trim => trim s
  | Lowercase => to_lowercase s
  | UrlDecodeUni => url_decode_uni s
  | HtmlEntityDecode => html_entity_decode s
  | ReplaceComments => replace_comments s
  | t => apply_transform s t
  end.
End Transforms.

(** * The loops end *)

Lemma collapse_slashes_spec fuel s :
  (str_len s <= fuel)%nat -> contains (collapse_slashes fuel s) "//" = false.
Proof.
  revert s. induction fuel as [|fuel IH]; intros s Hs; cbn [collapse_slashes].
  - destruct s; [done|cbn in Hs; lia].
  - destruct (contains s "//") eqn:Hc; [|done]. apply IH.
    pose proof (str_replace_shrinks s "//" "/" ltac:(cbn; lia) Hc). lia.
Qed.

(** More rounds than the length of the text change nothing. *)
Lemma collapse_slashes_enough fuel more s :
  (str_len s <= fuel)%nat -> collapse_slashes (fuel + more) s = collapse_slashes fuel s.
Proof.
  revert s. induction fuel as [|fuel IH]; intros s Hs.
  - destruct s; [by destruct more|cbn in Hs; lia].
  - cbn [Nat.add collapse_slashes]. destruct (contains s "//") eqn:Hc; [|done].
    pose proof (str_replace_shrinks s "//" "/" ltac:(cbn; lia) Hc). apply IH. lia.
Qed.

(** Path normalisation ends: the slash-collapsing loop needs at most as many
    rounds as the text has bytes, and no double slash is left. *)
Theorem normalize_path_terminates s :
  contains (normalize_path s) "//" = false /\
  forall more, let t := str_replace (str_replace (url_decode_uni s) "../" "/") "..\" "\" in
    collapse_slashes (str_len t + more) t = normalize_path s.
Proof.
  split; [by apply collapse_slashes_spec|]. intros more. by apply collapse_slashes_enough.
Qed.

(** One pass of replacement is not enough: a normalised path can still hold
    the parent-directory sequence that normalisation removes. *)
Theorem normalize_path_leaves_traversal :
  normalize_path "/files/....//etc/passwd" = "/files/../etc/passwd".
Proof. vm_compute. reflexivity. Qed.

(** * Two copies of the percent decoder *)

Lemma hex_same b : hex b = hex_val b.
Proof. reflexivity. Qed.

Lemma url_decode_uni_bytes_same s : url_decode_uni_bytes s = url_decode_bytes s.
Proof.
  induction s as [s IH] using (well_founded_induction (Wf_nat.well_founded_ltof _ str_len)).
  destruct s as [|b [|h [|l rest]]]; [done..|].
  assert (H1 : url_decode_uni_bytes (String h (String l rest)) = url_decode_bytes (String h (String l rest)))
    by (apply IH; unfold Wf_nat.ltof; cbn; lia).
  assert (H2 : url_decode_uni_bytes rest = url_decode_bytes rest)
    by (apply IH; unfold Wf_nat.ltof; cbn; lia).
  change (url_decode_uni_bytes (String b (String h (String l rest)))) with
    (if Ascii.eqb b "%" then
       match hex h, hex l with
       | Some h, Some l => String (byte_of (hex_byte h l)) (url_decode_uni_bytes rest)
       | _, _ => String b (url_decode_uni_bytes (String h (String l rest)))
       end
     else String b (url_decode_uni_bytes (String h (String l rest)))).
  rewrite H1, H2, !hex_same. reflexivity.
Qed.

(** * Base64 inverts its encoder *)

Definition b64_char (v : Z) : ascii :=
  default "A"%char (str_bytes b64_alphabet !! Z.to_nat v).

(** The standard encoder with padding. *)
Fixpoint base64_encode (l : list ascii) : string :=
  match l with
  | [] => ""
  | [x] =>
    let x := byte_val x in
    String (b64_char (x / 4)) (String (b64_char (x mod 4 * 16)) "==")
  | [x; y] =>
    let x := byte_val x in let y := byte_val y in
    String (b64_char (x / 4)) (String (b64_char (x mod 4 * 16 + y / 16))
      (String (b64_char (y mod 16 * 4)) "="))
  | x :: y :: z :: l =>
    let x := byte_val x in let y := byte_val y in let z := byte_val z in
    String (b64_char (x / 4)) (String (b64_char (x mod 4 * 16 + y / 16))
      (String (b64_char (y mod 16 * 4 + z / 64)) (String (b64_char (z mod 64)) (base64_encode l))))
  end.

Lemma forall_below_64 (P : Z -> bool) :
  forallb (fun n => P (Z.of_nat n)) (seq 0 64) = true -> forall z, 0 <= z < 64 -> P z = true.
Proof.
  intros Hall z Hz. rewrite List.forallb_forall in Hall.
  specialize (Hall (Z.to_nat z)). rewrite Z2Nat.id in Hall by lia. apply Hall, in_seq. lia.
Qed.

Lemma b64_table_char v : 0 <= v < 64 ->
  b64_table (b64_char v) = Some v /\ b64_keep (b64_char v) = true.
Proof.
  intros Hv.
  assert (Hb : forall v, 0 <= v < 64 -> b64_table (b64_char v) = Some v).
  { intros w Hw. apply (bool_decide_unpack _), Is_true_eq_left.
    revert w Hw. apply forall_below_64. vm_compute. reflexivity. }
  rewrite Hb by done. split; [done|]. unfold b64_keep. rewrite Hb by done. done.
Qed.

(** The three output bytes of a group, as arithmetic. *)
Lemma b64_o1 a b : 0 <= a < 64 -> 0 <= b < 64 ->
  Z.lor (wrap_u 8 (Z.shiftl a 2)) (Z.shiftr (Z.land b 48) 4) = a * 4 + b / 16.
Proof.
  intros Ha Hb. apply Z.eqb_eq. revert a Ha. apply forall_below_64.
  revert b Hb. apply (forall_below_64 (fun b => forallb (fun n => _) (seq 0 64))). vm_compute. reflexivity.
Qed.
Lemma b64_o2 b c : 0 <= b < 64 -> 0 <= c < 64 ->
  Z.lor (wrap_u 8 (Z.shiftl (Z.land b 15) 4)) (Z.shiftr (Z.land c 60) 2) = b mod 16 * 16 + c / 4.
Proof.
  intros Ha Hb. apply Z.eqb_eq. revert b Ha. apply forall_below_64.
  revert c Hb. apply (forall_below_64 (fun b => forallb (fun n => _) (seq 0 64))). vm_compute. reflexivity.
Qed.
Lemma b64_o3 c d : 0 <= c < 64 -> 0 <= d < 64 ->
  Z.lor (wrap_u 8 (Z.shiftl (Z.land c 3) 6)) d = c mod 4 * 64 + d.
Proof.
  intros Ha Hb. apply Z.eqb_eq. revert c Ha. apply forall_below_64.
  revert d Hb. apply (forall_below_64 (fun b => forallb (fun n => _) (seq 0 64))). vm_compute. reflexivity.
Qed.

Lemma b64_pieces x y z : 0 <= x < 256 -> 0 <= y < 256 -> 0 <= z < 256 ->
  0 <= x / 4 < 64 /\ 0 <= x mod 4 * 16 + y / 16 < 64 /\ 0 <= x mod 4 * 16 < 64 /\
  0 <= y mod 16 * 4 + z / 64 < 64 /\ 0 <= y mod 16 * 4 < 64 /\ 0 <= z mod 64 < 64.
Proof. intros. zdiv_lia. Qed.

(** Induction three bytes at a time. *)
Lemma three_ind (P : list ascii -> Prop) :
  P [] -> (forall x, P [x]) -> (forall x y, P [x; y]) ->
  (forall x y z l, P l -> P (x :: y :: z :: l)) -> forall l, P l.
Proof.
  intros H0 H1 H2 H3. fix IH 1. intros [|x [|y [|z l]]]; [done|apply H1|apply H2|apply H3, IH].
Qed.

Lemma byte_pieces x y z :
  let x := byte_val x in let y := byte_val y in let z := byte_val z in
  0 <= x / 4 < 64 /\ 0 <= x mod 4 * 16 + y / 16 < 64 /\ 0 <= x mod 4 * 16 < 64 /\
  0 <= y mod 16 * 4 + z / 64 < 64 /\ 0 <= y mod 16 * 4 < 64 /\ 0 <= z mod 64 < 64.
Proof.
  pose proof (byte_val_range x). pose proof (byte_val_range y). pose proof (byte_val_range z).
  by apply b64_pieces.
Qed.

Lemma base64_encode_kept l :
  filter (fun b => b64_keep b = true) (str_bytes (base64_encode l)) = str_bytes (base64_encode l).
Proof.
  induction l as [|x|x y|x y z l IH] using three_ind; [done|..].
  - destruct (byte_pieces x "A" "A") as (? & _ & ? & _). cbn [base64_encode str_bytes].
    rewrite !filter_cons_True by (done || by apply b64_table_char). done.
  - destruct (byte_pieces x y "A") as (? & ? & _ & _ & ? & _). cbn [base64_encode str_bytes].
    rewrite !filter_cons_True by (done || by apply b64_table_char). done.
  - destruct (byte_pieces x y z) as (? & ? & _ & ? & _ & ?). cbn [base64_encode str_bytes].
    rewrite !filter_cons_True by by apply b64_table_char. by rewrite IH.
Qed.

Lemma byte_rebuild b v : v = byte_val b -> byte_of v = b.
Proof. intros ->. apply byte_of_val. Qed.

Lemma b64_pad : b64_table "=" = None.
Proof. reflexivity. Qed.

Ltac b64_lookup :=
  repeat match goal with
  | |- context [b64_table (b64_char ?v)] => rewrite (proj1 (b64_table_char v ltac:(assumption)))
  end.

Lemma b64_groups_encode l : b64_groups (str_bytes (base64_encode l)) = str_of l.
Proof.
  induction l as [|x|x y|x y z l IH] using three_ind; [done|..].
  - destruct (byte_pieces x "A" "A") as (? & _ & ? & _). cbn [base64_encode str_bytes b64_groups].
    b64_lookup. rewrite b64_pad. cbv beta iota zeta. rewrite b64_o1 by done.
    pose proof (byte_val_range x). cbn [str_of]. f_equal. apply byte_rebuild. zdiv_lia.
  - destruct (byte_pieces x y "A") as (? & ? & _ & _ & ? & _). cbn [base64_encode str_bytes b64_groups].
    b64_lookup. rewrite b64_pad. cbv beta iota zeta.
    rewrite b64_o1, b64_o2 by done. cbn [str_of].
    pose proof (byte_val_range x). pose proof (byte_val_range y).
    f_equal; [|f_equal]; apply byte_rebuild; zdiv_lia.
  - destruct (byte_pieces x y z) as (? & ? & _ & ? & _ & ?). cbn [base64_encode str_bytes b64_groups].
    b64_lookup. rewrite IH. cbv beta iota zeta. rewrite b64_o1, b64_o2, b64_o3 by done.
    pose proof (byte_val_range x). pose proof (byte_val_range y). pose proof (byte_val_range z).
    cbn [str_of]. f_equal; [|f_equal; [|f_equal]]; apply byte_rebuild; zdiv_lia.
Qed.

(** Base64 decoding inverts the standard padded encoding of every text. *)
Theorem base64_decode_inverts_encode s :
  valid_utf8 s = true -> base64_decode (base64_encode (str_bytes s)) = s.
Proof.
  intros Hs. unfold base64_decode. rewrite base64_encode_kept, b64_groups_encode, str_of_bytes.
  by apply lossy_valid.
Qed.

Lemma base64_decode_inverts_encode_witness :
  base64_encode (str_bytes "<script>") = "PHNjcmlwdD4=" /\ base64_decode "PHNjcmlwdD4=" = "<script>".
Proof.
  split; [vm_compute; reflexivity|].
  exact (base64_decode_inverts_encode "<script>" eq_refl).
Defined.

(** * The fast paths *)

Lemma drop_while_suffix {A} (p : A -> bool) l : exists pre, l = pre ++ drop_while p l.
Proof.
  induction l as [|x l [pre IH]]; [by exists []|]. cbn. destruct (p x); [|by exists []].
  exists (x :: pre). by rewrite IH at 1.
Qed.

Lemma of_chars_empty l : str_len (of_chars l) = 0%nat -> l = [].
Proof.
  destruct l as [|c l]; [done|]. cbn [of_chars]. rewrite str_len_app.
  pose proof (utf8_encode_nonempty c). lia.
Qed.

(** Trimming keeps a middle part of the characters. *)
Lemma trim_middle s : valid_utf8 s = true -> exists pre mid suf,
  s = of_chars pre +:+ of_chars mid +:+ of_chars suf /\ trim s = of_chars mid.
Proof.
  intros Hs. unfold trim, trim_start, trim_end.
  destruct (drop_while_suffix is_whitespace (chars s)) as [pre Hpre].
  set (m := drop_while is_whitespace (chars s)) in *.
  assert (Hm : forallb is_scalar m = true).
  { pose proof (chars_scalar s) as Hc. rewrite Hpre, forallb_app in Hc. by reflect_bools. }
  rewrite chars_of_chars by done.
  destruct (drop_while_suffix is_whitespace (rev m)) as [suf Hsuf].
  exists pre, (rev (drop_while is_whitespace (rev m))), (rev suf). split; [|done].
  rewrite <-!of_chars_app, <-rev_app_distr, <-Hsuf, rev_involutive, <-Hpre.
  by rewrite of_chars_chars.
Qed.

Lemma trim_same_length s : valid_utf8 s = true -> str_len (trim s) = str_len s -> trim s = s.
Proof.
  intros Hs Hl. destruct (trim_middle s Hs) as (pre & mid & suf & Heq & Ht).
  rewrite Ht in *. rewrite Heq in Hl. rewrite !str_len_app in Hl.
  rewrite Heq, (of_chars_empty pre), (of_chars_empty suf) by lia. cbn [of_chars].
  by rewrite app_nil_r_str, app_nil_l_str.
Qed.

Lemma lowercase_no_upper s :
  forallb (fun b => negb (is_ascii_uppercase b)) (str_bytes s) = true ->
  str_map to_ascii_lowercase s = s.
Proof.
  induction s as [|a s IH]; [done|]. cbn. intros H. reflect_bools. rewrite IH by done.
  unfold to_ascii_lowercase. by rewrite H.
Qed.

Lemma url_decode_bytes_absent s : contains s "%" = false -> url_decode_bytes s = s.
Proof.
  induction s as [|b s IH]; [done|]. rewrite find_str_cons. intros H. reflect_bools.
  rewrite url_decode_plain, IH; [done..|]. destruct (Ascii.eqb_spec b "%") as [->|]; [|done].
  unfold starts_with in H. by rewrite bool_decide_eq_true_2 in H by (cbn; eauto).
Qed.

Lemma contains_first s t a : starts_with t (String a "") = true ->
  contains s (String a "") = false -> contains s t = false.
Proof.
  intros Ht Hs. destruct (contains s t) eqn:Hc; [|done]. by rewrite (contains_prefix s t (String a "")) in Hs.
Qed.

Lemma html_entity_absent s : contains s "&" = false -> html_entity_decode s = s.
Proof.
  intros Hs. unfold html_entity_decode, entities. cbn [foldl fst snd].
  assert (Hr : forall from to, starts_with from "&" = true -> str_replace s from to = s).
  { intros from to Hf. apply str_replace_absent. by apply (contains_first _ _ "&"). }
  by rewrite !(Hr _ _) by reflexivity.
Qed.

Lemma starts_with_two b c s x y :
  starts_with (String b (String c s)) (String x (String y "")) = Ascii.eqb b x && Ascii.eqb c y.
Proof.
  unfold starts_with. cbn [strip_prefix]. rewrite (Ascii.eqb_sym x b), (Ascii.eqb_sym y c).
  destruct (Ascii.eqb b x), (Ascii.eqb c y); cbn [andb];
    (by apply bool_decide_eq_true_2; eauto) || by apply bool_decide_eq_false_2; intros [].
Qed.

(** Text without a comment opening is copied byte by byte. *)
Lemma replace_comments_ascii s : is_ascii s = true ->
  contains s "/*" = false -> contains s "--" = false -> replace_comments s = s.
Proof.
  unfold replace_comments. induction s as [|b s IH]; [done|]. intros Ha.
  unfold is_ascii in Ha. cbn [str_bytes forallb] in Ha. reflect_bools.
  assert (Hb : latin1 b = String b "").
  { unfold latin1. rewrite utf8_encode_ascii by lia. unfold bstr. by rewrite byte_of_val. }
  rewrite !find_str_cons. intros H1 H2. reflect_bools. cbn [replace_comments_go].
  destruct s as [|c s]; [done|]. rewrite IH, Hb by done.
  rewrite !starts_with_two in *. by rewrite H1, H2.
Qed.

(** C39: the borrowing fast paths change no result: on every text for the
    transforms that read it as UTF-8, and on ASCII text for lowercasing and
    comment removal, a transform with its fast path gives what the transform
    itself gives. *)
Theorem fast_paths_sound `{UnicodeTables, RegexLib, !RegexReplaceLib} s t :
  valid_utf8 s = true -> (t = Lowercase \/ t = ReplaceComments -> is_ascii s = true) ->
  apply_transform s t = full_transform s t.
Proof.
  intros Hs Ha. destruct t; cbn [apply_transform full_transform]; try done.
  - split_if; [|done]. unfold to_lowercase. rewrite Ha by auto. by rewrite lowercase_no_upper.
  - split_if; [|done]. reflect_bools. unfold url_decode_uni.
    rewrite url_decode_uni_bytes_same, url_decode_bytes_absent by done. symmetry. by apply lossy_valid.
  - split_if; [|done]. reflect_bools. by rewrite str_replace_absent.
  - split_if; [|done]. reflect_bools. by rewrite html_entity_absent.
  - split_if; [|done]. symmetry. apply trim_same_length; [done|]. by apply Nat.eqb_eq.
  - split_if; [|done]. reflect_bools. by rewrite replace_comments_ascii by auto.
Qed.

Lemma fast_paths_sound_witness :
  @apply_transform plain_unicode literal_regex literal_replace "select 1" ReplaceComments =
  replace_comments "select 1".
Proof.
  exact (@fast_paths_sound plain_unicode literal_regex literal_replace "select 1" ReplaceComments
           eq_refl (fun _ => eq_refl)).
Defined.

(** On other text the two differ: comment removal reads bytes as Latin-1, so a
    text with a comment loses its accents and a text without one keeps them. *)
Theorem replace_comments_breaks_utf8 `{UnicodeTables, RegexLib, !RegexReplaceLib} :
  let accented := utf8_encode 233 in
  apply_transform accented ReplaceComments = accented /\
  apply_transform (accented +:+ "/*x*/") ReplaceComments = utf8_encode 195 +:+ utf8_encode 169.
Proof. split; reflexivity. Qed.
