(* ===== verification/CrsTarget.v ===== *)
(** Values of the CRS target variables ([crs/target.rs]). *)
From S2P Require Import Prelude Utf8 RustStd Net Extern Float64 WafTypes Ast Functions WorkingMemory CrsTypes CrsTx CrsTransform.
Local Open Scope Z_scope.

(** [pct_decode]: plus signs first, then the percent loop, which is the one of
    [transform.rs] written again. *)
Definition pct_decode (s : string) : string :=
  from_utf8_lossy (url_decode_uni_bytes (str_replace s "+" " ")).

Definition form_count (s : string) : Z :=
  if is_empty s then 0 else Z.of_nat (length (split_char "&" s)).

Definition form_values (s : string) : list string :=
  if is_empty s then [] else
  map (fun pair =>
         let val := match split_once "=" pair with Some (_, v) => v | None => pair end in
         pct_decode val) (split_char "&" s).

Definition form_names (s : string) : list string :=
  if is_empty s then [] else
  map (fun pair => pct_decode (match split_once "=" pair with Some (k, _) => k | None => pair end))
    (split_char "&" s).

Definition build_uri (ctx : RequestContext) : string :=
  match query ctx with
  | Some q => if negb (is_empty q) then path ctx +:+ "?" +:+ q else path ctx
  | None => path ctx
  end.

Section Target.
Context `{UnicodeTables, HashOrder}.

Definition is_form_body (ctx : RequestContext) : bool :=
  existsb (fun kv => String.eqb (to_lowercase (fst kv)) "content-type"
                     && contains (to_lowercase (snd kv)) "application/x-www-form-urlencoded")
    (hash_iter (headers ctx)).

(** The body when it is a form in valid UTF-8. *)
Definition form_body (ctx : RequestContext) : option string :=
  match body ctx with
  | Some b => if is_form_body ctx then from_utf8 b else None
  | None => None
  end.

Definition cookie_pair (pair : string) : option (string * string) :=
  let pair := trim pair in
  let '(k, v) := match split_once "=" pair with Some (k, v) => (k, v) | None => (pair, "") end in
  let k := trim k in
  if is_empty k then None else Some (k, trim v).

Definition cookie_pairs (ctx : RequestContext) : list (string * string) :=
  let header :=
    default "" (snd <$> List.find (fun kv => String.eqb (to_lowercase (fst kv)) "cookie")
                          (hash_iter (headers ctx))) in
  omap cookie_pair (split_char ";" header).

Definition cookie_values (ctx : RequestContext) : list string := map snd (cookie_pairs ctx).
Definition cookie_names (ctx : RequestContext) : list string := map fst (cookie_pairs ctx).

(** [RequestHeaders(Some(name))]: the headers of that name, in any case. *)
Definition headers_named (ctx : RequestContext) (name : string) : list string :=
  let key := to_lowercase name in
  map snd (List.filter (fun kv => String.eqb (to_lowercase (fst kv)) key) (hash_iter (headers ctx))).

Definition extract_values (target : CrsTarget) (ctx : RequestContext) (tx : TxState) : list string :=
  match target with
  | TArgs =>
    let vals := form_values (default "" (query ctx)) in
    match form_body ctx with Some s => vals ++ form_values s | None => vals end
  | TArgsNames =>
    let names := form_names (default "" (query ctx)) in
    match form_body ctx with Some s => names ++ form_names s | None => names end
  | TRequestCookies => cookie_values ctx
  | TRequestCookiesNames => cookie_names ctx
  | TRequestHeaders None => map snd (hash_iter (headers ctx))
  | TRequestHeaders (Some name) => headers_named ctx name
  | TRequestUri | TRequestUriRaw => [build_uri ctx]
  | TRequestFilename => [path ctx]
  | TRequestBasename =>
    [match rsplit_once "/" (path ctx) with Some (_, base) => base | None => path ctx end]
  | TRequestMethod => [method ctx]
  | TRequestBody => [default "" (from_utf8_lossy <$> body ctx)]
  | TRequestLine => [method ctx +:+ " " +:+ build_uri ctx +:+ " HTTP/1.1"]
  | TQueryString => [default "" (query ctx)]
  | TRemoteAddr => [client_ip ctx]
  | TTx var => if starts_with var "/" then [] else [print_int (tx_get tx var)]
  | TTxCount var => [print_int (if negb (tx_get tx var =? 0) then 1 else 0)]
  | TRequestHeadersCount name => [print_int (Z.of_nat (length (headers_named ctx name)))]
  | TArgsCount =>
    let count := form_count (default "" (query ctx)) in
    let count := match form_body ctx with Some s => count + form_count s | None => count end in
    [print_int count]
  end.
End Target.

(** * Form decoding inverts form encoding *)

(** The bytes an encoder may leave alone: never a separator or a plus. *)
Definition form_safe (keep : ascii -> bool) : Prop :=
  keep "&"%char = false /\ keep "="%char = false /\ keep "+"%char = false.
Definition encode_pair (keep : ascii -> bool) (kv : string * string) : string :=
  percent_encode keep kv.1 +:+ "=" +:+ percent_encode keep kv.2.
Definition encode_form (keep : ascii -> bool) (l : list (string * string)) : string :=
  str_join "&" (map (encode_pair keep) l).

Lemma hex_upper_plain b c :
  In c ["&"; "="; "+"]%char -> hex_upper (byte_val b / 16) <> c /\ hex_upper (byte_val b mod 16) <> c.
Proof.
  intros Hc. destruct b as [[] [] [] [] [] [] [] []];
    destruct Hc as [<-|[<-|[<-|[]]]]; vm_compute; split; discriminate.
Qed.

Lemma percent_encode_avoids keep s c :
  In c ["&"; "="; "+"]%char -> keep c = false -> ~ In c (str_bytes (percent_encode keep s)).
Proof.
  intros Hc Hk. induction s as [|b s IH]; [by intros []|]. cbn [percent_encode].
  destruct (_ && _) eqn:Hb; cbn [str_bytes].
  - reflect_bools. intros [->|Hin]; [congruence|done].
  - destruct (hex_upper_plain b c Hc) as [H1 H2].
    intros [Heq|[Heq|[Heq|Hin]]]; [|done|done|done].
    destruct Hc as [<-|[<-|[<-|[]]]]; done.
Qed.

Lemma contains_char_In c s : ~ In c (str_bytes s) -> contains s (String c "") = false.
Proof.
  induction s as [|a s IH]; [done|]. cbn [str_bytes]. intros Hn. rewrite find_str_cons, IH by (intros Hi; apply Hn; by right).
  rewrite orb_false_r. unfold starts_with. cbn. destruct (Ascii.eqb_spec c a) as [->|]; [|by apply bool_decide_eq_false_2; intros []].
  exfalso. apply Hn. by left.
Qed.

Lemma pct_decode_encode keep s :
  valid_utf8 s = true -> keep "+"%char = false -> pct_decode (percent_encode keep s) = s.
Proof.
  intros Hs Hk. unfold pct_decode. rewrite str_replace_absent.
  - rewrite url_decode_uni_bytes_same, url_decode_bytes_encode. by apply lossy_valid.
  - apply contains_char_In, percent_encode_avoids; [cbn; auto|done].
Qed.

(** Splitting at a separator that no piece holds. *)
Lemma split_char_piece c s : ~ In c (str_bytes s) -> split_char c s = [s].
Proof.
  induction s as [|a s IH]; [done|]. cbn [str_bytes split_char]. intros Hn.
  destruct (Ascii.eqb_spec a c) as [->|]; [exfalso; apply Hn; by left|].
  rewrite IH by (intros Hi; apply Hn; by right). done.
Qed.

Lemma split_char_app c s r : ~ In c (str_bytes s) ->
  split_char c (s +:+ String c r) = s :: split_char c r.
Proof.
  induction s as [|a s IH]; cbn [str_bytes split_char]; intros Hn.
  - rewrite app_nil_l_str. cbn [split_char]. by rewrite Ascii.eqb_refl.
  - rewrite app_cons_str. cbn [split_char].
    destruct (Ascii.eqb_spec a c) as [->|]; [exfalso; apply Hn; by left|].
    rewrite IH by (intros Hi; apply Hn; by right). done.
Qed.

Lemma split_char_join c l : l <> [] -> Forall (fun s => ~ In c (str_bytes s)) l ->
  split_char c (str_join (String c "") l) = l.
Proof.
  intros Hne Hl. induction Hl as [|s l Hs Hl IH]; [done|]. destruct l as [|t l].
  - by apply split_char_piece.
  - change (str_join (String c "") (s :: t :: l)) with (s +:+ String c (str_join (String c "") (t :: l))).
    rewrite split_char_app by done. by rewrite IH.
Qed.

Lemma encode_form_split keep l : form_safe keep -> l <> [] ->
  is_empty (encode_form keep l) = false /\
  split_char "&" (encode_form keep l) = map (encode_pair keep) l.
Proof.
  intros (Ha & He & _) Hne. split.
  - destruct l as [|[k v] l]; [done|]. unfold encode_form. cbn [map]. unfold encode_pair at 1. cbn [fst snd].
    destruct (map (encode_pair keep) l); cbn [str_join]; by destruct (percent_encode keep k).
  - apply (split_char_join "&"); [by destruct l|]. apply List.Forall_forall.
    intros x (kv & <- & _)%in_map_iff. unfold encode_pair. rewrite !str_bytes_app.
    intros [Hi|Hi]%in_app_or; [|apply in_app_or in Hi as [[Hi|[]]|Hi]; [done|]];
      revert Hi; apply percent_encode_avoids; cbn; auto.
Qed.

Lemma encode_pair_split keep kv : keep "="%char = false ->
  split_once "=" (encode_pair keep kv) = Some (percent_encode keep kv.1, percent_encode keep kv.2).
Proof.
  intros He. unfold encode_pair. change ("=" +:+ ?x) with (String "=" x).
  apply (split_once_app "="). apply percent_encode_avoids; cbn; auto.
Qed.

(** The form decoder inverts form encoding: from the encoding of a non-empty
    list of parameters, whatever further bytes the encoder escaped, it reads the
    same names and the same values in order, and counts them. *)
Theorem form_decode_inverts_encode keep l :
  form_safe keep -> l <> [] ->
  Forall (fun kv => valid_utf8 kv.1 = true /\ valid_utf8 kv.2 = true) l ->
  let s := encode_form keep l in
  form_names s = map fst l /\ form_values s = map snd l /\ form_count s = Z.of_nat (length l).
Proof.
  intros Hk Hne Hl. destruct (encode_form_split keep l Hk Hne) as [Hemp Hsplit].
  destruct Hk as (_ & He & Hp). rewrite List.Forall_forall in Hl. cbn zeta.
  unfold form_names, form_values, form_count. rewrite Hemp, Hsplit, !map_map, length_map.
  split; [|split; [|done]]; apply map_ext_in; intros kv Hin; rewrite encode_pair_split by done;
    apply pct_decode_encode; (done || by apply Hl).
Qed.

Lemma form_decode_inverts_encode_witness :
  let s := encode_form is_ascii_digit [("q", "a&b=c+d %41"); ("page", "2"); ("", "")] in
  form_names s = ["q"; "page"; ""] /\ form_values s = ["a&b=c+d %41"; "2"; ""] /\ form_count s = 3.
Proof.
  apply (form_decode_inverts_encode is_ascii_digit [("q", "a&b=c+d %41"); ("page", "2"); ("", "")]);
    [by repeat split|done|by repeat constructor].
Defined.
