(* ===== verification/CrsOperator.v ===== *)
(** CRS operator evaluation ([crs/operator.rs]). *)
From S2P Require Import Prelude Utf8 RustStd Net Extern Float64 WafTypes Ast Functions WorkingMemory CrsTypes CrsTx CrsTransform CrsTarget.
Local Open Scope Z_scope.

(** U+FFFD, the replacement character. *)
Definition replacement_char : string := utf8_encode 65533.
Definition is_valid_utf8_encoded (value : string) : bool := negb (contains value replacement_char).

(** [s.strip_prefix("%{tx.").and_then(|s| s.strip_suffix('}'))] *)
Definition tx_ref (s : string) : option string :=
  rest ← strip_prefix "%{tx." s; strip_suffix "}" rest.

(** [value.parse::<i64>().map_or(false, |v| test v)] *)
Definition parsed (value : string) (test : Z -> bool) : bool :=
  match parse_signed 64 value with Some v => test v | None => false end.

Section Operator.
Context `{UnicodeTables, RegexLib, AhoCorasickLib, IpNetLib}.

(** One entry of [@within]: a [%{tx.VAR}] reference is the words of the variable. *)
Definition within_item (tx : TxState) (value item : string) : bool :=
  match tx_ref item with
  | Some var => existsb (fun allowed => String.eqb allowed value) (split_whitespace (tx_get_str tx var))
  | None => String.eqb item value
  end.

Definition match_operator (op : CrsOperator) (value : string) (data_automata : DataAutomata)
  (tx : TxState) : bool :=
  match op with
  | Rx re => is_match re value
  | Pm ac => if is_empty value then false else ac_is_match ac value
  | PmFromFile filename =>
    if is_empty value then false else
    match (data_automata !! filename : option automaton) with
    | Some ac => ac_is_match ac value
    | None => false
    end
  | DetectSQLi => detect_sqli value
  | DetectXSS => detect_xss value
  | Lt n => parsed value (fun v => v <? n)
  | Le n => parsed value (fun v => v <=? n)
  | Gt n => parsed value (fun v => n <? v)
  | Ge n => parsed value (fun v => n <=? v)
  | Eq n => parsed value (fun v => v =? n)
  | Contains s => contains (to_lowercase value) s
  | Streq s => String.eqb value s
  | Within l => existsb (within_item tx value) l
  | BeginsWith p => starts_with value p
  | EndsWith s => ends_with value s
  | IpMatch nets =>
    match parse_ip (trim value) with
    | Some ip => existsb (fun net => ipnet_contains net ip) nets
    | None => false
    end
  | ValidateUrlEncoding => false
  | ValidateUtf8Encoding => negb (is_valid_utf8_encoded value)
  | GtTxRef var => parsed value (fun v => tx_get tx var <? v)
  | GeTxRef var => parsed value (fun v => tx_get tx var <=? v)
  | LtTxRef var => parsed value (fun v => v <? tx_get tx var)
  | LeTxRef var => parsed value (fun v => v <=? tx_get tx var)
  | EqTxRef var => parsed value (fun v => v =? tx_get tx var)
  end.
End Operator.

(** A numeric operator on a transaction variable compares the stored score:
    the decimal text the target yields is read back as the same number, so
    [TX:v "@ge n"] fires exactly when the variable is at least [n], and the same
    for the other comparisons and for a bound held in a second variable. *)
Theorem tx_comparison_exact `{UnicodeTables, RegexLib, AhoCorasickLib, IpNetLib, HashOrder}
    var bound n ctx tx data :
  starts_with var "/" = false -> in_s 64 (tx_get tx var) ->
  let fires op := existsb (fun v => match_operator op v data tx) (extract_values (TTx var) ctx tx) in
  fires (Ge n) = (n <=? tx_get tx var) /\ fires (Gt n) = (n <? tx_get tx var) /\
  fires (Lt n) = (tx_get tx var <? n) /\ fires (Le n) = (tx_get tx var <=? n) /\
  fires (Eq n) = (tx_get tx var =? n) /\
  fires (GeTxRef bound) = (tx_get tx bound <=? tx_get tx var) /\
  fires (GtTxRef bound) = (tx_get tx bound <? tx_get tx var).
Proof.
  intros Hv Hr. cbn zeta. cbn [extract_values]. rewrite Hv. cbn [existsb match_operator].
  unfold parsed. rewrite parse_print_int by done. by rewrite !orb_false_r.
Qed.

Lemma tx_comparison_exact_witness :
  existsb (fun v => @match_operator plain_unicode literal_regex phrase_automaton pair_ipnet (Ge 5) v ∅
                      (@TxState_new))
    (@extract_values plain_unicode sorted_hash_order (TTx "critical_anomaly_score")
       (mkContext "" 0 "" "" None CatchAll "" None ∅ None None None RiskScore_ZERO None ∅) TxState_new) = true.
Proof.
  destruct (@tx_comparison_exact plain_unicode literal_regex phrase_automaton pair_ipnet sorted_hash_order
    "critical_anomaly_score" "notice_anomaly_score" 5
    (mkContext "" 0 "" "" None CatchAll "" None ∅ None None None RiskScore_ZERO None ∅) TxState_new ∅)
    as [Hge _]; [reflexivity|vm_compute; split; discriminate || reflexivity|].
  exact Hge.
Defined.
