(* ===== verification/CrsParser.v ===== *)
(** The parser of CRS rule files ([crs/parser.rs]). *)
From S2P Require Import Prelude Utf8 RustStd Net Extern Float64 WafTypes Ast Functions WorkingMemory CrsTypes CrsTx CrsTransform CrsTarget CrsOperator.
Local Open Scope Z_scope.

(** * Text helpers *)

(** [s.starts_with(char::is_whitespace)] *)
Definition starts_with_space (s : string) : bool :=
  match chars s with c :: _ => is_whitespace c | [] => false end.

(** [s.trim_start_matches(p)] for a non-empty text [p]. *)
Fixpoint trim_start_matches (fuel : nat) (p s : string) : string :=
  match fuel with
  | O => s
  | S fuel => match strip_prefix p s with Some r => trim_start_matches fuel p r | None => s end
  end.


(** [&s[..s.len() - 1]] *)
Fixpoint drop_last (s : string) : string :=
  match s with
  | EmptyString => ""
  | String a EmptyString => ""
  | String a s => String a (drop_last s)
  end.

(** * Lines *)

(** The loop of [join_continuations], from the line being built. *)
Fixpoint join_lines (current : string) (l : list string) : list string :=
  match l with
  | [] => if negb (is_empty (trim current)) then [trim current] else []
  | line :: l =>
    if ends_with line (String backslash "") then
      join_lines (push (current +:+ drop_last line) " ") l
    else
      let trimmed := trim (current +:+ line) in
      if negb (is_empty trimmed) then trimmed :: join_lines "" l else join_lines "" l
  end.
Definition join_continuations (src : string) : list string := join_lines "" (lines src).

Definition has_chain_action (rest : string) : bool :=
  match rsplit_once dquote rest with
  | Some (before, _) =>
    match rsplit_once dquote before with
    | Some (_, actions) =>
      existsb (fun tok => eq_ignore_ascii_case (trim tok) "chain") (split_char "," actions)
    | None => false
    end
  | None => false
  end.

(** * Tokens *)

Definition split_token (s : string) : option (string * string) := find_char is_whitespace s.

Fixpoint dquoted_go (prev_bs : bool) (s : string) : option (string * string) :=
  match s with
  | EmptyString => None
  | String c s =>
    if Ascii.eqb c dquote && negb prev_bs then Some ("", s)
    else
      '(inner, rest) ← dquoted_go (Ascii.eqb c backslash && negb prev_bs) s;
      Some (String c inner, rest)
  end.
Definition parse_dquoted (s : string) : option (string * string) :=
  match trim_start s with
  | String c inner => if Ascii.eqb c dquote then dquoted_go false inner else None
  | EmptyString => None
  end.

(** * Targets *)

Definition parse_one_target (tok : string) : option CrsTarget :=
  match strip_prefix "&TX:" tok with
  | Some rest => Some (TTxCount rest)
  | None =>
  match strip_prefix "&REQUEST_HEADERS:" tok with
  | Some rest => Some (TRequestHeadersCount rest)
  | None =>
  if String.eqb tok "&ARGS" then Some TArgsCount
  else if starts_with tok "&" then None
  else
  match split_once ":" tok with
  | Some (col, sub) =>
    if String.eqb col "REQUEST_HEADERS" then Some (TRequestHeaders (Some sub))
    else if String.eqb col "TX" then Some (TTx sub)
    else None
  | None =>
    if String.eqb tok "ARGS" then Some TArgs
    else if String.eqb tok "ARGS_NAMES" then Some TArgsNames
    else if String.eqb tok "REQUEST_COOKIES" then Some TRequestCookies
    else if String.eqb tok "REQUEST_COOKIES_NAMES" then Some TRequestCookiesNames
    else if String.eqb tok "REQUEST_HEADERS" then Some (TRequestHeaders None)
    else if String.eqb tok "REQUEST_URI" then Some TRequestUri
    else if String.eqb tok "REQUEST_URI_RAW" then Some TRequestUriRaw
    else if String.eqb tok "REQUEST_FILENAME" then Some TRequestFilename
    else if String.eqb tok "REQUEST_BASENAME" then Some TRequestBasename
    else if String.eqb tok "REQUEST_METHOD" then Some TRequestMethod
    else if String.eqb tok "REQUEST_BODY" then Some TRequestBody
    else if String.eqb tok "REQUEST_LINE" then Some TRequestLine
    else if String.eqb tok "QUERY_STRING" then Some TQueryString
    else if String.eqb tok "REMOTE_ADDR" then Some TRemoteAddr
    else None
  end end end.

Definition parse_targets (s : string) : list CrsTarget :=
  omap (fun tok => parse_one_target (trim tok)) (split_char "|" s).

(** * Actions *)

Record RawActions := mkRawActions {
  ra_id : Z; ra_phase : Z;
  ra_skip_after : option string; ra_setvars : list SetVarOp; ra_tags : list string;
  ra_severity : option string;
  ra_is_nolog : bool; ra_is_block : bool; ra_is_chain : bool; ra_is_capture : bool;
  ra_is_multi_match : bool; ra_transforms : list CrsTransform
}.
Definition RawActions_default : RawActions :=
  mkRawActions 0 2 None [] [] None false false false false false [].

Definition into_crs_actions (r : RawActions) : CrsActions :=
  mkCrsActions (ra_skip_after r) (ra_setvars r) (ra_tags r) (ra_severity r) (ra_is_nolog r)
    (if ra_is_block r then DaBlock else DaPass) (ra_is_chain r) (ra_is_capture r) (ra_is_multi_match r).

(** [split_actions]: commas outside single quotes separate. *)
Fixpoint split_actions_go (in_sq : bool) (cur : string) (s : string) : list string :=
  match s with
  | EmptyString => if negb (is_empty cur) then [cur] else []
  | String c s =>
    if Ascii.eqb c "'" then split_actions_go (negb in_sq) (push cur c) s
    else if Ascii.eqb c "," && negb in_sq then cur :: split_actions_go in_sq "" s
    else split_actions_go in_sq (push cur c) s
  end.
Definition split_actions (s : string) : list string := split_actions_go false "" s.

(** [&s[1..s.len() - 1]] *)
Definition strip_ends (s : string) : string :=
  match s with EmptyString => "" | String _ s => drop_last s end.

Definition unquote (s : string) : string :=
  let s := trim s in
  let quoted q := starts_with s (String q "") && ends_with s (String q "") in
  if (2 <=? str_len s)%nat && (quoted "'"%char || quoted dquote) then strip_ends s else s.

Definition parse_transform (name : string) : option CrsTransform :=
  if String.eqb name "lowercase" then Some Lowercase
  else if String.eqb name "urldecodeuni" then Some UrlDecodeUni
  else if String.eqb name "removenulls" then Some RemoveNulls
  else if String.eqb name "utf8tounicode" then Some Utf8ToUnicode
  else if String.eqb name "compresswhitespace" then Some CompressWhitespace
  else if String.eqb name "normalizepath" || String.eqb name "normalizepathwin" then Some NormalizePath
  else if String.eqb name "htmlentitydecode" then Some HtmlEntityDecode
  else if String.eqb name "jsdecode" then Some JsDecode
  else if String.eqb name "cssdecode" then Some CssDecode
  else if String.eqb name "base64decode" then Some Base64Decode
  else if String.eqb name "trim" then Some Trim
  else if String.eqb name "removewhitespace" then Some RemoveWhitespace
  else if String.eqb name "replacecomments" then Some ReplaceComments
  else if String.eqb name "length" then Some Length
  else if String.eqb name "escapeseqdecode" then Some EscapeSeqDecode
  else None.

Section Parser.
Context `{UnicodeTables, RegexLib, AhoCorasickLib, IpNetLib}.

Definition parse_setvar (s : string) : option SetVarOp :=
  '(var_full, rhs_str) ← split_once "=" s;
  let var := to_lowercase (trim_start_matches (str_len var_full) "tx." var_full) in
  if is_empty var then None else
  let '(op, rhs_s) :=
    match rhs_str with
    | String c r =>
      if Ascii.eqb c "+" then (IncrBy, r)
      else if Ascii.eqb c "-" then (DecrBy, r)
      else (Assign, rhs_str)
    | EmptyString => (Assign, rhs_str)
    end in
  match tx_ref rhs_s with
  | Some inner => Some (mkSetVarOp var op (RhsTxRef (to_lowercase inner)))
  | None =>
    match parse_signed 64 rhs_s with
    | Some n => Some (mkSetVarOp var op (RhsInt n))
    | None => None
    end
  end.

(** One token of the action string. *)
Definition keyed_action (key token_val : string) (ra : RawActions) : RawActions :=
  let '(mkRawActions id phase skip sets tags sev nolog block chain capture multi tfs) := ra in
  let val := unquote token_val in
  let key := to_lowercase key in
  if String.eqb key "id" then
    mkRawActions (default 0 (parse_unsigned 32 val)) phase skip sets tags sev nolog block chain capture multi tfs
  else if String.eqb key "phase" then
    mkRawActions id (default 2 (parse_unsigned 8 val)) skip sets tags sev nolog block chain capture multi tfs
  else if String.eqb key "tag" then
    mkRawActions id phase skip sets (tags ++ [val]) sev nolog block chain capture multi tfs
  else if String.eqb key "severity" then
    mkRawActions id phase skip sets tags (Some val) nolog block chain capture multi tfs
  else if String.eqb key "skipafter" then
    mkRawActions id phase (Some val) sets tags sev nolog block chain capture multi tfs
  else if String.eqb key "setvar" then
    match parse_setvar (trim_matches "'" (trim token_val)) with
    | Some sv => mkRawActions id phase skip (sets ++ [sv]) tags sev nolog block chain capture multi tfs
    | None => ra
    end
  else if String.eqb key "t" then
    let name := to_lowercase val in
    if String.eqb name "none" then mkRawActions id phase skip sets tags sev nolog block chain capture multi []
    else match parse_transform name with
         | Some tf => mkRawActions id phase skip sets tags sev nolog block chain capture multi (tfs ++ [tf])
         | None => ra
         end
  else ra.

Definition flag_action (token : string) (ra : RawActions) : RawActions :=
  let '(mkRawActions id phase skip sets tags sev nolog block chain capture multi tfs) := ra in
  let token := to_lowercase token in
  if String.eqb token "block" || String.eqb token "deny" then
    mkRawActions id phase skip sets tags sev nolog true chain capture multi tfs
  else if String.eqb token "pass" then
    mkRawActions id phase skip sets tags sev nolog false chain capture multi tfs
  else if String.eqb token "chain" then
    mkRawActions id phase skip sets tags sev nolog block true capture multi tfs
  else if String.eqb token "nolog" then
    mkRawActions id phase skip sets tags sev true block chain capture multi tfs
  else if String.eqb token "capture" then
    mkRawActions id phase skip sets tags sev nolog block chain true multi tfs
  else if String.eqb token "multimatch" then
    mkRawActions id phase skip sets tags sev nolog block chain capture true tfs
  else ra.

Definition parse_action (ra : RawActions) (token : string) : RawActions :=
  let token := trim token in
  if is_empty token then ra else
  match split_once ":" token with
  | Some (key, val) => keyed_action key val ra
  | None => flag_action token ra
  end.

Definition parse_actions (s : string) : list CrsTransform * RawActions :=
  let ra := foldl parse_action RawActions_default (split_actions s) in
  (ra_transforms ra, ra).

(** * Operators *)

Definition parse_ipnet (s : string) : option IpNet :=
  match ipnet_parse s with
  | Some net => Some net
  | None => ipnet_from <$> parse_ip s
  end.

(** A comparison with a number or with a variable. *)
Definition parse_comparison (with_ref : string -> CrsOperator) (with_int : Z -> CrsOperator)
  (args : string) : option CrsOperator :=
  match tx_ref args with
  | Some tx_var => Some (with_ref (to_lowercase tx_var))
  | None => with_int <$> parse_signed 64 args
  end.

Definition parse_operator_name (name args : string) : option CrsOperator :=
  let name := to_lowercase name in
  if String.eqb name "detectsqli" then Some DetectSQLi
  else if String.eqb name "detectxss" then Some DetectXSS
  else if String.eqb name "validateurlencoding" then Some ValidateUrlEncoding
  else if String.eqb name "validateutf8encoding" then Some ValidateUtf8Encoding
  else if String.eqb name "rx" then Rx <$> regex_new args
  else if String.eqb name "pm" then
    Some (Pm (default ac_build_empty (ac_build (split_whitespace args))))
  else if String.eqb name "pmfromfile" then Some (PmFromFile (trim args))
  else if String.eqb name "eq" then parse_comparison EqTxRef Eq args
  else if String.eqb name "lt" then parse_comparison LtTxRef Lt args
  else if String.eqb name "le" then parse_comparison LeTxRef Le args
  else if String.eqb name "gt" then parse_comparison GtTxRef Gt args
  else if String.eqb name "ge" then parse_comparison GeTxRef Ge args
  else if String.eqb name "contains" then Some (Contains (to_lowercase args))
  else if String.eqb name "streq" then Some (Streq args)
  else if String.eqb name "beginswith" then Some (BeginsWith args)
  else if String.eqb name "endswith" then Some (EndsWith args)
  else if String.eqb name "within" then Some (Within (split_whitespace args))
  else if String.eqb name "ipmatch" then
    Some (IpMatch (omap (fun p => parse_ipnet (trim p)) (split_char "," args)))
  else None.

Definition parse_operator (s : string) : option (bool * CrsOperator) :=
  let '(negate, s) :=
    match strip_prefix "!" s with Some r => (true, trim_start r) | None => (false, s) end in
  body ← strip_prefix "@" s;
  let '(name, args) :=
    match find_char is_whitespace body with
    | Some (name, rest) => (name, trim rest)
    | None => (body, "")
    end in
  op ← parse_operator_name name args;
  Some (negate, op).

(** * Rules and files *)

Definition parse_secrule (rest : string) : option SecRule :=
  '(targets_str, rest) ← split_token rest;
  '(op_str, rest) ← parse_dquoted (trim_start rest);
  '(actions_str, _) ← parse_dquoted (trim_start rest);
  '(negate_op, operator) ← parse_operator (trim op_str);
  let targets := parse_targets targets_str in
  let '(transforms, raw) := parse_actions actions_str in
  Some (mkSecRule (ra_id raw) (ra_phase raw) targets operator negate_op transforms
          (into_crs_actions raw) [] false).

(** The loop over the joined lines, with the count of chain members to skip. *)
Fixpoint parse_lines (skip_chain_members : Z) (l : list string) : list RuleItem :=
  match l with
  | [] => []
  | line :: l =>
    let t := trim line in
    if is_empty t || starts_with t "#" then parse_lines skip_chain_members l
    else
    match strip_prefix "SecRule" t with
    | Some after =>
      if starts_with_space after then
        let rest := trim_start after in
        if 0 <? skip_chain_members then
          let skip := skip_chain_members - 1 in
          parse_lines (if has_chain_action rest then skip + 1 else skip) l
        else
          match parse_secrule rest with
          | Some rule => ItemRule rule :: parse_lines skip_chain_members l
          | None => parse_lines (if has_chain_action rest then 1 else skip_chain_members) l
          end
      else parse_lines skip_chain_members l
    | None =>
      match strip_prefix "SecMarker" t with
      | Some after =>
        let name := trim (trim_matches dquote (trim after)) in
        if negb (is_empty name) then ItemMarker name :: parse_lines 0 l else parse_lines 0 l
      | None => parse_lines skip_chain_members l
      end
    end
  end.

Definition parse_conf (src : string) : list RuleItem := parse_lines 0 (join_continuations src).
End Parser.

(** * Set-variable operations *)

(** The text of an operation, as CRS files write it. *)
Definition setvar_text (op : SetVarOp) : string :=
  let sign := match sv_op op with Assign => "" | IncrBy => "+" | DecrBy => "-" end in
  let rhs := match sv_rhs op with RhsInt n => print_int n | RhsTxRef r => "%{tx." +:+ r +:+ "}" end in
  "tx." +:+ sv_var op +:+ "=" +:+ sign +:+ rhs.

(** Operations whose text is unambiguous: lower-case names, and no assignment of a
    negative number, which would read as a decrement. *)
Definition setvar_wf `{UnicodeTables} (op : SetVarOp) : Prop :=
  to_lowercase (sv_var op) = sv_var op /\ sv_var op <> "" /\
  ~ In "="%char (str_bytes (sv_var op)) /\ strip_prefix "tx." (sv_var op) = None /\
  match sv_rhs op with
  | RhsInt n => in_s 64 n /\ (sv_op op = Assign -> 0 <= n)
  | RhsTxRef r => to_lowercase r = r
  end.

Lemma tx_ref_text r : tx_ref ("%{tx." +:+ r +:+ "}") = Some r.
Proof. unfold tx_ref. rewrite strip_prefix_app. cbn. apply strip_suffix_app. Qed.

Lemma print_int_first n : 0 <= n -> exists a r, print_int n = String a r /\ is_ascii_digit a = true.
Proof. intros Hn. unfold print_int. rewrite (proj2 (Z.ltb_ge n 0)) by done. by apply print_nat_head. Qed.

Lemma tx_ref_int n : tx_ref (print_int n) = None.
Proof.
  destruct (Z.le_gt_cases 0 n) as [Hn|Hn].
  - destruct (print_int_first n Hn) as (a & r & -> & Ha). unfold tx_ref. cbn [strip_prefix].
    destruct (Ascii.eqb_spec "%" a) as [<-|]; done.
  - unfold print_int. rewrite (proj2 (Z.ltb_lt n 0)) by done. reflexivity.
Qed.

Lemma trim_start_matches_once fuel p s :
  strip_prefix p s = None -> (1 <= fuel)%nat -> trim_start_matches fuel p (p +:+ s) = s.
Proof.
  intros Hs Hf. destruct fuel as [|fuel]; [lia|]. cbn [trim_start_matches].
  rewrite strip_prefix_app. destruct fuel; [done|]. cbn [trim_start_matches]. by rewrite Hs.
Qed.

(** The parser reads back the text of every unambiguous [setvar] operation:
    its variable, whether it assigns, adds or subtracts, and its right-hand side. *)
Theorem parse_setvar_roundtrip `{UnicodeTables} op :
  setvar_wf op -> parse_setvar (setvar_text op) = Some op.
Proof.
  destruct op as [var vop rhs]. intros (Hlow & Hne & Heq & Htx & Hrhs). cbn [sv_var sv_op sv_rhs] in *.
  unfold parse_setvar, setvar_text. cbn [sv_var sv_op sv_rhs].
  rewrite <-(app_assoc_str "tx." var). change ("=" +:+ ?x) with (String "=" x).
  rewrite (split_once_app "="); [cbn [mbind option_bind]|].
  2: { rewrite str_bytes_app. intros [Hi|Hi]%in_app_or; [|done]. destruct Hi as [|[|[|[]]]]; done. }
  rewrite trim_start_matches_once by (done || (rewrite str_len_app; cbn; lia)).
  rewrite Hlow. destruct var as [|v0 var]; [done|]. cbn [is_empty].
  destruct rhs as [n|r].
  - destruct Hrhs as [Hin Hpos]. destruct vop.
    + destruct (print_int_first n (Hpos eq_refl)) as (a & d & Hp & Hd). rewrite app_nil_l_str, Hp.
      assert (Ascii.eqb a "+" = false /\ Ascii.eqb a "-" = false) as [-> ->]
        by (by destruct (digit_not_sign a Hd)).
      cbv beta iota. rewrite <-Hp, tx_ref_int, parse_print_int by done. done.
    + rewrite app_cons_str, app_nil_l_str. cbn -[tx_ref print_int parse_signed]. by rewrite tx_ref_int, parse_print_int.
    + rewrite app_cons_str, app_nil_l_str. cbn -[tx_ref print_int parse_signed]. by rewrite tx_ref_int, parse_print_int.
  - destruct vop; rewrite ?(app_cons_str "+"), ?(app_cons_str "-"), !app_nil_l_str; pose proof (tx_ref_text r) as Hr;
      revert Hr; rewrite (app_cons_str "%"); intros Hr; cbn -[tx_ref]; by rewrite Hr, Hrhs.
Qed.

Lemma parse_setvar_roundtrip_witness :
  parse_setvar (H := plain_unicode) "tx.xss_score=+%{tx.critical_anomaly_score}" =
  Some (mkSetVarOp "xss_score" IncrBy (RhsTxRef "critical_anomaly_score")).
Proof.
  apply (@parse_setvar_roundtrip plain_unicode
           (mkSetVarOp "xss_score" IncrBy (RhsTxRef "critical_anomaly_score"))).
  repeat split; try reflexivity; vm_compute; intuition discriminate.
Defined.

(** * Chains *)

(** The parser never builds a chain: every item it returns is a standalone rule
    or a marker. *)
Theorem parse_conf_never_builds_chains `{UnicodeTables, RegexLib, AhoCorasickLib, IpNetLib} src c :
  ~ In (ItemChain c) (parse_conf src).
Proof.
  unfold parse_conf. generalize 0 as skip. induction (join_continuations src) as [|line l IH];
    intros skip; cbn [parse_lines]; [by intros []|].
  repeat case_match; try apply IH; intros [|Hin]; (done || by eapply IH).
Qed.

(** A line that is a rule directive, with the text after the keyword. *)
Definition secrule_line (line rest : string) : Prop :=
  exists after, trim line = "SecRule" +:+ after /\ starts_with_space after = true /\
    rest = trim_start after.

Lemma secrule_line_step `{UnicodeTables, RegexLib, AhoCorasickLib, IpNetLib} skip line rest l :
  secrule_line line rest ->
  parse_lines skip (line :: l) =
  if 0 <? skip then parse_lines (if has_chain_action rest then skip - 1 + 1 else skip - 1) l
  else match parse_secrule rest with
       | Some rule => ItemRule rule :: parse_lines skip l
       | None => parse_lines (if has_chain_action rest then 1 else skip) l
       end.
Proof.
  intros (after & Ht & Hsp & ->). cbn [parse_lines]. rewrite Ht.
  change (is_empty ("SecRule" +:+ after)) with false.
  change (starts_with ("SecRule" +:+ after) "#") with false. cbn [orb].
  rewrite strip_prefix_app, Hsp. done.
Qed.

(** When the head of a chain is dropped, its members are dropped with it: the
    rules that follow are skipped as long as each declares [chain], and one more. *)
Theorem dropped_chain_head_drops_members `{UnicodeTables, RegexLib, AhoCorasickLib, IpNetLib}
    head head_rest members last last_rest l :
  secrule_line head head_rest -> parse_secrule head_rest = None -> has_chain_action head_rest = true ->
  Forall (fun m => exists rest, secrule_line m rest /\ has_chain_action rest = true) members ->
  secrule_line last last_rest -> has_chain_action last_rest = false ->
  parse_lines 0 (head :: members ++ last :: l) = parse_lines 0 l.
Proof.
  intros Hh Hp Hc Hm Hl Hlc. rewrite (secrule_line_step 0 head head_rest) by done.
  cbn [Z.ltb Z.compare]. rewrite Hp, Hc.
  induction Hm as [|m members (rest & Hr & Hrc) _ IH]; cbn [app].
  - rewrite (secrule_line_step 1 last last_rest) by done. cbn [Z.ltb Z.compare]. by rewrite Hlc.
  - rewrite (secrule_line_step 1 m rest) by done. cbn [Z.ltb Z.compare]. by rewrite Hrc.
Qed.

(** When the head of a chain is kept, its member becomes a rule of its own: the
    two lines give two standalone items, and nothing ties them together. *)
Theorem chain_member_becomes_rule `{UnicodeTables, RegexLib, AhoCorasickLib, IpNetLib}
    head head_rest r1 member member_rest r2 l :
  secrule_line head head_rest -> parse_secrule head_rest = Some r1 ->
  is_chain (sr_actions r1) = true ->
  secrule_line member member_rest -> parse_secrule member_rest = Some r2 ->
  parse_lines 0 (head :: member :: l) = ItemRule r1 :: ItemRule r2 :: parse_lines 0 l.
Proof.
  intros Hh Hp _ Hm Hpm. rewrite (secrule_line_step 0 head head_rest) by done. cbn [Z.ltb Z.compare].
  rewrite Hp, (secrule_line_step 0 member member_rest) by done. cbn [Z.ltb Z.compare]. by rewrite Hpm.
Qed.

(** A chain of two lines, and one whose head has an unknown operator. *)
Definition quoted (s : string) : string := String dquote (s +:+ String dquote "").
Definition chain_line : string :=
  "SecRule ARGS " +:+ quoted "@rx a" +:+ " " +:+ quoted "id:1,phase:2,block,chain".
Definition member_line : string :=
  "SecRule REQUEST_METHOD " +:+ quoted "@streq POST" +:+ " " +:+ quoted "tag:'late'".
Definition unknown_line : string :=
  "SecRule ARGS " +:+ quoted "@unknown a" +:+ " " +:+ quoted "id:1,phase:2,block,chain".
Definition after_keyword (line : string) : string := default "" (strip_prefix "SecRule" line).

Definition chain_rule : @SecRule literal_regex phrase_automaton pair_ipnet :=
  @mkSecRule literal_regex phrase_automaton pair_ipnet 1 2 [TArgs]
    (@Rx literal_regex phrase_automaton pair_ipnet "a") false []
    (mkCrsActions None [] [] None false DaBlock true false false) [] false.
Definition member_rule : @SecRule literal_regex phrase_automaton pair_ipnet :=
  @mkSecRule literal_regex phrase_automaton pair_ipnet 0 2 [TRequestMethod]
    (@Streq literal_regex phrase_automaton pair_ipnet "POST") false []
    (mkCrsActions None [] ["late"] None false DaPass false false false) [] false.

Lemma chain_member_becomes_rule_witness :
  @parse_lines plain_unicode literal_regex phrase_automaton pair_ipnet 0 [chain_line; member_line] =
  [ItemRule chain_rule; ItemRule member_rule].
Proof.
  refine (@chain_member_becomes_rule plain_unicode literal_regex phrase_automaton pair_ipnet
            chain_line (trim_start (after_keyword chain_line)) chain_rule
            member_line (trim_start (after_keyword member_line)) member_rule [] _ _ _ _ _).
  - exists (after_keyword chain_line). repeat split; reflexivity.
  - reflexivity.
  - reflexivity.
  - exists (after_keyword member_line). repeat split; reflexivity.
  - reflexivity.
Defined.

Lemma dropped_chain_head_drops_members_witness :
  @parse_lines plain_unicode literal_regex phrase_automaton pair_ipnet 0
    [unknown_line; chain_line; member_line; "SecMarker END"] = [ItemMarker "END"].
Proof.
  refine (eq_trans (@dropped_chain_head_drops_members plain_unicode literal_regex phrase_automaton pair_ipnet
    unknown_line (trim_start (after_keyword unknown_line)) [chain_line]
    member_line (trim_start (after_keyword member_line)) ["SecMarker END"] _ _ _ _ _ _) _).
  - exists (after_keyword unknown_line). repeat split; reflexivity.
  - reflexivity.
  - reflexivity.
  - constructor; [|constructor]. exists (trim_start (after_keyword chain_line)).
    split; [exists (after_keyword chain_line); repeat split|]; reflexivity.
  - exists (after_keyword member_line). repeat split; reflexivity.
  - reflexivity.
  - reflexivity.
Defined.
