(* ===== verification/CrsText.v ===== *)
(** The text of CRS rule files, as the files write it: directives over one line or several,
    operators, targets and actions.  The parser ([crs/parser.rs]) reads the text of a
    source back to the rules and markers that it stands for. *)
From S2P Require Import Prelude Utf8 RustStd Net Extern Float64 WafTypes Ast Functions WorkingMemory CrsTypes CrsTx CrsTransform CrsTarget CrsOperator CrsParser.
Local Open Scope Z_scope.

(** * ASCII text *)

Definition ws (a : ascii) : bool := is_whitespace (byte_val a).
Definition nl : ascii := byte_of 10.

(** Printable ASCII. *)
Definition print_byte (a : ascii) : bool := (32 <=? byte_val a) && (byte_val a <? 127).
Definition printable (s : string) : bool := forallb print_byte (str_bytes s).
Definition has_byte (c : ascii) (s : string) : bool := existsb (Ascii.eqb c) (str_bytes s).
(** Text whose first and last bytes are no whitespace. *)
Definition first_solid (s : string) : bool := match str_bytes s with a :: _ => negb (ws a) | [] => false end.
Definition last_solid (s : string) : bool := match rev (str_bytes s) with a :: _ => negb (ws a) | [] => false end.
Definition solid (s : string) : bool := first_solid s && last_solid s.
Definition blank (s : string) : bool := forallb ws (str_bytes s).

Lemma printable_app s t : printable (s +:+ t) = printable s && printable t.
Proof. unfold printable. by rewrite str_bytes_app, forallb_app. Qed.
Lemma has_byte_app c s t : has_byte c (s +:+ t) = has_byte c s || has_byte c t.
Proof. unfold has_byte. by rewrite str_bytes_app, existsb_app. Qed.
Lemma has_byte_In c s : has_byte c s = false -> ~ In c (str_bytes s).
Proof. unfold has_byte. intros Hf Hin. assert (existsb (Ascii.eqb c) (str_bytes s) = true); [|congruence].
  apply existsb_exists. exists c. split; [done|]. apply Ascii.eqb_refl. Qed.
Lemma printable_ascii s : printable s = true -> is_ascii s = true.
Proof.
  unfold printable, is_ascii. rewrite !List.forallb_forall. intros Hs a Ha. specialize (Hs a Ha).
  unfold print_byte in Hs. reflect_bools. lia.
Qed.
Lemma printable_byte s a : printable s = true -> In a (str_bytes s) -> print_byte a = true.
Proof. unfold printable. rewrite List.forallb_forall. auto. Qed.
Lemma printable_no_newline s : printable s = true -> ~ In nl (str_bytes s).
Proof. intros Hs Hin. by apply (printable_byte _ _ Hs) in Hin. Qed.

Lemma first_solid_app s t : first_solid s = true -> first_solid (s +:+ t) = true.
Proof. unfold first_solid. rewrite str_bytes_app. by destruct (str_bytes s). Qed.
Lemma last_solid_app s t : last_solid t = true -> last_solid (s +:+ t) = true.
Proof. unfold last_solid. rewrite str_bytes_app, rev_app_distr. by destruct (rev (str_bytes t)). Qed.

Lemma drop_while_map {A B} (f : A -> B) p l : drop_while p (map f l) = map f (drop_while (fun x => p (f x)) l).
Proof. induction l as [|x l IH]; [done|]. cbn. by destruct (p (f x)). Qed.
Lemma drop_while_all {A} (p : A -> bool) l r : forallb p l = true -> drop_while p (l ++ r) = drop_while p r.
Proof. induction l as [|x l IH]; [done|]. cbn. intros [Hp Hl]%andb_true_iff. rewrite Hp. by apply IH. Qed.
Lemma drop_while_sub {A} (p : A -> bool) (Q : A -> Prop) l : Forall Q l -> Forall Q (drop_while p l).
Proof. induction 1 as [|x l Hx Hl IH]; [constructor|]. cbn. destruct (p x); [done|by constructor]. Qed.

Lemma trim_start_ascii s : is_ascii s = true -> trim_start s = str_of (drop_while ws (str_bytes s)).
Proof.
  intros Hs. unfold trim_start. rewrite chars_ascii by done. rewrite drop_while_map. apply of_chars_bytes.
  by apply drop_while_sub, is_ascii_Forall.
Qed.
Lemma trim_end_ascii s : is_ascii s = true -> trim_end s = str_of (rev (drop_while ws (rev (str_bytes s)))).
Proof.
  intros Hs. unfold trim_end. rewrite chars_ascii by done. rewrite <- map_rev, drop_while_map, <- map_rev.
  apply of_chars_bytes, Forall_rev, drop_while_sub, Forall_rev. by apply is_ascii_Forall.
Qed.

(** Whitespace around solid text goes, and only that. *)
Lemma trim_start_solid pad s : is_ascii (pad +:+ s) = true -> blank pad = true -> first_solid s = true -> trim_start (pad +:+ s) = s.
Proof.
  intros Ha Hp Hs. rewrite trim_start_ascii, str_bytes_app, drop_while_all by done.
  unfold first_solid in Hs. rewrite <- (str_of_bytes s) at 2. destruct (str_bytes s) as [|a l]; [done|]. cbn.
  by rewrite (proj1 (negb_true_iff _) Hs).
Qed.
Lemma trim_end_solid s : is_ascii s = true -> last_solid s = true -> trim_end s = s.
Proof.
  intros Ha Hs. rewrite trim_end_ascii by done. unfold last_solid in Hs. rewrite <- (str_of_bytes s) at 2.
  rewrite <- (rev_involutive (str_bytes s)) at 2. destruct (rev (str_bytes s)) as [|a l]; [done|]. cbn [drop_while].
  by rewrite (proj1 (negb_true_iff _) Hs).
Qed.
Lemma is_ascii_app s t : is_ascii (s +:+ t) = is_ascii s && is_ascii t.
Proof. unfold is_ascii. by rewrite str_bytes_app, forallb_app. Qed.
Lemma trim_solid pad s : is_ascii (pad +:+ s) = true -> blank pad = true -> solid s = true -> trim (pad +:+ s) = s.
Proof.
  unfold solid, trim. intros Ha Hp Hs. reflect_bools. rewrite trim_start_solid by done. apply trim_end_solid; [|done].
  rewrite is_ascii_app in Ha. by reflect_bools.
Qed.
Lemma trim_id s : is_ascii s = true -> solid s = true -> trim s = s.
Proof. intros. by apply (trim_solid ""). Qed.
Lemma trim_start_id s : is_ascii s = true -> first_solid s = true -> trim_start s = s.
Proof. intros. by apply (trim_start_solid ""). Qed.

(** The first whitespace. *)
Lemma find_space s a r :
  is_ascii (s +:+ String a r) = true -> existsb ws (str_bytes s) = false -> ws a = true ->
  find_char is_whitespace (s +:+ String a r) = Some (s, String a r).
Proof.
  intros Ha Hs Hw. unfold find_char. rewrite chars_ascii, str_bytes_app, List.map_app by done.
  assert (Hgo : forall pre l, Forall (fun a => byte_val a < 128) (pre ++ l) -> existsb ws l = false ->
    find_char_go is_whitespace (rev (map byte_val pre)) (map byte_val l ++ map byte_val (str_bytes (String a r))) =
    Some (str_of (pre ++ l), String a r)).
  { intros pre l. revert pre. induction l as [|b l IH]; intros pre Hpre Hl.
    - cbn [map app str_bytes find_char_go]. unfold ws in Hw. rewrite Hw, rev_involutive, app_nil_r in *.
      rewrite of_chars_bytes by done.
      change (byte_val a :: map byte_val (str_bytes r)) with (map byte_val (str_bytes (String a r))).
      rewrite (of_chars_bytes (str_bytes (String a r))); [by rewrite str_of_bytes|].
      rewrite is_ascii_app in Ha. reflect_bools. by apply is_ascii_Forall.
    - cbn [map app find_char_go existsb] in *. apply orb_false_iff in Hl as [Hb Hl]. unfold ws in Hb. rewrite Hb.
      pose proof (IH (pre ++ [b])) as Hi. rewrite List.map_app, rev_app_distr, <- app_assoc in Hi. by apply Hi. }
  specialize (Hgo [] (str_bytes s)). cbn [map rev app] in Hgo. rewrite Hgo; [by rewrite str_of_bytes| |done].
  rewrite is_ascii_app in Ha. reflect_bools. by apply is_ascii_Forall.
Qed.

(** * Lines *)

(** The text of a file with the given lines. *)
Definition unlines (l : list string) : string := foldr (fun line text => line +:+ String nl text) "" l.
(** Lines of a printable text end neither in a newline nor in a carriage return. *)
Lemma chop_printable s : printable s = true -> chop_cr s = s.
Proof.
  intros Hs. unfold chop_cr. destruct (strip_suffix _ s) as [r|] eqn:Hr; [|done]. apply strip_suffix_Some in Hr as ->.
  rewrite printable_app, andb_comm in Hs. done.
Qed.
Lemma split_char_nonempty c s : split_char c s <> [].
Proof. destruct s as [|a s]; [done|]. cbn. destruct (Ascii.eqb a c); [done|]. by destruct (split_char c s). Qed.
Lemma lines_cons s r : ~ In nl (str_bytes s) -> lines (s +:+ String nl r) = chop_cr s :: lines r.
Proof.
  intros Hs. unfold lines. rewrite split_char_app by done. cbn [rev]. fold nl.
  destruct (rev (split_char nl r)) as [|x l] eqn:Hr.
  { apply (f_equal (@rev string)) in Hr. rewrite rev_involutive in Hr. by apply split_char_nonempty in Hr. }
  cbn [app]. by rewrite rev_app_distr.
Qed.
Lemma lines_unlines l : forallb printable l = true -> lines (unlines l) = l.
Proof.
  induction l as [|s l IH]; [done|]. cbn [forallb unlines foldr]. intros [Hs Hl]%andb_true_iff.
  rewrite lines_cons by (by apply printable_no_newline). rewrite chop_printable by done. by f_equal; apply IH.
Qed.

(** A directive over several lines: all but the last end in a backslash. *)
Definition continued (s : string) : string := push s backslash.
Definition on_lines (l : list string) (last : string) : list string := map continued l ++ [last].
(** What the parser makes of them: one line, the breaks replaced by spaces. *)
Definition one_line (l : list string) (last : string) : string := foldr (fun s t => s +:+ " " +:+ t) last l.

Lemma drop_last_push s a : drop_last (s +:+ String a "") = s.
Proof. induction s as [|b s IH]; [done|]. rewrite app_cons_str. destruct s; [done|]. cbn in *. by rewrite IH. Qed.
Lemma ends_with_push s a t : ends_with (s +:+ String a "") t = true <-> exists r, s +:+ String a "" = r +:+ t.
Proof.
  unfold ends_with. rewrite bool_decide_eq_true. split.
  - intros [r Hr%strip_suffix_Some]. by exists r.
  - intros [r ->]. exists r. apply strip_suffix_app.
Qed.
Lemma join_continued l last rest cur :
  ends_with last (String backslash "") = false -> trim (cur +:+ one_line l last) <> "" ->
  join_lines cur (on_lines l last ++ rest) = trim (cur +:+ one_line l last) :: join_lines "" rest.
Proof.
  intros Hlast. revert cur. induction l as [|s l IH]; intros cur Hne; cbn [on_lines map app one_line foldr join_lines] in *.
  - rewrite Hlast. by destruct (trim (cur +:+ last)).
  - assert (Hc : ends_with (continued s) (String backslash "") = true) by (apply ends_with_push; by exists s).
    rewrite Hc. unfold continued at 1, push at 1 2. rewrite drop_last_push.
    change (map continued l ++ [last]) with (on_lines l last). rewrite IH; rewrite ?app_assoc_str; done.
Qed.

(** * Quoted texts *)

(** No quote in the text is unescaped, and its last byte escapes nothing. *)
Fixpoint closed (escaped : bool) (s : string) : bool :=
  match s with
  | EmptyString => negb escaped
  | String c s => negb (Ascii.eqb c dquote && negb escaped) && closed (Ascii.eqb c backslash && negb escaped) s
  end.
Lemma dquoted_closed e s rest : closed e s = true -> dquoted_go e (s +:+ String dquote rest) = Some (s, rest).
Proof.
  revert e. induction s as [|c s IH]; intros e.
  - rewrite app_nil_l_str. cbn. by destruct e.
  - cbn [closed]. intros [Hc Hs]%andb_true_iff. rewrite app_cons_str. cbn [dquoted_go].
    rewrite (proj1 (negb_true_iff _) Hc). by rewrite (IH _ Hs).
Qed.
Lemma parse_quoted pad s rest :
  is_ascii (pad +:+ String dquote (s +:+ String dquote rest)) = true -> blank pad = true -> closed false s = true ->
  parse_dquoted (pad +:+ String dquote (s +:+ String dquote rest)) = Some (s, rest).
Proof.
  intros Ha Hp Hs. unfold parse_dquoted. rewrite trim_start_solid by done. rewrite Ascii.eqb_refl. by apply dquoted_closed.
Qed.

Lemma parse_quoted_here s rest :
  is_ascii (String dquote (s +:+ String dquote rest)) = true -> closed false s = true ->
  parse_dquoted (String dquote (s +:+ String dquote rest)) = Some (s, rest).
Proof. intros. by apply (parse_quoted ""). Qed.

(** * Targets *)

Definition target_text (t : CrsTarget) : string :=
  match t with
  | TArgs => "ARGS" | TArgsNames => "ARGS_NAMES" | TRequestCookies => "REQUEST_COOKIES"
  | TRequestCookiesNames => "REQUEST_COOKIES_NAMES"
  | TRequestHeaders None => "REQUEST_HEADERS" | TRequestHeaders (Some name) => "REQUEST_HEADERS:" +:+ name
  | TRequestUri => "REQUEST_URI" | TRequestUriRaw => "REQUEST_URI_RAW" | TRequestFilename => "REQUEST_FILENAME"
  | TRequestBasename => "REQUEST_BASENAME" | TRequestMethod => "REQUEST_METHOD" | TRequestBody => "REQUEST_BODY"
  | TRequestLine => "REQUEST_LINE" | TQueryString => "QUERY_STRING" | TRemoteAddr => "REMOTE_ADDR"
  | TTx var => "TX:" +:+ var | TTxCount var => "&TX:" +:+ var
  | TRequestHeadersCount name => "&REQUEST_HEADERS:" +:+ name | TArgsCount => "&ARGS"
  end.
(** The targets as a file writes them; the parser leaves out those it does not know,
    such as [XML:/*] or an exclusion. *)
Inductive TargetSource : Type :=
| TgKnown (t : CrsTarget)
| TgOther (text : string).
Definition target_source_text (t : TargetSource) : string :=
  match t with TgKnown t => target_text t | TgOther text => text end.
Definition targets_text (l : list TargetSource) : string := str_join "|" (map target_source_text l).
Definition known_targets (l : list TargetSource) : list CrsTarget :=
  omap (fun t => match t with TgKnown t => Some t | TgOther _ => None end) l.

(** A word: printable, without whitespace. *)
Definition word (s : string) : bool := forallb (fun a => print_byte a && negb (ws a)) (str_bytes s).
Definition name_ok (s : string) : bool := word s && negb (has_byte "|" s).
Definition target_ok (t : CrsTarget) : bool :=
  match t with
  | TRequestHeaders (Some s) | TTx s | TTxCount s | TRequestHeadersCount s => name_ok s
  | _ => true
  end.

Lemma word_printable s : word s = true -> printable s = true.
Proof. unfold word, printable. rewrite !List.forallb_forall. intros Hs a Ha. specialize (Hs a Ha). by reflect_bools. Qed.
Lemma word_no_space s : word s = true -> existsb ws (str_bytes s) = false.
Proof.
  unfold word. induction (str_bytes s) as [|a l IH]; [done|]. cbn. intros [Ha Hl]%andb_true_iff.
  rewrite IH by done. reflect_bools. by apply orb_false_iff.
Qed.
Lemma word_solid s : word s = true -> s <> "" -> solid s = true.
Proof.
  intros Hs Hne. apply word_no_space in Hs. unfold solid, first_solid, last_solid.
  assert (Hall : forall a, In a (str_bytes s) -> ws a = false).
  { intros a Ha. apply not_true_iff_false. intros Hw. by rewrite (proj2 (existsb_exists _ _) (ex_intro _ a (conj Ha Hw))) in Hs. }
  destruct s as [|a s]; [done|]. cbn [str_bytes] in *. rewrite Hall by (by left).
  destruct (rev (a :: str_bytes s)) as [|b l] eqn:Hr; [by apply (f_equal length) in Hr; rewrite length_rev in Hr|].
  rewrite Hall; [done|]. apply in_rev. rewrite Hr. by left.
Qed.
Lemma word_app s t : word (s +:+ t) = word s && word t.
Proof. unfold word. by rewrite str_bytes_app, forallb_app. Qed.

Lemma target_word t : target_ok t = true -> word (target_text t) = true /\ has_byte "|" (target_text t) = false.
Proof.
  destruct t as [| | | |[name|]| | | | | | | | | |var|var|name|]; try (by intros _; split).
  all: cbn [target_ok target_text]; unfold name_ok; intros [Hw Hb]%andb_true_iff; apply negb_true_iff in Hb;
    rewrite word_app, has_byte_app, Hw, Hb; done.
Qed.

Lemma parse_target_text t : target_ok t = true -> parse_one_target (trim (target_text t)) = Some t.
Proof.
  intros Ht. destruct (target_word t Ht) as [Hw _].
  rewrite trim_id; [|by apply printable_ascii, word_printable|apply word_solid; [done|by destruct t as [| | | |[]| | | | | | | | | | | | |]]].
  destruct t as [| | | |[name|]| | | | | | | | | |var|var|name|]; reflexivity.
Qed.

(** A target that the parser finds is written as it writes it. *)
Lemma parsed_target_text w t : parse_one_target w = Some t -> target_text t = w.
Proof.
  unfold parse_one_target. destruct (strip_prefix "&TX:" w) as [r|] eqn:Htx; [intros [= <-]; by apply strip_prefix_Some in Htx as ->|].
  destruct (strip_prefix "&REQUEST_HEADERS:" w) as [r|] eqn:Hrh; [intros [= <-]; by apply strip_prefix_Some in Hrh as ->|].
  destruct (String.eqb_spec w "&ARGS") as [->|]; [by intros [= <-]|]. destruct (starts_with w "&"); [done|].
  destruct (split_once ":" w) as [[col sub]|] eqn:Hs.
  - apply split_once_Some in Hs as ->. destruct (String.eqb_spec col "REQUEST_HEADERS") as [->|]; [by intros [= <-]|].
    destruct (String.eqb_spec col "TX") as [->|]; [by intros [= <-]|done].
  - repeat match goal with |- (if String.eqb w ?k then _ else _) = _ -> _ => destruct (String.eqb_spec w k) as [->|]; [by intros [= <-]|] end.
    done.
Qed.

(** The text of a known target, or a word that is the text of none. *)
Definition target_source_ok (t : TargetSource) : Prop :=
  match t with
  | TgKnown t => target_ok t = true
  | TgOther text => name_ok text = true /\ text <> "" /\ forall t, target_text t <> text
  end.
Lemma target_source_word t :
  target_source_ok t -> word (target_source_text t) = true /\ target_source_text t <> "" /\ has_byte "|" (target_source_text t) = false.
Proof.
  destruct t as [t|text]; cbn [target_source_ok target_source_text].
  - intros Ht. destruct (target_word t Ht) as [Hw Hb]. split; [done|]. split; [|done].
    by destruct t as [| | | |[]| | | | | | | | | | | | |].
  - unfold name_ok. intros ([Hw Hb%negb_true_iff]%andb_true_iff & Hne & _). done.
Qed.

Lemma targets_parsed l :
  l <> [] -> Forall target_source_ok l -> parse_targets (targets_text l) = known_targets l.
Proof.
  intros Hne Hl. unfold parse_targets, targets_text. rewrite split_char_join; [|by destruct l|].
  - clear Hne. induction Hl as [|t l Ht _ IH]; [done|]. cbn [map omap list_omap known_targets]. unfold known_targets in IH.
    destruct t as [t|text]; cbn [target_source_text target_source_ok] in *.
    + rewrite parse_target_text by done. by rewrite IH.
    + destruct (target_source_word (TgOther text) Ht) as (Hw & Hnt & _). destruct Ht as (_ & _ & Hno).
      rewrite trim_id by (by apply printable_ascii, word_printable || by apply word_solid).
      destruct (parse_one_target text) as [t|] eqn:Ht; [by destruct (Hno t); apply parsed_target_text|]. by rewrite IH.
  - apply List.Forall_forall. intros s (t & <- & Ht)%in_map_iff. rewrite List.Forall_forall in Hl.
    apply has_byte_In. by apply target_source_word, Hl.
Qed.

(** Joined texts keep what each has. *)
Lemma join_forallb (p : ascii -> bool) sep l :
  forallb p (str_bytes sep) = true -> forallb (fun s => forallb p (str_bytes s)) l = true ->
  forallb p (str_bytes (str_join sep l)) = true.
Proof.
  intros Hsep. induction l as [|s l IH]; [done|]. cbn [forallb]. intros [Hs Hl]%andb_true_iff. destruct l as [|t l]; [done|].
  change (str_join sep (s :: t :: l)) with (s +:+ sep +:+ str_join sep (t :: l)).
  by rewrite !str_bytes_app, !forallb_app, Hs, Hsep, IH.
Qed.
Lemma targets_word l : Forall target_source_ok l -> word (targets_text l) = true.
Proof.
  intros Hl. apply join_forallb; [done|]. apply List.forallb_forall. intros s (t & <- & Ht)%in_map_iff.
  rewrite List.Forall_forall in Hl. by apply target_source_word, Hl.
Qed.
Lemma targets_first_solid l : l <> [] -> Forall target_source_ok l -> first_solid (targets_text l) = true.
Proof.
  intros Hne Hl. assert (Hs : solid (targets_text l) = true); [|by unfold solid in Hs; apply andb_true_iff in Hs as [? _]].
  apply word_solid; [by apply targets_word|]. destruct Hl as [|t l Ht _]; [done|].
  destruct (target_source_word t Ht) as (_ & Hnt & _). unfold targets_text. cbn [map]. destruct l as [|u l]; [done|].
  cbn [map str_join]. by destruct (target_source_text t).
Qed.

(** * Operators *)

Inductive Comparison := CmpEq | CmpLt | CmpLe | CmpGt | CmpGe.

(** The operators as a file names them. *)
Inductive OpSource : Type :=
| OsRx (pattern : string)
| OsPm (phrases : list string)
| OsPmFromFile (file : string)
| OsCompare (c : Comparison) (rhs : SetVarRhs)
| OsContains (s : string)
| OsStreq (s : string)
| OsBeginsWith (s : string)
| OsEndsWith (s : string)
| OsWithin (words : list string)
| OsIpMatch (nets : list string)
| OsDetectSQLi
| OsDetectXSS
| OsValidateUrlEncoding
| OsValidateUtf8Encoding
| OsUnsupported (name args : string).

Definition op_name (o : OpSource) : string :=
  match o with
  | OsRx _ => "rx" | OsPm _ => "pm" | OsPmFromFile _ => "pmFromFile"
  | OsCompare CmpEq _ => "eq" | OsCompare CmpLt _ => "lt" | OsCompare CmpLe _ => "le"
  | OsCompare CmpGt _ => "gt" | OsCompare CmpGe _ => "ge"
  | OsContains _ => "contains" | OsStreq _ => "streq" | OsBeginsWith _ => "beginsWith" | OsEndsWith _ => "endsWith"
  | OsWithin _ => "within" | OsIpMatch _ => "ipMatch" | OsDetectSQLi => "detectSQLi" | OsDetectXSS => "detectXSS"
  | OsValidateUrlEncoding => "validateUrlEncoding" | OsValidateUtf8Encoding => "validateUtf8Encoding"
  | OsUnsupported name _ => name
  end.
Definition rhs_text (rhs : SetVarRhs) : string :=
  match rhs with RhsInt n => print_int n | RhsTxRef r => "%{tx." +:+ r +:+ "}" end.
Definition op_args (o : OpSource) : string :=
  match o with
  | OsRx s | OsPmFromFile s | OsContains s | OsStreq s | OsBeginsWith s | OsEndsWith s | OsUnsupported _ s => s
  | OsPm l | OsWithin l => str_join " " l
  | OsIpMatch l => str_join "," l
  | OsCompare _ rhs => rhs_text rhs
  | OsDetectSQLi | OsDetectXSS | OsValidateUrlEncoding | OsValidateUtf8Encoding => ""
  end.

Definition op_text (negate : bool) (o : OpSource) : string :=
  (if negate then "!" else "") +:+ "@" +:+ op_name o +:+ (if is_empty (op_args o) then "" else " " +:+ op_args o).

(** The names that the parser knows. *)
Definition supported_names : list string :=
  ["detectsqli"; "detectxss"; "validateurlencoding"; "validateutf8encoding"; "rx"; "pm"; "pmfromfile"; "eq"; "lt"; "le";
   "gt"; "ge"; "contains"; "streq"; "beginswith"; "endswith"; "within"; "ipmatch"].

Definition text_ok (s : string) : bool := printable s && (is_empty s || solid s).
Definition words_ok (l : list string) : bool := forallb (fun s => word s && negb (is_empty s)) l.

Section Operators.
Context `{UnicodeTables, RegexLib, AhoCorasickLib, IpNetLib}.

Definition op_ok (o : OpSource) : bool :=
  match o with
  | OsRx s | OsPmFromFile s | OsContains s | OsStreq s | OsBeginsWith s | OsEndsWith s => text_ok s
  | OsPm l | OsWithin l => words_ok l
  | OsIpMatch l => negb (bool_decide (l = [])) && words_ok l && forallb (fun s => negb (has_byte "," s)) l
  | OsCompare _ (RhsInt n) => bool_decide (in_s 64 n)
  | OsCompare _ (RhsTxRef r) => word r
  | OsUnsupported name args =>
    word name && negb (is_empty name) && text_ok args && bool_decide (to_lowercase name ∉ supported_names)
  | OsDetectSQLi | OsDetectXSS | OsValidateUrlEncoding | OsValidateUtf8Encoding => true
  end.

Definition compare_op (c : Comparison) (rhs : SetVarRhs) : CrsOperator :=
  match c, rhs with
  | CmpEq, RhsInt n => Eq n | CmpLt, RhsInt n => Lt n | CmpLe, RhsInt n => Le n
  | CmpGt, RhsInt n => Gt n | CmpGe, RhsInt n => Ge n
  | CmpEq, RhsTxRef r => EqTxRef (to_lowercase r) | CmpLt, RhsTxRef r => LtTxRef (to_lowercase r)
  | CmpLe, RhsTxRef r => LeTxRef (to_lowercase r) | CmpGt, RhsTxRef r => GtTxRef (to_lowercase r)
  | CmpGe, RhsTxRef r => GeTxRef (to_lowercase r)
  end.

(** What an operator stands for; [None] when its rule is dropped. *)
Definition op_meaning (o : OpSource) : option CrsOperator :=
  match o with
  | OsRx pattern => Rx <$> regex_new pattern
  | OsPm phrases => Some (Pm (default ac_build_empty (ac_build phrases)))
  | OsPmFromFile file => Some (PmFromFile file)
  | OsCompare c rhs => Some (compare_op c rhs)
  | OsContains s => Some (Contains (to_lowercase s))
  | OsStreq s => Some (Streq s)
  | OsBeginsWith s => Some (BeginsWith s)
  | OsEndsWith s => Some (EndsWith s)
  | OsWithin words => Some (Within words)
  | OsIpMatch nets => Some (IpMatch (omap parse_ipnet nets))
  | OsDetectSQLi => Some DetectSQLi
  | OsDetectXSS => Some DetectXSS
  | OsValidateUrlEncoding => Some ValidateUrlEncoding
  | OsValidateUtf8Encoding => Some ValidateUtf8Encoding
  | OsUnsupported _ _ => None
  end.

(** ** Words separated by spaces *)

Lemma split_ws_word s cur l :
  Forall (fun a => byte_val a < 128 /\ ws a = false) (rev cur ++ str_bytes s) ->
  split_ws_go (map byte_val cur) (map byte_val (str_bytes s) ++ l) = split_ws_go (map byte_val (rev (str_bytes s) ++ cur)) l.
Proof.
  revert cur. induction s as [|a s IH]; intros cur Hall; [done|]. cbn [str_bytes map app split_ws_go rev].
  assert (Ha : ws a = false).
  { apply Forall_app in Hall as [_ Hall]. by inversion Hall as [|? ? [_ ?]]. }
  unfold ws in Ha. rewrite Ha, <- app_assoc. apply (IH (a :: cur)). cbn [rev]. by rewrite <- app_assoc.
Qed.

Lemma word_Forall s : word s = true -> Forall (fun a => byte_val a < 128 /\ ws a = false) (str_bytes s).
Proof.
  intros Hs. apply List.Forall_forall. intros a Ha. unfold word in Hs. rewrite List.forallb_forall in Hs.
  specialize (Hs a Ha). unfold print_byte in Hs. reflect_bools. by split; [lia|].
Qed.

Lemma split_words l : words_ok l = true -> split_whitespace (str_join " " l) = l.
Proof.
  intros Hl. unfold split_whitespace. rewrite chars_ascii.
  2: { apply printable_ascii, (join_forallb print_byte); [done|]. unfold words_ok in Hl. rewrite List.forallb_forall in *.
       intros s Hs. specialize (Hl s Hs). apply andb_true_iff in Hl as [Hl _]. by apply word_printable. }
  induction l as [|s l IH]; [done|]. cbn [words_ok forallb] in Hl. apply andb_true_iff in Hl as [[Hs Hne]%andb_true_iff Hl].
  assert (Hword : forall rest, split_ws_go [] (map byte_val (str_bytes s) ++ rest) =
            split_ws_go (map byte_val (rev (str_bytes s))) rest).
  { intros rest. rewrite (split_ws_word s []) by (by apply word_Forall). by rewrite app_nil_r. }
  assert (Hflush : of_chars (rev (map byte_val (rev (str_bytes s)))) = s).
  { rewrite <- map_rev, rev_involutive, of_chars_bytes; [apply str_of_bytes|].
    eapply Forall_impl; [by apply word_Forall|]. by intros a [? _]. }
  assert (Hcons : exists c cs, map byte_val (rev (str_bytes s)) = c :: cs).
  { destruct s as [|a s]; [done|]. cbn [str_bytes rev]. rewrite map_app.
    destruct (map byte_val (rev (str_bytes s))); cbn; eauto. }
  destruct Hcons as (c & cs & Hc). rewrite Hc in Hflush, Hword. destruct l as [|t l].
  - change (str_join " " [s]) with s. rewrite <- (app_nil_r (map byte_val (str_bytes s))), Hword. cbn [split_ws_go].
    by rewrite Hflush.
  - change (str_join " " (s :: t :: l)) with (s +:+ " " +:+ str_join " " (t :: l)).
    rewrite !str_bytes_app, !List.map_app, Hword. cbn [str_bytes map app split_ws_go].
    change (is_whitespace (byte_val " ")) with true. cbv iota. rewrite Hflush.
    cbn [app]. f_equal. by apply IH.
Qed.

(** ** Arguments *)

Lemma solid_between s t : solid s = true -> solid t = true -> forall u, solid (s +:+ u +:+ t) = true.
Proof.
  unfold solid. intros [Hs _]%andb_true_iff [_ Ht]%andb_true_iff u. rewrite first_solid_app by done.
  by apply last_solid_app, last_solid_app.
Qed.
Lemma join_solid sep l : l <> [] -> forallb solid l = true -> solid (str_join sep l) = true.
Proof.
  induction l as [|s l IH]; [done|]. cbn [forallb]. intros _ [Hs Hl]%andb_true_iff. destruct l as [|t l]; [done|].
  change (str_join sep (s :: t :: l)) with (s +:+ sep +:+ str_join sep (t :: l)). apply solid_between; [done|]. by apply IH.
Qed.
Lemma join_text_ok sep l : printable sep = true -> words_ok l = true -> text_ok (str_join sep l) = true.
Proof.
  intros Hsep Hl. unfold text_ok. apply andb_true_iff. unfold words_ok in Hl. rewrite List.forallb_forall in Hl. split.
  - apply (join_forallb print_byte); [done|]. apply List.forallb_forall. intros s Hs. specialize (Hl s Hs).
    apply andb_true_iff in Hl as [Hl _]. by apply word_printable.
  - apply orb_true_iff. destruct l as [|t l]; [by left|]. right. apply join_solid; [done|]. apply List.forallb_forall.
    intros s Hs. specialize (Hl s Hs). apply andb_true_iff in Hl as [Hw Hne]. apply word_solid; [done|]. by intros ->.
Qed.
Lemma digit_print a : is_ascii_digit a = true -> print_byte a && negb (ws a) = true.
Proof.
  unfold is_ascii_digit, print_byte, ws, is_whitespace. intros Ha. reflect_bools.
  apply andb_true_iff. split; [apply andb_true_iff; lia|]. apply negb_true_iff. repeat (apply orb_false_iff; split); lia.
Qed.
Lemma print_nat_word n : 0 <= n -> word (print_nat n) = true.
Proof.
  intros Hn. unfold word. apply List.forallb_forall. intros a Ha. apply digit_print.
  pose proof (print_nat_digits n Hn) as Hd. rewrite List.Forall_forall in Hd. by apply Hd.
Qed.
Lemma print_int_word n : word (print_int n) = true.
Proof.
  unfold print_int. destruct (Z.ltb_spec n 0); [|by apply print_nat_word].
  change (word (String "-" ?s)) with (word s). apply print_nat_word. lia.
Qed.
Lemma word_text_ok s : word s = true -> text_ok s = true.
Proof.
  intros Hs. unfold text_ok. rewrite word_printable by done. destruct s as [|a s]; [done|].
  by rewrite (word_solid (String a s)).
Qed.

Lemma op_args_ok o : op_ok o = true -> text_ok (op_args o) = true.
Proof.
  destruct o as [| | |c [n|r]| | | | | | | | | | |]; cbn [op_ok op_args rhs_text]; intros Ho; try done.
  - by apply join_text_ok.
  - apply word_text_ok, print_int_word.
  - apply word_text_ok. by rewrite !word_app, Ho.
  - by apply join_text_ok.
  - apply andb_true_iff in Ho as [[_ Ho]%andb_true_iff _]. by apply join_text_ok.
  - by reflect_bools.
Qed.
Lemma op_name_ok o : op_ok o = true -> word (op_name o) = true /\ op_name o <> "".
Proof.
  destruct o as [| | |[]| | | | | | | | | | |name args]; try done. cbn [op_ok op_name]. intros Ho. reflect_bools.
  split; [done|]. by intros ->.
Qed.

(** ** Reading an operator back *)

Lemma find_space_none s : is_ascii s = true -> existsb ws (str_bytes s) = false -> find_char is_whitespace s = None.
Proof.
  intros Ha Hs. unfold find_char. rewrite chars_ascii by done. generalize (@nil Z) as pre.
  induction (str_bytes s) as [|a l IH]; [done|]. intros pre. cbn [map find_char_go existsb] in *.
  apply orb_false_iff in Hs as [Hw Hl]. unfold ws in Hw. rewrite Hw. by apply IH.
Qed.

Lemma comparison_read rhs with_ref with_int :
  match rhs with RhsInt n => in_s 64 n | RhsTxRef _ => True end ->
  parse_comparison with_ref with_int (rhs_text rhs) =
  Some (match rhs with RhsInt n => with_int n | RhsTxRef r => with_ref (to_lowercase r) end).
Proof.
  unfold parse_comparison. destruct rhs as [n|r]; cbn [rhs_text].
  - intros Hn. rewrite tx_ref_int, parse_print_int by done. done.
  - intros _. by rewrite tx_ref_text.
Qed.

Lemma text_trim s : text_ok s = true -> trim s = s.
Proof.
  unfold text_ok. intros [Hp Hs]%andb_true_iff. destruct s as [|a s]; [done|]. apply trim_id; [by apply printable_ascii|done].
Qed.
Lemma omap_words {A} (f : string -> option A) l : words_ok l = true -> omap (fun s => f (trim s)) l = omap f l.
Proof.
  induction l as [|s l IH]; [done|]. cbn [words_ok forallb]. intros [[Hw Hne]%andb_true_iff Hl]%andb_true_iff.
  cbn [omap list_omap]. rewrite trim_id, IH; [done|done|by apply printable_ascii, word_printable|].
  apply word_solid; [done|]. by intros ->.
Qed.

Lemma parse_op_name o : op_ok o = true -> parse_operator_name (op_name o) (op_args o) = op_meaning o.
Proof.
  destruct o as [s|l|s|c rhs|s|s|s|s|l|l| | | | |name args]; try (intros _; reflexivity); cbn [op_ok op_args op_meaning].
  - intros Hl. unfold parse_operator_name. cbn [op_name]. change (to_lowercase "pm") with "pm". cbn [String.eqb Ascii.eqb eqb].
    cbn -[str_join split_whitespace]. by rewrite split_words.
  - intros Hs. change (parse_operator_name _ s) with (Some (PmFromFile (trim s))). by rewrite text_trim.
  - intros Hr. assert (Hn : match rhs with RhsInt n => in_s 64 n | RhsTxRef _ => True end)
      by (destruct rhs; [by apply bool_decide_eq_true in Hr|done]).
    destruct c; cbn [op_name]; (etransitivity; [by apply comparison_read|]); by destruct rhs.
  - intros Hl. change (parse_operator_name _ ?a) with (Some (Within (split_whitespace a))). by rewrite split_words.
  - intros Hl. reflect_bools. change (parse_operator_name _ ?a) with (Some (IpMatch (omap (fun p => parse_ipnet (trim p)) (split_char "," a)))).
    rewrite (split_char_join "," l); [|done|].
    2: { apply List.Forall_forall. intros s Hs. apply has_byte_In.
         rename select (forallb (fun s => negb _) l = true) into Hc. rewrite List.forallb_forall in Hc.
         apply negb_true_iff. by apply Hc. }
    do 2 f_equal. apply omap_words. done.
  - intros Hl. reflect_bools. rename select (_ ∉ _) into Hn. unfold parse_operator_name.
    unfold supported_names in Hn. repeat (apply not_elem_of_cons in Hn as [? Hn]).
    by rewrite !(proj2 (String.eqb_neq _ _)).
Qed.

Definition op_body (o : OpSource) : string := op_name o +:+ (if is_empty (op_args o) then "" else " " +:+ op_args o).
Lemma op_body_printable o : op_ok o = true -> printable (op_body o) = true /\ last_solid (op_body o) = true.
Proof.
  intros Ho. destruct (op_name_ok o Ho) as [Hw Hne]. pose proof (op_args_ok o Ho) as Ha. unfold text_ok in Ha.
  apply andb_true_iff in Ha as [Hp Ha]. unfold op_body. rewrite printable_app, (word_printable _ Hw).
  pose proof (word_solid _ Hw Hne) as Hs. unfold solid in *. apply andb_true_iff in Hs as [_ Hs].
  destruct (is_empty (op_args o)) eqn:He; cbn [orb] in Ha; [by rewrite app_nil_r_str|]. split; [by rewrite printable_app|].
  apply andb_true_iff in Ha as [_ Ha]. by apply last_solid_app, (last_solid_app " ").
Qed.
Lemma split_op_body o :
  op_ok o = true ->
  match find_char is_whitespace (op_body o) with
  | Some (name, rest) => (name, trim rest)
  | None => (op_body o, "")
  end = (op_name o, op_args o).
Proof.
  intros Ho. destruct (op_name_ok o Ho) as [Hw Hne]. pose proof (op_args_ok o Ho) as Ha.
  destruct (op_body_printable o Ho) as [Hp%printable_ascii _]. unfold op_body in *.
  destruct (op_args o) as [|a s] eqn:Hargs; cbn [is_empty] in *.
  - rewrite app_nil_r_str in *. by rewrite find_space_none by (done || by apply word_no_space).
  - change (" " +:+ String a s) with (String " " (String a s)) in *.
    rewrite (find_space (op_name o)) by (done || by apply word_no_space). f_equal.
    unfold text_ok in Ha. apply andb_true_iff in Ha as [Hpa Hs]. apply (trim_solid " "); [|done|done].
    rewrite is_ascii_app. by apply printable_ascii in Hpa as ->.
Qed.

Lemma op_text_ok negate o : op_ok o = true -> text_ok (op_text negate o) = true.
Proof.
  intros Ho. destruct (op_body_printable o Ho) as [Hp Hs]. unfold text_ok, op_text. fold (op_body o).
  rewrite !printable_app, Hp. assert (Hsol : solid ("@" +:+ op_body o) = true) by (unfold solid; by rewrite last_solid_app).
  destruct negate; [|by rewrite app_nil_l_str, Hsol].
  unfold solid in *. apply andb_true_iff in Hsol as [_ Hl]. by rewrite last_solid_app.
Qed.

Lemma parse_op_text negate o :
  op_ok o = true -> parse_operator (trim (op_text negate o)) = (fun op => (negate, op)) <$> op_meaning o.
Proof.
  intros Ho. rewrite text_trim by (by apply op_text_ok). unfold parse_operator, op_text. fold (op_body o).
  destruct (op_body_printable o Ho) as [Hp _].
  assert (Hstrip : match strip_prefix "!" ((if negate then "!" else "") +:+ "@" +:+ op_body o) with
                   | Some r => (true, trim_start r)
                   | None => (false, (if negate then "!" else "") +:+ "@" +:+ op_body o)
                   end = (negate, "@" +:+ op_body o)).
  { destruct negate; [|done]. rewrite strip_prefix_app, trim_start_id; [done| |done].
    apply printable_ascii. by rewrite printable_app, Hp. }
  rewrite Hstrip, strip_prefix_app. cbn [mbind option_bind].
  pose proof (split_op_body o Ho) as Hb. destruct (find_char _ _) as [[name rest]|]; injection Hb as -> ->;
    rewrite parse_op_name by done; by destruct (op_meaning o).
Qed.
End Operators.

(** * Actions *)

(** The actions as a file writes them; [AsIgnored] and [AsIgnoredWord] have a key the
    parser does not know, with a quoted text or a word, and [AsOther] is a flag it does
    not know. *)
Inductive ActionSource : Type :=
| AsId (n : Z)
| AsPhase (n : Z)
| AsTag (s : string)
| AsSeverity (s : string)
| AsSkipAfter (marker : string)
| AsSetVar (op : SetVarOp)
| AsTransform (t : CrsTransform)
| AsNoTransforms
| AsBlock
| AsDeny
| AsPass
| AsChain
| AsNolog
| AsCapture
| AsMultiMatch
| AsIgnored (key value : string)
| AsIgnoredWord (key value : string)
| AsOther (flag : string).

Definition transform_name (t : CrsTransform) : string :=
  match t with
  | Lowercase => "lowercase" | UrlDecodeUni => "urlDecodeUni" | RemoveNulls => "removeNulls"
  | Utf8ToUnicode => "utf8toUnicode" | CompressWhitespace => "compressWhitespace" | NormalizePath => "normalizePath"
  | HtmlEntityDecode => "htmlEntityDecode" | JsDecode => "jsDecode" | CssDecode => "cssDecode"
  | Base64Decode => "base64Decode" | Trim => "trim" | RemoveWhitespace => "removeWhitespace"
  | ReplaceComments => "replaceComments" | Length => "length" | EscapeSeqDecode => "escapeSeqDecode"
  end.

(** A token of the list: a flag, or a key with a value, perhaps quoted. *)
Inductive Token : Type :=
| TokFlag (name : string)
| TokPlain (key value : string)
| TokQuoted (key value : string).
Definition token_text (t : Token) : string :=
  match t with
  | TokFlag name => name
  | TokPlain key value => key +:+ ":" +:+ value
  | TokQuoted key value => key +:+ ":'" +:+ value +:+ "'"
  end.
Definition action_token (a : ActionSource) : Token :=
  match a with
  | AsId n => TokPlain "id" (print_nat n)
  | AsPhase n => TokPlain "phase" (print_nat n)
  | AsTag s => TokQuoted "tag" s
  | AsSeverity s => TokQuoted "severity" s
  | AsSkipAfter s => TokPlain "skipAfter" s
  | AsSetVar op => TokQuoted "setvar" (setvar_text op)
  | AsTransform t => TokPlain "t" (transform_name t)
  | AsNoTransforms => TokPlain "t" "none"
  | AsBlock => TokFlag "block" | AsDeny => TokFlag "deny" | AsPass => TokFlag "pass" | AsChain => TokFlag "chain"
  | AsNolog => TokFlag "nolog" | AsCapture => TokFlag "capture" | AsMultiMatch => TokFlag "multiMatch"
  | AsIgnored key value => TokQuoted key value
  | AsIgnoredWord key value => TokPlain key value
  | AsOther flag => TokFlag flag
  end.
Definition action_text (a : ActionSource) : string := token_text (action_token a).

(** A word without the marks that the lists of actions use. *)
Definition simple (s : string) : bool :=
  word s && negb (is_empty s) && forallb (fun c => negb (has_byte c s)) [":"; ","; "'"; dquote; backslash]%char.
(** A text between single quotes; no part of it between commas is the word [chain],
    which the parser would take for the action. *)
Definition is_chain_word (s : string) : bool := eq_ignore_ascii_case (trim s) "chain".
Definition value_ok (s : string) : bool :=
  printable s && forallb (fun c => negb (has_byte c s)) ["'"; dquote; backslash]%char &&
  forallb (fun p => negb (is_chain_word p)) (split_char "," s).
Definition token_ok (t : Token) : bool :=
  match t with
  | TokFlag name => simple name
  | TokPlain key value => simple key && simple value
  | TokQuoted key value => simple key && value_ok value
  end.

Lemma simple_facts s : simple s = true ->
  word s = true /\ s <> "" /\ has_byte ":" s = false /\ has_byte "," s = false /\ has_byte "'" s = false /\
  has_byte dquote s = false /\ has_byte backslash s = false.
Proof. unfold simple. cbn [forallb]. intros Hs. reflect_bools. split; [done|]. split; [by intros ->|]. done. Qed.
Lemma value_facts s : value_ok s = true ->
  printable s = true /\ has_byte "'" s = false /\ has_byte dquote s = false /\ has_byte backslash s = false /\
  forallb (fun p => negb (is_chain_word p)) (split_char "," s) = true.
Proof. unfold value_ok. cbn [forallb]. intros Hs. reflect_bools. done. Qed.

(** ** Tokens as texts *)

Lemma last_solid_cons a s : ws a = false -> s = "" \/ last_solid s = true -> last_solid (String a s) = true.
Proof.
  intros Ha [->|Hs]; [by cbn; unfold last_solid; cbn; rewrite Ha|]. change (String a s) with (String a "" +:+ s).
  by apply last_solid_app.
Qed.
Lemma token_solid t : token_ok t = true -> printable (token_text t) = true /\ solid (token_text t) = true.
Proof.
  destruct t as [name|key value|key value]; cbn [token_ok token_text].
  - intros (Hw & Hne & _)%simple_facts. split; [by apply word_printable|by apply word_solid].
  - intros [(Hk & Hkn & _)%simple_facts (Hv & Hvn & _)%simple_facts]%andb_true_iff.
    rewrite !printable_app, !word_printable by done. split; [done|]. apply solid_between; by apply word_solid.
  - intros [(Hk & Hkn & _)%simple_facts (Hv & _)%value_facts]%andb_true_iff.
    rewrite !printable_app, word_printable, Hv by done. split; [done|].
    pose proof (solid_between key "'" (word_solid _ Hk Hkn) eq_refl (":'" +:+ value)) as Hs.
    by rewrite app_assoc_str in Hs.
Qed.

(** Commas between single quotes do not separate. *)
Fixpoint commas_quoted (in_sq : bool) (s : string) : bool :=
  match s with
  | EmptyString => negb in_sq
  | String c s =>
    if Ascii.eqb c "'" then commas_quoted (negb in_sq) s
    else negb (Ascii.eqb c "," && negb in_sq) && commas_quoted in_sq s
  end.
Lemma has_byte_cons c a s : has_byte c (String a s) = Ascii.eqb c a || has_byte c s.
Proof. done. Qed.
Lemma commas_none s t : has_byte "," s = false -> has_byte "'" s = false -> commas_quoted false (s +:+ t) = commas_quoted false t.
Proof.
  induction s as [|a s IH]; [by rewrite app_nil_l_str|]. rewrite !has_byte_cons, app_cons_str. cbn [commas_quoted].
  intros [Ha Hs]%orb_false_iff [Hq Ht]%orb_false_iff. rewrite Ascii.eqb_sym in Ha, Hq. rewrite Ha, Hq. by apply IH.
Qed.
Lemma commas_value s t : has_byte "'" s = false -> commas_quoted true (s +:+ t) = commas_quoted true t.
Proof.
  induction s as [|a s IH]; [by rewrite app_nil_l_str|]. rewrite has_byte_cons, app_cons_str. cbn [commas_quoted].
  intros [Hq Hs]%orb_false_iff. rewrite Ascii.eqb_sym in Hq. rewrite Hq, andb_false_r. by apply IH.
Qed.
Lemma token_commas t : token_ok t = true -> commas_quoted false (token_text t) = true.
Proof.
  destruct t as [name|key value|key value]; cbn [token_ok token_text].
  - intros (_ & _ & _ & Hc & Hq & _)%simple_facts. by rewrite <- (app_nil_r_str name), commas_none.
  - intros [(_ & _ & _ & Hc & Hq & _)%simple_facts (_ & _ & _ & Hc' & Hq' & _)%simple_facts]%andb_true_iff.
    rewrite commas_none by done. change (commas_quoted false (":" +:+ value)) with (commas_quoted false value).
    by rewrite <- (app_nil_r_str value), commas_none.
  - intros [(_ & _ & _ & Hc & Hq & _)%simple_facts (_ & Hq' & _)%value_facts]%andb_true_iff.
    rewrite commas_none by done. change (commas_quoted false (":'" +:+ ?s)) with (commas_quoted true s).
    by rewrite commas_value.
Qed.

(** ** The list of actions *)

(** How a file goes on within a rule: after blanks, or on the next line, indented. *)
Inductive Break : Type :=
| Blanks (n : nat)
| NewLine (n : nat).
Definition spaces (n : nat) : string := Nat.iter n (String " ") "".
(** What is between the parts on the joined line. *)
Definition pad (b : Break) : string := match b with Blanks n => spaces n | NewLine n => " " +:+ spaces n end.

Lemma spaces_forallb (p : ascii -> bool) n : p " "%char = true -> forallb p (str_bytes (spaces n)) = true.
Proof. intros Hp. induction n as [|n IH]; [done|]. cbn. by rewrite Hp. Qed.
Lemma pad_forallb (p : ascii -> bool) b : p " "%char = true -> forallb p (str_bytes (pad b)) = true.
Proof. intros Hp. destruct b as [n|n]; cbn [pad]; rewrite ?str_bytes_app, ?forallb_app, spaces_forallb by done; cbn; by rewrite ?Hp. Qed.
Lemma has_byte_forallb c s : has_byte c s = negb (forallb (fun a => negb (Ascii.eqb c a)) (str_bytes s)).
Proof. apply existsb_forallb_negb. Qed.
Lemma spaces_printable n : printable (spaces n) = true.
Proof. by apply spaces_forallb. Qed.
Lemma pad_printable b : printable (pad b) = true.
Proof. by apply pad_forallb. Qed.
Lemma pad_blank b : blank (pad b) = true.
Proof. by apply pad_forallb. Qed.
Lemma pad_no_byte c b : Ascii.eqb c " " = false -> has_byte c (pad b) = false.
Proof. intros Hc. rewrite has_byte_forallb. apply negb_false_iff, pad_forallb. by rewrite Hc. Qed.

Lemma split_actions_comma q cur t rest :
  commas_quoted q t = true ->
  split_actions_go q cur (t +:+ String "," rest) = (cur +:+ t) :: split_actions_go false "" rest.
Proof.
  revert q cur. induction t as [|a t IH]; intros q cur; cbn [commas_quoted].
  - rewrite app_nil_l_str. destruct q; [done|]. intros _. cbn. by rewrite app_nil_r_str.
  - rewrite app_cons_str. cbn [split_actions_go]. destruct (Ascii.eqb a "'").
    + intros Ht. rewrite (IH _ _ Ht). unfold push. by rewrite app_assoc_str.
    + intros [Ha Ht]%andb_true_iff. rewrite (proj1 (negb_true_iff _) Ha), (IH _ _ Ht). unfold push. by rewrite app_assoc_str.
Qed.
Lemma split_actions_last q cur t :
  commas_quoted q t = true -> is_empty (cur +:+ t) = false -> split_actions_go q cur t = [cur +:+ t].
Proof.
  revert q cur. induction t as [|a t IH]; intros q cur; cbn [commas_quoted].
  - intros _. rewrite app_nil_r_str. cbn. by intros ->.
  - intros Ht Hne. cbn [split_actions_go]. assert (Hpush : cur +:+ String a t = push cur a +:+ t).
    { unfold push. by rewrite app_assoc_str. }
    rewrite Hpush in *. destruct (Ascii.eqb a "'"); [by apply IH|]. apply andb_true_iff in Ht as [Ha Ht].
    rewrite (proj1 (negb_true_iff _) Ha). by apply IH.
Qed.
Lemma split_actions_join l :
  l <> [] -> forallb (fun t => commas_quoted false t && negb (is_empty t)) l = true ->
  split_actions (str_join "," l) = l.
Proof.
  unfold split_actions. induction l as [|t l IH]; [done|]. intros _. cbn [forallb].
  intros [[Ht Hne]%andb_true_iff Hl]%andb_true_iff. destruct l as [|u l].
  - change (str_join "," [t]) with t. rewrite split_actions_last; [done|done|]. rewrite app_nil_l_str. by apply negb_true_iff.
  - change (str_join "," (t :: u :: l)) with (t +:+ String "," (str_join "," (u :: l))).
    rewrite split_actions_comma, IH by done. by rewrite app_nil_l_str.
Qed.

(** The actions as the joined line has them. *)
Definition piece (x : Break * ActionSource) : string := pad x.1 +:+ action_text x.2.
Definition actions_text (l : list (Break * ActionSource)) : string := str_join "," (map piece l).

Lemma pieces_split l :
  l <> [] -> Forall (fun x => token_ok (action_token x.2) = true) l -> split_actions (actions_text l) = map piece l.
Proof.
  intros Hne Hl. apply split_actions_join; [by destruct l|]. apply List.forallb_forall. intros s (x & <- & Hx)%in_map_iff.
  rewrite List.Forall_forall in Hl. specialize (Hl x Hx). unfold piece, action_text.
  rewrite commas_none, token_commas by (done || by apply pad_no_byte). destruct (token_solid _ Hl) as [_ Hs].
  by destruct (pad x.1), (token_text (action_token x.2)).
Qed.

(** ** What an action does *)

Definition apply_action (ra : RawActions) (a : ActionSource) : RawActions :=
  let '(mkRawActions id phase skip sets tags sev nolog block chain capture multi tfs) := ra in
  match a with
  | AsId n => mkRawActions n phase skip sets tags sev nolog block chain capture multi tfs
  | AsPhase n => mkRawActions id n skip sets tags sev nolog block chain capture multi tfs
  | AsTag s => mkRawActions id phase skip sets (tags ++ [s]) sev nolog block chain capture multi tfs
  | AsSeverity s => mkRawActions id phase skip sets tags (Some s) nolog block chain capture multi tfs
  | AsSkipAfter s => mkRawActions id phase (Some s) sets tags sev nolog block chain capture multi tfs
  | AsSetVar op => mkRawActions id phase skip (sets ++ [op]) tags sev nolog block chain capture multi tfs
  | AsTransform t => mkRawActions id phase skip sets tags sev nolog block chain capture multi (tfs ++ [t])
  | AsNoTransforms => mkRawActions id phase skip sets tags sev nolog block chain capture multi []
  | AsBlock | AsDeny => mkRawActions id phase skip sets tags sev nolog true chain capture multi tfs
  | AsPass => mkRawActions id phase skip sets tags sev nolog false chain capture multi tfs
  | AsChain => mkRawActions id phase skip sets tags sev nolog block true capture multi tfs
  | AsNolog => mkRawActions id phase skip sets tags sev true block chain capture multi tfs
  | AsCapture => mkRawActions id phase skip sets tags sev nolog block chain true multi tfs
  | AsMultiMatch => mkRawActions id phase skip sets tags sev nolog block chain capture true tfs
  | AsIgnored _ _ | AsIgnoredWord _ _ | AsOther _ => ra
  end.

Definition known_keys : list string := ["id"; "phase"; "tag"; "severity"; "skipafter"; "setvar"; "t"].
Definition known_flags : list string := ["block"; "deny"; "pass"; "chain"; "nolog"; "capture"; "multimatch"].

Lemma parse_unsigned_nat w n : 0 <= n < 2 ^ w -> parse_unsigned w (print_nat n) = Some n.
Proof.
  intros [Hn Hw]. unfold parse_unsigned. destruct (print_nat_head n Hn) as (a & r & Hp & Hd). rewrite Hp.
  destruct (digit_not_sign a Hd) as [_ ->]. rewrite <- Hp, parse_print_nat by done. cbn [mbind option_bind].
  by rewrite (proj2 (Z.ltb_lt n _)).
Qed.

Lemma starts_with_first c s : has_byte c s = false -> starts_with s (String c "") = false.
Proof.
  intros Hs. apply not_true_iff_false. intros [r ->]%starts_with_spec.
  by rewrite app_cons_str, has_byte_cons, Ascii.eqb_refl in Hs.
Qed.
Lemma unquote_simple s : simple s = true -> unquote s = s.
Proof.
  intros (Hw & Hne & _ & _ & Hq & Hd & _)%simple_facts. unfold unquote.
  rewrite trim_id by (by apply printable_ascii, word_printable || by apply word_solid).
  by rewrite !starts_with_first, andb_false_r.
Qed.
Lemma unquote_quoted s : printable s = true -> unquote ("'" +:+ s +:+ "'") = s.
Proof.
  intros Hs. unfold unquote. rewrite trim_id.
  - assert (Hlen : (2 <=? str_len ("'" +:+ s +:+ "'"))%nat = true).
    { apply Nat.leb_le. rewrite !str_len_app. cbn. lia. }
    assert (Hst : starts_with ("'" +:+ s +:+ "'") "'" = true) by (apply starts_with_spec; by eexists).
    assert (Hen : ends_with ("'" +:+ s +:+ "'") "'" = true).
    { rewrite <- app_assoc_str. apply ends_with_push. by eexists. }
    rewrite Hlen, Hst, Hen. cbn [andb orb]. change ("'" +:+ ?x) with (String "'" x). cbn [strip_ends]. apply drop_last_push.
  - apply printable_ascii. by rewrite !printable_app, Hs.
  - unfold solid. by rewrite last_solid_app by (by apply last_solid_app).
Qed.
Lemma trim_matches_around c s : has_byte c s = false -> trim_matches c (String c (s +:+ String c "")) = s.
Proof.
  intros Hs. unfold trim_matches. cbn [str_bytes drop_while]. rewrite Ascii.eqb_refl, str_bytes_app.
  assert (Hnc : forall l, existsb (Ascii.eqb c) l = false -> drop_while (fun a => Ascii.eqb a c) (l ++ [c]) =
                match l with [] => [] | _ => l ++ [c] end).
  { intros [|a l]; [by cbn; rewrite Ascii.eqb_refl|]. cbn [existsb]. intros [Ha _]%orb_false_iff.
    rewrite Ascii.eqb_sym in Ha. cbn. by rewrite Ha. }
  change (str_bytes (String c "")) with [c]. rewrite Hnc by done.
  destruct (str_bytes s) as [|a l] eqn:Hb; [by destruct s|]. rewrite <- Hb. clear Hnc.
  rewrite rev_app_distr. cbn [rev app drop_while]. rewrite Ascii.eqb_refl.
  destruct (rev (str_bytes s)) as [|b m] eqn:Hr.
  { apply (f_equal length) in Hr. by rewrite length_rev, Hb in Hr. }
  assert (Hbc : Ascii.eqb b c = false).
  { apply not_true_iff_false. intros ->%Ascii.eqb_eq. apply (has_byte_In c s Hs), in_rev. rewrite Hr. by left. }
  cbn [drop_while]. rewrite Hbc, <- Hr, rev_involutive. apply str_of_bytes.
Qed.

Section Actions.
Context `{UnicodeTables, RegexLib, AhoCorasickLib, IpNetLib}.

(** Actions whose text reads back: the values that the parser keeps are in the form
    that [action_token] gives them. *)
Definition action_ok (a : ActionSource) : Prop :=
  token_ok (action_token a) = true /\
  match a with
  | AsId n => in_u 32 n
  | AsPhase n => in_u 8 n
  | AsSetVar op => setvar_wf op
  | AsIgnored key _ | AsIgnoredWord key _ => to_lowercase key ∉ known_keys
  | AsOther flag => to_lowercase flag ∉ known_flags
  | _ => True
  end.

Lemma token_trim pad t : token_ok t = true -> is_ascii pad = true -> blank pad = true -> trim (pad +:+ token_text t) = token_text t.
Proof.
  intros Ht Ha Hb. destruct (token_solid t Ht) as [Hp Hs]. apply trim_solid; [|done|done].
  by rewrite is_ascii_app, Ha, printable_ascii.
Qed.

Lemma parse_token ra pad t :
  token_ok t = true -> is_ascii pad = true -> blank pad = true ->
  parse_action ra (pad +:+ token_text t) =
  match t with
  | TokFlag name => flag_action name ra
  | TokPlain key value => keyed_action key value ra
  | TokQuoted key value => keyed_action key ("'" +:+ value +:+ "'") ra
  end.
Proof.
  intros Ht Ha Hb. unfold parse_action. rewrite token_trim by done. destruct (token_solid t Ht) as [_ Hs].
  assert (He : is_empty (token_text t) = false) by (by destruct (token_text t)). rewrite He.
  destruct t as [name|key value|key value]; cbn [token_ok token_text] in *.
  - apply simple_facts in Ht as (_ & _ & Hc & _). clear He Hs. assert (Hn : split_once ":" name = None); [|by rewrite Hn].
    induction name as [|a s IH]; [done|]. rewrite has_byte_cons in Hc. apply orb_false_iff in Hc as [Hca Hc].
    cbn [split_once]. rewrite Ascii.eqb_sym in Hca. by rewrite Hca, IH.
  - apply andb_true_iff in Ht as [(_ & _ & Hc & _)%simple_facts _]. change (":" +:+ value) with (String ":" value).
    by rewrite split_once_app by (by apply has_byte_In).
  - apply andb_true_iff in Ht as [(_ & _ & Hc & _)%simple_facts _].
    change (":'" +:+ value +:+ "'") with (String ":" ("'" +:+ value +:+ "'")).
    by rewrite split_once_app by (by apply has_byte_In).
Qed.

Lemma parse_action_text ra pad a :
  action_ok a -> is_ascii pad = true -> blank pad = true -> parse_action ra (pad +:+ action_text a) = apply_action ra a.
Proof.
  intros [Ht Ha] Hp Hb. unfold action_text. rewrite parse_token by done.
  destruct ra as [id phase skip sets tags sev nolog block chain capture multi tfs].
  destruct a as [n|n|s|s|s|op|t| | | | | | | | |key v|key v|flag]; cbn [action_token token_ok] in *; try reflexivity.
  - apply andb_true_iff in Ht as [_ Ht]. unfold keyed_action. rewrite (unquote_simple _ Ht), (parse_unsigned_nat 32) by done. done.
  - apply andb_true_iff in Ht as [_ Ht]. unfold keyed_action. rewrite (unquote_simple _ Ht), (parse_unsigned_nat 8) by done. done.
  - apply andb_true_iff in Ht as [_ (Ht & _)%value_facts]. unfold keyed_action. by rewrite unquote_quoted.
  - apply andb_true_iff in Ht as [_ (Ht & _)%value_facts]. unfold keyed_action. by rewrite unquote_quoted.
  - apply andb_true_iff in Ht as [_ Ht]. unfold keyed_action. by rewrite (unquote_simple _ Ht).
  - apply andb_true_iff in Ht as [_ (Ht & Hq & _)%value_facts]. unfold keyed_action.
    assert (Htm : trim_matches "'" (trim ("'" +:+ setvar_text op +:+ "'")) = setvar_text op).
    { rewrite trim_id; [by apply (trim_matches_around "'")|by apply printable_ascii; rewrite !printable_app, Ht|].
      unfold solid. by rewrite last_solid_app by (by apply last_solid_app). }
    rewrite Htm, (parse_setvar_roundtrip op Ha). done.
  - by destruct t.
  - unfold known_keys in Ha. repeat (apply not_elem_of_cons in Ha as [? Ha]). unfold keyed_action.
    by rewrite !(proj2 (String.eqb_neq _ _)).
  - unfold known_keys in Ha. repeat (apply not_elem_of_cons in Ha as [? Ha]). unfold keyed_action.
    by rewrite !(proj2 (String.eqb_neq _ _)).
  - unfold known_flags in Ha. repeat (apply not_elem_of_cons in Ha as [? Ha]). unfold flag_action.
    by rewrite !(proj2 (String.eqb_neq _ _)).
Qed.

Definition raw_actions (l : list ActionSource) : RawActions := foldl apply_action RawActions_default l.

Lemma parse_actions_text l :
  l <> [] -> Forall (fun x => action_ok x.2) l ->
  let raw := raw_actions (map snd l) in parse_actions (actions_text l) = (ra_transforms raw, raw).
Proof.
  intros Hne Hl raw. unfold parse_actions. rewrite pieces_split by (done || by eapply List.Forall_impl; [|exact Hl]; intros x [? _]).
  assert (Hfold : foldl parse_action RawActions_default (map piece l) = raw); [|by rewrite Hfold].
  unfold raw, raw_actions. generalize RawActions_default. clear -Hl. induction Hl as [|[b a] l Ha _ IH]; [done|].
  intros ra. cbn [map foldl fst snd]. change (piece (b, a)) with (pad b +:+ action_text a).
  rewrite parse_action_text by (done || by apply pad_blank || by apply printable_ascii, pad_printable). apply IH.
Qed.
End Actions.

(** ** The search for [chain] *)

Lemma split_char_glue c s r : split_char c (s +:+ String c r) = split_char c s ++ split_char c r.
Proof.
  induction s as [|a s IH]; [by rewrite app_nil_l_str; cbn [split_char]; rewrite Ascii.eqb_refl|]. rewrite app_cons_str.
  cbn [split_char]. destruct (Ascii.eqb a c); [by rewrite IH|]. rewrite IH. pose proof (split_char_nonempty c s).
  by destruct (split_char c s).
Qed.
Lemma split_char_prefix c p s :
  has_byte c p = false -> exists x l, split_char c s = x :: l /\ split_char c (p +:+ s) = (p +:+ x) :: l.
Proof.
  induction p as [|a p IH]; [rewrite app_nil_l_str; intros _|].
  - pose proof (split_char_nonempty c s). destruct (split_char c s) as [|x l]; [done|]. by exists x, l.
  - rewrite has_byte_cons, app_cons_str. intros [Ha Hp]%orb_false_iff. destruct (IH Hp) as (x & l & Hs & Hps).
    exists x, l. split; [done|]. cbn [split_char]. rewrite Ascii.eqb_sym in Ha. by rewrite Ha, Hps.
Qed.
Lemma split_char_suffix c s q :
  has_byte c q = false -> exists l x, split_char c s = l ++ [x] /\ split_char c (s +:+ q) = l ++ [x +:+ q].
Proof.
  intros Hq. induction s as [|a s (l & x & Hs & Hsq)].
  - exists [], "". rewrite app_nil_l_str. split; [done|]. by apply split_char_piece, has_byte_In.
  - rewrite app_cons_str. cbn [split_char]. destruct (Ascii.eqb a c); [exists ("" :: l), x; by rewrite Hs, Hsq|].
    rewrite Hs, Hsq. destruct l as [|y l]; [by exists [], (String a x)|]. by exists (String a y :: l), x.
Qed.

Lemma split_char_printable c s : printable s = true -> forallb printable (split_char c s) = true.
Proof.
  induction s as [|a s IH]; [done|]. change (printable (String a s)) with (print_byte a && printable s).
  intros [Ha Hs]%andb_true_iff. cbn [split_char]. specialize (IH Hs). destruct (Ascii.eqb a c); [done|].
  destruct (split_char c s) as [|x l]; cbn [forallb] in *; [by unfold printable; cbn; rewrite Ha|].
  apply andb_true_iff in IH as [Hx Hl]. apply andb_true_iff. split; [|done].
  change (printable (String a x)) with (print_byte a && printable x). by rewrite Ha, Hx.
Qed.

(** A piece with a mark in it is not the word. *)
Lemma In_drop_while {A} (p : A -> bool) l x : In x l -> p x = false -> In x (drop_while p l).
Proof.
  induction l as [|y l IH]; [done|]. intros [->|Hin] Hx; cbn; [rewrite Hx; by left|].
  destruct (p y); [by apply IH|by right].
Qed.
Lemma str_map_bytes f s : str_bytes (str_map f s) = map f (str_bytes s).
Proof. induction s as [|a s IH]; [done|]. cbn. by rewrite IH. Qed.
Lemma marked_not_chain c s :
  is_ascii s = true -> In c (str_bytes s) -> ws c = false -> to_ascii_lowercase c = c -> ~ In c (str_bytes "chain") ->
  is_chain_word s = false.
Proof.
  intros Ha Hin Hw Hlow Hc. apply bool_decide_eq_false_2. intros Heq. apply Hc.
  change "chain" with (str_map to_ascii_lowercase "chain"). rewrite <- Heq, str_map_bytes.
  apply in_map_iff. exists c. split; [done|]. unfold trim. rewrite trim_end_ascii, str_bytes_of.
  - apply in_rev. rewrite rev_involutive. apply In_drop_while; [|done]. apply in_rev. rewrite rev_involutive.
    rewrite trim_start_ascii, str_bytes_of by done. by apply In_drop_while.
  - rewrite trim_start_ascii by done. apply is_ascii_Forall. rewrite str_bytes_of. by apply drop_while_sub, is_ascii_Forall.
Qed.

Definition token_chains (t : Token) : bool := match t with TokFlag name => eq_ignore_ascii_case name "chain" | _ => false end.

Lemma chain_in_token pad t :
  token_ok t = true -> printable pad = true -> blank pad = true -> has_byte "," pad = false ->
  existsb is_chain_word (split_char "," (pad +:+ token_text t)) = token_chains t.
Proof.
  intros Ht Hp Hb Hc. pose proof (printable_ascii pad Hp) as Ha.
  assert (Hcolon : forall s, printable s = true -> In ":"%char (str_bytes s) -> is_chain_word s = false).
  { intros s Hs Hin. apply (marked_not_chain ":"); [by apply printable_ascii|done..|]. by intros [?|[?|[?|[?|[?|[]]]]]]. }
  assert (Hquote : forall s, printable s = true -> In "'"%char (str_bytes s) -> is_chain_word s = false).
  { intros s Hs Hin. apply (marked_not_chain "'"); [by apply printable_ascii|done..|]. by intros [?|[?|[?|[?|[?|[]]]]]]. }
  destruct t as [name|key value|key value]; cbn [token_chains].
  - pose proof Ht as (_ & _ & _ & Hn & _)%simple_facts. rewrite split_char_piece by (apply has_byte_In; by rewrite has_byte_app, Hc).
    cbn [existsb]. rewrite orb_false_r. unfold is_chain_word. by rewrite (token_trim pad (TokFlag name)).
  - destruct (token_solid _ Ht) as [Hpt _]. cbn [token_ok token_text] in *.
    apply andb_true_iff in Ht as [(_ & _ & _ & Hk & _)%simple_facts (_ & _ & _ & Hv & _)%simple_facts].
    rewrite split_char_piece by (apply has_byte_In; by rewrite !has_byte_app, Hc, Hk, Hv).
    cbn [existsb]. rewrite orb_false_r. apply Hcolon; [by rewrite printable_app, Hp|].
    rewrite !str_bytes_app. apply in_or_app. right. apply in_or_app. right. by left.
  - destruct (token_solid _ Ht) as [Hpt _]. cbn [token_ok token_text] in *.
    apply andb_true_iff in Ht as [(Hkw & _ & _ & Hk & _)%simple_facts (Hvp & _ & _ & _ & Hv)%value_facts].
    destruct (split_char_suffix "," value "'" eq_refl) as (l & x & Hval & Hend).
    assert (Hpre : has_byte "," (pad +:+ key +:+ ":'") = false) by (by rewrite !has_byte_app, Hc, Hk).
    destruct (split_char_prefix "," _ (value +:+ "'") Hpre) as (y & r & Hy & Htext).
    rewrite !app_assoc_str in Htext. rewrite Htext. rewrite Hend in Hy.
    pose proof (split_char_printable "," value Hvp) as Hpp.
    assert (Hfirst : forall z, printable z = true -> is_chain_word (pad +:+ key +:+ ":'" +:+ z) = false).
    { intros z Hz. apply Hcolon; [by rewrite !printable_app, Hp, (word_printable key), Hz|].
      rewrite !str_bytes_app. apply in_or_app. right. apply in_or_app. right. by left. }
    assert (Hlast : forall z, printable z = true -> is_chain_word (z +:+ "'") = false).
    { intros z Hz. apply Hquote; [by rewrite printable_app, Hz|]. rewrite str_bytes_app. apply in_or_app. right. by left. }
    rewrite Hval in Hpp, Hv. rewrite forallb_app in Hpp, Hv. cbn [forallb] in Hpp, Hv. reflect_bools.
    destruct l as [|w l]; cbn [app forallb existsb] in *; injection Hy as <- <-; cbn [existsb]; reflect_bools.
    + by rewrite Hfirst by (by rewrite printable_app; apply andb_true_iff).
    + rewrite Hfirst by done. cbn [orb]. rewrite existsb_app. cbn [existsb]. rewrite Hlast by done.
      rewrite !orb_false_r. rewrite existsb_forallb_negb. apply negb_false_iff. done.
Qed.

Lemma existsb_split_join (f : string -> bool) c l :
  l <> [] -> existsb f (split_char c (str_join (String c "") l)) = existsb (fun s => existsb f (split_char c s)) l.
Proof.
  induction l as [|s l IH]; [done|]. intros _. destruct l as [|t l]; [cbn; by rewrite orb_false_r|].
  change (str_join (String c "") (s :: t :: l)) with (s +:+ String c (str_join (String c "") (t :: l))).
  rewrite split_char_glue, existsb_app, IH by done. done.
Qed.

Section Chains.
Context `{UnicodeTables}.

Definition chains (l : list ActionSource) : bool := existsb (fun a => match a with AsChain => true | _ => false end) l.

Lemma action_chains a : action_ok a -> token_chains (action_token a) = match a with AsChain => true | _ => false end.
Proof.
  intros [Ht Ha]. destruct a as [| | | | | | | | | | | | | | |key v|key v|flag]; try reflexivity. cbn [action_token token_chains token_ok] in *.
  apply bool_decide_eq_false_2. intros Heq. apply simple_facts in Ht as (Hw & _).
  assert (Hl : to_lowercase flag = "chain").
  { unfold to_lowercase. by rewrite printable_ascii by (by apply word_printable). }
  rewrite Hl in Ha. apply Ha. unfold known_flags. set_solver.
Qed.

Lemma chains_text l :
  l <> [] -> Forall (fun x => action_ok x.2) l -> existsb is_chain_word (split_char "," (actions_text l)) = chains (map snd l).
Proof.
  intros Hne Hl. unfold actions_text. rewrite existsb_split_join by (by destruct l).
  unfold chains. clear Hne. induction Hl as [|[b a] l Ha Hl IH]; [done|]. cbn [map existsb snd]. rewrite IH. f_equal.
  cbn [snd] in Ha. unfold piece, action_text. cbn [fst snd].
  rewrite chain_in_token by (done || by apply Ha || by apply pad_printable || by apply pad_blank || by apply pad_no_byte).
  by apply action_chains.
Qed.

Lemma token_unquoted t : token_ok t = true -> has_byte dquote (token_text t) = false /\ has_byte backslash (token_text t) = false.
Proof.
  destruct t as [name|key value|key value]; cbn [token_ok token_text].
  - by intros (_ & _ & _ & _ & _ & ? & ?)%simple_facts.
  - intros [(_ & _ & _ & _ & _ & Hd & Hb)%simple_facts (_ & _ & _ & _ & _ & Hd' & Hb')%simple_facts]%andb_true_iff.
    by rewrite !has_byte_app, Hd, Hb, Hd', Hb'.
  - intros [(_ & _ & _ & _ & _ & Hd & Hb)%simple_facts (_ & _ & Hd' & Hb' & _)%value_facts]%andb_true_iff.
    by rewrite !has_byte_app, Hd, Hb, Hd', Hb'.
Qed.

(** A printable text of bytes that [p] allows. *)
Lemma actions_bytes (p : ascii -> bool) l :
  p " "%char = true -> p ","%char = true ->
  Forall (fun x => forallb p (str_bytes (action_text x.2)) = true) l -> forallb p (str_bytes (actions_text l)) = true.
Proof.
  intros Hpad Hcomma Hl. apply join_forallb; [cbn; by rewrite Hcomma|]. apply List.forallb_forall.
  intros s (x & <- & Hx)%in_map_iff. rewrite List.Forall_forall in Hl. unfold piece.
  by rewrite str_bytes_app, forallb_app, pad_forallb, (Hl x Hx).
Qed.

Lemma actions_facts l :
  Forall (fun x => action_ok x.2) l ->
  printable (actions_text l) = true /\ has_byte dquote (actions_text l) = false /\ has_byte backslash (actions_text l) = false.
Proof.
  intros Hl. assert (Hb : forall p : ascii -> bool, p " "%char = true -> p ","%char = true ->
    (forall t, token_ok t = true -> forallb p (str_bytes (token_text t)) = true) -> forallb p (str_bytes (actions_text l)) = true).
  { intros p Hs Hc Hp. apply actions_bytes; [done..|]. eapply List.Forall_impl; [|exact Hl]. intros x [Hx _]. by apply Hp. }
  rewrite !has_byte_forallb. split; [|split].
  - apply Hb; [done..|]. intros t Ht. by apply token_solid.
  - apply negb_false_iff, Hb; [done..|]. intros t Ht. pose proof (token_unquoted t Ht) as [Hd _].
    rewrite has_byte_forallb in Hd. by apply negb_false_iff.
  - apply negb_false_iff, Hb; [done..|]. intros t Ht. pose proof (token_unquoted t Ht) as [_ Hd].
    rewrite has_byte_forallb in Hd. by apply negb_false_iff.
Qed.
Lemma closed_none s : has_byte dquote s = false -> has_byte backslash s = false -> closed false s = true.
Proof.
  induction s as [|a s IH]; [done|]. rewrite !has_byte_cons. intros [Hd Hs]%orb_false_iff [Hb Ht]%orb_false_iff.
  rewrite Ascii.eqb_sym in Hd, Hb. cbn [closed]. rewrite Hd, Hb. by apply IH.
Qed.
End Chains.

(** * Rules *)

(** A rule: its indentation, what is between its three parts, and each action with what
    is before it. *)
Record RuleSource := mkRuleSource {
  src_indent : nat; src_targets : list TargetSource; src_op_gap : Break; src_negate : bool; src_operator : OpSource;
  src_actions_gap : Break; src_actions : list (Break * ActionSource)
}.
Definition actions_of (r : RuleSource) : list ActionSource := map snd (src_actions r).

(** What follows the keyword on the joined line: targets, operator, actions. *)
Definition rule_rest (r : RuleSource) : string :=
  targets_text (src_targets r) +:+ String " " (pad (src_op_gap r) +:+
    String dquote (op_text (src_negate r) (src_operator r) +:+ String dquote (" " +:+ pad (src_actions_gap r) +:+
      String dquote (actions_text (src_actions r) +:+ String dquote "")))).

Lemma rsplit_last c s t : has_byte c t = false -> rsplit_once c (s +:+ String c t) = Some (s, t).
Proof.
  intros Ht. assert (Hnone : rsplit_once c t = None).
  { induction t as [|a t IH]; [done|]. rewrite has_byte_cons in Ht. apply orb_false_iff in Ht as [Ha Ht]. cbn.
    rewrite IH by done. rewrite Ascii.eqb_sym in Ha. by rewrite Ha. }
  induction s as [|a s IH]; [rewrite app_nil_l_str; cbn; by rewrite Hnone, Ascii.eqb_refl|].
  rewrite app_cons_str. cbn [rsplit_once]. by rewrite IH.
Qed.

Lemma rule_rest_split r :
  exists pre, rule_rest r = (pre +:+ String dquote (actions_text (src_actions r))) +:+ String dquote "".
Proof.
  exists (targets_text (src_targets r) +:+ String " " (pad (src_op_gap r) +:+
    String dquote (op_text (src_negate r) (src_operator r) +:+ String dquote (" " +:+ pad (src_actions_gap r))))).
  unfold rule_rest. by repeat rewrite ?app_assoc_str, ?app_cons_str, ?app_nil_l_str.
Qed.

Section Rules.
Context `{UnicodeTables, RegexLib, AhoCorasickLib, IpNetLib}.

Record rule_ok (r : RuleSource) : Prop := {
  rule_has_targets : src_targets r <> [];
  rule_targets_ok : Forall target_source_ok (src_targets r);
  rule_op_ok : op_ok (src_operator r) = true;
  rule_op_closed : closed false (op_text (src_negate r) (src_operator r)) = true;
  rule_has_actions : src_actions r <> [];
  rule_actions_ok : Forall (fun x => action_ok x.2) (src_actions r)
}.

(** The rule; none when its operator is not supported or its pattern is not valid. *)
Definition rule_of (r : RuleSource) : option SecRule :=
  op ← op_meaning (src_operator r);
  let raw := raw_actions (actions_of r) in
  Some (mkSecRule (ra_id raw) (ra_phase raw) (known_targets (src_targets r)) op (src_negate r) (ra_transforms raw)
          (into_crs_actions raw) [] false).

Lemma printable_cons c s : print_byte c = true -> printable (String c s) = printable s.
Proof. intros Hc. unfold printable. cbn. by rewrite Hc. Qed.
Lemma rule_rest_printable r : rule_ok r -> printable (rule_rest r) = true.
Proof.
  intros [_ Ht Ho _ _ Ha]. unfold rule_rest. rewrite printable_app, word_printable by (by apply targets_word).
  pose proof (op_text_ok (src_negate r) _ Ho) as [Hop _]%andb_true_iff. destruct (actions_facts _ Ha) as (Hap & _ & _).
  repeat first [rewrite printable_cons by done | rewrite printable_app]. by rewrite Hop, Hap, !pad_printable.
Qed.

Lemma has_chain_text r : rule_ok r -> has_chain_action (rule_rest r) = chains (actions_of r).
Proof.
  intros [_ _ _ _ Hne Ha]. destruct (actions_facts _ Ha) as (_ & Hd & _). unfold has_chain_action.
  destruct (rule_rest_split r) as [pre ->]. rewrite rsplit_last by done. rewrite rsplit_last by done. by apply chains_text.
Qed.

Lemma parse_rule_text r : rule_ok r -> parse_secrule (rule_rest r) = rule_of r.
Proof.
  intros Hr. pose proof (printable_ascii _ (rule_rest_printable r Hr)) as Hasc. destruct Hr as [Htn Ht Ho Hc Hne Ha].
  destruct (actions_facts _ Ha) as (_ & Hd & Hb). unfold parse_secrule, split_token, rule_rest in *.
  rewrite find_space by (done || by apply word_no_space, targets_word). cbn [mbind option_bind].
  rewrite is_ascii_app in Hasc. apply andb_true_iff in Hasc as [_ Hasc].
  change (String " " (pad (src_op_gap r) +:+ ?s)) with (" " +:+ (pad (src_op_gap r) +:+ s)) in *.
  rewrite <- (app_assoc_str " " (pad (src_op_gap r))) in *.
  rewrite trim_start_solid; [|done|by apply (pad_blank (src_op_gap r))|done].
  rewrite is_ascii_app in Hasc. apply andb_true_iff in Hasc as [_ Hasc].
  rewrite parse_quoted_here by done. cbn [mbind option_bind].
  change (String dquote (op_text ?n ?o +:+ ?s)) with (String dquote "" +:+ (op_text n o +:+ s)) in Hasc.
  rewrite is_ascii_app in Hasc. apply andb_true_iff in Hasc as [_ Hasc]. rewrite is_ascii_app in Hasc. apply andb_true_iff in Hasc as [_ Hasc].
  change (String dquote ?s) with (String dquote "" +:+ s) in Hasc. rewrite is_ascii_app in Hasc. apply andb_true_iff in Hasc as [_ Hasc].
  rewrite <- (app_assoc_str " " (pad (src_actions_gap r))) in *.
  rewrite trim_start_solid; [|done|by apply (pad_blank (src_actions_gap r))|done].
  rewrite parse_quoted_here; [|by rewrite is_ascii_app in Hasc; apply andb_true_iff in Hasc as [_ Hasc]|by apply closed_none].
  cbn [mbind option_bind].
  rewrite parse_op_text by done. unfold rule_of. destruct (op_meaning (src_operator r)) as [op|]; [|done].
  cbn [fmap option_fmap option_map mbind option_bind]. by rewrite targets_parsed, parse_actions_text by done.
Qed.
End Rules.

(** * Files *)

(** [DirOther] is a directive that the parser does not know, over several lines. *)
Inductive Directive : Type :=
| DirRule (r : RuleSource)
| DirMarker (name : string)
| DirOther (init : list string) (last : string)
| DirComment (text : string)
| DirBlank.

(** Texts with the breaks before them, laid out on lines from what is on the first. *)
Fixpoint lay (cur : string) (l : list (Break * string)) : list string * string :=
  match l with
  | [] => ([], cur)
  | (Blanks n, t) :: l => lay (cur +:+ spaces n +:+ t) l
  | (NewLine n, t) :: l => let '(init, last) := lay (spaces n +:+ t) l in (cur :: init, last)
  end.
(** The actions up to the quotes that close them. *)
Fixpoint closing (l : list (Break * ActionSource)) : list (Break * string) :=
  match l with
  | [] => []
  | [(b, a)] => [(b, action_text a +:+ String dquote "")]
  | (b, a) :: l => (b, action_text a +:+ ",") :: closing l
  end.
Definition rule_parts (r : RuleSource) : list (Break * string) :=
  (src_op_gap r, String dquote (op_text (src_negate r) (src_operator r) +:+ String dquote " ")) ::
  (src_actions_gap r, String dquote "") :: closing (src_actions r).
Definition rule_head (r : RuleSource) : string :=
  spaces (src_indent r) +:+ "SecRule " +:+ targets_text (src_targets r) +:+ " ".

Definition directive_lines (d : Directive) : list string :=
  match d with
  | DirRule r => let '(init, last) := lay (rule_head r) (rule_parts r) in on_lines init last
  | DirMarker name => ["SecMarker " +:+ String dquote (name +:+ String dquote "")]
  | DirOther init last => on_lines init last
  | DirComment text => ["#" +:+ text]
  | DirBlank => [""]
  end.
Definition conf_text (l : list Directive) : string := unlines (flat_map directive_lines l).

(** The parts on one line. *)
Definition flat (l : list (Break * string)) : string := foldr (fun x s => pad x.1 +:+ x.2 +:+ s) "" l.
Lemma lay_joined cur l : one_line (lay cur l).1 (lay cur l).2 = cur +:+ flat l.
Proof.
  revert cur. induction l as [|[[n|n] t] l IH]; intros cur; cbn [lay].
  - by rewrite app_nil_r_str.
  - rewrite IH. cbn [flat foldr fst snd pad]. by rewrite !app_assoc_str.
  - specialize (IH (spaces n +:+ t)). destruct (lay (spaces n +:+ t) l) as [init last]. cbn [fst snd] in *.
    change (one_line (cur :: init) last) with (cur +:+ " " +:+ one_line init last). rewrite IH. cbn [flat foldr fst snd pad]. by rewrite !app_assoc_str.
Qed.
Lemma lay_printable cur l :
  printable cur = true -> Forall (fun x => printable x.2 = true) l ->
  forallb printable (lay cur l).1 = true /\ printable (lay cur l).2 = true.
Proof.
  intros Hc Hl. revert cur Hc. induction Hl as [|[[n|n] t] l Ht _ IH]; intros cur Hc; [done| |]; cbn [lay snd] in *.
  - apply IH. by rewrite !printable_app, Hc, Ht, spaces_printable.
  - destruct (IH (spaces n +:+ t)) as [Hi Hs]; [by rewrite printable_app, Ht, spaces_printable|].
    destruct (lay (spaces n +:+ t) l) as [init last]. cbn [fst snd forallb] in *. by rewrite Hc.
Qed.
Lemma closing_flat l : l <> [] -> flat (closing l) = actions_text l +:+ String dquote "".
Proof.
  unfold actions_text. induction l as [|[b a] l IH]; [done|]. intros _. destruct l as [|x l].
  - change (flat (closing [(b, a)])) with (pad b +:+ (action_text a +:+ String dquote "") +:+ "").
    change (str_join "," (map piece [(b, a)])) with (pad b +:+ action_text a). by rewrite app_nil_r_str, app_assoc_str.
  - change (closing ((b, a) :: x :: l)) with ((b, action_text a +:+ ",") :: closing (x :: l)).
    change (flat ((b, action_text a +:+ ",") :: closing (x :: l))) with (pad b +:+ (action_text a +:+ ",") +:+ flat (closing (x :: l))).
    rewrite IH by done. change (map piece ((b, a) :: x :: l)) with ((pad b +:+ action_text a) :: piece x :: map piece l).
    change (str_join "," ((pad b +:+ action_text a) :: piece x :: map piece l))
      with ((pad b +:+ action_text a) +:+ "," +:+ str_join "," (map piece (x :: l))).
    by rewrite !app_assoc_str.
Qed.
Lemma closing_printable l : Forall (fun x => printable (action_text x.2) = true) l -> Forall (fun x => printable x.2 = true) (closing l).
Proof.
  induction 1 as [|[b a] l Ha Hl IH]; [constructor|]. destruct Hl as [|x l Hx Hl].
  - constructor; [|constructor]. cbn [snd] in *. by rewrite printable_app, Ha.
  - change (closing ((b, a) :: x :: l)) with ((b, action_text a +:+ ",") :: closing (x :: l)).
    constructor; [|exact IH]. cbn [snd] in *. by rewrite printable_app, Ha.
Qed.

Section Files.
Context `{UnicodeTables, RegexLib, AhoCorasickLib, IpNetLib}.

Definition marker_ok (name : string) : bool := printable name && solid name && negb (has_byte dquote name).
(** A comment that ended in a backslash would go on with the next line. *)
Definition comment_ok (text : string) : bool :=
  printable text && last_solid ("#" +:+ text) && negb (ends_with ("#" +:+ text) (String backslash "")).
(** Neither a rule nor a marker nor a comment. *)
Definition other_ok (init : list string) (last : string) : bool :=
  let text := one_line init last in
  forallb printable init && printable last && solid text && negb (ends_with last (String backslash "")) &&
  negb (starts_with text "#") && negb (starts_with text "SecRule ") && negb (starts_with text "SecMarker").
Definition directive_ok (d : Directive) : Prop :=
  match d with
  | DirRule r => rule_ok r
  | DirMarker name => marker_ok name = true
  | DirOther init last => other_ok init last = true
  | DirComment text => comment_ok text = true
  | DirBlank => True
  end.

(** What the parser makes of a file: a rule that cannot be had is dropped, and when it
    is the head of a chain the rules that follow are dropped up to the first without
    [chain], or up to a marker. *)
Fixpoint items_of (dropping : bool) (l : list Directive) : list RuleItem :=
  match l with
  | [] => []
  | DirRule r :: l =>
    if dropping then items_of (chains (actions_of r)) l
    else match rule_of r with
         | Some rule => ItemRule rule :: items_of false l
         | None => items_of (chains (actions_of r)) l
         end
  | DirMarker name :: l => ItemMarker name :: items_of false l
  | DirOther _ _ :: l | DirComment _ :: l | DirBlank :: l => items_of dropping l
  end.

(** ** The joined lines *)

Definition joined (d : Directive) : list string :=
  match d with
  | DirRule r => ["SecRule " +:+ rule_rest r]
  | DirMarker name => ["SecMarker " +:+ String dquote (name +:+ String dquote "")]
  | DirOther init last => [one_line init last]
  | DirComment text => ["#" +:+ text]
  | DirBlank => []
  end.

Lemma ends_with_other s a b : a <> b -> ends_with (s +:+ String a "") (String b "") = false.
Proof.
  intros Hne. apply not_true_iff_false. intros [r Hr]%ends_with_push. apply (f_equal str_bytes) in Hr.
  rewrite !str_bytes_app in Hr. by apply app_inj_tail in Hr as [_ ?].
Qed.
Lemma one_line_last init last : exists pre, one_line init last = pre +:+ last.
Proof.
  induction init as [|s init [pre IH]]; [by exists ""|]. exists (s +:+ " " +:+ pre).
  change (one_line (s :: init) last) with (s +:+ " " +:+ one_line init last). rewrite IH. by rewrite !app_assoc_str.
Qed.
Lemma rule_joined r :
  src_actions r <> [] -> flat (rule_parts r) = pad (src_op_gap r) +:+
    String dquote (op_text (src_negate r) (src_operator r) +:+ String dquote (" " +:+ pad (src_actions_gap r) +:+
      String dquote (actions_text (src_actions r) +:+ String dquote ""))).
Proof.
  intros Hne. unfold rule_parts. cbn [flat foldr fst snd]. fold (flat (closing (src_actions r))). rewrite closing_flat by done.
  by repeat rewrite ?app_assoc_str, ?app_cons_str, ?app_nil_l_str.
Qed.
Lemma rule_line_joined r :
  src_actions r <> [] ->
  let '(init, last) := lay (rule_head r) (rule_parts r) in
  one_line init last = spaces (src_indent r) +:+ "SecRule " +:+ rule_rest r.
Proof.
  intros Hne. pose proof (lay_joined (rule_head r) (rule_parts r)) as Hj. destruct (lay _ _) as [init last].
  cbn [fst snd] in Hj. rewrite Hj, rule_joined by done. unfold rule_head, rule_rest. by rewrite !app_assoc_str.
Qed.
Lemma rule_lines_printable r :
  rule_ok r -> forallb printable (lay (rule_head r) (rule_parts r)).1 = true /\ printable (lay (rule_head r) (rule_parts r)).2 = true.
Proof.
  intros [_ Ht Ho _ _ Ha]. apply lay_printable.
  - unfold rule_head. rewrite !printable_app, spaces_printable, (word_printable (targets_text _)) by (by apply targets_word). done.
  - pose proof (op_text_ok (src_negate r) _ Ho) as [Hop _]%andb_true_iff. unfold rule_parts.
    constructor; [|constructor; [done|]].
    + cbn [snd]. rewrite printable_cons, printable_app, Hop by done. done.
    + apply closing_printable. eapply List.Forall_impl; [|exact Ha]. intros x [Hx _]. by apply token_solid.
Qed.

Lemma line_trimmed s : printable s = true -> solid s = true -> trim s = s.
Proof. intros Hp Hs. by apply trim_id; [apply printable_ascii|]. Qed.
Lemma rule_line_ok r : rule_ok r -> printable ("SecRule " +:+ rule_rest r) = true /\ solid ("SecRule " +:+ rule_rest r) = true.
Proof.
  intros Hr. split; [by rewrite printable_app, rule_rest_printable|]. destruct (rule_rest_split r) as [pre ->].
  unfold solid. by rewrite <- app_assoc_str, last_solid_app.
Qed.
Lemma marker_line_ok name : printable name = true ->
  printable ("SecMarker " +:+ String dquote (name +:+ String dquote "")) = true /\
  solid ("SecMarker " +:+ String dquote (name +:+ String dquote "")) = true.
Proof.
  intros Hn. change (String dquote (name +:+ ?s)) with (String dquote "" +:+ name +:+ s). split.
  - by rewrite !printable_app, Hn.
  - rewrite <- !app_assoc_str. unfold solid. by rewrite last_solid_app.
Qed.

Lemma join_one l last rest n text :
  one_line l last = spaces n +:+ text -> printable text = true -> solid text = true -> ends_with last (String backslash "") = false ->
  join_lines "" (on_lines l last ++ rest) = text :: join_lines "" rest.
Proof.
  intros Hl Hp Hs He.
  assert (Ht : trim (one_line l last) = text).
  { rewrite Hl. apply trim_solid; [|by apply (pad_blank (Blanks n))|done].
    apply printable_ascii. by rewrite printable_app, spaces_printable. }
  rewrite join_continued; rewrite ?app_nil_l_str, ?Ht; [done..|]. by destruct text.
Qed.
(** The last line of a rule ends as the rule does. *)
Lemma rule_last_line r init last :
  src_actions r <> [] -> lay (rule_head r) (rule_parts r) = (init, last) -> ends_with last (String backslash "") = false.
Proof.
  intros Hne Hl. pose proof (rule_line_joined r Hne) as Hj. rewrite Hl in Hj. destruct (one_line_last init last) as [pre Hpre].
  destruct (rule_rest_split r) as [mid Hmid]. rewrite Hpre, Hmid in Hj. apply not_true_iff_false.
  unfold ends_with. intros [x Hx%strip_suffix_Some]%bool_decide_eq_true. rewrite Hx in Hj.
  pose proof (ends_with_other (spaces (src_indent r) +:+ "SecRule " +:+ mid +:+ String dquote (actions_text (src_actions r))) dquote backslash ltac:(done)) as Ho.
  apply not_true_iff_false in Ho. apply Ho. apply ends_with_push. exists (pre +:+ x). rewrite !app_assoc_str in *. by rewrite Hj.
Qed.
Lemma other_facts init last :
  other_ok init last = true ->
  forallb printable init = true /\ printable last = true /\ ends_with last (String backslash "") = false /\
  solid (one_line init last) = true /\ starts_with (one_line init last) "#" = false /\
  starts_with (one_line init last) "SecRule " = false /\ starts_with (one_line init last) "SecMarker" = false.
Proof. unfold other_ok. intros Ho. by reflect_bools. Qed.
Lemma one_line_printable init last : forallb printable init = true -> printable last = true -> printable (one_line init last) = true.
Proof.
  intros Hi Hl. induction init as [|s init IH]; [done|]. cbn [forallb] in Hi. apply andb_true_iff in Hi as [Hs Hi].
  change (one_line (s :: init) last) with (s +:+ " " +:+ one_line init last). by rewrite !printable_app, Hs, IH.
Qed.

Lemma join_directive d rest : directive_ok d -> join_lines "" (directive_lines d ++ rest) = joined d ++ join_lines "" rest.
Proof.
  destruct d as [r|name|init last|text|]; cbn [directive_ok directive_lines joined]; intros Hd; [| | | |done].
  - pose proof (rule_line_ok r Hd) as [Hp Hs]. pose proof (rule_line_joined r (rule_has_actions r Hd)) as Hj.
    destruct (lay (rule_head r) (rule_parts r)) as [init last] eqn:Hl.
    apply (join_one _ _ _ _ _ Hj Hp Hs). exact (rule_last_line r init last (rule_has_actions r Hd) Hl).
  - unfold marker_ok in Hd. apply andb_true_iff in Hd as [[Hp Hs]%andb_true_iff Hq]. destruct (marker_line_ok name Hp) as [Hlp Hls].
    apply (join_one [] _ rest 0 _ eq_refl); [done..|].
    change (String dquote (name +:+ ?s)) with (String dquote "" +:+ name +:+ s). rewrite <- !app_assoc_str. by apply ends_with_other.
  - destruct (other_facts init last Hd) as (Hi & Hl & He & Hs & _).
    by apply (join_one init last rest 0 _ eq_refl); [apply one_line_printable|..].
  - unfold comment_ok in Hd. apply andb_true_iff in Hd as [[Hp Hs]%andb_true_iff Hb].
    assert (Hlp : printable ("#" +:+ text) = true) by (by rewrite printable_app, Hp).
    apply (join_one [] ("#" +:+ text) rest 0 ("#" +:+ text) eq_refl Hlp); [by unfold solid; rewrite Hs|by apply negb_true_iff].
Qed.

Lemma on_lines_printable init last : forallb printable init = true -> printable last = true -> forallb printable (on_lines init last) = true.
Proof.
  intros Hi Hl. unfold on_lines. rewrite forallb_app. cbn [forallb]. rewrite Hl, andb_true_r. apply List.forallb_forall.
  intros x (y & <- & Hy)%in_map_iff. unfold continued, push. rewrite printable_app. rewrite List.forallb_forall in Hi. by rewrite Hi.
Qed.
Lemma directive_lines_printable d : directive_ok d -> forallb printable (directive_lines d) = true.
Proof.
  destruct d as [r|name|init last|text|]; cbn [directive_ok directive_lines]; intros Hd; [| | | |done].
  - destruct (rule_lines_printable r Hd) as [Hi Hl]. destruct (lay _ _) as [init last]. by apply on_lines_printable.
  - unfold marker_ok in Hd. reflect_bools. cbn [forallb]. by rewrite (proj1 (marker_line_ok name ltac:(done))).
  - destruct (other_facts init last Hd) as (Hi & Hl & _). by apply on_lines_printable.
  - unfold comment_ok in Hd. reflect_bools. cbn [forallb]. rewrite printable_app. by apply andb_true_iff.
Qed.

(** ** The items *)

Lemma parse_joined_rule (dropping : bool) r rest :
  rule_ok r ->
  parse_lines (if dropping then 1 else 0) (("SecRule " +:+ rule_rest r) :: rest) =
  if dropping then parse_lines (if chains (actions_of r) then 1 else 0) rest
  else match rule_of r with
       | Some rule => ItemRule rule :: parse_lines 0 rest
       | None => parse_lines (if chains (actions_of r) then 1 else 0) rest
       end.
Proof.
  intros Hr. destruct (rule_line_ok r Hr) as [Hp Hs]. pose proof (rule_rest_printable r Hr) as Hrp.
  assert (Hfirst : first_solid (rule_rest r) = true).
  { unfold rule_rest. apply first_solid_app. by apply targets_first_solid; [apply rule_has_targets|apply rule_targets_ok]. }
  assert (Hline : secrule_line ("SecRule " +:+ rule_rest r) (rule_rest r)).
  { exists (" " +:+ rule_rest r). rewrite line_trimmed by done. split; [done|]. split.
    - unfold starts_with_space. rewrite chars_ascii by (apply printable_ascii; by rewrite printable_app, Hrp). done.
    - symmetry. apply trim_start_solid; [apply printable_ascii; by rewrite printable_app, Hrp|done|done]. }
  rewrite (secrule_line_step _ _ _ _ Hline), has_chain_text, parse_rule_text by done.
  by destruct dropping, (chains (actions_of r)).
Qed.

Lemma parse_joined_marker skip name rest :
  marker_ok name = true ->
  parse_lines skip (("SecMarker " +:+ String dquote (name +:+ String dquote "")) :: rest) = ItemMarker name :: parse_lines 0 rest.
Proof.
  unfold marker_ok. intros [[Hp Hs]%andb_true_iff Hq%negb_true_iff]%andb_true_iff. destruct (marker_line_ok name Hp) as [Hlp Hls].
  set (q := String dquote (name +:+ String dquote "")) in *. cbn [parse_lines]. rewrite line_trimmed by done.
  assert (Hpre : strip_prefix "SecMarker" ("SecMarker " +:+ q) = Some (" " +:+ q)) by (apply (strip_prefix_app "SecMarker")).
  assert (Hrule : strip_prefix "SecRule" ("SecMarker " +:+ q) = None) by done.
  assert (Hskip : is_empty ("SecMarker " +:+ q) || starts_with ("SecMarker " +:+ q) "#" = false) by done.
  rewrite Hskip, Hrule, Hpre. subst q.
  rewrite (trim_solid " ").
  - rewrite trim_matches_around, line_trimmed by done. by destruct name.
  - apply printable_ascii. change (String dquote ?s) with (String dquote "" +:+ s). by rewrite !printable_app, Hp.
  - done.
  - unfold solid. change (String dquote (name +:+ ?s)) with (String dquote "" +:+ name +:+ s). by rewrite <- app_assoc_str, last_solid_app.
Qed.

Lemma parse_joined_other skip init last rest :
  other_ok init last = true -> parse_lines skip (one_line init last :: rest) = parse_lines skip rest.
Proof.
  intros (Hi & Hl & _ & Hs & Hc & Hr & Hm)%other_facts. pose proof (one_line_printable init last Hi Hl) as Hp.
  cbn [parse_lines]. rewrite line_trimmed, Hc by done.
  assert (He : is_empty (one_line init last) = false) by (by destruct (one_line init last)). rewrite He. cbn [orb].
  destruct (strip_prefix "SecRule" (one_line init last)) as [after|] eqn:Hsr.
  - apply strip_prefix_Some in Hsr. destruct (starts_with_space after) eqn:Hsp; [|done].
    exfalso. apply not_true_iff_false in Hr. apply Hr. clear Hr. rewrite Hsr, printable_app in Hp.
    apply andb_true_iff in Hp as [_ Hp]. unfold starts_with_space in Hsp. rewrite chars_ascii in Hsp by (by apply printable_ascii).
    destruct after as [|a after]; [done|]. cbn [str_bytes map] in Hsp. rewrite Hsr.
    assert (a = " "%char) as ->; [|by apply starts_with_spec; exists after].
    unfold printable in Hp. cbn [str_bytes forallb] in Hp. apply andb_true_iff in Hp as [Hp _].
    clear -Hsp Hp. destruct a as [[] [] [] [] [] [] [] []]; vm_compute in Hsp, Hp; done.
  - destruct (strip_prefix "SecMarker" (one_line init last)) as [after|] eqn:Hsm; [|done]. apply strip_prefix_Some in Hsm.
    apply not_true_iff_false in Hm. destruct Hm. apply starts_with_spec. by exists after.
Qed.

Lemma parse_joined (dropping : bool) l :
  Forall directive_ok l -> parse_lines (if dropping then 1 else 0) (flat_map joined l) = items_of dropping l.
Proof.
  intros Hl. revert dropping. induction Hl as [|d l Hd Hl IH]; intros dropping; [done|].
  destruct d as [r|name|init last|text|]; cbn [flat_map joined app items_of directive_ok] in *; [| | | |apply IH].
  - rewrite parse_joined_rule by done. by rewrite <- !IH.
  - rewrite parse_joined_marker by done. by rewrite <- IH.
  - rewrite parse_joined_other by done. apply IH.
  - rewrite <- IH. unfold comment_ok in Hd. apply andb_true_iff in Hd as [[Hp Hs]%andb_true_iff _]. cbn [parse_lines].
    rewrite (line_trimmed ("#" +:+ text)); [done|by rewrite printable_app, Hp|by unfold solid; rewrite Hs].
Qed.

End Files.

(** * A sample file *)

(** The text of a file, with backquotes for double quotes. *)
Definition back_quoted (s : string) : string := str_map (fun c => if Ascii.eqb c "`" then dquote else c) s.
Definition sample_conf : string := back_quoted
"# Anomaly scoring
SecAction `id:900990,\
    nolog`

SecRule REQUEST_COOKIES|ARGS|REQUEST_HEADERS:User-Agent|XML:/* `@rx union` \
    `id:942100,\
    phase:2,\
    block, capture,\
    t:none,t:urlDecodeUni,\
    msg:'Attack, in a chain of words',\
    ctl:auditLogParts=+E,\
    tag:'attack-sqli',\
    severity:'CRITICAL',\
    setvar:'tx.sql_injection_score=+%{tx.critical_anomaly_score}'`
SecRule ARGS `!@validateByteRange 32-126` `id:920270,chain`
    SecRule ARGS \
        `@contains x` \
        `t:none`
SecMarker `END-SQLI`
".

(** Each action with the same break before it, but the first, which has none. *)
Definition breaks (b : Break) (l : list ActionSource) : list (Break * ActionSource) :=
  match l with [] => [] | a :: l => (Blanks 0, a) :: map (pair b) l end.
Definition sample_directives : list Directive :=
  [DirComment " Anomaly scoring";
   DirOther [back_quoted "SecAction `id:900990,"] (back_quoted "    nolog`");
   DirBlank;
   DirRule (mkRuleSource 0 [TgKnown TRequestCookies; TgKnown TArgs; TgKnown (TRequestHeaders (Some "User-Agent")); TgOther "XML:/*"]
     (Blanks 0) false (OsRx "union") (NewLine 4)
     [(Blanks 0, AsId 942100); (NewLine 4, AsPhase 2); (NewLine 4, AsBlock); (Blanks 1, AsCapture); (NewLine 4, AsNoTransforms);
      (Blanks 0, AsTransform UrlDecodeUni); (NewLine 4, AsIgnored "msg" "Attack, in a chain of words");
      (NewLine 4, AsIgnoredWord "ctl" "auditLogParts=+E"); (NewLine 4, AsTag "attack-sqli"); (NewLine 4, AsSeverity "CRITICAL");
      (NewLine 4, AsSetVar (mkSetVarOp "sql_injection_score" IncrBy (RhsTxRef "critical_anomaly_score")))]);
   DirRule (mkRuleSource 0 [TgKnown TArgs] (Blanks 0) true (OsUnsupported "validateByteRange" "32-126") (Blanks 0)
     (breaks (Blanks 0) [AsId 920270; AsChain]));
   DirRule (mkRuleSource 4 [TgKnown TArgs] (NewLine 8) false (OsContains "x") (NewLine 8) (breaks (NewLine 4) [AsNoTransforms]));
   DirMarker "END-SQLI"].

(** A file of the shipped core rule set, [REQUEST-911-METHOD-ENFORCEMENT.conf]. *)
Definition method_conf : string := back_quoted
"# ------------------------------------------------------------------------
# OWASP CRS ver.4.26.0-dev
# Copyright (c) 2006-2020 Trustwave and contributors. All rights reserved.
# Copyright (c) 2021-2026 CRS project. All rights reserved.
#
# The OWASP CRS is distributed under
# Apache Software License (ASL) version 2
# Please see the enclosed LICENSE file for full details.
# ------------------------------------------------------------------------

#
# -= Paranoia Level 0 (empty) =- (apply unconditionally)
#



SecRule TX:DETECTION_PARANOIA_LEVEL `@lt 1` `id:911011,phase:1,pass,nolog,tag:'OWASP_CRS',ver:'OWASP_CRS/4.26.0-dev',skipAfter:END-REQUEST-911-METHOD-ENFORCEMENT`
SecRule TX:DETECTION_PARANOIA_LEVEL `@lt 1` `id:911012,phase:2,pass,nolog,tag:'OWASP_CRS',ver:'OWASP_CRS/4.26.0-dev',skipAfter:END-REQUEST-911-METHOD-ENFORCEMENT`
#
# -= Paranoia Level 1 (default) =- (apply only when tx.detection_paranoia_level is sufficiently high: 1 or higher)
#

#
# -=[ Allowed Request Methods ]=-
#
# tx.allowed_methods is defined in the crs-setup.conf file
#
SecRule REQUEST_METHOD `!@within %{tx.allowed_methods}` \
    `id:911100,\
    phase:1,\
    block,\
    msg:'Method is not allowed by policy',\
    logdata:'%{MATCHED_VAR}',\
    tag:'application-multi',\
    tag:'language-multi',\
    tag:'platform-multi',\
    tag:'attack-generic',\
    tag:'paranoia-level/1',\
    tag:'OWASP_CRS',\
    tag:'OWASP_CRS/METHOD-ENFORCEMENT',\
    tag:'capec/1000/210/272/220/274',\
    ver:'OWASP_CRS/4.26.0-dev',\
    severity:'CRITICAL',\
    setvar:'tx.inbound_anomaly_score_pl1=+%{tx.critical_anomaly_score}'`




SecRule TX:DETECTION_PARANOIA_LEVEL `@lt 2` `id:911013,phase:1,pass,nolog,tag:'OWASP_CRS',ver:'OWASP_CRS/4.26.0-dev',skipAfter:END-REQUEST-911-METHOD-ENFORCEMENT`
SecRule TX:DETECTION_PARANOIA_LEVEL `@lt 2` `id:911014,phase:2,pass,nolog,tag:'OWASP_CRS',ver:'OWASP_CRS/4.26.0-dev',skipAfter:END-REQUEST-911-METHOD-ENFORCEMENT`
#
# -= Paranoia Level 2 =- (apply only when tx.detection_paranoia_level is sufficiently high: 2 or higher)
#



SecRule TX:DETECTION_PARANOIA_LEVEL `@lt 3` `id:911015,phase:1,pass,nolog,tag:'OWASP_CRS',ver:'OWASP_CRS/4.26.0-dev',skipAfter:END-REQUEST-911-METHOD-ENFORCEMENT`
SecRule TX:DETECTION_PARANOIA_LEVEL `@lt 3` `id:911016,phase:2,pass,nolog,tag:'OWASP_CRS',ver:'OWASP_CRS/4.26.0-dev',skipAfter:END-REQUEST-911-METHOD-ENFORCEMENT`
#
# -= Paranoia Level 3 =- (apply only when tx.detection_paranoia_level is sufficiently high: 3 or higher)
#



SecRule TX:DETECTION_PARANOIA_LEVEL `@lt 4` `id:911017,phase:1,pass,nolog,tag:'OWASP_CRS',ver:'OWASP_CRS/4.26.0-dev',skipAfter:END-REQUEST-911-METHOD-ENFORCEMENT`
SecRule TX:DETECTION_PARANOIA_LEVEL `@lt 4` `id:911018,phase:2,pass,nolog,tag:'OWASP_CRS',ver:'OWASP_CRS/4.26.0-dev',skipAfter:END-REQUEST-911-METHOD-ENFORCEMENT`
#
# -= Paranoia Level 4 =- (apply only when tx.detection_paranoia_level is sufficiently high: 4 or higher)
#



#
# -= Paranoia Levels Finished =-
#
SecMarker `END-REQUEST-911-METHOD-ENFORCEMENT`
".
Definition end_of_methods : string := "END-REQUEST-911-METHOD-ENFORCEMENT".
Definition crs_version : ActionSource := AsIgnored "ver" "OWASP_CRS/4.26.0-dev".
Definition level_rule (level id phase : Z) : Directive :=
  DirRule (mkRuleSource 0 [TgKnown (TTx "DETECTION_PARANOIA_LEVEL")] (Blanks 0) false (OsCompare CmpLt (RhsInt level)) (Blanks 0)
    (breaks (Blanks 0) [AsId id; AsPhase phase; AsPass; AsNolog; AsTag "OWASP_CRS"; crs_version; AsSkipAfter end_of_methods])).
Definition method_rule : Directive :=
  DirRule (mkRuleSource 0 [TgKnown TRequestMethod] (Blanks 0) true (OsWithin ["%{tx.allowed_methods}"]) (NewLine 4)
    (breaks (NewLine 4)
      [AsId 911100; AsPhase 1; AsBlock; AsIgnored "msg" "Method is not allowed by policy"; AsIgnored "logdata" "%{MATCHED_VAR}";
       AsTag "application-multi"; AsTag "language-multi"; AsTag "platform-multi"; AsTag "attack-generic"; AsTag "paranoia-level/1";
       AsTag "OWASP_CRS"; AsTag "OWASP_CRS/METHOD-ENFORCEMENT"; AsTag "capec/1000/210/272/220/274"; crs_version;
       AsSeverity "CRITICAL"; AsSetVar (mkSetVarOp "inbound_anomaly_score_pl1" IncrBy (RhsTxRef "critical_anomaly_score"))])).
Definition method_directives : list Directive :=
  [DirComment " ------------------------------------------------------------------------";
   DirComment " OWASP CRS ver.4.26.0-dev";
   DirComment " Copyright (c) 2006-2020 Trustwave and contributors. All rights reserved.";
   DirComment " Copyright (c) 2021-2026 CRS project. All rights reserved.";
   DirComment "";
   DirComment " The OWASP CRS is distributed under";
   DirComment " Apache Software License (ASL) version 2";
   DirComment " Please see the enclosed LICENSE file for full details.";
   DirComment " ------------------------------------------------------------------------";
   DirBlank;
   DirComment "";
   DirComment " -= Paranoia Level 0 (empty) =- (apply unconditionally)";
   DirComment "";
   DirBlank;
   DirBlank;
   DirBlank;
   level_rule 1 911011 1;
   level_rule 1 911012 2;
   DirComment "";
   DirComment " -= Paranoia Level 1 (default) =- (apply only when tx.detection_paranoia_level is sufficiently high: 1 or higher)";
   DirComment "";
   DirBlank;
   DirComment "";
   DirComment " -=[ Allowed Request Methods ]=-";
   DirComment "";
   DirComment " tx.allowed_methods is defined in the crs-setup.conf file";
   DirComment "";
   method_rule;
   DirBlank;
   DirBlank;
   DirBlank;
   DirBlank;
   level_rule 2 911013 1;
   level_rule 2 911014 2;
   DirComment "";
   DirComment " -= Paranoia Level 2 =- (apply only when tx.detection_paranoia_level is sufficiently high: 2 or higher)";
   DirComment "";
   DirBlank;
   DirBlank;
   DirBlank;
   level_rule 3 911015 1;
   level_rule 3 911016 2;
   DirComment "";
   DirComment " -= Paranoia Level 3 =- (apply only when tx.detection_paranoia_level is sufficiently high: 3 or higher)";
   DirComment "";
   DirBlank;
   DirBlank;
   DirBlank;
   level_rule 4 911017 1;
   level_rule 4 911018 2;
   DirComment "";
   DirComment " -= Paranoia Level 4 =- (apply only when tx.detection_paranoia_level is sufficiently high: 4 or higher)";
   DirComment "";
   DirBlank;
   DirBlank;
   DirBlank;
   DirComment "";
   DirComment " -= Paranoia Levels Finished =-";
   DirComment "";
   DirMarker "END-REQUEST-911-METHOD-ENFORCEMENT"].

Section Sample.
Local Existing Instances plain_unicode literal_regex phrase_automaton pair_ipnet.

Example sample_conf_is_text : conf_text sample_directives = sample_conf.
Proof. vm_compute. reflexivity. Qed.

Example method_conf_is_text : conf_text method_directives = method_conf.
Proof. vm_compute. reflexivity. Qed.

Lemma scored_ok var : var = "sql_injection_score" \/ var = "inbound_anomaly_score_pl1" ->
  setvar_wf (mkSetVarOp var IncrBy (RhsTxRef "critical_anomaly_score")).
Proof. intros [-> | ->]; repeat split; try reflexivity; vm_compute; intuition discriminate. Qed.
Lemma not_in (l : list string) x : bool_decide (x ∉ l) = true -> x ∉ l.
Proof. by intros Hx%bool_decide_eq_true. Qed.

(** The conditions of a directive, one by one. *)
Ltac directives_ok :=
  unfold level_rule, method_rule, crs_version, breaks; cbn [map];
  repeat (apply Forall_cons; split); try reflexivity; try exact I; try apply Forall_nil_2;
  constructor; try reflexivity; try discriminate;
  repeat (apply Forall_cons; split); try apply Forall_nil_2; cbn [snd target_source_ok];
  try (split; [vm_compute; reflexivity|]); try exact I; try reflexivity;
  try (apply scored_ok; tauto); try (apply not_in; vm_compute; reflexivity); try (vm_compute; split; congruence).
Lemma sample_directives_ok : Forall directive_ok sample_directives.
Proof.
  unfold sample_directives. directives_ok. split; [done|]. intros t.
  by destruct t as [| | | |[]| | | | | | | | | | | | |].
Qed.
Lemma method_directives_ok : Forall directive_ok method_directives.
Proof. unfold method_directives. directives_ok. Qed.

End Sample.
