(* ===== verification/CrsEval.v ===== *)
(** The CRS ruleset: evaluation through the ModSecurity engine
    ([crs/evaluator.rs]), loading ([crs/loader.rs]) and the plugin that offers the
    result to rules ([crs/plugin.rs]). *)
From S2P Require Import Prelude Utf8 RustStd Net Extern Float64 WafTypes Ast Functions WorkingMemory CrsTypes CrsTx CrsTransform CrsTarget CrsOperator CrsParser.
Local Open Scope Z_scope.

(** The [zentinel_modsec] crate, as far as it is called: each step of a
    transaction may fail, and returns the transaction it leaves. *)
Class ModSecLib := {
  modsec : Type;
  transaction : Type;
  modsec_from_string : string -> option modsec;
  new_transaction : modsec -> transaction;
  process_uri : string -> string -> string -> transaction -> bool * transaction;
  add_request_header : string -> string -> transaction -> bool * transaction;
  process_request_headers : transaction -> bool * transaction;
  append_request_body : string -> transaction -> bool * transaction;
  process_request_body : transaction -> bool * transaction;
  anomaly_score : transaction -> Z;
  tx_collection : transaction -> string -> option (list string);
  ms_matched_rules : transaction -> list string
}.

Section Eval.
Context `{UnicodeTables, RegexLib, AhoCorasickLib, IpNetLib, HashOrder, !RegexReplaceLib, ModSecLib}.

Record CrsRuleset := mkRuleset {
  runtime_modsec : modsec;
  rule_tags : gmap Z (list string);
  source_dir : string;
  crs_rule_count : Z
}.

Definition tx_value (tx : transaction) (key : string) : Z :=
  default 0 (values ← tx_collection tx key; v ← head values; parse_signed 64 v).

(** The loop over the matched rule ids: ids that are not numbers are dropped. *)
Definition collect_match (rs : CrsRuleset) (acc : list Z * gset string) (rule_id : string)
  : list Z * gset string :=
  match parse_unsigned 32 rule_id with
  | Some id => (acc.1 ++ [id], list_to_set (default [] (rule_tags rs !! id)) ∪ acc.2)
  | None => acc
  end.

Definition crs_result (rs : CrsRuleset) (tx : transaction) : CrsResult :=
  let '(ids, tags) := foldl (collect_match rs) ([], ∅) (ms_matched_rules tx) in
  mkCrsResult (wrap_s 64 (anomaly_score tx)) (tx_value tx "sql_injection_score")
    (tx_value tx "xss_score") (tx_value tx "lfi_score") (tx_value tx "rce_score") tags ids.

(** The body step: an error is logged and the evaluation goes on. *)
Definition send_body (ctx : RequestContext) (tx : transaction) : transaction :=
  match body ctx with
  | None => tx
  | Some body =>
    let '(ok, tx) := append_request_body body tx in
    if ok then (process_request_body tx).2 else tx
  end.

Definition crs_evaluate (rs : CrsRuleset) (ctx : RequestContext) : CrsResult :=
  let tx := new_transaction (runtime_modsec rs) in
  let uri :=
    match query ctx with
    | Some q => if negb (is_empty q) then path ctx +:+ "?" +:+ q else path ctx
    | None => path ctx
    end in
  let '(ok, tx) := process_uri uri (method ctx) "HTTP/1.1" tx in
  if negb ok then CrsResult_default else
  let tx := foldl (fun tx kv => (add_request_header kv.1 kv.2 tx).2) tx (hash_iter (headers ctx)) in
  let '(ok, tx) := process_request_headers tx in
  if negb ok then CrsResult_default else
  crs_result rs (send_body ctx tx).

(** * Loading *)

Inductive LoadError : Type := ReadDirFailed | ReadFailed (path : string) | CompileFailed.

Fixpoint insert_name (x : string) (l : list string) : list string :=
  match l with
  | [] => [x]
  | y :: l' => if String.leb x y then x :: l else y :: insert_name x l'
  end.
Definition sort_names (l : list string) : list string := foldr insert_name [] l.

Definition collect_rule_tag (rule_tags : gmap Z (list string)) (item : RuleItem)
  : gmap Z (list string) :=
  match item with
  | ItemRule rule =>
    match tags (sr_actions rule) with
    | [] => rule_tags
    | l => <[sr_id rule := l]> rule_tags
    end
  | ItemChain chain =>
    match tags (sr_actions (chain_head chain))
          ++ flat_map (fun m => tags (sr_actions m)) (chain_members chain) with
    | [] => rule_tags
    | l => <[sr_id (chain_head chain) := l]> rule_tags
    end
  | ItemMarker _ => rule_tags
  end.
Definition collect_rule_tags (items : list RuleItem) (rule_tags : gmap Z (list string))
  : gmap Z (list string) := foldl collect_rule_tag rule_tags items.

Definition pm_from_file_pattern : string := "@pmFromFile\s+([A-Za-z0-9._/-]+\.data)".
Definition rewrite_pm_from_file_paths (join : string -> string -> string) (data_dir source : string)
  : string :=
  replace_all_with (regex_unwrap pm_from_file_pattern)
    (fun caps => "@pmFromFile " +:+ join data_dir (default "" (caps !! 1%nat))) source.

(** The loop over the sorted entries. *)
Fixpoint load_entries (join : string -> string -> string) (read : string -> option string)
  (conf_dir data_dir : string) (entries : list string)
  (acc : string * Z * gmap Z (list string)) : result LoadError (string * Z * gmap Z (list string)) :=
  match entries with
  | [] => Ok acc
  | entry :: entries =>
    let file := join conf_dir entry in
    raw_src ← ok_or (read file) (ReadFailed file);
    let src := rewrite_pm_from_file_paths join data_dir raw_src in
    let items := parse_conf src in
    let '(source, count, rule_tags) := acc in
    let source := source +:+ src in
    let source := if ends_with source (bstr 10) then source else source +:+ bstr 10 in
    load_entries join read conf_dir data_dir entries
      (source, count + Z.of_nat (length items), collect_rule_tags items rule_tags)
  end.

(** [load_from_dir], over the directory ([None]: it does not exist; [Err]: it cannot
    be listed) and the file reader. *)
Definition load_from_dir (join : string -> string -> string) (read : string -> option string)
  (read_dir : option (result LoadError (list string))) (conf_dir data_dir : string)
  : result LoadError CrsRuleset :=
  '(source, count, rule_tags) ←
    match read_dir with
    | None => Ok (EmptyString, 0, ∅)
    | Some entries =>
      entries ← entries;
      load_entries join read conf_dir data_dir
        (sort_names (List.filter (fun e => bool_decide (extension e = Some "conf")) entries)) (EmptyString, 0, ∅)
    end;
  ms ← ok_or (modsec_from_string source) CompileFailed;
  Ok (mkRuleset ms rule_tags conf_dir count).

(** * Plugin *)

Definition CrsPlugin (rs : CrsRuleset) : Plugin := {|
  plugin_name := "crs";
  plugin_register registry :=
    let registry := register "crs_score" (fun ctx _ => VInt (inbound_score (crs_evaluate rs ctx))) registry in
    register "crs_match"
      (fun ctx args => VBool (bool_decide (first_str args ∈ matched_tags (crs_evaluate rs ctx)))) registry;
  plugin_enrich ctx := ctx
|}.

#[export] Program Instance crs_plugin_spec rs : PluginSpec (CrsPlugin rs) := {|
  provided := {["crs_score"; "crs_match"]}
|}.
Next Obligation.
  intros rs reg n Hn. cbn. by rewrite !lookup_register_ne by set_solver.
Qed.
Next Obligation.
  intros rs reg reg' n Hn. cbn.
  destruct (decide (n = "crs_match")) as [->|]; [by rewrite !lookup_register_eq|].
  assert (n = "crs_score") as -> by set_solver.
  by rewrite !(lookup_register_ne "crs_match"), !lookup_register_eq by done.
Qed.

(** * The tags of a match *)

Lemma collect_match_spec rs l ids tags0 :
  foldl (collect_match rs) (ids, tags0) l =
  (ids ++ omap (parse_unsigned 32) l,
   list_to_set (flat_map (fun id => default [] (rule_tags rs !! id)) (omap (parse_unsigned 32) l)) ∪ tags0).
Proof.
  revert ids tags0. induction l as [|x l IH]; intros ids tags0; cbn [foldl omap list_omap].
  - cbn. rewrite app_nil_r. f_equal. set_solver.
  - unfold collect_match at 2. cbn [fst snd]. destruct (parse_unsigned 32 x) as [id|]; rewrite IH; [|done].
    rewrite <-app_assoc. cbn [flat_map app]. f_equal.
    rewrite list_to_set_app_L. set_solver.
Qed.

(** [last_tags id items]: the tags of the last rule with that id that has tags. *)
Definition tagged (id : Z) (item : RuleItem) : option (list string) :=
  match item with
  | ItemRule r => if bool_decide (sr_id r = id) then
                    match tags (sr_actions r) with [] => None | l => Some l end else None
  | ItemChain c => if bool_decide (sr_id (chain_head c) = id) then
                     match tags (sr_actions (chain_head c))
                           ++ flat_map (fun m => tags (sr_actions m)) (chain_members c) with
                     | [] => None | l => Some l end else None
  | ItemMarker _ => None
  end.

Lemma collect_rule_tag_lookup m item id :
  collect_rule_tag m item !! id = match tagged id item with Some l => Some l | None => m !! id end.
Proof.
  destruct item as [r|c|]; cbn; [destruct (tags _)|destruct (_ ++ _)|done];
    case_bool_decide as Hid; try done; try (rewrite <-Hid; by rewrite lookup_insert_eq);
    by rewrite lookup_insert_ne.
Qed.

Lemma collect_rule_tags_lookup items m id :
  collect_rule_tags items m !! id =
  match last (omap (tagged id) items) with Some l => Some l | None => m !! id end.
Proof.
  unfold collect_rule_tags. revert m. induction items as [|item items IH]; intros m; [done|].
  cbn [foldl omap list_omap]. rewrite IH, collect_rule_tag_lookup.
  destruct (tagged id item) as [l|]; [|done].
  destruct (omap (tagged id) items) as [|x k]; [done|]. rewrite last_cons_cons.
  by destruct (last (x :: k)) eqn:Hl; [|apply last_None in Hl].
Qed.
End Eval.

(** An evaluation that cannot parse the request line or the headers fails open:
    it reports no score, no tag and no rule. *)
Theorem crs_evaluate_fails_open `{HashOrder, ModSecLib} rs ctx :
  let uri := build_uri ctx in
  let '(ok, tx) := process_uri uri (method ctx) "HTTP/1.1" (new_transaction (runtime_modsec rs)) in
  let tx' := foldl (fun tx kv => (add_request_header kv.1 kv.2 tx).2) tx (hash_iter (headers ctx)) in
  ok = false \/ (process_request_headers tx').1 = false ->
  crs_evaluate rs ctx = CrsResult_default.
Proof.
  cbn zeta. unfold crs_evaluate, build_uri.
  destruct (process_uri _ _ _ _) as [[] tx]; cbn [negb]; [|done].
  destruct (process_request_headers _) as [[] tx']; cbn; [|done]. by intros [].
Qed.

(** The tags of a result are exactly the tags recorded for the rule ids it
    reports, which are the matched ids that are 32-bit numbers, in order. *)
Theorem crs_tags_of_matched_rules `{HashOrder, ModSecLib} rs tx tag :
  let r := crs_result rs tx in
  matched_rule_ids r = omap (parse_unsigned 32) (ms_matched_rules tx) /\
  (tag ∈ matched_tags r <->
   exists id l, In id (matched_rule_ids r) /\ rule_tags rs !! id = Some l /\ In tag l).
Proof.
  cbn zeta. unfold crs_result. rewrite collect_match_spec. cbn [matched_rule_ids matched_tags app].
  split; [done|]. rewrite elem_of_union, elem_of_list_to_set, list_elem_of_In, in_flat_map. split.
  - intros [(id & Hid & Ht)|Hbad]; [|by apply elem_of_empty in Hbad].
    destruct (rule_tags rs !! id) as [l|] eqn:Hl; [|done]. eauto.
  - intros (id & l & Hid & Hl & Ht). left. exists id. by rewrite Hl.
Qed.

(** After loading, an id has the tags of the last rule of the files that has
    that id and any tags; earlier rules of the same id, and so all but one of the
    chain members that were read as rules of id 0, leave no tags. *)
Theorem loaded_tags_of_last_rule `{UnicodeTables, RegexLib, AhoCorasickLib, IpNetLib} src id :
  collect_rule_tags (parse_conf src) ∅ !! id = last (omap (tagged id) (parse_conf src)).
Proof. rewrite collect_rule_tags_lookup. destruct (last _); [done|]. apply lookup_empty. Qed.

(** A small engine for evaluation: one rule, 942100, that matches a URI holding
    "union", and no answer for an empty method. *)
Definition sample_modsec_lib : ModSecLib := {|
  modsec := string;
  transaction := string;
  modsec_from_string s := Some s;
  new_transaction _ := "";
  process_uri uri method _ _ := (negb (is_empty method), uri);
  add_request_header _ _ tx := (true, tx);
  process_request_headers tx := (true, tx);
  append_request_body _ tx := (true, tx);
  process_request_body tx := (true, tx);
  anomaly_score tx := if contains tx "union" then 5 else 0;
  tx_collection tx key :=
    if contains tx "union" && String.eqb key "sql_injection_score" then Some ["5"] else None;
  ms_matched_rules tx := if contains tx "union" then ["942100"; "msg"] else []
|}.
Definition sample_ruleset : @CrsRuleset sample_modsec_lib :=
  @mkRuleset sample_modsec_lib "" (<[942100 := ["attack-sqli"; "OWASP_CRS"]]> ∅) "" 1.
Definition sample_request (method : string) : RequestContext :=
  mkContext "r1" 0 method "/q" (Some "id=1 union select") CatchAll "127.0.0.1" None ∅ None None None
    RiskScore_ZERO None ∅.

Lemma crs_evaluate_fails_open_witness :
  @crs_evaluate sorted_hash_order sample_modsec_lib sample_ruleset (sample_request "") = CrsResult_default /\
  inbound_score (@crs_evaluate sorted_hash_order sample_modsec_lib sample_ruleset (sample_request "GET")) = 5.
Proof.
  split; [|reflexivity].
  apply (@crs_evaluate_fails_open sorted_hash_order sample_modsec_lib sample_ruleset (sample_request "")).
  left. reflexivity.
Defined.
