(* ===== verification/Lists.v ===== *)
(** IP black- and whitelists ([lists/ip_list.rs]) and the plugin that offers them
    to rules ([lists/blacklist_plugin.rs]).  The registered functions read the
    shared lists when they are called; a definition here takes the contents the
    lists have at that time. *)
From S2P Require Import Prelude Utf8 RustStd Net Extern Float64 WafTypes Ast Functions.
Local Open Scope Z_scope.

#[export] Instance IpAddr_countable : Countable IpAddr.
Proof.
  apply (inj_countable' (fun a => match a with V4 z => inl z | V6 z => inr z end)
           (fun s => match s with inl z => V4 z | inr z => V6 z end)).
  by intros [].
Defined.

Section Lists.
Context `{IpNetLib}.

Record IpSet := mkIpSet { exact : gset IpAddr; cidrs : list IpNet }.
Definition IpSet_default : IpSet := mkIpSet ∅ [].

(** The network of a list entry, a bare address being a host route. *)
Definition parse_entry (entry : string) : option IpNet :=
  match ipnet_parse entry with
  | Some n => Some n
  | None => ipnet_from <$> parse_ip entry
  end.

Definition ipset_insert (entry : string) (s : IpSet) : IpSet :=
  match parse_entry entry with
  | None => s
  | Some net =>
    let max_prefix := match ipnet_addr net with V4 _ => 32 | V6 _ => 128 end in
    if ipnet_prefix_len net =? max_prefix
    then mkIpSet ({[ipnet_addr net]} ∪ exact s) (cidrs s)
    else mkIpSet (exact s) (cidrs s ++ [net])
  end.

Definition ipset_contains (s : IpSet) (addr : IpAddr) : bool :=
  bool_decide (addr ∈ exact s) || existsb (fun net => ipnet_contains net addr) (cidrs s).

Record IpListStore := mkIpListStore { blacklist : IpSet; whitelist : IpSet }.
Definition IpListStore_new : IpListStore := mkIpListStore IpSet_default IpSet_default.

Definition add_to_blacklist (entry : string) (st : IpListStore) : IpListStore :=
  mkIpListStore (ipset_insert entry (blacklist st)) (whitelist st).
Definition add_to_whitelist (entry : string) (st : IpListStore) : IpListStore :=
  mkIpListStore (blacklist st) (ipset_insert entry (whitelist st)).

(** The loop over the lines of a list file. *)
Definition insert_line (s : IpSet) (line : string) : IpSet :=
  let entry := trim line in
  if is_empty entry || starts_with entry "#" then s else ipset_insert entry s.

(** The file's text, [None] when it cannot be read: the error leaves the list. *)
Definition load_blacklist_from_file (content : option string) (st : IpListStore)
  : result unit unit * IpListStore :=
  match content with
  | None => (Err tt, st)
  | Some text => (Ok tt, mkIpListStore (foldl insert_line (blacklist st) (lines text)) (whitelist st))
  end.
Definition load_whitelist_from_file (content : option string) (st : IpListStore)
  : result unit unit * IpListStore :=
  match content with
  | None => (Err tt, st)
  | Some text => (Ok tt, mkIpListStore (blacklist st) (foldl insert_line (whitelist st) (lines text)))
  end.

Definition is_whitelisted (st : IpListStore) (ip : string) : bool :=
  match parse_ip ip with None => false | Some addr => ipset_contains (whitelist st) addr end.

Definition is_blacklisted (st : IpListStore) (ip : string) : bool :=
  match parse_ip ip with
  | None => false
  | Some addr =>
    if ipset_contains (whitelist st) addr then false else ipset_contains (blacklist st) addr
  end.

(** * Plugin *)

(** [args.first().map(|v| v.as_str()).unwrap_or_else(|| ctx.client_ip.clone())] *)
Definition ip_argument (ctx : RequestContext) (args : list Value) : string :=
  match args with v :: _ => as_str v | [] => client_ip ctx end.

Definition BlacklistPlugin (st : IpListStore) : Plugin := {|
  plugin_name := "blacklist";
  plugin_register registry :=
    let registry := register "ip_in_blacklist"
      (fun ctx args => VBool (is_blacklisted st (ip_argument ctx args))) registry in
    register "ip_in_whitelist"
      (fun ctx args => VBool (is_whitelisted st (ip_argument ctx args))) registry;
  plugin_enrich ctx :=
    let ctx := with_extension "blacklisted" (print_bool (is_blacklisted st (client_ip ctx))) ctx in
    with_extension "whitelisted" (print_bool (is_whitelisted st (client_ip ctx))) ctx
|}.

#[export] Program Instance blacklist_plugin_spec st : PluginSpec (BlacklistPlugin st) := {|
  provided := {["ip_in_blacklist"; "ip_in_whitelist"]}
|}.
Next Obligation.
  intros st reg n Hn. cbn. by rewrite !lookup_register_ne by set_solver.
Qed.
Next Obligation.
  intros st reg reg' n Hn. cbn.
  destruct (decide (n = "ip_in_whitelist")) as [->|]; [by rewrite !lookup_register_eq|].
  assert (n = "ip_in_blacklist") as -> by set_solver.
  by rewrite !(lookup_register_ne "ip_in_whitelist"), !lookup_register_eq by done.
Qed.

(** * Membership *)

(** An entry covers an address when the network it names contains it. *)
Definition covers (addr : IpAddr) (entry : string) : bool :=
  match parse_entry entry with Some net => ipnet_contains net addr | None => false end.

Lemma insert_contains entry s addr :
  ipset_contains (ipset_insert entry s) addr = ipset_contains s addr || covers addr entry.
Proof.
  unfold ipset_insert, covers. destruct (parse_entry entry) as [net|]; [|by rewrite orb_false_r].
  change (match ipnet_addr net with V4 _ => 32 | V6 _ => 128 end) with (ip_width (ipnet_addr net)).
  destruct (Z.eqb_spec (ipnet_prefix_len net) (ip_width (ipnet_addr net))) as [Hlen|];
    unfold ipset_contains; cbn [exact cidrs].
  - rewrite (ipnet_host_contains net addr Hlen). apply Bool.eq_true_iff_eq.
    rewrite !orb_true_iff, !bool_decide_eq_true, elem_of_union, elem_of_singleton. tauto.
  - rewrite existsb_app. cbn. by rewrite orb_false_r, orb_assoc.
Qed.

Lemma inserts_contain entries s addr :
  ipset_contains (foldl (fun s e => ipset_insert e s) s entries) addr =
  ipset_contains s addr || existsb (covers addr) entries.
Proof.
  revert s. induction entries as [|e entries IH]; intros s; cbn [foldl existsb]; [by rewrite orb_false_r|].
  by rewrite IH, insert_contains, orb_assoc.
Qed.

(** The entries of a file: its lines without blanks and comments. *)
Definition file_entries (text : string) : list string :=
  List.filter (fun e => negb (is_empty e || starts_with e "#")) (map trim (lines text)).

Lemma insert_lines_contain l s addr :
  ipset_contains (foldl insert_line s l) addr =
  ipset_contains s addr ||
  existsb (covers addr) (List.filter (fun e => negb (is_empty e || starts_with e "#")) (map trim l)).
Proof.
  revert s. induction l as [|x l IH]; intros s; cbn [foldl map List.filter]; [by rewrite orb_false_r|].
  rewrite IH. unfold insert_line. destruct (is_empty (trim x) || _); cbn [negb existsb]; [done|].
  by rewrite insert_contains, orb_assoc.
Qed.
End Lists.

(** The hash-table and CIDR split does not change membership: a list built
    from any entries holds exactly the addresses some entry covers, an entry that
    is neither a network nor an address covering nothing. *)
Theorem ip_list_membership `{IpNetLib} entries addr :
  ipset_contains (foldl (fun s e => ipset_insert e s) IpSet_default entries) addr =
  existsb (covers addr) entries.
Proof.
  rewrite inserts_contain. unfold ipset_contains at 1. cbn.
  by rewrite bool_decide_eq_false_2 by apply not_elem_of_empty.
Qed.

(** C40: loading the two files into an empty store blocks exactly the addresses
    that an entry of the blacklist file covers and no entry of the whitelist file
    does, and whitelists exactly those that an entry of the whitelist file covers; a
    text that is not an address is in neither list. *)
Theorem loaded_lists_decide `{IpNetLib} black white ip :
  let st := snd (load_whitelist_from_file (Some white)
                   (snd (load_blacklist_from_file (Some black) IpListStore_new))) in
  match parse_ip ip with
  | Some addr =>
    is_whitelisted st ip = existsb (covers addr) (file_entries white) /\
    is_blacklisted st ip =
      existsb (covers addr) (file_entries black) && negb (existsb (covers addr) (file_entries white))
  | None => is_whitelisted st ip = false /\ is_blacklisted st ip = false
  end.
Proof.
  cbn zeta. unfold is_blacklisted, is_whitelisted. destruct (parse_ip ip) as [addr|]; [|done].
  cbn [load_whitelist_from_file load_blacklist_from_file snd blacklist whitelist IpListStore_new].
  rewrite !insert_lines_contain. unfold ipset_contains. cbn [exact cidrs IpSet_default existsb].
  rewrite bool_decide_eq_false_2 by apply not_elem_of_empty. cbn [orb]. split; [done|].
  unfold file_entries. by destruct (existsb _ (List.filter _ (map trim (lines white)))), (existsb _ _).
Qed.
