(* ===== verification/Geo.v ===== *)
(** The geo-blocking plugin ([geo/plugin.rs]), over the MaxMind database. *)
From S2P Require Import Prelude Utf8 RustStd Net Extern Float64 WafTypes Ast Functions.
Local Open Scope Z_scope.

(** The [maxminddb] crate: opening a database, and the ISO code of an address in
    it, when the lookup succeeds and the record has one. *)
Class GeoDbLib := {
  geo_reader : Type;
  open_readfile : string -> option geo_reader;
  lookup_iso_code : geo_reader -> IpAddr -> option string
}.

Section Geo.
Context `{UnicodeTables, HashOrder, GeoDbLib}.

Definition DEFAULT_COUNTRY_HEADERS : list string :=
  ["cf-ipcountry"; "x-country"; "x-geoip-country"; "x-geo-country"].

Record GeoState := mkGeo {
  reader : option geo_reader;
  extra_headers : list string;
  blocked_countries : list string
}.

Definition GeoPlugin_new (db_path : option string) (extra_headers blocked_countries : list string)
  : GeoState :=
  mkGeo (p ← db_path; open_readfile p) (map to_lowercase extra_headers)
    (map to_uppercase blocked_countries).

Definition lookup_ip (g : GeoState) (ip : string) : string :=
  match parse_ip (trim ip) with
  | None => ""
  | Some addr =>
    match reader g with
    | None => ""
    | Some reader => to_uppercase (default "" (lookup_iso_code reader addr))
    end
  end.

(** The value of one header, when it names a country. *)
Definition country_header (ctx : RequestContext) (name : string) : option string :=
  kv ← List.find (fun kv => String.eqb (to_lowercase (fst kv)) name) (hash_iter (headers ctx));
  let v := to_uppercase (trim (snd kv)) in
  if negb (is_empty v) && negb (String.eqb v "-") && negb (String.eqb v "XX") then Some v else None.

(** The first of the names whose header names a country. *)
Fixpoint first_country (ctx : RequestContext) (names : list string) : option string :=
  match names with
  | [] => None
  | name :: names =>
    match country_header ctx name with
    | Some v => Some v
    | None => first_country ctx names
    end
  end.

Definition country_from_headers (g : GeoState) (ctx : RequestContext) : option string :=
  first_country ctx (DEFAULT_COUNTRY_HEADERS ++ extra_headers g).

(** [GetCountry]: an explicit non-empty address is looked up in the database, and
    otherwise the value left by [enrich] is read. *)
Definition get_country (g : GeoState) (ctx : RequestContext) (args : list Value) : Value :=
  let enriched := VStr (default "" (extensions ctx !! "geo.country")) in
  match args with
  | ip_val :: _ =>
    let ip := as_str ip_val in
    if negb (is_empty ip) then
      VStr (default "" (to_uppercase <$> (r ← reader g; addr ← parse_ip (trim ip); lookup_iso_code r addr)))
    else enriched
  | [] => enriched
  end.

Definition geo_blocked (g : GeoState) (ctx : RequestContext) : bool :=
  let country := default "" (extensions ctx !! "geo.country") in
  negb (is_empty country) && existsb (fun b => String.eqb b country) (blocked_countries g).

Definition GeoPlugin (g : GeoState) : Plugin := {|
  plugin_name := "geo";
  plugin_register registry :=
    let registry := register "GetCountry" (get_country g) registry in
    register "geo_blocked" (fun ctx _ => VBool (geo_blocked g ctx)) registry;
  plugin_enrich ctx :=
    let country := match country_from_headers g ctx with
                   | Some c => c
                   | None => lookup_ip g (client_ip ctx)
                   end in
    with_extension "geo.country" country ctx
|}.

#[export] Program Instance geo_plugin_spec g : PluginSpec (GeoPlugin g) := {|
  provided := {["GetCountry"; "geo_blocked"]}
|}.
Next Obligation.
  intros g reg n Hn. cbn. by rewrite !lookup_register_ne by set_solver.
Qed.
Next Obligation.
  intros g reg reg' n Hn. cbn.
  destruct (decide (n = "geo_blocked")) as [->|]; [by rewrite !lookup_register_eq|].
  assert (n = "GetCountry") as -> by set_solver.
  by rewrite !(lookup_register_ne "geo_blocked"), !lookup_register_eq by done.
Qed.

(** * Resolution order *)

Lemma first_country_spec ctx names c :
  first_country ctx names = Some c <->
  exists pre name post, names = pre ++ name :: post /\ country_header ctx name = Some c /\
    Forall (fun n => country_header ctx n = None) pre.
Proof.
  split.
  - induction names as [|name names IH]; [done|]. cbn.
    destruct (country_header ctx name) as [v|] eqn:Hn.
    + intros [= ->]. exists [], name, names. repeat split; [done|constructor].
    + intros Hf. destruct (IH Hf) as (pre & x & post & -> & Hx & Hpre).
      exists (name :: pre), x, post. repeat split; [done|by constructor].
  - intros (pre & name & post & -> & Hn & Hpre).
    induction Hpre as [|n pre Hpn _ IH]; cbn; [by rewrite Hn|]. by rewrite Hpn.
Qed.
End Geo.

(** Once a request is enriched, it is geo-blocked exactly when the country it
    resolves to is in the configured list, compared in upper case: the country of
    the first of the known headers that names one, and otherwise the country the
    database gives for the client address. *)
Theorem geo_blocked_after_enrich `{UnicodeTables, HashOrder, GeoDbLib} db extra blocked ctx :
  let g := GeoPlugin_new db extra blocked in
  let country := match country_from_headers g ctx with
                 | Some c => c | None => lookup_ip g (client_ip ctx) end in
  geo_blocked g (plugin_enrich (GeoPlugin g) ctx) = true <->
  country <> "" /\ In country (map to_uppercase blocked).
Proof.
  cbn zeta. unfold geo_blocked. cbn [plugin_enrich GeoPlugin extensions with_extension].
  rewrite lookup_insert_eq. cbn [default blocked_countries GeoPlugin_new].
  set (c := match country_from_headers _ ctx with Some c => c | None => _ end).
  rewrite andb_true_iff, negb_true_iff, existsb_exists. split.
  - intros [He (x & Hx & Heq)]. apply String.eqb_eq in Heq as ->. split; [by intros Hc; rewrite Hc in He|done].
  - intros [Hne Hin]. split; [by destruct c|]. exists c. by rewrite String.eqb_refl.
Qed.

(** Without enrichment no request is geo-blocked, whatever its headers, its
    address and the configured list. *)
Theorem geo_blocked_needs_enrich `{GeoDbLib} g ctx :
  extensions ctx !! "geo.country" = None -> geo_blocked g ctx = false.
Proof. intros Hn. unfold geo_blocked. by rewrite Hn. Qed.

Definition no_geo_db : GeoDbLib := {|
  geo_reader := unit; open_readfile _ := None; lookup_iso_code _ _ := None
|}.

Lemma geo_blocked_needs_enrich_witness :
  let ctx := mkContext "r" 0 "GET" "/" None CatchAll "1.2.3.4" None (<["cf-ipcountry" := "KP"]> ∅) None None None
    RiskScore_ZERO None ∅ in
  let g := @GeoPlugin_new plain_unicode no_geo_db None [] ["kp"] in
  @geo_blocked no_geo_db g ctx = false /\
  @geo_blocked no_geo_db g (plugin_enrich (@GeoPlugin plain_unicode sorted_hash_order no_geo_db g) ctx) = true.
Proof.
  cbn zeta. split; [|reflexivity].
  apply (@geo_blocked_needs_enrich no_geo_db). reflexivity.
Defined.
