(* ===== verification/Matcher.v ===== *)
(** The YAML rule of the engine crate ([rules/rule.rs]) and the direct evaluator
    of its conditions ([rules/matcher.rs]). *)
From S2P Require Import Prelude Utf8 RustStd Net Extern Float64 WafTypes Ast.
Local Open Scope Z_scope.

Inductive RuleScope : Type :=
| ScopeGlobal
| ScopeTier (t : Tier)
| ScopeRoutePattern (p : string)
| ScopeIp (ip : string)
| ScopeSession (s : string)
| ScopeDeviceFingerprint (s : string).

Inductive Condition : Type :=
| IpExact (value : string)
| IpInBlacklist
| IpInWhitelist
| PathExact (value : string)
| PathWildcard (pattern : string)
| PathRegex (pattern : string)
| HeaderExact (name value : string)
| HeaderRegex (name pattern : string)
| PayloadRegex (pattern : string)
| CookieExact (name value : string)
| RateLimitExceeded
| SqliPattern
| XssPattern
| PathTraversalPattern
| SsrfPattern
| HeaderInjectionPattern
| CondAnd (conds : list Condition)
| CondOr (conds : list Condition)
| CondNot (cond : Condition).

Inductive RuleAction : Type := RaAllow | RaBlock | RaChallenge | RaRateLimit | RaLog.

Record Rule := mkWafRule {
  wr_id : string;
  wr_priority : Z;
  wr_scope : RuleScope;
  wr_condition : Condition;
  wr_action : RuleAction;
  wr_risk_score_delta : Z;
  wr_upstream_backend : option string
}.

(** * Pattern texts *)

Definition sqli_regex : string :=
  "(?i)(\b(union\s+select|select\s+\S+\s+from|insert\s+into|update\s+\S+\s+set|delete\s+from|drop\s+(table|database)|exec(ute)?\s*\(|cast\s*\(|convert\s*\(|declare\s+@)\b|'(\s*(or|and)\s+'?\d|--)|/\*.*\*/|;\s*(drop|select|insert|update|delete|create)\b)".
Definition xss_regex : string :=
  "(?i)(<\s*script[\s>]|javascript\s*:|on\w+\s*=\s*['" +:+ String dquote
  "\w]|<\s*(iframe|object|embed|svg|math)[\s/>]|expression\s*\(|vbscript\s*:)".
Definition pt_regex : string :=
  "(\.\./|\.\.\\|%2e%2e%2f|%2e%2e/|\.\.%2f|%252e%252e|%c0%ae|%c1%9c)".
Definition ssrf_regex : string :=
  "(?i)https?://(localhost|127\.\d+\.\d+\.\d+|0\.0\.0\.0|10\.\d+\.\d+\.\d+|172\.(1[6-9]|2\d|3[01])\.\d+\.\d+|192\.168\.\d+\.\d+|169\.254\.\d+\.\d+|::1)|file://|dict://|gopher://|sftp://".
Definition hi_regex : string := "[\r\n]".

(** The characters [wildcard_match] escapes. *)
Definition wildcard_meta : list Z := map byte_val (str_bytes ".+()[]{}^$|\").

Definition wildcard_char (ch : Z) : string :=
  if ch =? 42 then ".*"
  else if ch =? 63 then "."
  else if existsb (Z.eqb ch) wildcard_meta then String backslash (utf8_encode ch)
  else utf8_encode ch.

Definition wildcard_regex (pattern : string) : string :=
  "^" +:+ str_join "" (map wildcard_char (chars pattern)) +:+ "$".

(** * Evaluation *)

Section Matcher.
Context `{UnicodeTables, RegexLib, HashOrder}.

Definition wildcard_match (pattern value : string) : bool := regex_match (wildcard_regex pattern) value.

(** The loop over the parts of the cookie header. *)
Definition cookie_part (name value part : string) : bool :=
  match split_once "=" (trim part) with
  | Some (k, v) => String.eqb (trim k) name && String.eqb (trim v) value
  | None => false
  end.
Definition check_cookie (headers : gmap string string) (name value : string) : bool :=
  match headers !! "cookie" with
  | Some cookies => existsb (cookie_part name value) (split_char ";" cookies)
  | None => false
  end.

Definition build_haystack (ctx : RequestContext) : string :=
  let parts := [path ctx] in
  let parts := match query ctx with Some q => parts ++ [q] | None => parts end in
  let parts := parts ++ map snd (hash_iter (headers ctx)) in
  let parts := match body ctx with
               | Some b => match from_utf8 b with Some s => parts ++ [s] | None => parts end
               | None => parts
               end in
  str_join " " parts.

Fixpoint matcher_evaluate (condition : Condition) (ctx : RequestContext) : bool :=
  match condition with
  | IpExact value => String.eqb (client_ip ctx) value
  | IpInBlacklist | IpInWhitelist => false
  | PathExact value => String.eqb (path ctx) value
  | PathWildcard pattern => wildcard_match pattern (path ctx)
  | PathRegex pattern => regex_match pattern (path ctx)
  | HeaderExact name value =>
    match headers ctx !! to_lowercase name with Some v => String.eqb v value | None => false end
  | HeaderRegex name pattern =>
    match headers ctx !! to_lowercase name with Some v => regex_match pattern v | None => false end
  | PayloadRegex pattern =>
    match (b ← body ctx; from_utf8 b) with Some s => regex_match pattern s | None => false end
  | CookieExact name value => check_cookie (headers ctx) name value
  | RateLimitExceeded => false
  | SqliPattern => is_match (regex_unwrap sqli_regex) (build_haystack ctx)
  | XssPattern => is_match (regex_unwrap xss_regex) (build_haystack ctx)
  | PathTraversalPattern => is_match (regex_unwrap pt_regex) (to_lowercase (path ctx))
  | SsrfPattern => is_match (regex_unwrap ssrf_regex) (build_haystack ctx)
  | HeaderInjectionPattern =>
    existsb (fun kv => is_match (regex_unwrap hi_regex) (snd kv)) (hash_iter (headers ctx))
  | CondAnd conds => forallb (fun c => matcher_evaluate c ctx) conds
  | CondOr conds => existsb (fun c => matcher_evaluate c ctx) conds
  | CondNot cond => negb (matcher_evaluate cond ctx)
  end.
End Matcher.
