(* ===== verification/GrlParser.v ===== *)
(** From the grammar's parse tree to rules ([grl/parser.rs]).  The tree itself
    comes from the pest parser generated from the grammar, which is a parameter:
    a node has a rule name, the text it spans and its children. *)
From S2P Require Import Prelude Utf8 RustStd Float64 Extern Ast.
Local Open Scope Z_scope.

(** The rules of the grammar that appear as nodes. *)
Inductive GrlRule : Type :=
| R_file | R_rule_def | R_statement | R_assignment | R_call_stmt
| R_expression | R_or_expr | R_and_expr | R_not_expr | R_not_op
| R_cmp_expr | R_cmp_op | R_add_expr | R_add_op | R_mul_expr | R_mul_op
| R_primary | R_call_expr | R_arg_list | R_path
| R_literal | R_bool_lit | R_null_lit | R_ident | R_integer | R_float | R_string
| R_inner_str | R_EOI.
#[export] Instance GrlRule_eq_dec : EqDecision GrlRule.
Proof. solve_decision. Defined.

Inductive Pair : Type := mkPair (rule : GrlRule) (text : string) (inner : list Pair).
Definition as_rule (p : Pair) : GrlRule := match p with mkPair r _ _ => r end.
Definition pair_str (p : Pair) : string := match p with mkPair _ t _ => t end.
Definition into_inner (p : Pair) : list Pair := match p with mkPair _ _ l => l end.

(** Errors, and the panics of [unwrap] on a tree the grammar does not produce. *)
Inductive GrlError : Type :=
| GrlSyntax | GrlEmpty | GrlMissingWhen | GrlUnexpected (r : GrlRule) | GrlBadOp (op : string) | GrlPanic.

Definition unquote (s : string) : string :=
  let trimmed := trim_matches dquote s in
  str_replace (str_replace (str_replace trimmed (String backslash (String dquote "")) (String dquote ""))
                 "\n" (bstr 10)) "\t" (bstr 9).

Definition parse_path (p : Pair) : Path :=
  omap (fun p => match as_rule p with
                 | R_ident => Some (SegField (pair_str p))
                 | R_string => Some (SegIndex (unquote (pair_str p)))
                 | _ => None
                 end) (into_inner p).

Definition parse_literal (p : Pair) : result GrlError Value :=
  match into_inner p with
  | [] => Err GrlPanic
  | inner :: _ =>
    match as_rule inner with
    | R_string => Ok (VStr (unquote (pair_str inner)))
    | R_float => Ok (VFloat (default (f64_lit "0.0") (f64_parse (pair_str inner))))
    | R_integer => Ok (VInt (default 0 (parse_signed 64 (pair_str inner))))
    | R_bool_lit => Ok (VBool (String.eqb (pair_str inner) "true"))
    | R_null_lit => Ok VNull
    | other => Err (GrlUnexpected other)
    end
  end.

Definition cmp_op (s : string) : option BinOp :=
  if String.eqb s "==" then Some BEq
  else if String.eqb s "!=" then Some BNeq
  else if String.eqb s "<" then Some BLt
  else if String.eqb s "<=" then Some BLte
  else if String.eqb s ">" then Some BGt
  else if String.eqb s ">=" then Some BGte
  else None.

(** [ops.iter().find(|(t, _)| *t == op_text)] *)
Fixpoint find_op (ops : list (string * BinOp)) (s : string) : option BinOp :=
  match ops with
  | [] => None
  | (t, op) :: ops => if String.eqb t s then Some op else find_op ops s
  end.
Definition add_ops : list (string * BinOp) := [("+", BAdd); ("-", BSub)].
Definition mul_ops : list (string * BinOp) := [("*", BMul); ("/", BDiv)].

(** [parse_binary], given the parser of the operands. *)
Definition parse_binary (parse_expr : Pair -> result GrlError Expr) (op : BinOp)
  : list Pair -> result GrlError Expr :=
  let fix chain (acc : Expr) (l : list Pair) : result GrlError Expr :=
    match l with
    | [] => Ok acc
    | next :: l => rhs ← parse_expr next; chain (EBinary op acc rhs) l
    end in
  fun l => match l with [] => Err GrlPanic | p :: l => acc ← parse_expr p; chain acc l end.

(** [parse_left_assoc], given the parser of the operands. *)
Definition parse_left_assoc (parse_expr : Pair -> result GrlError Expr) (ops : list (string * BinOp))
  : list Pair -> result GrlError Expr :=
  let fix chain (acc : Expr) (l : list Pair) : result GrlError Expr :=
    match l with
    | [] => Ok acc
    | op_pair :: l =>
      op ← ok_or (find_op ops (pair_str op_pair)) (GrlBadOp (pair_str op_pair));
      match l with
      | [] => Err GrlPanic
      | next :: l => rhs ← parse_expr next; chain (EBinary op acc rhs) l
      end
    end in
  fun l => match l with [] => Err GrlPanic | p :: l => acc ← parse_expr p; chain acc l end.

(** The arguments of a call, given the parser of expressions. *)
Definition parse_args (parse_expr : Pair -> result GrlError Expr) : list Pair -> result GrlError (list Expr) :=
  fix go (l : list Pair) : result GrlError (list Expr) :=
    match l with
    | [] => Ok []
    | arg :: l => e ← parse_expr arg; es ← go l; Ok (e :: es)
    end.

(** [parse_call], given the parser of expressions. *)
Definition parse_call_with (parse_expr : Pair -> result GrlError Expr) (l : list Pair)
  : result GrlError CallExpr :=
  match l with
  | [] => Err GrlPanic
  | name :: [] => Ok (pair_str name, [])
  | name :: mkPair _ _ args :: _ => args ← parse_args parse_expr args; Ok (pair_str name, args)
  end.

Fixpoint parse_expr (pair : Pair) : result GrlError Expr :=
  match pair with
  | mkPair rule text inner =>
    match rule with
    | R_expression | R_or_expr => parse_binary parse_expr BOr inner
    | R_and_expr => parse_binary parse_expr BAnd inner
    | R_not_expr =>
      match inner with
      | [] => Err GrlPanic
      | mkPair R_not_op _ _ :: [] => Err GrlPanic
      | mkPair R_not_op _ _ :: e :: _ => e ← parse_expr e; Ok (EUnary UNot e)
      | e :: _ => parse_expr e
      end
    | R_cmp_expr =>
      match inner with
      | [] => Err GrlPanic
      | l :: rest =>
        lhs ← parse_expr l;
        match rest with
        | [] => Ok lhs
        | op_pair :: rest =>
          op ← ok_or (cmp_op (pair_str op_pair)) (GrlBadOp (pair_str op_pair));
          match rest with
          | [] => Err GrlPanic
          | r :: _ => rhs ← parse_expr r; Ok (EBinary op lhs rhs)
          end
        end
      end
    | R_add_expr => parse_left_assoc parse_expr add_ops inner
    | R_mul_expr => parse_left_assoc parse_expr mul_ops inner
    | R_primary => match inner with [] => Err GrlPanic | p :: _ => parse_expr p end
    | R_call_expr => c ← parse_call_with parse_expr inner; Ok (ECall c.1 c.2)
    | R_path => Ok (EPath (parse_path pair))
    | R_literal => v ← parse_literal pair; Ok (ELiteral v)
    | other => Err (GrlUnexpected other)
    end
  end.

Definition parse_call (p : Pair) : result GrlError CallExpr := parse_call_with parse_expr (into_inner p).

Definition parse_stmt (p : Pair) : result GrlError Stmt :=
  match into_inner p with
  | [] => Err GrlPanic
  | inner :: _ =>
    match as_rule inner with
    | R_assignment =>
      match into_inner inner with
      | target :: value :: _ => v ← parse_expr value; Ok (SAssign (parse_path target) v)
      | _ => Err GrlPanic
      end
    | R_call_stmt =>
      match into_inner inner with
      | call :: _ => c ← parse_call call; Ok (SCall c)
      | [] => Err GrlPanic
      end
    | other => Err (GrlUnexpected other)
    end
  end.

(** The fields of a rule being read: name, salience, condition, actions. *)
Record PartialRule := mkPartial {
  pr_name : string; pr_salience : Z; pr_when : option Expr; pr_then : list Stmt
}.
Definition rule_part (acc : PartialRule) (p : Pair) : result GrlError PartialRule :=
  match as_rule p with
  | R_string => Ok (mkPartial (unquote (pair_str p)) (pr_salience acc) (pr_when acc) (pr_then acc))
  | R_integer =>
    Ok (mkPartial (pr_name acc) (default 0 (parse_signed 32 (pair_str p))) (pr_when acc) (pr_then acc))
  | R_expression =>
    e ← parse_expr p; Ok (mkPartial (pr_name acc) (pr_salience acc) (Some e) (pr_then acc))
  | R_statement =>
    s ← parse_stmt p; Ok (mkPartial (pr_name acc) (pr_salience acc) (pr_when acc) (pr_then acc ++ [s]))
  | _ => Ok acc
  end.
Fixpoint rule_parts (acc : PartialRule) (l : list Pair) : result GrlError PartialRule :=
  match l with [] => Ok acc | p :: l => acc ← rule_part acc p; rule_parts acc l end.

Definition parse_rule (p : Pair) : result GrlError RuleAst :=
  acc ← rule_parts (mkPartial "" 0 None []) (into_inner p);
  w ← ok_or (pr_when acc) GrlMissingWhen;
  Ok (mkRuleAst (pr_name acc) (pr_salience acc) w (pr_then acc)).

Section Parse.
(** [GrlParser::parse(Rule::file, src)] of the generated parser. *)
Variable pest_parse : string -> option (list Pair).

Definition grl_parse (src : string) : result GrlError (list RuleAst) :=
  pairs ← ok_or (pest_parse src) GrlSyntax;
  file ← ok_or (head pairs) GrlEmpty;
  collect_result parse_rule (List.filter (fun p => bool_decide (as_rule p = R_rule_def)) (into_inner file)).
End Parse.
