(* ===== verification/Pest.v ===== *)
(** The GRL grammar ([grl/grl.pest]) and the meaning of pest grammars: a parsing
    expression tries its alternatives in order, never backtracks into one that has
    succeeded, and skips whitespace and comments between the parts of a rule that is
    not atomic.  The parser that pest generates is not in the repository; this is
    what its documentation says that it computes. *)
From S2P Require Import Prelude Utf8 RustStd Float64 Extern Ast GrlParser.
Local Open Scope Z_scope.

(** * Parsing expressions *)

Inductive peg : Type :=
| PStr (s : string)
| PByte (p : ascii -> bool)  (** the [ASCII_...] classes *)
| PAny
| PEnd                       (** [EOI] *)
| PSeq (a b : peg)
| PAlt (a b : peg)
| PStar (a : peg)
| PMore (a : peg)            (** the further rounds of a repetition *)
| POpt (a : peg)
| PNot (a : peg)
| PRule (r : GrlRule).

Declare Scope peg_scope.
Delimit Scope peg_scope with peg.
Bind Scope peg_scope with peg.
Notation "a ~~ b" := (PSeq a b) (at level 50, left associativity) : peg_scope.
Notation "a // b" := (PAlt a b) (at level 60, right associativity) : peg_scope.
Definition PPlus (a : peg) : peg := PSeq a (PStar a).
Local Open Scope peg_scope.

Definition byte_in (lo hi : Z) (a : ascii) : bool := (lo <=? byte_val a) && (byte_val a <=? hi).
Definition ascii_digit (a : ascii) : bool := byte_in 48 57 a.
Definition ascii_alpha (a : ascii) : bool := byte_in 65 90 a || byte_in 97 122 a.
Definition ascii_alphanumeric (a : ascii) : bool := ascii_alpha a || ascii_digit a.

(** * The grammar *)

Definition word_end : peg := PNot (PByte ascii_alphanumeric // PStr "_").
Definition quote : string := String dquote "".

(** The body of each rule, and whether it is atomic ([@]). *)
Definition rule_body (r : GrlRule) : peg :=
  match r with
  | R_file => PStar (PRule R_rule_def) ~~ PRule R_EOI
  | R_rule_def =>
    PStr "rule" ~~ PRule R_string ~~ POpt (PStr "salience" ~~ PRule R_integer) ~~ PStr "{"
      ~~ PStr "when" ~~ PRule R_expression ~~ PStr "then" ~~ PPlus (PRule R_statement) ~~ PStr "}"
  | R_statement => (PRule R_assignment // PRule R_call_stmt) ~~ PStr ";"
  | R_assignment => PRule R_path ~~ PStr "=" ~~ PRule R_expression
  | R_call_stmt => PRule R_call_expr
  | R_expression => PRule R_or_expr
  | R_or_expr => PRule R_and_expr ~~ PStar (PStr "||" ~~ PRule R_and_expr)
  | R_and_expr => PRule R_not_expr ~~ PStar (PStr "&&" ~~ PRule R_not_expr)
  | R_not_expr => POpt (PRule R_not_op) ~~ PRule R_cmp_expr
  | R_not_op => PStr "!"
  | R_cmp_expr => PRule R_add_expr ~~ POpt (PRule R_cmp_op ~~ PRule R_add_expr)
  | R_cmp_op => PStr "==" // PStr "!=" // PStr "<=" // PStr ">=" // PStr "<" // PStr ">"
  | R_add_expr => PRule R_mul_expr ~~ PStar (PRule R_add_op ~~ PRule R_mul_expr)
  | R_add_op => PStr "+" // PStr "-"
  | R_mul_expr => PRule R_primary ~~ PStar (PRule R_mul_op ~~ PRule R_primary)
  | R_mul_op => PStr "*" // PStr "/"
  | R_primary => PRule R_literal // PRule R_call_expr // PRule R_path // PStr "(" ~~ PRule R_expression ~~ PStr ")"
  | R_call_expr => PRule R_ident ~~ PStr "(" ~~ POpt (PRule R_arg_list) ~~ PStr ")"
  | R_arg_list => PRule R_expression ~~ PStar (PStr "," ~~ PRule R_expression)
  | R_path => PRule R_ident ~~ PStar (PStr "." ~~ PRule R_ident // PStr "[" ~~ PRule R_string ~~ PStr "]")
  | R_literal => PRule R_string // PRule R_float // PRule R_integer // PRule R_bool_lit // PRule R_null_lit
  | R_bool_lit => (PStr "true" // PStr "false") ~~ word_end
  | R_null_lit => PStr "null" ~~ word_end
  | R_ident => (PByte ascii_alpha // PStr "_") ~~ PStar (PByte ascii_alphanumeric // PStr "_")
  | R_integer => POpt (PStr "-") ~~ PPlus (PByte ascii_digit)
  | R_float => POpt (PStr "-") ~~ PPlus (PByte ascii_digit) ~~ PStr "." ~~ PPlus (PByte ascii_digit)
  | R_string => PStr quote ~~ PRule R_inner_str ~~ PStr quote
  | R_inner_str => PStar (PNot (PStr quote) ~~ (PStr (String backslash quote) // PAny))
  | R_EOI => PEnd
  end.
Definition is_atomic (r : GrlRule) : bool :=
  match r with
  | R_bool_lit | R_null_lit | R_ident | R_integer | R_float | R_string | R_inner_str => true
  | _ => false
  end.

(** [WHITESPACE] and [COMMENT], skipped as often as they occur. *)
Inductive SkipMode : Type := SkipText | SkipLine | SkipBlock.
Definition is_space (a : ascii) : bool := existsb (Z.eqb (byte_val a)) [32; 9; 13; 10].
Fixpoint skip_in (m : SkipMode) (s : string) : option string :=
  match m, s with
  | SkipText, "" => Some ""
  | SkipText, String c r =>
    if is_space c then skip_in SkipText r
    else if Ascii.eqb c "/" then
      match r with
      | String d r' =>
        if Ascii.eqb d "/" then skip_in SkipLine r'
        else if Ascii.eqb d "*" then
          match skip_in SkipBlock r' with Some x => Some x | None => Some s end
        else Some s
      | "" => Some s
      end
    else Some s
  | SkipLine, "" => Some ""
  | SkipLine, String c r => if byte_val c =? 10 then skip_in SkipText r else skip_in SkipLine r
  | SkipBlock, "" => None
  | SkipBlock, String c r =>
    match r with
    | String d r' => if Ascii.eqb c "*" && Ascii.eqb d "/" then skip_in SkipText r' else skip_in SkipBlock r
    | "" => None
    end
  end.
Definition skip (s : string) : string := default s (skip_in SkipText s).

(** * Running an expression *)

(** One character: a byte and its continuation bytes. *)
Fixpoint drop_cont (s : string) : string :=
  match s with
  | String c r => if cont_byte (byte_val c) then drop_cont r else s
  | "" => ""
  end.

Fixpoint str_take (n : nat) (s : string) : string :=
  match n, s with S n, String c s => String c (str_take n s) | _, _ => "" end.
(** The text between two positions. *)
Definition span (s rest : string) : string := str_take (str_len s - str_len rest) s.

Inductive peg_outcome : Type := NoFuel | Failed | Matched (toks : list Pair) (rest : string).

(** [atomic]: inside an atomic rule, where nothing is skipped and no node is made. *)
Fixpoint run (fuel : nat) (atomic : bool) (e : peg) (s : string) : peg_outcome :=
  match fuel with
  | O => NoFuel
  | S fuel =>
    let gap r := if atomic then r else skip r in
    match e with
    | PStr t => match strip_prefix t s with Some r => Matched [] r | None => Failed end
    | PByte p => match s with String c r => if p c then Matched [] r else Failed | "" => Failed end
    | PAny => match s with String c r => Matched [] (drop_cont r) | "" => Failed end
    | PEnd => match s with "" => Matched [] "" | _ => Failed end
    | PSeq a b =>
      match run fuel atomic a s with
      | Matched t1 r1 =>
        match run fuel atomic b (gap r1) with
        | Matched t2 r2 => Matched (t1 ++ t2) r2
        | o => o
        end
      | o => o
      end
    | PAlt a b => match run fuel atomic a s with Failed => run fuel atomic b s | o => o end
    | PStar a =>
      match run fuel atomic a s with
      | Failed => Matched [] s
      | Matched t1 r1 =>
        match run fuel atomic (PMore a) r1 with
        | Matched t2 r2 => Matched (t1 ++ t2) r2
        | o => o
        end
      | NoFuel => NoFuel
      end
    | PMore a =>
      match run fuel atomic a (gap s) with
      | Failed => Matched [] s
      | Matched t1 r1 =>
        match run fuel atomic (PMore a) r1 with
        | Matched t2 r2 => Matched (t1 ++ t2) r2
        | o => o
        end
      | NoFuel => NoFuel
      end
    | POpt a => match run fuel atomic a s with Failed => Matched [] s | o => o end
    | PNot a =>
      match run fuel atomic a s with
      | Failed => Matched [] s
      | Matched _ _ => Failed
      | NoFuel => NoFuel
      end
    | PRule r =>
      match run fuel (atomic || is_atomic r) (rule_body r) s with
      | Matched toks rest => if atomic then Matched [] rest else Matched [mkPair r (span s rest) toks] rest
      | o => o
      end
    end
  end.

(** [GrlParser::parse(Rule::file, src)]: [SOI] and the whitespace before the first rule. *)
Definition file_outcome (fuel : nat) (src : string) : peg_outcome :=
  match run fuel false (rule_body R_file) (skip src) with
  | Matched toks rest => Matched [mkPair R_file (span src rest) toks] rest
  | o => o
  end.

(** * Facts about running *)

Lemma run_mono fuel fuel' atomic e s :
  (fuel <= fuel')%nat -> run fuel atomic e s <> NoFuel -> run fuel' atomic e s = run fuel atomic e s.
Proof.
  revert fuel' atomic e s. induction fuel as [|fuel IH]; intros fuel' atomic e s Hle Hr; [done|].
  destruct fuel' as [|fuel']; [lia|]. assert (Hle' : (fuel <= fuel')%nat) by lia.
  assert (Hstep : forall a' x t, run fuel a' x t <> NoFuel -> run fuel' a' x t = run fuel a' x t) by auto.
  clear IH. cbn [run] in *. destruct e; try done.
  - destruct (run fuel atomic e1 s) eqn:H1; try done; rewrite (Hstep atomic e1 s) by congruence; rewrite H1; [done|].
    rewrite Hstep; [done|]. by destruct (run fuel atomic e2 _).
  - destruct (run fuel atomic e1 s) eqn:H1; try done; rewrite (Hstep atomic e1 s) by congruence; rewrite H1; [|done].
    by rewrite Hstep.
  - destruct (run fuel atomic e s) eqn:H1; try done; rewrite (Hstep atomic e s) by congruence; rewrite H1; [done|].
    rewrite Hstep; [done|]. by destruct (run fuel atomic (PMore e) _).
  - destruct (run fuel atomic e _) eqn:H1; try done; rewrite (Hstep atomic e _) by congruence; rewrite H1; [done|].
    rewrite Hstep; [done|]. by destruct (run fuel atomic (PMore e) _).
  - destruct (run fuel atomic e s) eqn:H1; try done; rewrite (Hstep atomic e s) by congruence; by rewrite H1.
  - destruct (run fuel atomic e s) eqn:H1; try done; rewrite (Hstep atomic e s) by congruence; by rewrite H1.
  - destruct (run fuel (atomic || is_atomic r) (rule_body r) s) eqn:H1; try done;
      rewrite (Hstep _ (rule_body r) s) by congruence; by rewrite H1.
Qed.

(** An expression matches or fails on a text, with enough fuel. *)
Definition parses (atomic : bool) (e : peg) (s : string) (toks : list Pair) (rest : string) : Prop :=
  exists fuel, run fuel atomic e s = Matched toks rest.
Definition fails (atomic : bool) (e : peg) (s : string) : Prop := exists fuel, run fuel atomic e s = Failed.

Lemma parses_fun atomic e s t1 r1 t2 r2 :
  parses atomic e s t1 r1 -> parses atomic e s t2 r2 -> t1 = t2 /\ r1 = r2.
Proof.
  intros [f1 H1] [f2 H2]. assert (Heq : run f1 atomic e s = run f2 atomic e s).
  { destruct (Nat.le_ge_cases f1 f2); [symmetry|]; apply run_mono; congruence. }
  rewrite H1, H2 in Heq. by injection Heq.
Qed.

Lemma run_more {fuel atomic e s o} fuel' :
  run fuel atomic e s = o -> o <> NoFuel -> (fuel <= fuel')%nat -> run fuel' atomic e s = o.
Proof. intros <- Ho Hle. by apply run_mono. Qed.

Ltac more_fuel f H := rewrite (run_more f H) by (discriminate || lia).

Section Rules.
Context (atomic : bool).
Let gap r := if atomic then r else skip r.

Lemma parses_str t rest : parses atomic (PStr t) (t +:+ rest) [] rest.
Proof. exists 1%nat. cbn. by rewrite strip_prefix_app. Qed.

Lemma parses_byte (p : ascii -> bool) c rest : p c = true -> parses atomic (PByte p) (String c rest) [] rest.
Proof. intros Hp. exists 1%nat. cbn. by rewrite Hp. Qed.

Lemma parses_seq a b s t1 r1 t2 r2 :
  parses atomic a s t1 r1 -> parses atomic b (gap r1) t2 r2 -> parses atomic (a ~~ b) s (t1 ++ t2) r2.
Proof.
  intros [f1 H1] [f2 H2]. exists (S (Nat.max f1 f2)). cbn [run].
  more_fuel (Nat.max f1 f2) H1. fold (gap r1). by more_fuel (Nat.max f1 f2) H2.
Qed.
Lemma fails_seq_l a b s : fails atomic a s -> fails atomic (a ~~ b) s.
Proof. intros [f H]. exists (S f). cbn [run]. by rewrite H. Qed.
Lemma fails_seq_r a b s t1 r1 : parses atomic a s t1 r1 -> fails atomic b (gap r1) -> fails atomic (a ~~ b) s.
Proof.
  intros [f1 H1] [f2 H2]. exists (S (Nat.max f1 f2)). cbn [run].
  more_fuel (Nat.max f1 f2) H1. fold (gap r1). by more_fuel (Nat.max f1 f2) H2.
Qed.

Lemma parses_alt_l a b s t r : parses atomic a s t r -> parses atomic (a // b) s t r.
Proof. intros [f H]. exists (S f). cbn [run]. by rewrite H. Qed.
Lemma parses_alt_r a b s t r : fails atomic a s -> parses atomic b s t r -> parses atomic (a // b) s t r.
Proof.
  intros [f1 H1] [f2 H2]. exists (S (Nat.max f1 f2)). cbn [run].
  more_fuel (Nat.max f1 f2) H1. by more_fuel (Nat.max f1 f2) H2.
Qed.
Lemma fails_alt a b s : fails atomic a s -> fails atomic b s -> fails atomic (a // b) s.
Proof.
  intros [f1 H1] [f2 H2]. exists (S (Nat.max f1 f2)). cbn [run].
  more_fuel (Nat.max f1 f2) H1. by more_fuel (Nat.max f1 f2) H2.
Qed.

Lemma parses_opt a s t r : parses atomic a s t r -> parses atomic (POpt a) s t r.
Proof. intros [f H]. exists (S f). cbn [run]. by rewrite H. Qed.
Lemma parses_opt_none a s : fails atomic a s -> parses atomic (POpt a) s [] s.
Proof. intros [f H]. exists (S f). cbn [run]. by rewrite H. Qed.
Lemma parses_not a s : fails atomic a s -> parses atomic (PNot a) s [] s.
Proof. intros [f H]. exists (S f). cbn [run]. by rewrite H. Qed.

Lemma parses_more_end a s : fails atomic a (gap s) -> parses atomic (PMore a) s [] s.
Proof. intros [f H]. exists (S f). cbn [run]. fold (gap s). by rewrite H. Qed.
Lemma parses_more a s t1 r1 t2 r2 :
  parses atomic a (gap s) t1 r1 -> parses atomic (PMore a) r1 t2 r2 -> parses atomic (PMore a) s (t1 ++ t2) r2.
Proof.
  intros [f1 H1] [f2 H2]. exists (S (Nat.max f1 f2)). cbn [run]. fold (gap s).
  more_fuel (Nat.max f1 f2) H1. by more_fuel (Nat.max f1 f2) H2.
Qed.
Lemma parses_star_none a s : fails atomic a s -> parses atomic (PStar a) s [] s.
Proof. intros [f H]. exists (S f). cbn [run]. by rewrite H. Qed.
Lemma parses_star a s t1 r1 t2 r2 :
  parses atomic a s t1 r1 -> parses atomic (PMore a) r1 t2 r2 -> parses atomic (PStar a) s (t1 ++ t2) r2.
Proof.
  intros [f1 H1] [f2 H2]. exists (S (Nat.max f1 f2)). cbn [run].
  more_fuel (Nat.max f1 f2) H1. by more_fuel (Nat.max f1 f2) H2.
Qed.
End Rules.

Lemma parses_rule r s toks rest :
  parses (is_atomic r) (rule_body r) s toks rest -> parses false (PRule r) s [mkPair r (span s rest) toks] rest.
Proof. intros [f H]. exists (S f). cbn [run orb]. by rewrite H. Qed.
Lemma parses_rule_atomic r s toks rest : parses true (rule_body r) s toks rest -> parses true (PRule r) s [] rest.
Proof. intros [f H]. exists (S f). cbn [run orb]. by rewrite H. Qed.
Lemma fails_rule atomic r s : fails (atomic || is_atomic r) (rule_body r) s -> fails atomic (PRule r) s.
Proof. intros [f H]. exists (S f). cbn [run]. by rewrite H. Qed.

Lemma fails_str atomic t s : strip_prefix t s = None -> fails atomic (PStr t) s.
Proof. intros H. exists 1%nat. cbn. by rewrite H. Qed.

Lemma parses_not_fails atomic e s toks rest : parses atomic e s toks rest -> ~ fails atomic e s.
Proof.
  intros [f1 H1] [f2 H2].
  assert (Heq : run (Nat.max f1 f2) atomic e s = Failed) by (eapply run_more; eauto; lia).
  rewrite (run_more _ H1) in Heq by (done || lia). done.
Qed.

(** A repetition that starts after the gap, from one that takes the gap itself. *)
Lemma star_of_more a s toks rest :
  parses false (PMore a) s toks rest -> exists rest', parses false (PStar a) (skip s) toks rest' /\ (rest' = rest \/ rest' = skip rest).
Proof.
  intros [[|f] H]; [done|]. cbn [run] in H. destruct (run f false a (skip s)) as [| |t1 r1] eqn:Ha; [done| |].
  - injection H as <- <-. exists (skip s). split; [|by right]. apply parses_star_none. by exists f.
  - exists rest. split; [|by left]. destruct (run f false (PMore a) r1) as [| |t2 r2] eqn:Hm; [done..|].
    injection H as <- <-. eapply parses_star; [by exists f|by exists f].
Qed.

Lemma fails_seq_inv atomic a b s :
  fails atomic (a ~~ b) s ->
  fails atomic a s \/ exists toks rest, parses atomic a s toks rest /\ fails atomic b (if atomic then rest else skip rest).
Proof.
  intros [[|f] H]; [done|]. cbn [run] in H. destruct (run f atomic a s) as [| |t r] eqn:Ha; [done|left; by exists f|].
  right. exists t, r. split; [by exists f|]. exists f. by destruct (run f atomic b _).
Qed.
Lemma fails_alt_seq atomic a b c s :
  fails atomic (a ~~ c) s -> fails atomic (b ~~ c) s -> fails atomic ((a // b) ~~ c) s.
Proof.
  intros [Ha|(t & r & Ha & Hc)]%fails_seq_inv H2.
  - apply fails_seq_inv in H2 as [Hb|(t & r & Hb & Hc)]; [by apply fails_seq_l, fails_alt|].
    eapply fails_seq_r; [by apply parses_alt_r|done].
  - eapply fails_seq_r; [by apply parses_alt_l|done].
Qed.

Lemma parses_star_atomic a s toks rest : parses true (PMore a) s toks rest -> parses true (PStar a) s toks rest.
Proof. intros [[|f] H]; [done|]. by exists (S f). Qed.

Lemma str_take_app s rest : str_take (str_len s) (s +:+ rest) = s.
Proof. induction s as [|c s IH]; [by destruct rest|]. rewrite app_cons_str. cbn [str_len str_take]. by rewrite IH. Qed.
Lemma span_app s rest : span (s +:+ rest) rest = s.
Proof. unfold span. rewrite str_len_app, Nat.add_sub. apply str_take_app. Qed.


Lemma parses_rule_text r s toks rest :
  parses (is_atomic r) (rule_body r) (s +:+ rest) toks rest -> parses false (PRule r) (s +:+ rest) [mkPair r s toks] rest.
Proof. intros H%parses_rule. by rewrite span_app in H. Qed.

(** * Skipping *)

(** A first byte at which nothing is skipped. *)
Definition solid_byte (c : ascii) : bool := negb (is_space c) && negb (Ascii.eqb c "/").
Definition solid (s : string) : bool := match s with String c _ => solid_byte c | "" => false end.

Lemma skip_solid s : solid s = true -> skip s = s.
Proof.
  destruct s as [|c s]; [done|]. cbn [solid]. unfold solid_byte. intros H. reflect_bools.
  unfold skip. cbn [skip_in]. by repeat case_match; try congruence.
Qed.
Lemma solid_app s rest : solid s = true -> solid (s +:+ rest) = true.
Proof. by destruct s. Qed.
Lemma skip_solid_app s rest : solid s = true -> skip (s +:+ rest) = s +:+ rest.
Proof. intros H. by apply skip_solid, solid_app. Qed.

Lemma skip_space c s : is_space c = true -> skip (String c s) = skip s.
Proof.
  intros Hc. unfold skip. cbn [skip_in]. rewrite Hc.
  assert (Hs : forall s, is_Some (skip_in SkipText s)).
  { clear. enough (H : forall n s, (str_len s < n)%nat -> forall m, m <> SkipBlock -> is_Some (skip_in m s)).
    { intros s. by apply (H (S (str_len s))); [lia|]. }
    induction n as [|n IH]; [lia|]. intros [|c s] Hn m Hm; [by destruct m; eauto|].
    cbn [str_len] in Hn. destruct m; cbn [skip_in]; [| |done].
    - repeat case_match; eauto; apply IH; cbn [str_len] in *; try done; lia.
    - case_match; apply IH; try done; lia. }
  destruct (Hs s) as [x ->]. done.
Qed.

Lemma skip_in_len n m s x :
  (str_len s < n)%nat -> skip_in m s = Some x -> skip_in SkipText x = Some x /\ (str_len x <= str_len s)%nat.
Proof.
  revert m s x. induction n as [|n IH]; [lia|]. intros m [|c s] x Hn H; cbn [str_len] in *.
  { destruct m; cbn in H; try done; injection H as <-; done. }
  destruct m; cbn [skip_in] in H.
  - destruct (is_space c) eqn:Hsp; [apply IH in H as [? ?]; [split; [done|lia]|lia]|].
    destruct (Ascii.eqb c "/") eqn:Hsl.
    + destruct s as [|d s].
      { injection H as <-. cbn [skip_in]. by rewrite Hsp, Hsl. }
      cbn [str_len] in *. destruct (Ascii.eqb d "/") eqn:Hd.
      { apply IH in H as [? ?]; [split; [done|lia]|lia]. }
      destruct (Ascii.eqb d "*") eqn:Hst.
      { destruct (skip_in SkipBlock s) as [y|] eqn:Hb.
        - injection H as <-. apply IH in Hb as [? ?]; [split; [done|lia]|lia].
        - injection H as <-. cbn [skip_in]. by rewrite Hsp, Hsl, Hd, Hst, Hb. }
      injection H as <-. cbn [skip_in]. by rewrite Hsp, Hsl, Hd, Hst.
    + injection H as <-. cbn [skip_in]. by rewrite Hsp, Hsl.
  - destruct (byte_val c =? 10); apply IH in H as [? ?]; try lia; (split; [done|lia]).
  - destruct s as [|d s]; [done|]. cbn [str_len] in *.
    destruct (Ascii.eqb c "*" && Ascii.eqb d "/"); apply IH in H as [? ?]; cbn [str_len] in *; try lia; (split; [done|lia]).
Qed.

Lemma skip_skip s : skip (skip s) = skip s.
Proof.
  unfold skip. destruct (skip_in SkipText s) as [x|] eqn:Hx; cbn [default from_option].
  - apply (skip_in_len (S (str_len s))) in Hx as [Hx _]; [|lia]. unfold id. by rewrite Hx.
  - by rewrite Hx.
Qed.

(** * Termination *)

Lemma skip_len s : (str_len (skip s) <= str_len s)%nat.
Proof.
  unfold skip. destruct (skip_in SkipText s) as [x|] eqn:Hx; [|done].
  by apply (skip_in_len (S (str_len s))) in Hx as [_ Hx]; [|lia].
Qed.
Lemma gap_len (atomic : bool) s : (str_len (if atomic then s else skip s) <= str_len s)%nat.
Proof. destruct atomic; [done|apply skip_len]. Qed.
Lemma drop_cont_le s : (str_len (drop_cont s) <= str_len s)%nat.
Proof. induction s as [|c s IH]; [done|]. cbn [drop_cont]. case_match; cbn [str_len]; lia. Qed.

(** The expressions that can match without reading anything, and a bound on the
    calls that an expression makes before something is read. *)
Definition nullable_rule (r : GrlRule) : bool := match r with R_inner_str | R_file | R_EOI => true | _ => false end.
Fixpoint nullable (e : peg) : bool :=
  match e with
  | PStr t => match t with "" => true | _ => false end
  | PByte _ | PAny => false
  | PEnd | PStar _ | PMore _ | POpt _ | PNot _ => true
  | PSeq a b => nullable a && nullable b
  | PAlt a b => nullable a || nullable b
  | PRule r => nullable_rule r
  end.
Definition rule_rank (r : GrlRule) : nat :=
  match r with
  | R_file => 15 | R_rule_def => 10 | R_statement => 18 | R_call_stmt => 14 | R_assignment => 13
  | R_expression => 40 | R_or_expr => 37 | R_and_expr => 34 | R_not_expr => 31
  | R_cmp_expr => 28 | R_add_expr => 25 | R_mul_expr => 22 | R_primary => 18
  | R_call_expr => 12 | R_arg_list => 44 | R_path => 10
  | R_literal => 15 | _ => 8
  end.
Fixpoint rank (e : peg) : nat :=
  match e with
  | PStr _ | PByte _ | PAny | PEnd => 1
  | PSeq a b => S (if nullable a then Nat.max (rank a) (rank b) else rank a)
  | PAlt a b => S (Nat.max (rank a) (rank b))
  | PStar a => S (S (rank a))
  | PMore a | POpt a | PNot a => S (rank a)
  | PRule r => S (rule_rank r)
  end.
(** No repetition of what reads nothing, and all ranks below the calls allowed for
    each character. *)
Definition per_char : nat := 64.
Fixpoint well_founded (e : peg) : bool :=
  (rank e <=? per_char)%nat &&
  match e with
  | PSeq a b | PAlt a b => well_founded a && well_founded b
  | PStar a | PMore a => negb (nullable a) && well_founded a
  | POpt a | PNot a => well_founded a
  | _ => true
  end.

Lemma body_ok r :
  (rank (rule_body r) <=? rule_rank r)%nat && well_founded (rule_body r) && implb (nullable (rule_body r)) (nullable_rule r) = true.
Proof. by destruct r. Qed.

Lemma strip_prefix_len t s r : strip_prefix t s = Some r -> str_len s = (str_len t + str_len r)%nat.
Proof. intros ->%strip_prefix_Some. apply str_len_app. Qed.

Lemma run_shorter fuel atomic e s toks rest :
  run fuel atomic e s = Matched toks rest ->
  (str_len rest <= str_len s)%nat /\ (nullable e = false -> (str_len rest < str_len s)%nat).
Proof.
  revert atomic e s toks rest. induction fuel as [|fuel IH]; [done|]. intros atomic e s toks rest H. cbn [run] in H.
  destruct e as [t|p| | |a b|a b|a|a|a|a|r]; cbn [nullable].
  - destruct (strip_prefix t s) as [x|] eqn:Ht; [|done]. injection H as <- <-. apply strip_prefix_len in Ht.
    split; [lia|]. destruct t; [done|]. cbn [str_len] in Ht. lia.
  - destruct s as [|c s]; [done|]. destruct (p c); [|done]. injection H as <- <-. cbn. lia.
  - destruct s as [|c s]; [done|]. injection H as <- <-. pose proof (drop_cont_le s). cbn. lia.
  - destruct s; [|done]. by injection H as <- <-.
  - destruct (run fuel atomic a s) as [| |t1 r1] eqn:Ha; [done..|]. apply IH in Ha as [? Ha].
    pose proof (gap_len atomic r1). destruct (run fuel atomic b _) as [| |t2 r2] eqn:Hb; [done..|].
    apply IH in Hb as [? Hb]. injection H as <- <-. split; [lia|]. intros [?|?]%andb_false_iff; [specialize (Ha ltac:(done))|specialize (Hb ltac:(done))]; lia.
  - destruct (run fuel atomic a s) as [| |t1 r1] eqn:Ha; [done| |].
    + apply IH in H as [? H]. split; [done|]. intros [_ ?]%orb_false_iff. auto.
    + injection H as <- <-. apply IH in Ha as [? Ha]. split; [done|]. intros [? _]%orb_false_iff. auto.
  - split; [|done]. destruct (run fuel atomic a s) as [| |t1 r1] eqn:Ha; [done|by injection H as <- <-|].
    apply IH in Ha as [? _]. destruct (run fuel atomic (PMore a) r1) as [| |t2 r2] eqn:Hb; [done..|].
    apply IH in Hb as [? _]. injection H as <- <-. lia.
  - split; [|done]. pose proof (gap_len atomic s).
    destruct (run fuel atomic a _) as [| |t1 r1] eqn:Ha; [done|by injection H as <- <-|].
    apply IH in Ha as [? _]. destruct (run fuel atomic (PMore a) r1) as [| |t2 r2] eqn:Hb; [done..|].
    apply IH in Hb as [? _]. injection H as <- <-. lia.
  - split; [|done]. destruct (run fuel atomic a s) as [| |t1 r1] eqn:Ha; [done|by injection H as <- <-|].
    injection H as <- <-. by apply IH in Ha as [? _].
  - split; [|done]. destruct (run fuel atomic a s); [done|by injection H as <- <-|done].
  - destruct (run fuel _ (rule_body r) s) as [| |t1 r1] eqn:Hr; [done..|]. apply IH in Hr as [? Hr].
    assert (rest = r1) as -> by (destruct atomic; congruence). split; [done|]. intros Hn. apply Hr.
    pose proof (body_ok r) as Hb. reflect_bools. rename select (implb _ _ = true) into Hi. rewrite Hn in Hi. by destruct (nullable (rule_body r)).
Qed.

Lemma rank_bound e : well_founded e = true -> (rank e <= per_char)%nat.
Proof. destruct e; cbn [well_founded]; intros H; reflect_bools; by apply Nat.leb_le. Qed.

(** Each character allows [per_char] calls: with that fuel no run is cut off. *)
Lemma run_enough fuel atomic e s :
  well_founded e = true -> (rank e + per_char * str_len s <= fuel)%nat -> run fuel atomic e s <> NoFuel.
Proof.
  revert atomic e s. induction fuel as [|fuel IH]; intros atomic e s Hw Hf.
  { destruct e; cbn in Hf; lia. }
  (* a later part, after a part that may have read nothing *)
  assert (Hlater : forall a b t1 r1 x, run fuel atomic a x = Matched t1 r1 -> (str_len x <= str_len s)%nat ->
            well_founded b = true -> (if nullable a then rank b <= fuel - per_char * str_len s else True)%nat ->
            (per_char * str_len s <= fuel)%nat ->
            forall y, (str_len y <= str_len r1)%nat -> run fuel atomic b y <> NoFuel).
  { intros a b t1 r1 x Ha Hx Hb Hr Hs y Hy. apply IH; [done|]. apply run_shorter in Ha as [Hle Hlt].
    apply rank_bound in Hb. destruct (nullable a); [|specialize (Hlt eq_refl)]; unfold per_char in *; nia. }
  cbn [run]. destruct e as [t|p| | |a b|a b|a|a|a|a|r]; cbn [rank well_founded] in *; reflect_bools;
    try (by repeat case_match).
  - destruct (run fuel atomic a s) as [| |t1 r1] eqn:Ha; [|done|].
    { exfalso. revert Ha. apply IH; [done|]. destruct (nullable a); lia. }
    destruct (run fuel atomic b _) eqn:Hb; try done. exfalso. revert Hb.
    eapply Hlater; eauto using gap_len; [|lia]. destruct (nullable a); lia.
  - destruct (run fuel atomic a s) eqn:Ha; [|by apply IH; [|lia]|done].
    exfalso. revert Ha. apply IH; [done|lia].
  - destruct (run fuel atomic a s) as [| |t1 r1] eqn:Ha; [|done|].
    { exfalso. revert Ha. apply IH; [done|]. lia. }
    destruct (run fuel atomic (PMore a) r1) eqn:Hb; try done. exfalso. revert Hb.
    rename select (nullable a = false) into Hn.
    eapply (Hlater a); eauto; [|by rewrite Hn|lia].
    cbn [well_founded rank]. rename select (well_founded a = true) into Hwa. rewrite Hwa, Hn. cbn [negb andb]. rewrite andb_true_r.
    apply Nat.leb_le. rename select ((_ <=? _)%nat = true) into Hle. apply Nat.leb_le in Hle. lia.
  - rename select (nullable a = false) into Hn. pose proof (gap_len atomic s) as Hg.
    destruct (run fuel atomic a _) as [| |t1 r1] eqn:Ha; [|done|].
    { exfalso. revert Ha. apply IH; [done|]. unfold per_char in *. lia. }
    destruct (run fuel atomic (PMore a) r1) eqn:Hb; try done. exfalso. revert Hb.
    eapply (Hlater a); eauto; [|by rewrite Hn|lia].
    cbn [well_founded rank]. rename select (well_founded a = true) into Hwa. rewrite Hwa, Hn. cbn [negb andb]. rewrite andb_true_r. done.
  - destruct (run fuel atomic a s) eqn:Ha; try done. exfalso. revert Ha. apply IH; [done|lia].
  - destruct (run fuel atomic a s) eqn:Ha; try done. exfalso. revert Ha. apply IH; [done|lia].
  - destruct (run fuel _ (rule_body r) s) eqn:Hr; try (by destruct atomic). exfalso. revert Hr.
    pose proof (body_ok r) as Hb. reflect_bools. rename select ((rank (rule_body r) <=? _)%nat = true) into Hk.
    apply Nat.leb_le in Hk. apply IH; [done|lia].
Qed.

(** What the parser generated from the grammar computes. *)
Definition parse_fuel (src : string) : nat := (per_char + per_char * str_len src)%nat.
Definition grammar_parse (src : string) : option (list Pair) :=
  match file_outcome (parse_fuel src) src with Matched toks _ => Some toks | _ => None end.

Lemma file_outcome_returns src : file_outcome (parse_fuel src) src <> NoFuel.
Proof.
  assert (He : run (parse_fuel src) false (rule_body R_file) (skip src) <> NoFuel).
  { apply run_enough; [done|]. pose proof (skip_len src). unfold parse_fuel, per_char. cbn [rank rule_body rule_rank nullable]. cbn. lia. }
  unfold file_outcome. by destruct (run _ false _ _).
Qed.

Lemma file_outcome_mono fuel fuel' src :
  (fuel <= fuel')%nat -> file_outcome fuel src <> NoFuel -> file_outcome fuel' src = file_outcome fuel src.
Proof.
  unfold file_outcome. intros Hle Hf. rewrite (run_mono fuel fuel'); [done|done|].
  by destruct (run fuel false _ _).
Qed.

Lemma file_outcome_fuel fuel src :
  file_outcome fuel src <> NoFuel -> file_outcome (parse_fuel src) src = file_outcome fuel src.
Proof.
  intros Hf. destruct (Nat.le_ge_cases fuel (parse_fuel src)).
  - by apply file_outcome_mono.
  - symmetry. apply file_outcome_mono; [done|apply file_outcome_returns].
Qed.

(** C19: parsing a GRL file terminates: no repetition of the grammar can go round
    without reading, so on every text, well formed or not, the grammar gives a tree
    or an error within [parse_fuel] nested calls, and more calls change nothing. *)
Theorem grammar_terminates src more :
  file_outcome (parse_fuel src) src <> NoFuel /\
  file_outcome (parse_fuel src + more) src = file_outcome (parse_fuel src) src.
Proof. split; [|apply file_outcome_mono; [lia|]]; apply file_outcome_returns. Qed.
