(* ===== verification/GrlTree.v ===== *)
(** The trees of the GRL grammar ([grl/grl.pest]): the shape the generated
    parser gives them, why reading them never panics, and the tree of an
    expression written with all its parentheses, which reads back as it. *)
From S2P Require Import Prelude Utf8 RustStd Net Extern Float64 WafTypes Ast GrlParser Pest.
Local Open Scope Z_scope.

(** * Shape of the trees *)

Section PairInd.
Context (P : Pair -> Prop).
Hypothesis HP : forall r t l, Forall P l -> P (mkPair r t l).
Fixpoint Pair_ind' (p : Pair) : P p :=
  match p with
  | mkPair r t l =>
    HP r t l ((fix go (l : list Pair) : Forall P l :=
                 match l with
                 | [] => @List.Forall_nil _ P
                 | p :: l => @List.Forall_cons _ P p l (Pair_ind' p) (go l)
                 end) l)
  end.
End PairInd.

Definition is_rule (r : GrlRule) (p : Pair) : bool := bool_decide (as_rule p = r).

(** [(op ~ operand)*] *)
Fixpoint alternates (is_op : Pair -> bool) (operand : GrlRule) (l : list Pair) : bool :=
  match l with
  | [] => true
  | op :: x :: l => is_op op && is_rule operand x && alternates is_op operand l
  | _ => false
  end.

Definition op_in (r : GrlRule) (ops : list (string * BinOp)) (p : Pair) : bool :=
  is_rule r p && bool_decide (is_Some (find_op ops (pair_str p))).
Definition is_cmp_op (p : Pair) : bool := is_rule R_cmp_op p && bool_decide (is_Some (cmp_op (pair_str p))).

Definition literal_rules : list GrlRule := [R_string; R_float; R_integer; R_bool_lit; R_null_lit].
Definition primary_rules : list GrlRule := [R_literal; R_call_expr; R_path; R_expression].

(** The children of a node of each rule of the grammar. *)
Definition children_ok (r : GrlRule) (l : list Pair) : bool :=
  match r with
  | R_expression => match l with [p] => is_rule R_or_expr p | _ => false end
  | R_or_expr => negb (bool_decide (l = [])) && forallb (is_rule R_and_expr) l
  | R_and_expr => negb (bool_decide (l = [])) && forallb (is_rule R_not_expr) l
  | R_not_expr =>
    match l with
    | [p] => is_rule R_cmp_expr p
    | [op; p] => is_rule R_not_op op && is_rule R_cmp_expr p
    | _ => false
    end
  | R_cmp_expr =>
    match l with
    | [p] => is_rule R_add_expr p
    | [p; op; q] => is_rule R_add_expr p && is_cmp_op op && is_rule R_add_expr q
    | _ => false
    end
  | R_add_expr =>
    match l with p :: l => is_rule R_mul_expr p && alternates (op_in R_add_op add_ops) R_mul_expr l | [] => false end
  | R_mul_expr =>
    match l with p :: l => is_rule R_primary p && alternates (op_in R_mul_op mul_ops) R_primary l | [] => false end
  | R_primary => match l with [p] => bool_decide (as_rule p ∈ primary_rules) | _ => false end
  | R_call_expr =>
    match l with
    | [p] => is_rule R_ident p
    | [p; q] => is_rule R_ident p && is_rule R_arg_list q
    | _ => false
    end
  | R_arg_list => negb (bool_decide (l = [])) && forallb (is_rule R_expression) l
  | R_path =>
    match l with
    | p :: l => is_rule R_ident p && forallb (fun p => is_rule R_ident p || is_rule R_string p) l
    | [] => false
    end
  | R_literal => match l with [p] => bool_decide (as_rule p ∈ literal_rules) | _ => false end
  | R_statement => match l with [p] => is_rule R_assignment p || is_rule R_call_stmt p | _ => false end
  | R_assignment => match l with [p; q] => is_rule R_path p && is_rule R_expression q | _ => false end
  | R_call_stmt => match l with [p] => is_rule R_call_expr p | _ => false end
  | R_rule_def =>
    match l with
    | s :: i :: e :: stmts =>
      is_rule R_string s &&
      (is_rule R_integer i && is_rule R_expression e && forallb (is_rule R_statement) stmts
       || is_rule R_expression i && forallb (is_rule R_statement) (e :: stmts))
    | _ => false
    end
  | R_file => forallb (fun p => is_rule R_rule_def p || is_rule R_EOI p) l
  | _ => true
  end.

Fixpoint grammar_ok (p : Pair) : bool :=
  match p with mkPair r _ l => children_ok r l && forallb grammar_ok l end.

(** The rules [parse_expr] reads. *)
Definition expr_rules : list GrlRule :=
  [R_expression; R_or_expr; R_and_expr; R_not_expr; R_cmp_expr; R_add_expr; R_mul_expr; R_primary;
   R_call_expr; R_path; R_literal].

(** * Reading a tree of the grammar succeeds *)

(** The parser succeeds on every element of a list. *)
Definition reads_all (l : list Pair) : Prop := Forall (fun p => exists e, parse_expr p = Ok e) l.

Lemma is_rule_true r p : is_rule r p = true <-> as_rule p = r.
Proof. apply bool_decide_eq_true. Qed.

Lemma parse_binary_ok op l : l <> [] -> reads_all l -> exists e, parse_binary parse_expr op l = Ok e.
Proof.
  destruct l as [|p l]; [done|]. intros _ Hl. inversion Hl as [|? ? [e He] Hrest]. subst. clear Hl.
  unfold parse_binary. rewrite He. cbn. clear He p. revert e.
  induction Hrest as [|q l [e' He'] _ IH]; intros e; [by exists e|]. cbn. rewrite He'. cbn. apply IH.
Qed.

Lemma parse_left_assoc_ok r ops operand p l :
  (exists e, parse_expr p = Ok e) ->
  alternates (op_in r ops) operand l = true ->
  Forall (fun q => as_rule q = operand -> exists e, parse_expr q = Ok e) l ->
  exists e, parse_left_assoc parse_expr ops (p :: l) = Ok e.
Proof.
  intros [e He] Halt Hl. unfold parse_left_assoc. rewrite He. cbn. clear He p. revert e.
  remember (length l) as n eqn:Hn. revert l Halt Hl Hn.
  induction n as [n IH] using lt_wf_ind. intros [|op [|x l]] Halt Hl Hn e; [by exists e|done|].
  cbn [alternates] in Halt. reflect_bools.
  inversion Hl as [|? ? _ Hl']. inversion Hl' as [|? ? Hx Hrest]. subst.
  destruct (Hx ltac:(by apply is_rule_true)) as [e' He'].
  rename select (op_in _ _ _ = true) into Hop. unfold op_in in Hop. reflect_bools.
  rename select (is_Some _) into Hsome. destruct Hsome as [o Ho].
  cbn. rewrite Ho. cbn. rewrite He'. cbn. eapply IH; [|done|done|done]. cbn. lia.
Qed.

Lemma parse_args_ok l : reads_all l -> exists es, parse_args parse_expr l = Ok es.
Proof.
  induction 1 as [|p l [e He] _ [es Hes]]; [by exists []|].
  cbn. rewrite He. cbn. rewrite Hes. cbn. eauto.
Qed.

Lemma parse_literal_ok t l :
  children_ok R_literal l = true -> exists v, parse_literal (mkPair R_literal t l) = Ok v.
Proof.
  destruct l as [|p [|]]; [done| |done]. cbn [children_ok]. intros H. reflect_bools.
  unfold parse_literal. cbn [into_inner]. unfold literal_rules in *.
  destruct (as_rule p); eauto; set_solver.
Qed.

Definition readable (p : Pair) : Prop :=
  grammar_ok p = true -> as_rule p ∈ expr_rules ->
  exists e, parse_expr p = Ok e.

Ltac expr_rule := unfold expr_rules; set_solver.

(** The children of a node, those of one rule of [expr_rules], are read. *)
Lemma children_read (r : GrlRule) (l : list Pair) :
  r ∈ expr_rules -> Forall readable l -> forallb grammar_ok l = true -> forallb (is_rule r) l = true ->
  reads_all l.
Proof.
  intros Hr Hl Hg His. rewrite List.forallb_forall in Hg, His. apply List.Forall_forall.
  intros p Hp. rewrite List.Forall_forall in Hl. apply (Hl p Hp); [by apply Hg|].
  specialize (His p Hp). apply is_rule_true in His. by rewrite His.
Qed.

Lemma operands_read (r : GrlRule) (l : list Pair) :
  r ∈ expr_rules -> Forall readable l -> forallb grammar_ok l = true ->
  Forall (fun q => as_rule q = r -> exists e, parse_expr q = Ok e) l.
Proof.
  intros Hr Hl Hg. rewrite List.forallb_forall in Hg. rewrite List.Forall_forall in Hl. apply List.Forall_forall.
  intros p Hp Hpr. apply (Hl p Hp); [by apply Hg|]. by rewrite Hpr.
Qed.

Lemma parse_not_ok t l :
  Forall readable l -> children_ok R_not_expr l = true -> forallb grammar_ok l = true ->
  exists e, parse_expr (mkPair R_not_expr t l) = Ok e.
Proof.
  intros Hl Hc Hg. destruct l as [|p [|q [|]]]; try done; cbn [children_ok forallb] in *; reflect_bools.
  - inversion Hl as [|? ? Hp _]. subst. rename select (is_rule _ _ = true) into Hr. apply is_rule_true in Hr.
    destruct Hp as [e He]; [done|rewrite Hr; expr_rule|]. exists e. destruct p as [r ? ?]. cbn in Hr. by subst.
  - inversion Hl as [|? ? _ Hl']. inversion Hl' as [|? ? Hq _]. subst.
    rename select (is_rule R_not_op p = true) into Hop. rename select (is_rule R_cmp_expr q = true) into Hr.
    apply is_rule_true in Hop, Hr. destruct Hq as [e He]; [done|rewrite Hr; expr_rule|].
    destruct p as [r ? ?]. cbn in Hop. subst. cbn. rewrite He. cbn. eauto.
Qed.

Lemma parse_cmp_ok t l :
  Forall readable l -> children_ok R_cmp_expr l = true -> forallb grammar_ok l = true ->
  exists e, parse_expr (mkPair R_cmp_expr t l) = Ok e.
Proof.
  intros Hl Hc Hg. pose proof (operands_read R_add_expr l ltac:(expr_rule) Hl Hg) as Hops.
  destruct l as [|p [|op [|q [|]]]]; try done; cbn [children_ok] in Hc; reflect_bools;
    inversion Hops as [|? ? Hp Hrest]; subst; destruct Hp as [e He]; try (by apply is_rule_true).
  - exists e. cbn. by rewrite He.
  - inversion Hrest as [|? ? _ Hq']. inversion Hq' as [|? ? Hq _]. subst.
    destruct Hq as [e' He']; [by apply is_rule_true|].
    rename select (is_cmp_op op = true) into Hop. unfold is_cmp_op in Hop. reflect_bools.
    rename select (is_Some _) into Hsome. destruct Hsome as [o Ho].
    cbn. rewrite He. cbn. rewrite Ho. cbn. rewrite He'. cbn. eauto.
Qed.

Lemma parse_chain_ok (r op_rule operand : GrlRule) ops l :
  operand ∈ expr_rules -> Forall readable l -> forallb grammar_ok l = true ->
  match l with p :: l => is_rule operand p && alternates (op_in op_rule ops) operand l | [] => false end = true ->
  exists e, parse_left_assoc parse_expr ops l = Ok e.
Proof.
  intros Ho Hl Hg Hc. pose proof (operands_read operand l Ho Hl Hg) as Hops.
  destruct l as [|p l]; [done|]. reflect_bools. inversion Hops as [|? ? Hp Hrest]. subst.
  eapply parse_left_assoc_ok; [|done|done]. apply Hp. by apply is_rule_true.
Qed.

Lemma call_args_ok l :
  Forall readable l -> forallb grammar_ok l = true -> forallb (is_rule R_expression) l = true ->
  exists es, parse_args parse_expr l = Ok es.
Proof. intros Hl Hg Hr. apply parse_args_ok. eapply (children_read R_expression); eauto. expr_rule. Qed.

(** The arguments are the grandchildren of a call. *)
Definition grand_readable (p : Pair) : Prop := readable p /\ Forall readable (into_inner p).

Lemma parse_call_ok l :
  Forall grand_readable l -> children_ok R_call_expr l = true -> forallb grammar_ok l = true ->
  exists c, parse_call_with parse_expr l = Ok c.
Proof.
  intros Hl Hc Hg. destruct l as [|name [|[r t args] [|]]]; try done; [cbn; eauto|].
  cbn [children_ok forallb] in *. reflect_bools.
  rename select (is_rule R_arg_list _ = true) into Hr. apply is_rule_true in Hr. cbn in Hr. subst r.
  inversion Hl as [|? ? _ Hl']. inversion Hl' as [|? ? [_ Hargs] _]. subst.
  rename select (grammar_ok (mkPair _ _ _) = true) into Hga. cbn [grammar_ok children_ok] in Hga. reflect_bools.
  destruct (call_args_ok args) as [es Hes]; [done..|]. cbn. rewrite Hes. cbn. eauto.
Qed.

Lemma parse_primary_ok t l :
  Forall readable l -> children_ok R_primary l = true -> forallb grammar_ok l = true ->
  exists e, parse_expr (mkPair R_primary t l) = Ok e.
Proof.
  intros Hl Hc Hg. destruct l as [|p [|]]; try done. cbn [children_ok forallb] in *. reflect_bools.
  inversion Hl as [|? ? Hp _]. subst. apply Hp; [done|].
  unfold primary_rules in *. unfold expr_rules. set_solver.
Qed.

(** Reading any expression tree of the grammar gives an expression: none of the
    unwraps of the reader fails and no operator is unknown. *)
Lemma grammar_readable p : grand_readable p.
Proof.
  induction p as [r t l Hl] using Pair_ind'.
  assert (Hr : Forall readable l) by (eapply List.Forall_impl; [|exact Hl]; by intros ? []).
  split; [|done]. intros Hg He. cbn [grammar_ok] in Hg. cbn [as_rule] in He. reflect_bools.
  rename select (children_ok _ _ = true) into Hc. rename select (forallb _ _ = true) into Hgl.
  unfold expr_rules in He. repeat (apply elem_of_cons in He as [->|He]); [..|by apply elem_of_nil in He].
  - destruct l as [|p [|]]; [done| |done]. cbn [children_ok] in Hc. apply parse_binary_ok; [done|].
    eapply (children_read R_or_expr); eauto; [expr_rule|]. cbn. by rewrite Hc.
  - cbn [children_ok] in Hc. reflect_bools. apply parse_binary_ok; [done|].
    eapply (children_read R_and_expr); eauto. expr_rule.
  - cbn [children_ok] in Hc. reflect_bools. apply parse_binary_ok; [done|].
    eapply (children_read R_not_expr); eauto. expr_rule.
  - by apply parse_not_ok.
  - by apply parse_cmp_ok.
  - eapply (parse_chain_ok R_add_expr R_add_op R_mul_expr); eauto. expr_rule.
  - eapply (parse_chain_ok R_mul_expr R_mul_op R_primary); eauto. expr_rule.
  - by apply parse_primary_ok.
  - destruct (parse_call_ok l) as [c Hcall]; [done..|]. cbn. rewrite Hcall. cbn. eauto.
  - cbn. eauto.
  - destruct (parse_literal_ok t l Hc) as [v Hv]. cbn [parse_expr]. rewrite Hv. cbn. eauto.
Qed.

(** ** Statements, rules and files *)

Lemma expression_read p : grammar_ok p = true -> is_rule R_expression p = true -> exists e, parse_expr p = Ok e.
Proof. intros Hg Hr. apply grammar_readable; [done|]. apply is_rule_true in Hr. rewrite Hr. expr_rule. Qed.

Lemma call_read p : grammar_ok p = true -> is_rule R_call_expr p = true -> exists c, parse_call p = Ok c.
Proof.
  intros Hg Hr. apply is_rule_true in Hr. destruct p as [r t l]. cbn in Hr. subst. cbn [grammar_ok] in Hg.
  reflect_bools. apply parse_call_ok; [|done|done].
  apply List.Forall_forall. intros q _. apply grammar_readable.
Qed.

Lemma statement_read p : grammar_ok p = true -> is_rule R_statement p = true -> exists s, parse_stmt p = Ok s.
Proof.
  intros Hg Hr. apply is_rule_true in Hr. destruct p as [r t [|q [|]]]; cbn in Hr; subst; try done.
  cbn [grammar_ok children_ok forallb] in Hg. reflect_bools.
  rename select (is_rule R_assignment q || _ = true) into Hq. apply orb_true_iff in Hq as [Hq|Hq]; apply is_rule_true in Hq;
    unfold parse_stmt; cbn [into_inner]; rewrite Hq; destruct q as [r t' l]; cbn in Hq; subst r;
    rename select (grammar_ok _ = true) into Hgq; cbn [grammar_ok children_ok] in Hgq; reflect_bools.
  - destruct l as [|target [|value [|]]]; try done. cbn [forallb] in *. reflect_bools. cbn [into_inner].
    destruct (expression_read value) as [e He]; [done..|]. rewrite He. cbn. eauto.
  - destruct l as [|c [|]]; try done. cbn [forallb] in *. reflect_bools. cbn [into_inner].
    destruct (call_read c) as [x Hx]; [done..|]. rewrite Hx. cbn. eauto.
Qed.

(** The name of a rule definition in its tree. *)
Definition def_name (p : Pair) : string :=
  match into_inner p with s :: _ => unquote (pair_str s) | [] => "" end.
Definition def_statements (p : Pair) : list Pair := List.filter (is_rule R_statement) (into_inner p).

Lemma statements_read l acc :
  forallb (is_rule R_statement) l = true -> forallb grammar_ok l = true ->
  exists ss, rule_parts acc l = Ok (mkPartial (pr_name acc) (pr_salience acc) (pr_when acc) (pr_then acc ++ ss)) /\
             length ss = length l.
Proof.
  revert acc. induction l as [|p l IH]; intros acc Hs Hg.
  - exists []. rewrite app_nil_r. by destruct acc.
  - cbn [forallb] in *. reflect_bools. destruct (statement_read p) as [s Hst]; [done..|].
    assert (Hp : as_rule p = R_statement) by (by apply is_rule_true).
    cbn [rule_parts]. unfold rule_part at 1. rewrite Hp, Hst. cbn.
    destruct (IH (mkPartial (pr_name acc) (pr_salience acc) (pr_when acc) (pr_then acc ++ [s]))) as (ss & Hss & Hlen);
      [done..|].
    exists (s :: ss). rewrite Hss. cbn. rewrite <-app_assoc, Hlen. done.
Qed.

Lemma filter_all_true {A} (f : A -> bool) l : forallb f l = true -> List.filter f l = l.
Proof. induction l as [|x l IH]; [done|]. cbn. intros H. reflect_bools. rename select (f x = true) into Hx. rewrite Hx. by rewrite IH. Qed.

Lemma filter_statements_skip p l :
  as_rule p <> R_statement -> List.filter (is_rule R_statement) (p :: l) = List.filter (is_rule R_statement) l.
Proof.
  intros Hp. cbn. destruct (is_rule R_statement p) eqn:E; [|done]. by apply is_rule_true in E.
Qed.

(** A rule definition read: its name and as many actions as it has statements. *)
Definition reads_def (p : Pair) (r : RuleAst) : Prop :=
  ra_name r = def_name p /\ length (ra_then r) = length (def_statements p).

Lemma part_string acc p :
  is_rule R_string p = true ->
  rule_part acc p = Ok (mkPartial (unquote (pair_str p)) (pr_salience acc) (pr_when acc) (pr_then acc)).
Proof. intros Hp%is_rule_true. unfold rule_part. by rewrite Hp. Qed.
Lemma part_integer acc p :
  is_rule R_integer p = true ->
  rule_part acc p = Ok (mkPartial (pr_name acc) (default 0 (parse_signed 32 (pair_str p))) (pr_when acc) (pr_then acc)).
Proof. intros Hp%is_rule_true. unfold rule_part. by rewrite Hp. Qed.
Lemma part_expression acc p :
  is_rule R_expression p = true -> grammar_ok p = true ->
  exists e, rule_part acc p = Ok (mkPartial (pr_name acc) (pr_salience acc) (Some e) (pr_then acc)).
Proof.
  intros Hp Hg. destruct (expression_read p Hg Hp) as [e He]. apply is_rule_true in Hp.
  exists e. unfold rule_part. by rewrite Hp, He.
Qed.
Lemma rule_parts_step acc acc' p l : rule_part acc p = Ok acc' -> rule_parts acc (p :: l) = rule_parts acc' l.
Proof. intros H. cbn [rule_parts]. by rewrite H. Qed.

Lemma is_rule_ne r r' p : is_rule r p = true -> r <> r' -> as_rule p <> r'.
Proof. intros H%is_rule_true. congruence. Qed.

(** What follows the name of a definition: perhaps a salience, then the condition
    and the statements. *)
Lemma after_name_read acc e stmts :
  is_rule R_expression e = true -> forallb (is_rule R_statement) stmts = true ->
  forallb grammar_ok (e :: stmts) = true -> pr_then acc = [] ->
  exists acc' w, rule_parts acc (e :: stmts) = Ok acc' /\ pr_name acc' = pr_name acc /\ pr_when acc' = Some w /\
    length (pr_then acc') = length (List.filter (is_rule R_statement) (e :: stmts)).
Proof.
  intros He Hs Hg Hthen. cbn [forallb] in Hg. reflect_bools.
  destruct (part_expression acc e) as [x Hx]; [done..|]. rewrite (rule_parts_step _ _ _ _ Hx).
  destruct (statements_read stmts (mkPartial (pr_name acc) (pr_salience acc) (Some x) (pr_then acc))) as (ss & -> & Hl);
    [done..|].
  eexists _, x. split; [done|]. cbn [pr_name pr_when pr_then]. rewrite Hthen. cbn [app].
  rewrite filter_statements_skip by (by apply (is_rule_ne R_expression)). by rewrite filter_all_true.
Qed.

Lemma rule_read p :
  grammar_ok p = true -> as_rule p = R_rule_def -> exists r, parse_rule p = Ok r /\ reads_def p r.
Proof.
  intros Hg Hr. destruct p as [r t l]. cbn in Hr. subst r. cbn [grammar_ok] in Hg. reflect_bools.
  rename select (children_ok _ _ = true) into Hc. rename select (forallb grammar_ok _ = true) into Hgl.
  destruct l as [|s [|i [|e stmts]]]; try done. cbn [children_ok] in Hc. reflect_bools.
  rename select (is_rule R_string s = true) into Hs. rename select (_ || _ = true) into Hor.
  unfold parse_rule, reads_def, def_name, def_statements. cbn [into_inner].
  rewrite filter_statements_skip by (by apply (is_rule_ne R_string)).
  rewrite (rule_parts_step _ _ _ _ (part_string _ _ Hs)).
  assert (Hall : forallb grammar_ok (i :: e :: stmts) = true) by (cbn [forallb] in Hgl |- *; by apply andb_true_iff in Hgl as [_ ?]).
  assert (Htail : forallb grammar_ok (e :: stmts) = true) by (by apply andb_true_iff in Hall as [_ ?]).
  apply orb_true_iff in Hor as [Hi|Hi]; reflect_bools.
  - rename select (is_rule R_integer i = true) into Hint.
    rewrite (rule_parts_step _ _ _ _ (part_integer _ _ Hint)).
    rewrite filter_statements_skip by (by apply (is_rule_ne R_integer)).
    edestruct (after_name_read (mkPartial (unquote (pair_str s)) (default 0 (parse_signed 32 (pair_str i))) None []) e stmts)
      as (acc & w & Hacc & Hn & Hw & Hl); [done..|].
    cbn [pr_name pr_salience pr_when pr_then] in *. rewrite Hacc. cbn. rewrite Hw. cbn. eauto.
  - destruct (after_name_read (mkPartial (unquote (pair_str s)) 0 None []) i (e :: stmts))
      as (acc & w & Hacc & Hn & Hw & Hl); [done..|].
    cbn [pr_name pr_salience pr_when pr_then] in *. rewrite Hacc. cbn [mbind result_mbind]. rewrite Hw. cbn [mbind result_mbind ok_or]. eauto.
Qed.

(** * The grammar gives trees of this shape *)

(** The children that a parsing expression can give outside an atomic rule. *)
Inductive reps (P : list Pair -> Prop) : list Pair -> Prop :=
| reps_nil : reps P []
| reps_more l1 l2 : P l1 -> reps P l2 -> reps P (l1 ++ l2).

Definition op_ok (p : Pair) : bool :=
  match as_rule p with
  | R_add_op => op_in R_add_op add_ops p
  | R_mul_op => op_in R_mul_op mul_ops p
  | R_cmp_op => is_cmp_op p
  | _ => true
  end.
Definition node (r : GrlRule) (l : list Pair) : Prop :=
  exists p, l = [p] /\ as_rule p = r /\ grammar_ok p = true /\ op_ok p = true.
Fixpoint shape (e : peg) (l : list Pair) : Prop :=
  match e with
  | PStr _ | PByte _ | PAny | PEnd | PNot _ => l = []
  | PSeq a b => exists l1 l2, l = l1 ++ l2 /\ shape a l1 /\ shape b l2
  | PAlt a b => shape a l \/ shape b l
  | PStar a | PMore a => reps (shape a) l
  | POpt a => l = [] \/ shape a l
  | PRule r => node r l
  end.

Lemma reps_nodes r l : reps (node r) l -> forallb (is_rule r) l = true /\ forallb grammar_ok l = true.
Proof.
  induction 1 as [|l1 l2 (p & -> & Hr & Hg & _) _ [IHr IHg]]; [done|]. cbn [app forallb].
  apply is_rule_true in Hr. by rewrite Hr, Hg, IHr, IHg.
Qed.
Lemma reps_sep (P : list Pair -> Prop) r l :
  (forall l, P l -> node r l) -> reps P l -> forallb (is_rule r) l = true /\ forallb grammar_ok l = true.
Proof. intros HP H. apply reps_nodes. induction H; [constructor|constructor; auto]. Qed.

(** An operand and its operator, repeated. *)
Lemma reps_ops opr ops operand l :
  (forall p, as_rule p = opr -> op_ok p = true -> op_in opr ops p = true) ->
  reps (shape (PSeq (PRule opr) (PRule operand))) l ->
  alternates (op_in opr ops) operand l = true /\ forallb grammar_ok l = true.
Proof.
  intros Hop. induction 1 as [|l1 l2 (l3 & l4 & -> & (p & -> & Hp & Hgp & Ho) & (q & -> & Hq & Hgq & _)) _ [IH IHg]]; [done|].
  apply is_rule_true in Hq. cbn [app alternates forallb]. by rewrite Hop, Hq, IH, Hgp, Hgq.
Qed.

(** A choice between symbols. *)
Fixpoint symbols (t : string) (l : list string) : peg :=
  match l with [] => PStr t | u :: l => PAlt (PStr t) (symbols u l) end.
Lemma run_symbols fuel t l s toks rest :
  run fuel false (symbols t l) s = Matched toks rest -> toks = [] /\ exists u, u ∈ t :: l /\ s = u +:+ rest.
Proof.
  assert (Hstr : forall fuel t, run fuel false (PStr t) s = Matched toks rest -> toks = [] /\ s = t +:+ rest).
  { intros [|f] u; [done|]. cbn [run]. destruct (strip_prefix u s) eqn:E; [|done]. intros [= <- <-].
    split; [done|]. by apply strip_prefix_Some. }
  revert fuel t. induction l as [|u l IH]; intros fuel t H; cbn [symbols] in H.
  - apply Hstr in H as [-> ->]. split; [done|]. exists t. set_solver.
  - destruct fuel as [|fuel]; [done|]. cbn [run] in H. destruct (run fuel false (PStr t) s) eqn:E; [done| |].
    + apply IH in H as [-> (v & Hv & ->)]. split; [done|]. exists v. set_solver.
    + injection H as -> ->. apply Hstr in E as [-> ->]. split; [done|]. exists t. set_solver.
Qed.
Lemma run_op_ok fuel r s toks rest :
  run fuel false (rule_body r) s = Matched toks rest -> op_ok (mkPair r (span s rest) toks) = true.
Proof.
  assert (Hsym : forall t l, run fuel false (symbols t l) s = Matched toks rest -> span s rest ∈ t :: l).
  { intros t l (_ & u & Hu & ->)%run_symbols. by rewrite span_app. }
  intros H. destruct r; try done; unfold op_ok, op_in, is_cmp_op; cbn [as_rule is_rule pair_str].
  - specialize (Hsym "==" ["!="; "<="; ">="; "<"; ">"] H).
    repeat (apply elem_of_cons in Hsym as [->|Hsym]; [done|]). by apply elem_of_nil in Hsym.
  - specialize (Hsym "+" ["-"] H).
    repeat (apply elem_of_cons in Hsym as [->|Hsym]; [done|]). by apply elem_of_nil in Hsym.
  - specialize (Hsym "*" ["/"] H).
    repeat (apply elem_of_cons in Hsym as [->|Hsym]; [done|]). by apply elem_of_nil in Hsym.
Qed.

(** Take the shape of a sequence apart. *)
Ltac nodes :=
  repeat match goal with
  | H : shape _ _ |- _ => progress cbn [shape rule_body PPlus] in H
  | H : _ /\ _ |- _ => destruct H
  | H : exists _, _ |- _ => destruct H
  | H : _ \/ _ |- _ => destruct H
  | H : node _ _ |- _ => destruct H as (? & -> & ? & ? & ?)
  | H : as_rule _ = _ |- _ => apply is_rule_true in H
  | H : _ = [] |- _ => subst
  | H : _ = _ ++ _ |- _ => subst
  end; cbn [app children_ok forallb]; rewrite ?app_nil_r.
Ltac grab :=
  repeat match goal with
  | H : is_rule _ _ = true |- _ => rewrite H; clear H
  | H : grammar_ok _ = true |- _ => rewrite H; clear H
  | H : forallb _ _ = true |- _ => rewrite H; clear H
  | H : alternates _ _ _ = true |- _ => rewrite H; clear H
  end; rewrite ?orb_true_r.

(** Operands after the first, each preceded by a symbol. *)
Lemma reps_operands t r l :
  reps (shape (PSeq (PStr t) (PRule r))) l -> forallb (is_rule r) l = true /\ forallb grammar_ok l = true.
Proof. apply reps_sep. intros k (l1 & l2 & -> & -> & H). exact H. Qed.

Lemma is_rule_in r p (l : list GrlRule) : is_rule r p = true -> r ∈ l -> bool_decide (as_rule p ∈ l) = true.
Proof. intros <-%is_rule_true Hr. by apply bool_decide_eq_true. Qed.

Lemma op_ok_in opr ops p :
  (opr = R_add_op /\ ops = add_ops) \/ (opr = R_mul_op /\ ops = mul_ops) ->
  as_rule p = opr -> op_ok p = true -> op_in opr ops p = true.
Proof. unfold op_ok. intros [[-> ->]|[-> ->]] ->; done. Qed.

Lemma cmp_op_ok p : is_rule R_cmp_op p = true -> op_ok p = true -> is_cmp_op p = true.
Proof. intros Hp%is_rule_true. unfold op_ok. by rewrite Hp. Qed.

(** The keys and fields of a path. *)
Lemma reps_segs l :
  reps (shape (PAlt (PSeq (PStr ".") (PRule R_ident)) (PSeq (PSeq (PStr "[") (PRule R_string)) (PStr "]")))) l ->
  forallb (fun p => is_rule R_ident p || is_rule R_string p) l = true /\ forallb grammar_ok l = true.
Proof.
  induction 1 as [|l1 l2 H _ [IHr IHg]]; [done|]. rewrite !forallb_app, IHr, IHg. nodes; by grab.
Qed.

(** Each rule gives the children that [children_ok] expects of it. *)
Lemma body_children r l :
  is_atomic r = false -> shape (rule_body r) l -> children_ok r l = true /\ forallb grammar_ok l = true.
Proof.
  intros Ha H. destruct r; try discriminate Ha; clear Ha.
  - nodes. rename select (reps _ _) into Hr. apply reps_nodes in Hr as [Hr Hg]. rewrite !forallb_app. cbn [forallb].
    grab. split; [|done]. rewrite andb_true_r. apply List.forallb_forall. intros p Hp.
    rewrite List.forallb_forall in Hr. by rewrite Hr.
  - nodes; rename select (reps _ _) into Hr; apply reps_nodes in Hr as [Hr Hg]; by grab.
  - nodes; by grab.
  - nodes; by grab.
  - nodes; by grab.
  - nodes; by grab.
  - nodes. rename select (reps _ _) into Hr. apply (reps_operands "") in Hr as [Hr Hg]. by grab.
  - nodes. rename select (reps _ _) into Hr. apply (reps_operands "") in Hr as [Hr Hg]. by grab.
  - nodes; by grab.
  - by nodes.
  - nodes; [by grab|]. rename select (is_rule R_cmp_op _ = true) into Hc.
    match type of Hc with is_rule _ ?x = _ => assert (Ho : is_cmp_op x = true) by (by apply cmp_op_ok) end.
    rewrite Ho. by grab.
  - by nodes.
  - nodes. rename select (reps _ _) into Hr. apply (reps_ops R_add_op add_ops) in Hr as [Hr Hg]; [by grab|].
    intros p. apply op_ok_in. by left.
  - by nodes.
  - nodes. rename select (reps _ _) into Hr. apply (reps_ops R_mul_op mul_ops) in Hr as [Hr Hg]; [by grab|].
    intros p. apply op_ok_in. by right.
  - by nodes.
  - nodes; grab; (split; [|done]); eapply is_rule_in; eauto; unfold primary_rules; set_solver.
  - nodes; by grab.
  - nodes. rename select (reps _ _) into Hr. apply (reps_operands "") in Hr as [Hr Hg]. by grab.
  - nodes. rename select (reps _ _) into Hr. apply reps_segs in Hr as [Hr Hg]. by grab.
  - nodes; grab; (split; [|done]); eapply is_rule_in; eauto; unfold literal_rules; set_solver.
  - by nodes.
Qed.

Lemma run_atomic_toks fuel e s toks rest : run fuel true e s = Matched toks rest -> toks = [].
Proof.
  revert e s toks rest. induction fuel as [|fuel IH]; [done|]. intros e s toks rest H. cbn [run] in H.
  destruct e; repeat case_match; simplify_eq; try done;
    repeat match goal with Hr : run _ true _ _ = Matched _ _ |- _ => apply IH in Hr as -> end; done.
Qed.

Lemma run_shape fuel e s toks rest : run fuel false e s = Matched toks rest -> shape e toks.
Proof.
  revert e s toks rest. induction fuel as [|fuel IH]; [done|]. intros e s toks rest H. cbn [run] in H.
  destruct e as [t|p| | |a b|a b|a|a|a|a|r]; cbn [shape].
  1-4: by repeat case_match; simplify_eq.
  - destruct (run fuel false a s) eqn:Ha; try done. destruct (run fuel false b _) eqn:Hb; try done.
    injection H as <- <-. exists toks0, toks1. split; [done|]. split; by eapply IH.
  - destruct (run fuel false a s) eqn:Ha; try done; [right|left]; [by eapply IH|]. injection H as <- <-. by eapply IH.
  - destruct (run fuel false a s) eqn:Ha; try done; [injection H as <- <-; constructor|].
    destruct (run fuel false (PMore a) _) eqn:Hb; try done. injection H as <- <-. constructor; [by eapply IH|].
    apply IH in Hb. exact Hb.
  - destruct (run fuel false a _) eqn:Ha; try done; [injection H as <- <-; constructor|].
    destruct (run fuel false (PMore a) _) eqn:Hb; try done. injection H as <- <-. constructor; [by eapply IH|].
    apply IH in Hb. exact Hb.
  - destruct (run fuel false a s) eqn:Ha; try done; [injection H as <- <-; by left|]. injection H as <- <-. right. by eapply IH.
  - by destruct (run fuel false a s); simplify_eq.
  - cbn [orb] in H. destruct (run fuel (is_atomic r) (rule_body r) s) as [| |l rest'] eqn:Hr; try done. injection H as <- <-.
    exists (mkPair r (span s rest') l). split; [done|]. split; [done|]. cbn [grammar_ok].
    destruct (is_atomic r) eqn:Ha.
    + apply run_atomic_toks in Hr as ->. by destruct r.
    + destruct (body_children r l Ha) as [Hc Hg]; [by eapply IH|]. rewrite Hc, Hg. split; [done|]. by eapply run_op_ok.
Qed.

(** The parser's trees are trees of the grammar. *)
Lemma grammar_parse_ok src pairs :
  grammar_parse src = Some pairs -> exists file, pairs = [file] /\ as_rule file = R_file /\ grammar_ok file = true.
Proof.
  unfold grammar_parse, file_outcome. destruct (run _ false (rule_body R_file) _) as [| |l rest] eqn:Hr; [done..|].
  intros [= <-]. eexists. split; [done|]. split; [done|]. cbn [grammar_ok].
  destruct (body_children R_file l eq_refl) as [-> ->]; [by eapply run_shape|done].
Qed.

Section Parsed.
Variable pest_parse : string -> option (list Pair).
(** The parser that pest generates parses the grammar. *)
Hypothesis pest_parses_grammar : forall src, pest_parse src = grammar_parse src.

(** The rule definitions of a parsed file. *)
Definition file_defs (pairs : list Pair) : list Pair :=
  match pairs with file :: _ => List.filter (is_rule R_rule_def) (into_inner file) | [] => [] end.

(** C14: reading GRL text never panics: a text outside the grammar is a syntax
    error, and any other gives one rule per definition, in order, with its name
    and as many actions as statements. *)
Theorem grl_parse_total src :
  match grammar_parse src with
  | None => grl_parse pest_parse src = Err GrlSyntax
  | Some pairs => exists rules, grl_parse pest_parse src = Ok rules /\ Forall2 reads_def (file_defs pairs) rules
  end.
Proof.
  unfold grl_parse. rewrite pest_parses_grammar. destruct (grammar_parse src) as [pairs|] eqn:Hp; [|done].
  destruct (grammar_parse_ok src pairs Hp) as ([r t l] & -> & Hr & Hg). cbn in Hr. subst r.
  cbn [grammar_ok] in Hg. reflect_bools. cbn -[collect_result parse_rule].
  apply collect_result_ok. intros p [Hin Hd]%List.filter_In. rename select (forallb grammar_ok l = true) into Hl.
  rewrite List.forallb_forall in Hl. apply rule_read; [by apply Hl|by apply is_rule_true].
Qed.
End Parsed.

Definition sample_rule : string :=
  "rule " +:+ quote +:+ "r" +:+ quote +:+ " { when !matches(Request.Path, " +:+ quote +:+ "^/v" +:+ quote
    +:+ ") && Request.RiskScore < 3 - 4 then allow(); } // end".
Lemma grl_parse_total_witness :
  exists rules, grl_parse grammar_parse sample_rule = Ok rules /\
    Forall2 reads_def (default [] (file_defs <$> grammar_parse sample_rule)) rules.
Proof. exact (grl_parse_total grammar_parse (fun _ => eq_refl) sample_rule). Defined.
