(* ===== verification/Converter.v ===== *)
(** From YAML rule files to GRL source text ([grl/converter.rs]).  The YAML
    document type is the one of [serde_yaml], a parameter with the accessors the
    converter calls; the functions that walk a condition take a fuel, and the
    size of the document is enough. *)
From S2P Require Import Prelude Utf8 RustStd Net Extern Float64 WafTypes Ast GrlParser.
Local Open Scope Z_scope.

(** [serde_yaml::Value] and its accessors; the laws say that the parts of a
    document are smaller than the document. *)
Class YamlLib := {
  yaml : Type;
  mapping : Type;
  y_str : yaml -> option string;
  y_u64 : yaml -> option Z;
  y_i64 : yaml -> option Z;
  y_sequence : yaml -> option (list yaml);
  y_mapping : yaml -> option mapping;
  (** [map.get(Value::String(key))] and [value.get(key)] *)
  map_get : string -> mapping -> option yaml;
  y_get : string -> yaml -> option yaml;
  y_size : yaml -> nat;
  y_sequence_size : forall v l x, y_sequence v = Some l -> In x l -> (y_size x < y_size v)%nat;
  y_mapping_size : forall v m k x, y_mapping v = Some m -> map_get k m = Some x -> (y_size x < y_size v)%nat
}.

Section Converter.
Context `{UnicodeTables, YamlLib}.

(** [map.get(key).and_then(|x| x.as_str())] *)
Definition str_field (key : string) (m : mapping) : option string := map_get key m ≫= y_str.
Definition str_or_empty (key : string) (m : mapping) : string := default "" (str_field key m).

(** * Texts *)

(** [format!] of a literal between quotes without escapes. *)
Definition quoted (s : string) : string := String dquote (s +:+ String dquote "").

Fixpoint escape_quotes (s : string) : string :=
  match s with
  | "" => ""
  | String c s =>
    if Ascii.eqb c dquote then String backslash (String dquote (escape_quotes s)) else String c (escape_quotes s)
  end.
Definition grl_string_literal (s : string) : string := String dquote (escape_quotes s +:+ String dquote "").

Definition regex_meta : string := ".+*?^${}()|[]\".
Fixpoint regex_escape (s : string) : string :=
  match s with
  | "" => ""
  | String c s =>
    if contains regex_meta (String c "") then String backslash (String c (regex_escape s))
    else String c (regex_escape s)
  end.

Definition path_match_grl (p : string) : string :=
  if String.eqb p "/**" || String.eqb p "**" then "true"
  else match strip_suffix "/*" p with
  | Some prefix => "matches(Request.Path, " +:+ quoted ("^" +:+ regex_escape prefix +:+ "/[^/]+$") +:+ ")"
  | None =>
    match strip_suffix "/**" p with
    | Some prefix => "starts_with(Request.Path, " +:+ debug_str (prefix +:+ "/") +:+ ")"
    | None => "Request.Path == " +:+ debug_str p
    end
  end.

(** * Scopes *)

Definition scope_to_grl (scope : option yaml) : option string :=
  scope ← scope;
  match y_str scope with
  | Some s => if String.eqb s "global" then None else Some ("Request.Tier == " +:+ debug_str s)
  | None =>
    map ← y_mapping scope;
    kind ← str_field "type" map;
    if String.eqb kind "global" then None
    else if String.eqb kind "tier" then
      tier ← str_field "tier" map; Some ("Request.Tier == " +:+ debug_str tier)
    else if String.eqb kind "route_pattern" then
      p ← str_field "pattern" map; Some (path_match_grl p)
    else if String.eqb kind "ip" then
      ip ← str_field "ip" map; Some ("Request.ClientIp == " +:+ debug_str ip)
    else None
  end.

(** * Conditions in the field/match/value format *)

Definition header_exact (value : string) : string :=
  match split_once ":" value with
  | Some (name, val) =>
    "Request.Headers[" +:+ grl_string_literal name +:+ "] == " +:+ grl_string_literal (trim val)
  | None => "has_header(Request, " +:+ grl_string_literal value +:+ ")"
  end.
Definition header_regex (value : string) : string :=
  match split_once ":" value with
  | Some (name, pattern) =>
    "matches(Request.Headers[" +:+ grl_string_literal (trim name) +:+ "], "
      +:+ grl_string_literal (trim pattern) +:+ ")"
  | None => "false /* invalid header regex: " +:+ value +:+ " */"
  end.
Definition cookie_exact (value : string) : string :=
  match split_once "=" value with
  | Some (name, val) =>
    "contains(Request.Headers[" +:+ quoted "Cookie" +:+ "], "
      +:+ grl_string_literal (trim name +:+ "=" +:+ trim val) +:+ ")"
  | None => "false /* invalid cookie: " +:+ value +:+ " */"
  end.

Definition leaf_to_grl (field match_type value : string) : string :=
  let when f m := String.eqb field f && String.eqb match_type m in
  if when "ip" "exact" then "Request.ClientIp == " +:+ grl_string_literal value
  else if when "ip" "cidr" then "contains(Request.ClientIp, " +:+ grl_string_literal value +:+ ")"
  else if when "path" "exact" then "Request.Path == " +:+ grl_string_literal value
  else if when "path" "wildcard" then path_match_grl value
  else if when "path" "regex" then "matches(Request.Path, " +:+ grl_string_literal value +:+ ")"
  else if when "method" "exact" then "Request.Method == " +:+ grl_string_literal value
  else if when "method" "regex" then "matches(Request.Method, " +:+ grl_string_literal value +:+ ")"
  else if when "header" "exact" then header_exact value
  else if when "header" "regex" then header_regex value
  else if when "payload" "regex" then "matches(Request.Body, " +:+ grl_string_literal value +:+ ")"
  else if when "payload" "contains" then "contains(Request.Body, " +:+ grl_string_literal value +:+ ")"
  else if when "cookie" "exact" then cookie_exact value
  else "false /* unknown field/match: " +:+ field +:+ "/" +:+ match_type +:+ " */".

Definition new_leaf_to_grl (map : mapping) : result string string :=
  field ← ok_or (str_field "field" map) "missing field";
  match_type ← ok_or (str_field "match" map) "missing match";
  Ok (leaf_to_grl field match_type (str_or_empty "value" map)).

(** [new_cond_to_grl]; out of fuel is an error of its own. *)
Definition out_of_fuel : string := "out of fuel".
Fixpoint new_cond_to_grl (fuel : nat) (c : yaml) : result string string :=
  match fuel with
  | O => Err out_of_fuel
  | S fuel =>
    map ← ok_or (y_mapping c) "not a map";
    match map_get "and" map ≫= y_sequence with
    | Some seq => parts ← collect_result (new_cond_to_grl fuel) seq; Ok ("(" +:+ str_join " && " parts +:+ ")")
    | None =>
      match map_get "or" map ≫= y_sequence with
      | Some seq => parts ← collect_result (new_cond_to_grl fuel) seq; Ok ("(" +:+ str_join " || " parts +:+ ")")
      | None => new_leaf_to_grl map
      end
    end
  end.

(** * Conditions in the legacy format *)

(** The kinds of condition without sub-conditions; [None] for the others. *)
Definition legacy_leaf (kind : string) (map : mapping) : option string :=
  let field k := str_or_empty k map in
  if String.eqb kind "ip_exact" then Some ("Request.ClientIp == " +:+ debug_str (field "value"))
  else if String.eqb kind "ip_in_blacklist" then Some "ip_in_blacklist(Request.ClientIp)"
  else if String.eqb kind "ip_in_whitelist" then Some "ip_in_whitelist(Request.ClientIp)"
  else if String.eqb kind "path_exact" then Some ("Request.Path == " +:+ debug_str (field "value"))
  else if String.eqb kind "path_wildcard" then Some (path_match_grl (field "pattern"))
  else if String.eqb kind "path_regex" then
    Some ("matches(Request.Path, " +:+ debug_str (field "pattern") +:+ ")")
  else if String.eqb kind "header_exact" then
    Some ("Request.Headers[" +:+ debug_str (field "name") +:+ "] == " +:+ debug_str (field "value"))
  else if String.eqb kind "header_regex" then
    Some ("matches(Request.Headers[" +:+ debug_str (field "name") +:+ "], " +:+ debug_str (field "pattern") +:+ ")")
  else if String.eqb kind "payload_regex" then
    Some ("(matches(Request.Body, " +:+ debug_str (field "pattern") +:+ ") || matches(Request.Query, "
            +:+ debug_str (field "pattern") +:+ "))")
  else if String.eqb kind "cookie_exact" then
    Some ("contains(Request.Headers[" +:+ quoted "Cookie" +:+ "], "
            +:+ debug_str (field "name" +:+ "=" +:+ field "value") +:+ ")")
  else if String.eqb kind "rate_limit_exceeded" then Some "false"
  else if String.eqb kind "sqli_pattern" then Some "(contains_sqli(Request.Query) || contains_sqli(Request.Body))"
  else if String.eqb kind "xss_pattern" then Some "(contains_xss(Request.Query) || contains_xss(Request.Body))"
  else if String.eqb kind "path_traversal_pattern" then Some "contains_path_traversal(Request.Path)"
  else if String.eqb kind "ssrf_pattern" then
    Some ("(contains(Request.Query, " +:+ quoted "http://" +:+ ") || contains(Request.Query, "
            +:+ quoted "file://" +:+ ") || contains(Request.Query, " +:+ quoted "169.254.169.254" +:+ "))")
  else if String.eqb kind "header_injection_pattern" then
    Some "(contains_header_injection(Request.Path) || contains_header_injection(Request.Query))"
  else None.

(** [combine_conds], given the conversion of the members. *)
Definition combine_conds (conv : yaml -> result string string) (list : option yaml) (sep : string)
  : result string string :=
  seq ← ok_or (list ≫= y_sequence) "expected list of conditions";
  parts ← collect_result conv seq;
  Ok ("(" +:+ str_join sep parts +:+ ")").

Fixpoint cond_to_grl (fuel : nat) (c : yaml) : result string string :=
  match fuel with
  | O => Err out_of_fuel
  | S fuel' =>
    match new_cond_to_grl fuel c with
    | Ok grl => Ok grl
    | Err _ =>
      map ← ok_or (y_mapping c) "condition must be a map";
      kind ← ok_or (str_field "type" map) "condition missing type and not field/match/value";
      match legacy_leaf kind map with
      | Some grl => Ok grl
      | None =>
        if String.eqb kind "and" then combine_conds (cond_to_grl fuel') (map_get "conditions" map) " && "
        else if String.eqb kind "or" then combine_conds (cond_to_grl fuel') (map_get "conditions" map) " || "
        else if String.eqb kind "not" then
          inner ← ok_or (map_get "condition" map) "not: missing condition";
          grl ← cond_to_grl fuel' inner;
          Ok ("!(" +:+ grl +:+ ")")
        else Ok ("false /* unknown condition: " +:+ kind +:+ " */")
      end
    end
  end.

(** * Rules *)

Definition newline : string := bstr 10.
Definition line (s : string) : string := "    " +:+ s +:+ newline.

(** Lower priorities fire first: salience is [1000 - priority], at most 150 for a
    routing rule. *)
Definition rule_salience (priority : Z) (routing : bool) : Z :=
  let s := wrap_s 64 (1000 - wrap_s 64 priority) in
  wrap_s 32 (if routing then Z.min 150 (Z.max 1 s) else s).

Definition action_stmt (action id : string) : string :=
  if String.eqb action "block" then line ("block(" +:+ debug_str id +:+ ");")
  else if String.eqb action "challenge" then line ("challenge(" +:+ quoted "js" +:+ ");")
  else if String.eqb action "rate_limit" then line "rate_limit(60);"
  else if String.eqb action "allow" then line "allow();"
  else if String.eqb action "log" then line ("log(" +:+ debug_str id +:+ ");")
  else line ("log(" +:+ quoted ("unknown_action:" +:+ action) +:+ ");").

Definition rule_to_grl (v : yaml) : result string string :=
  id ← ok_or (y_get "id" v ≫= y_str) "missing id";
  let priority := default 500 (y_get "priority" v ≫= y_u64) in
  let action := default "log" (y_get "action" v ≫= y_str) in
  let delta := default 0 (y_get "risk_score_delta" v ≫= y_i64) in
  let upstream := y_get "upstream_backend" v ≫= y_str in
  let salience := rule_salience priority (bool_decide (is_Some upstream)) in
  let scope_guard := scope_to_grl (y_get "scope" v) in
  cond ← ok_or (y_get "condition" v) "missing condition";
  cond_grl ← cond_to_grl (S (y_size cond)) cond;
  let when_text := match scope_guard with
              | Some s => "(" +:+ s +:+ ") && (" +:+ cond_grl +:+ ")"
              | None => cond_grl
              end in
  let risk := if delta =? 0 then ""
              else line ("Request.RiskScore = Request.RiskScore + " +:+ print_int delta +:+ ";") in
  let route := match upstream with
               | Some backend => line ("log(" +:+ quoted ("route:" +:+ backend) +:+ ");")
               | None => ""
               end in
  Ok ("rule " +:+ debug_str id +:+ " salience " +:+ print_int salience +:+ " {" +:+ newline
        +:+ line ("when " +:+ when_text) +:+ line "then"
        +:+ (risk +:+ route +:+ action_stmt action id) +:+ "}" +:+ newline).

(** A rule that does not convert is skipped. *)
Fixpoint rules_to_grl (l : list yaml) : string :=
  match l with
  | [] => ""
  | item :: l =>
    match rule_to_grl item with
    | Ok s => s +:+ newline +:+ rules_to_grl l
    | Err _ => rules_to_grl l
    end
  end.

Definition yaml_to_grl (doc : yaml) : result string string :=
  seq ← ok_or (y_sequence doc) "yaml rules: top-level must be a sequence";
  Ok (rules_to_grl seq).
End Converter.

(** * Reading the texts back *)

(** The last byte of a text is not a quote. *)
Definition no_final_quote (s : string) : bool := negb (ends_with s (String dquote "")).

Definition first_quote (s : string) : bool :=
  match s with String c _ => Ascii.eqb c dquote | "" => false end.
Fixpoint last_quote (s : string) : bool :=
  match s with "" => false | String c "" => Ascii.eqb c dquote | String _ s => last_quote s end.

Lemma last_quote_snoc s : last_quote s = true -> exists r, s = r +:+ String dquote "".
Proof.
  induction s as [|c s IH]; [done|]. destruct s as [|d s].
  - intros ->%Ascii.eqb_eq. by exists "".
  - intros [r Hr]%IH. exists (String c r). by rewrite Hr.
Qed.

Lemma no_final_quote_last s : no_final_quote s = true -> last_quote s = false.
Proof.
  unfold no_final_quote, ends_with. intros H. reflect_bools. destruct (last_quote s) eqn:Hl; [|done].
  apply last_quote_snoc in Hl as [r ->]. exfalso. apply H. clear H.
  induction r as [|c r [x Hx]]; [by exists ""|].
  rewrite app_cons_str. cbn [strip_suffix]. rewrite Hx. destruct (String.eqb _ _); eauto.
Qed.

Lemma drop_quotes_last e :
  last_quote e = false ->
  str_of (rev (drop_while (fun a => Ascii.eqb a dquote) (rev (str_bytes e)))) = e.
Proof.
  intros He. destruct (rev (str_bytes e)) as [|a l] eqn:Hr.
  - apply (f_equal (@rev ascii)) in Hr. rewrite rev_involutive in Hr. cbn.
    rewrite <-(str_of_bytes e), Hr. done.
  - assert (Hb : str_bytes e = rev l ++ [a]) by (rewrite <-(rev_involutive (str_bytes e)), Hr; done).
    cbn [drop_while]. destruct (Ascii.eqb a dquote) eqn:Ha.
    + apply Ascii.eqb_eq in Ha as ->. exfalso. clear Hr. revert e He Hb.
      induction (rev l) as [|x m IH]; intros [|c e] He Hb; try done.
      * cbn in Hb. injection Hb as -> Hb. destruct e; [|done]. by vm_compute in He.
      * cbn in Hb. injection Hb as -> Hb. destruct e as [|d e].
        { by destruct m. }
        by apply (IH (String d e)).
    + rewrite <-Hr, rev_involutive. apply str_of_bytes.
Qed.

Lemma trim_matches_quoted e :
  first_quote e = false -> last_quote e = false ->
  trim_matches dquote (String dquote (e +:+ String dquote "")) = e.
Proof.
  intros Hf Hl. unfold trim_matches. cbn [str_bytes drop_while]. rewrite Ascii.eqb_refl, str_bytes_app.
  assert (Hd : drop_while (fun a => Ascii.eqb a dquote) (str_bytes e ++ [dquote]) =
               match e with "" => [] | _ => str_bytes e ++ [dquote] end).
  { destruct e as [|c e]; cbn in *; [done|]. by rewrite Hf. }
  change (str_bytes (String dquote "")) with [dquote]. rewrite Hd.
  destruct e as [|c e]; [done|]. rewrite rev_app_distr. cbn [rev app drop_while].
  rewrite Ascii.eqb_refl. by apply drop_quotes_last.
Qed.

(** ** Literals of the field/match/value format *)

Lemma escape_quotes_first s : first_quote (escape_quotes s) = false.
Proof. destruct s as [|c s]; [done|]. cbn [escape_quotes]. by destruct (Ascii.eqb c dquote) eqn:E. Qed.

Lemma escape_quotes_last s : last_quote s = false -> last_quote (escape_quotes s) = false.
Proof.
  induction s as [|c s IH]; [done|]. cbn [escape_quotes]. destruct s as [|d s].
  - intros H. cbn [last_quote] in H. by rewrite H.
  - intros H. specialize (IH H). destruct (escape_quotes (String d s)) as [|x y] eqn:E.
    { cbn [escape_quotes] in E. by destruct (Ascii.eqb d dquote). }
    by destruct (Ascii.eqb c dquote).
Qed.

Lemma unescape_quotes s :
  str_replace (escape_quotes s) (String backslash (String dquote "")) (String dquote "") = s.
Proof.
  unfold str_replace. induction s as [|c s IH]; [done|]. cbn [escape_quotes].
  destruct (Ascii.eqb c dquote) eqn:E.
  - apply Ascii.eqb_eq in E as ->.
    transitivity (String dquote (replace_go (String backslash (String dquote "")) (String dquote "") 0 (escape_quotes s)));
      [done|by rewrite IH].
  - cbn [replace_go]. destruct (starts_with _ _) eqn:Hs; [|by rewrite IH].
    apply starts_with_spec in Hs as [r Hr]. rewrite !app_cons_str, app_nil_l_str in Hr.
    injection Hr as -> Hr. pose proof (escape_quotes_first s) as Hq. rewrite Hr in Hq.
    cbn [first_quote] in Hq. by rewrite Ascii.eqb_refl in Hq.
Qed.

Lemma unquote_literal s :
  no_final_quote s = true -> contains s "\n" = false -> contains s "\t" = false ->
  GrlParser.unquote (grl_string_literal s) = s.
Proof.
  intros Hq%no_final_quote_last Hn Ht. unfold GrlParser.unquote, grl_string_literal.
  rewrite trim_matches_quoted by auto using escape_quotes_first, escape_quotes_last.
  rewrite unescape_quotes, (str_replace_absent s "\n") by done. by apply str_replace_absent.
Qed.

(** A string the converter writes with [grl_string_literal] is read back by the
    GRL parser as it was, quotes and regex backslashes included, unless it ends in a
    quote or holds one of the two escapes the parser expands; a pattern holding the
    two bytes backslash and n comes back with a line feed. *)
Theorem grl_literal_reads_back s :
  (no_final_quote s = true -> contains s "\n" = false -> contains s "\t" = false ->
   GrlParser.unquote (grl_string_literal s) = s) /\
  GrlParser.unquote (grl_string_literal "a\n") = "a" +:+ bstr 10.
Proof. split; [apply unquote_literal|reflexivity]. Qed.
Lemma grl_literal_reads_back_witness :
  let s := "^id=" +:+ String dquote "\d+\s*" in GrlParser.unquote (grl_string_literal s) = s.
Proof. apply (proj1 (grl_literal_reads_back _)); reflexivity. Defined.

(** ** Literals of the legacy format *)

Fixpoint double_backslashes (s : string) : string :=
  match s with
  | "" => ""
  | String c s =>
    if Ascii.eqb c backslash then String backslash (String backslash (double_backslashes s))
    else String c (double_backslashes s)
  end.

(** Printable ASCII text without quotes. *)
Definition plain_byte (a : ascii) : bool :=
  (32 <=? byte_val a) && (byte_val a <? 127) && negb (Ascii.eqb a dquote).
Definition plain_text (s : string) : Prop := all_in plain_byte s.

Lemma plain_text_cons c s : plain_text (String c s) <-> plain_byte c = true /\ plain_text s.
Proof. unfold plain_text, all_in. cbn [str_bytes]. apply List.Forall_cons_iff. Qed.

Section Legacy.
Context `{UnicodeTables}.

Lemma debug_plain_char c rest :
  plain_byte c = true ->
  debug_char (byte_val c) +:+ rest =
  if Ascii.eqb c backslash then String backslash (String backslash rest) else String c rest.
Proof.
  unfold plain_byte. intros Hp. reflect_bools. destruct (Ascii.eqb_spec c backslash) as [->|Hc]; [done|].
  assert (byte_val c <> 92) by (intros E; apply Hc; apply byte_val_inj; by rewrite E).
  assert (byte_val c <> 34) by (intros E; assert (c = dquote) as -> by (by apply byte_val_inj; rewrite E); done).
  unfold debug_char. repeat (rewrite (proj2 (Z.eqb_neq _ _)) by lia).
  rewrite (proj2 (Z.ltb_lt (byte_val c) 128)) by lia.
  replace ((32 <=? byte_val c) && (byte_val c <? 127)) with true by lia.
  rewrite utf8_encode_ascii by lia. unfold bstr. by rewrite byte_of_val.
Qed.

Lemma debug_plain s : plain_text s -> debug_str s = String dquote (double_backslashes s +:+ String dquote "").
Proof.
  intros Hs. unfold debug_str. do 2 f_equal. rewrite chars_ascii.
  - induction s as [|c s IH]; [done|]. apply plain_text_cons in Hs as [Hc Hs].
    cbn [str_bytes map debug_chars double_backslashes]. rewrite debug_plain_char, IH by done.
    by destruct (Ascii.eqb c backslash).
  - apply is_ascii_Forall. eapply List.Forall_impl; [|exact Hs]. intros a Ha.
    unfold plain_byte in Ha. reflect_bools. lia.
Qed.

Lemma double_backslashes_last s : plain_text s -> last_quote (double_backslashes s) = false.
Proof.
  induction s as [|c s IH]; [done|]. intros [Hc Hs]%plain_text_cons. specialize (IH Hs).
  cbn [double_backslashes]. unfold plain_byte in Hc. reflect_bools.
  destruct (Ascii.eqb c backslash); (destruct (double_backslashes s) eqn:E; [|exact IH]); done.
Qed.

Lemma double_backslashes_first s : plain_text s -> first_quote (double_backslashes s) = false.
Proof.
  destruct s as [|c s]; [done|]. intros [Hc Hs]%plain_text_cons. unfold plain_byte in Hc. reflect_bools.
  cbn [double_backslashes]. by destruct (Ascii.eqb c backslash).
Qed.

(** A two-byte escape occurs in the doubled text only where it occurred before. *)
Lemma double_backslashes_escape s x :
  x <> backslash -> contains s (String backslash (String x "")) = false ->
  contains (double_backslashes s) (String backslash (String x "")) = false.
Proof.
  intros Hx. induction s as [|c s IH]; [done|]. rewrite find_str_cons. intros Hc0. reflect_bools.
  rename select (starts_with _ _ = false) into Hst. specialize (IH ltac:(done)).
  assert (Hnot : forall t, starts_with (String backslash t) (String backslash (String x "")) = true ->
                 exists r, t = String x r).
  { intros t [r Hr]%starts_with_spec. rewrite !app_cons_str, app_nil_l_str in Hr. injection Hr as Hr. eauto. }
  cbn [double_backslashes]. destruct (Ascii.eqb_spec c backslash) as [->|Hc].
  - rewrite !find_str_cons, IH, !orb_false_r. apply orb_false_iff. split; apply not_true_iff_false.
    + intros [r Hr]%Hnot. congruence.
    + intros [r Hr]%Hnot. destruct s as [|d s]; [done|]. cbn [double_backslashes] in Hr.
      destruct (Ascii.eqb_spec d backslash); [congruence|]. injection Hr as -> _.
      apply not_true_iff_false in Hst. apply Hst, starts_with_spec. by exists s.
  - rewrite find_str_cons, IH, orb_false_r. apply not_true_iff_false. intros [r Hr]%starts_with_spec.
    rewrite app_cons_str in Hr. congruence.
Qed.

Lemma plain_text_escape_quote s : plain_text s -> contains s (String backslash (String dquote "")) = false.
Proof.
  induction s as [|c s IH]; [done|]. intros [Hc Hs]%plain_text_cons. rewrite find_str_cons, IH by done.
  rewrite orb_false_r. apply not_true_iff_false. intros [r Hr]%starts_with_spec.
  rewrite !app_cons_str in Hr. injection Hr as -> ->. apply plain_text_cons in Hs as [Hq _].
  by vm_compute in Hq.
Qed.

Lemma double_backslashes_fixed s : double_backslashes s = s -> contains s (String backslash "") = false.
Proof.
  assert (Hlen : forall s, (str_len s <= str_len (double_backslashes s))%nat).
  { clear s. induction s as [|c s IH]; [done|]. cbn [double_backslashes]. destruct (Ascii.eqb c backslash); cbn [str_len] in *; lia. }
  induction s as [|c s IH]; [done|]. cbn [double_backslashes]. rewrite find_str_cons.
  destruct (Ascii.eqb_spec c backslash) as [->|Hc].
  - intros Heq%(f_equal str_len). cbn [str_len] in Heq. specialize (Hlen s). lia.
  - injection 1 as Heq. rewrite IH, orb_false_r by done. apply not_true_iff_false.
    intros [r Hr]%starts_with_spec. rewrite app_cons_str in Hr. congruence.
Qed.

(** The legacy format writes its strings with Rust's debug formatting, and the
    GRL parser does not undo the doubled backslashes: a regex comes back with each
    backslash doubled, so it is unchanged only when it has none. *)
Theorem legacy_literal_doubles_backslashes s :
  plain_text s -> contains s "\n" = false -> contains s "\t" = false ->
  GrlParser.unquote (debug_str s) = double_backslashes s /\
  (GrlParser.unquote (debug_str s) = s -> contains s (String backslash "") = false).
Proof.
  intros Hs Hn Ht. assert (Heq : GrlParser.unquote (debug_str s) = double_backslashes s).
  { unfold GrlParser.unquote. rewrite debug_plain by done.
    rewrite trim_matches_quoted by auto using double_backslashes_first, double_backslashes_last.
    rewrite (str_replace_absent (double_backslashes s) (String backslash (String dquote ""))).
    - rewrite (str_replace_absent (double_backslashes s) "\n").
      + apply str_replace_absent. by apply (double_backslashes_escape s "t"%char).
      + by apply (double_backslashes_escape s "n"%char).
    - apply (double_backslashes_escape s dquote); [done|]. by apply plain_text_escape_quote. }
  split; [done|]. rewrite Heq. apply double_backslashes_fixed.
Qed.
End Legacy.

Lemma legacy_literal_doubles_backslashes_witness :
  GrlParser.unquote (@debug_str plain_unicode "^/v\d+/") = "^/v\\d+/".
Proof.
  apply (@legacy_literal_doubles_backslashes plain_unicode "^/v\d+/"); [by repeat constructor|done|done].
Defined.

(** * Termination *)

Section Termination.
Context `{UnicodeTables, YamlLib}.

Lemma new_cond_fuel n m c :
  (y_size c < n)%nat -> (y_size c < m)%nat -> new_cond_to_grl n c = new_cond_to_grl m c.
Proof.
  revert m c. induction n as [|n IH]; intros [|m] c Hn Hm; try lia. cbn [new_cond_to_grl].
  destruct (y_mapping c) as [map|] eqn:Hmap; [|done]. cbn.
  assert (Hrec : forall k l, map_get k map ≫= y_sequence = Some l ->
    collect_result (new_cond_to_grl n) l = collect_result (new_cond_to_grl m) l).
  { intros k l (v & Hv & Hl)%bind_Some. apply collect_result_ext. intros x Hx.
    pose proof (y_mapping_size _ _ _ _ Hmap Hv). pose proof (y_sequence_size _ _ _ Hl Hx).
    apply IH; lia. }
  destruct (map_get "and" map ≫= y_sequence) as [l|] eqn:Hand; [by rewrite (Hrec _ _ Hand)|].
  destruct (map_get "or" map ≫= y_sequence) as [l|] eqn:Hor; [by rewrite (Hrec _ _ Hor)|done].
Qed.

Lemma cond_fuel n m c :
  (y_size c < n)%nat -> (y_size c < m)%nat -> cond_to_grl n c = cond_to_grl m c.
Proof.
  revert m c. induction n as [|n IH]; intros [|m] c Hn Hm; try lia. cbn [cond_to_grl].
  rewrite (new_cond_fuel (S n) (S m)) by lia. destruct (new_cond_to_grl (S m) c); [done|].
  destruct (y_mapping c) as [map|] eqn:Hmap; [|done]. cbn.
  destruct (str_field "type" map) as [kind|]; [|done]. cbn. destruct (legacy_leaf kind map); [done|].
  assert (Hlist : forall k sep, combine_conds (cond_to_grl n) (map_get k map) sep =
                                combine_conds (cond_to_grl m) (map_get k map) sep).
  { intros k sep. unfold combine_conds. destruct (map_get k map ≫= y_sequence) as [l|] eqn:Hl; [|done].
    cbn. apply bind_Some in Hl as (v & Hv & Hl). erewrite collect_result_ext; [done|].
    intros x Hx. pose proof (y_mapping_size _ _ _ _ Hmap Hv). pose proof (y_sequence_size _ _ _ Hl Hx).
    apply IH; lia. }
  rewrite !Hlist. repeat split_if; try done.
  destruct (map_get "condition" map) as [v|] eqn:Hv; [|done]. cbn.
  pose proof (y_mapping_size _ _ _ _ Hmap Hv). by rewrite (IH m) by lia.
Qed.

Lemma ok_or_err {A} (o : option A) (e e' : string) : ok_or o e = Err e' -> e = e'.
Proof. destruct o; [done|]. by intros [=]. Qed.

Lemma cond_not_out_of_fuel n c : (y_size c < n)%nat -> cond_to_grl n c <> Err out_of_fuel.
Proof.
  revert c. induction n as [|n IH]; intros c Hn; [lia|]. cbn [cond_to_grl].
  destruct (new_cond_to_grl (S n) c); [done|].
  destruct (y_mapping c) as [map|] eqn:Hmap; [|done]. cbn.
  destruct (str_field "type" map) as [kind|]; [|done]. cbn. destruct (legacy_leaf kind map); [done|].
  assert (Hlist : forall k sep, combine_conds (cond_to_grl n) (map_get k map) sep <> Err out_of_fuel).
  { intros k sep. unfold combine_conds. destruct (map_get k map ≫= y_sequence) as [l|] eqn:Hl; [|done].
    cbn. apply bind_Some in Hl as (v & Hv & Hl).
    destruct (collect_result _ l) as [ps|err] eqn:Hc; [done|]. cbn. intros [= ->].
    apply collect_result_err in Hc as (x & Hx & He).
    pose proof (y_mapping_size _ _ _ _ Hmap Hv). pose proof (y_sequence_size _ _ _ Hl Hx).
    by apply (IH x); [lia|]. }
  repeat split_if; try done; try apply Hlist.
  destruct (map_get "condition" map) as [v|] eqn:Hv; [|done]. cbn.
  pose proof (y_mapping_size _ _ _ _ Hmap Hv). specialize (IH v ltac:(lia)).
  by destruct (cond_to_grl n v).
Qed.

(** The conversion of a condition terminates: a fuel above the size of the
    condition is never exhausted, and every such fuel gives the same text. *)
Theorem cond_to_grl_terminates c fuel :
  (y_size c < fuel)%nat ->
  cond_to_grl fuel c <> Err out_of_fuel /\ cond_to_grl fuel c = cond_to_grl (S (y_size c)) c.
Proof. intros Hf. split; [by apply cond_not_out_of_fuel|]. apply cond_fuel; lia. Qed.
End Termination.

(** * Saliences *)

Lemma rule_salience_plain p : 0 <= p < 2 ^ 31 -> rule_salience p false = 1000 - p.
Proof.
  intros Hp. unfold rule_salience.
  rewrite (wrap_s64_id p) by (unfold in_s; lia). rewrite wrap_s64_id by (unfold in_s; lia).
  apply wrap_s32_id. unfold in_s. lia.
Qed.
Lemma rule_salience_routing q : 0 <= q < 2 ^ 31 -> rule_salience q true = Z.min 150 (Z.max 1 (1000 - q)).
Proof.
  intros Hq. unfold rule_salience.
  rewrite (wrap_s64_id q) by (unfold in_s; lia). rewrite wrap_s64_id by (unfold in_s; lia).
  apply wrap_s32_id. unfold in_s. lia.
Qed.

(** Routing rules run after a detection rule, whatever their own priority,
    exactly when the priority of the detection rule is below 850; the code means
    them to run after every detection rule. *)
Theorem routing_runs_last_iff p :
  0 <= p < 2 ^ 31 ->
  ((forall q, 0 <= q < 2 ^ 31 -> rule_salience q true < rule_salience p false) <-> p < 850).
Proof.
  intros Hp. rewrite rule_salience_plain by done. split.
  - intros Hq. specialize (Hq 0 ltac:(lia)). rewrite rule_salience_routing in Hq by lia. lia.
  - intros Hlt q Hq. rewrite rule_salience_routing by done. lia.
Qed.
Lemma routing_runs_last_iff_witness : rule_salience 60 true < rule_salience 90 false.
Proof. apply (proj2 (routing_runs_last_iff 90 ltac:(lia))); lia. Defined.

(** * A concrete document type *)

Inductive ytree : Type :=
| YtStr (s : string)
| YtInt (z : Z)
| YtBool (b : bool)
| YtNull
| YtSeq (l : list ytree)
| YtMap (m : list (string * ytree)).

Fixpoint ytree_size (v : ytree) : nat :=
  match v with
  | YtStr _ | YtInt _ | YtBool _ | YtNull => 0
  | YtSeq l => S (list_sum (map ytree_size l))
  | YtMap m => S (list_sum (map (fun kv => ytree_size (snd kv)) m))
  end%nat.
Definition ytree_sequence (v : ytree) : option (list ytree) := match v with YtSeq l => Some l | _ => None end.
Definition ytree_mapping (v : ytree) : option (list (string * ytree)) :=
  match v with YtMap m => Some m | _ => None end.
Definition ytree_get (k : string) (m : list (string * ytree)) : option ytree :=
  snd <$> List.find (fun kv => String.eqb (fst kv) k) m.

Lemma list_sum_In {A} (f : A -> nat) x l : In x l -> (f x <= list_sum (map f l))%nat.
Proof. induction l as [|y l IH]; intros []; cbn; [subst; lia|]. specialize (IH ltac:(done)). unfold list_sum in IH. lia. Qed.

Lemma ytree_sequence_size v l x :
  ytree_sequence v = Some l -> In x l -> (ytree_size x < ytree_size v)%nat.
Proof.
  destruct v as [| | | |l'|]; [done..| |done]. intros [= ->] Hx. cbn [ytree_size].
  pose proof (list_sum_In ytree_size x l Hx). lia.
Qed.
Lemma ytree_mapping_size v m k x :
  ytree_mapping v = Some m -> ytree_get k m = Some x -> (ytree_size x < ytree_size v)%nat.
Proof.
  destruct v as [| | | | |m']; [done..|]. intros [= ->] Hx. cbn [ytree_size]. unfold ytree_get in Hx.
  destruct (List.find _ m) as [kv|] eqn:Hf; [|done]. injection Hx as <-.
  apply List.find_some in Hf as [Hin _]. pose proof (list_sum_In (fun kv => ytree_size (snd kv)) kv m Hin).
  cbn in *. lia.
Qed.

Definition tree_yaml : YamlLib := {|
  yaml := ytree; mapping := list (string * ytree);
  y_str v := match v with YtStr s => Some s | _ => None end;
  y_u64 v := match v with YtInt z => if 0 <=? z then Some z else None | _ => None end;
  y_i64 v := match v with YtInt z => Some z | _ => None end;
  y_sequence := ytree_sequence; y_mapping := ytree_mapping; map_get := ytree_get;
  y_get k v := m ← ytree_mapping v; ytree_get k m;
  y_size := ytree_size;
  y_sequence_size := ytree_sequence_size; y_mapping_size := ytree_mapping_size
|}.

Definition sample_condition : ytree :=
  YtMap [("type", YtStr "and");
         ("conditions", YtSeq [YtMap [("type", YtStr "path_exact"); ("value", YtStr "/x")];
                               YtMap [("type", YtStr "not");
                                      ("condition", YtMap [("type", YtStr "xss_pattern")])]])].

Lemma cond_to_grl_terminates_witness :
  @cond_to_grl plain_unicode tree_yaml 100 sample_condition
  = Ok ("(Request.Path == " +:+ quoted "/x" +:+ " && !((contains_xss(Request.Query) || contains_xss(Request.Body))))").
Proof.
  destruct (@cond_to_grl_terminates plain_unicode tree_yaml sample_condition 100 ltac:(vm_compute; lia)) as [_ ->].
  reflexivity.
Defined.
