(* ===== verification/TreeModel.v ===== *)
(** Trees as documents and as contents: an instance of the data model, on which the
    schemas compute. *)
From S2P Require Import Prelude Utf8 Serde Converter.
Local Open Scope Z_scope.

Fixpoint ytree_weight (v : ytree) : nat :=
  match v with
  | YtSeq l => list_sum (map (fun x => S (ytree_weight x)) l)
  | YtMap m => list_sum (map (fun kv => S (ytree_weight (snd kv))) m)
  | _ => O
  end.

Definition tree_entry (v : ytree) : option (string * option ytree) :=
  match v with
  | YtStr s => Some (s, None)
  | YtMap [(k, x)] => Some (k, Some x)
  | _ => None
  end.
(** A document names a variant by a text, or by a YAML tag, which trees have not. *)
Definition tree_text (v : ytree) : option (string * option ytree) :=
  match v with YtStr s => Some (s, None) | _ => None end.

Lemma tree_seq_size v l :
  ytree_sequence v = Some l -> (list_sum (map (fun x => S (ytree_weight x)) l) <= ytree_weight v)%nat.
Proof. destruct v; try done. by intros [= ->]. Qed.
Lemma tree_map_size v m :
  ytree_mapping v = Some m -> (list_sum (map (fun kv => S (ytree_weight (snd kv))) m) <= ytree_weight v)%nat.
Proof. destruct v; try done. by intros [= ->]. Qed.
Lemma tree_entry_size v k x : tree_entry v = Some (k, Some x) -> (ytree_weight x < ytree_weight v)%nat.
Proof. destruct v as [| | | | |[|[k' y] [|]]]; try done. intros [= -> ->]. cbn. lia. Qed.
Lemma tree_text_size v k x : tree_text v = Some (k, Some x) -> (ytree_weight x < ytree_weight v)%nat.
Proof. by destruct v. Qed.

Definition tree_model (enum : ytree -> option (string * option ytree))
  (enum_size : forall v k x, enum v = Some (k, Some x) -> (ytree_weight x < ytree_weight v)%nat) : DataModel ytree := {|
  dm_str v := match v with YtStr s => Some s | _ => None end;
  dm_bool v := match v with YtBool b => Some b | _ => None end;
  dm_int v := match v with YtInt z => Some z | _ => None end;
  dm_null v := match v with YtNull => true | _ => false end;
  dm_seq := ytree_sequence; dm_map := ytree_mapping; dm_enum := enum; dm_size := ytree_weight;
  dm_seq_size := tree_seq_size; dm_map_size := tree_map_size; dm_enum_size := enum_size
|}.

Definition tree_document : DataModel ytree := tree_model tree_text tree_text_size.
Definition tree_content : DataModel ytree := tree_model tree_entry tree_entry_size.
Definition tree_format : @Format ytree ytree tree_document tree_content :=
  @Build_Format _ _ tree_document tree_content (fun v => Some v).

Lemma tree_content_laws : @ContentLaws ytree tree_content.
Proof. split; by intros [| | | | |[|[k x] [|]]]. Qed.

Definition tree_writer : Serializer ytree := {|
  s_str := YtStr; s_bool := YtBool; s_null := YtNull; s_seq := YtSeq; s_map := YtMap;
  s_variant k v := YtMap [(k, v)]
|}.
Lemma tree_reads_back : @ReadsBack ytree tree_content tree_writer.
Proof. by split. Qed.
