(* ===== verification/GrlText.v ===== *)
(** The texts of GRL and what the grammar reads in them: lemmas for each kind of
    expression, from literals to chains of operators, which say that a text followed
    by something that cannot continue it parses to its expression. *)
From S2P Require Import Prelude Utf8 RustStd Net Extern Float64 WafTypes Ast Printer GrlParser Pest Converter.
Local Open Scope Z_scope.
Local Open Scope peg_scope.

(** * Runs of characters *)

Section Runs.
Context (e : peg) (p : ascii -> bool).
Hypothesis Hchar : forall c rest, p c = true -> parses true e (String c rest) [] rest.
Hypothesis Hstop : forall rest, stops p rest -> fails true e rest.

Lemma parses_more_run s rest : all_in p s -> stops p rest -> parses true (PMore e) (s +:+ rest) [] rest.
Proof.
  intros Hs Hr. induction s as [|c s IH].
  - apply parses_more_end. by apply Hstop.
  - inversion Hs as [|? ? Hc Hs']. subst. rewrite app_cons_str.
    change (@nil Pair) with (@nil Pair ++ []). eapply parses_more; [by apply Hchar|by apply IH].
Qed.
Lemma parses_star_run s rest : all_in p s -> stops p rest -> parses true (PStar e) (s +:+ rest) [] rest.
Proof.
  intros Hs Hr. destruct s as [|c s].
  - apply parses_star_none. by apply Hstop.
  - inversion Hs as [|? ? Hc Hs']. subst. rewrite app_cons_str.
    change (@nil Pair) with (@nil Pair ++ []). eapply parses_star; [by apply Hchar|by apply parses_more_run].
Qed.
Lemma parses_plus_run s rest :
  s <> "" -> all_in p s -> stops p rest -> parses true (PPlus e) (s +:+ rest) [] rest.
Proof.
  intros Hne Hs Hr. destruct s as [|c s]; [done|]. inversion Hs as [|? ? Hc Hs']. subst. rewrite app_cons_str.
  change (@nil Pair) with (@nil Pair ++ []). eapply parses_seq; [by apply Hchar|by apply parses_star_run].
Qed.
End Runs.

Lemma byte_class_fails (p : ascii -> bool) atomic rest : stops p rest -> fails atomic (PByte p) rest.
Proof. intros Hr. exists 1%nat. destruct rest as [|c r]; cbn in *; [done|]. by rewrite Hr. Qed.

Lemma ascii_digit_std c : ascii_digit c = is_ascii_digit c.
Proof. done. Qed.

Definition ident_class : peg := PByte ascii_alphanumeric // PStr "_".
Lemma ident_char_class c : ident_char c = ascii_alphanumeric c || Ascii.eqb c "_".
Proof. destruct c as [[] [] [] [] [] [] [] []]; reflexivity. Qed.
Lemma ident_start_class c : ident_start c = ascii_alpha c || Ascii.eqb c "_".
Proof. destruct c as [[] [] [] [] [] [] [] []]; reflexivity. Qed.

(** A class of bytes or the underscore. *)
Lemma class_parses (p : ascii -> bool) c rest :
  p c || Ascii.eqb c "_" = true -> parses true (PByte p // PStr "_") (String c rest) [] rest.
Proof.
  intros Hc. destruct (p c) eqn:Hp; [by apply parses_alt_l, parses_byte|].
  cbn [orb] in Hc. apply Ascii.eqb_eq in Hc as ->. apply parses_alt_r; [by apply byte_class_fails|].
  apply (parses_str true "_").
Qed.
Lemma class_fails (p : ascii -> bool) s :
  stops (fun c => p c || Ascii.eqb c "_") s -> fails true (PByte p // PStr "_") s.
Proof.
  intros Hs. destruct s as [|c r]; [by exists 2%nat|]. cbn [stops] in Hs. reflect_bools.
  apply fails_alt; [by apply byte_class_fails|]. apply fails_str. cbn [strip_prefix].
  rename select (Ascii.eqb c "_" = false) into Hu. rewrite Ascii.eqb_sym in Hu. by rewrite Hu.
Qed.

Lemma all_in_ext (p q : ascii -> bool) s : (forall c, p c = q c) -> all_in p s -> all_in q s.
Proof. intros Hpq. apply List.Forall_impl. intros c. by rewrite Hpq. Qed.
Lemma stops_ext (p q : ascii -> bool) s : (forall c, p c = q c) -> stops p s -> stops q s.
Proof. intros Hpq. destruct s; cbn; [done|]. by rewrite Hpq. Qed.

(** What follows a word: no character that would continue it. *)
Definition ends_word (rest : string) : Prop := stops ident_char rest.

Lemma word_end_ok rest : ends_word rest -> parses true word_end rest [] rest.
Proof. intros Hr. apply parses_not, class_fails. by apply (stops_ext ident_char); [apply ident_char_class|]. Qed.
Lemma word_end_fails c r : ident_char c = true -> fails true word_end (String c r).
Proof.
  intros Hc. rewrite ident_char_class in Hc. destruct (class_parses _ c r Hc) as [f Hf].
  exists (S f). cbn [run word_end]. by rewrite Hf.
Qed.

Lemma parses_ident n rest :
  is_ident n = true -> ends_word rest -> parses false (PRule R_ident) (n +:+ rest) [mkPair R_ident n []] rest.
Proof.
  intros Hn Hr. apply parses_rule_text. destruct n as [|c n]; [done|]. cbn [is_ident] in Hn. reflect_bools.
  rewrite app_cons_str. change (@nil Pair) with (@nil Pair ++ []). cbn [rule_body is_atomic].
  rename select (ident_start c = true) into Hc. rewrite ident_start_class in Hc.
  eapply parses_seq; [by apply class_parses|].
  apply (parses_star_run _ (fun c => ascii_alphanumeric c || Ascii.eqb c "_")).
  - intros d rest' Hd. by apply class_parses.
  - intros rest'. apply class_fails.
  - apply (all_in_ext ident_char); [apply ident_char_class|]. apply List.Forall_forall. by apply List.forallb_forall.
  - apply (stops_ext ident_char); [apply ident_char_class|done].
Qed.

(** * String literals *)

Fixpoint last_backslash (s : string) : bool :=
  match s with "" => false | String c "" => Ascii.eqb c backslash | String _ s => last_backslash s end.

Lemma cont_not_special c : cont_byte (byte_val c) = true -> Ascii.eqb c dquote = false /\ Ascii.eqb c backslash = false.
Proof. destruct c as [[] [] [] [] [] [] [] []]; vm_compute; auto; discriminate. Qed.

Lemma drop_cont_len s : (str_len (drop_cont s) <= str_len s)%nat.
Proof. induction s as [|c s IH]; [done|]. cbn [drop_cont]. case_match; cbn [str_len]; lia. Qed.
Lemma drop_cont_escape s rest :
  drop_cont (escape_quotes s +:+ String dquote rest) = escape_quotes (drop_cont s) +:+ String dquote rest.
Proof.
  induction s as [|c s IH]; [done|]. cbn [escape_quotes drop_cont].
  destruct (cont_byte (byte_val c)) eqn:Hc.
  - destruct (cont_not_special c Hc) as [-> _]. rewrite app_cons_str. cbn [drop_cont]. by rewrite Hc.
  - cbn [escape_quotes]. destruct (Ascii.eqb c dquote) eqn:Hq; [done|]. rewrite !app_cons_str. cbn [drop_cont].
    by rewrite Hc.
Qed.
Lemma drop_cont_last s : last_backslash s = false -> last_backslash (drop_cont s) = false.
Proof.
  induction s as [|c s IH]; [done|]. intros H. cbn [drop_cont]. case_match; [|done].
  apply IH. destruct s; [done|exact H].
Qed.

Definition inner_char : peg := PNot (PStr quote) ~~ (PStr (String backslash quote) // PAny).

Lemma inner_char_escaped rest : parses true inner_char (String backslash (String dquote rest)) [] rest.
Proof.
  change (@nil Pair) with (@nil Pair ++ []). eapply parses_seq; [by apply parses_not, fails_str|].
  apply parses_alt_l, (parses_str true (String backslash quote)).
Qed.
Lemma inner_char_other c rest :
  Ascii.eqb c dquote = false -> (Ascii.eqb c backslash = true -> first_quote rest = false) ->
  parses true inner_char (String c rest) [] (drop_cont rest).
Proof.
  intros Hq Hb. change (@nil Pair) with (@nil Pair ++ []). eapply parses_seq.
  - apply parses_not, fails_str. cbn [quote strip_prefix]. rewrite Ascii.eqb_sym in Hq. by rewrite Hq.
  - apply parses_alt_r; [|by exists 1%nat]. apply fails_str. cbn [quote strip_prefix].
    destruct (Ascii.eqb backslash c) eqn:Hc; [|done]. rewrite Ascii.eqb_sym in Hc. specialize (Hb Hc).
    destruct rest as [|d rest]; [done|]. cbn [first_quote] in Hb. rewrite Ascii.eqb_sym in Hb. by rewrite Hb.
Qed.
Lemma inner_char_end rest : fails true inner_char (String dquote rest).
Proof. by exists 4%nat. Qed.

Lemma first_quote_app s rest : s <> "" -> first_quote (s +:+ rest) = first_quote s.
Proof. by destruct s. Qed.
Lemma escape_quotes_nonempty s : s <> "" -> escape_quotes s <> "".
Proof. destruct s as [|c s]; [done|]. intros _. cbn. by case_match. Qed.

(** The characters of a literal, up to its closing quote. *)
Lemma inner_chars n s rest :
  (str_len s < n)%nat -> last_backslash s = false ->
  parses true (PMore inner_char) (escape_quotes s +:+ String dquote rest) [] (String dquote rest).
Proof.
  revert s. induction n as [|n IH]; intros s Hn Hl; [lia|].
  destruct s as [|c s]; [apply parses_more_end, inner_char_end|]. cbn [str_len] in Hn.
  change (@nil Pair) with (@nil Pair ++ []). cbn [escape_quotes].
  destruct (Ascii.eqb c dquote) eqn:Hq.
  - rewrite !app_cons_str. eapply parses_more; [apply inner_char_escaped|]. apply IH; [lia|].
    destruct s; [done|exact Hl].
  - rewrite app_cons_str. eapply parses_more.
    + apply inner_char_other; [done|]. intros Hb. destruct s as [|d s].
      { cbn [last_backslash] in Hl. congruence. }
      rewrite first_quote_app by (by apply escape_quotes_nonempty). apply escape_quotes_first.
    + rewrite drop_cont_escape. pose proof (drop_cont_len s). apply IH; [lia|].
      apply drop_cont_last. destruct s; [done|exact Hl].
Qed.

Lemma parses_inner s rest :
  last_backslash s = false ->
  parses true (PRule R_inner_str) (escape_quotes s +:+ String dquote rest) [] (String dquote rest).
Proof.
  intros Hl. eapply parses_rule_atomic. change (rule_body R_inner_str) with (PStar inner_char).
  apply parses_star_atomic. by apply (inner_chars (S (str_len s))); [lia|].
Qed.

Lemma parses_string s rest :
  last_backslash s = false ->
  parses false (PRule R_string) (grl_string_literal s +:+ rest) [mkPair R_string (grl_string_literal s) []] rest.
Proof.
  intros Hl. apply parses_rule_text. unfold grl_string_literal. rewrite app_cons_str, app_assoc_str.
  change (@nil Pair) with (@nil Pair ++ []). cbn [rule_body is_atomic]. eapply parses_seq.
  - change (@nil Pair) with (@nil Pair ++ []). eapply parses_seq; [apply (parses_str true quote)|].
    cbn [quote]. rewrite app_cons_str. by apply parses_inner.
  - apply (parses_str true quote).
Qed.

(** * Numbers and words *)

Lemma digit_run atomic_rest s rest :
  atomic_rest = true -> s <> "" -> all_in is_ascii_digit s -> stops is_ascii_digit rest ->
  parses atomic_rest (PPlus (PByte ascii_digit)) (s +:+ rest) [] rest.
Proof.
  intros ->. apply (parses_plus_run (PByte ascii_digit) ascii_digit).
  - intros. by apply parses_byte.
  - intros. by apply byte_class_fails.
Qed.

(** The text of an integer: its sign and its digits. *)
Lemma print_int_parts z : exists sign ds,
  print_int z = sign +:+ ds /\ (sign = "" \/ sign = "-") /\ ds <> "" /\ all_in is_ascii_digit ds.
Proof.
  unfold print_int. assert (Hne : forall n, print_nat n <> "").
  { intros n Hn. pose proof (print_nat_nonempty n) as H. by rewrite Hn in H. }
  destruct (Z.ltb_spec z 0).
  - exists "-", (print_nat (- z)). split; [done|]. split; [by right|]. split; [done|]. apply print_nat_digits. lia.
  - exists "", (print_nat z). split; [done|]. split; [by left|]. split; [done|]. by apply print_nat_digits.
Qed.

Lemma digits_first ds rest : ds <> "" -> all_in is_ascii_digit ds -> exists c r, ds +:+ rest = String c r /\ is_ascii_digit c = true.
Proof. destruct ds as [|c ds]; [done|]. intros _ H. inversion H. subst. exists c, (ds +:+ rest). by rewrite app_cons_str. Qed.

Lemma parses_sign sign ds rest :
  sign = "" \/ sign = "-" -> ds <> "" -> all_in is_ascii_digit ds ->
  parses true (POpt (PStr "-")) (sign +:+ ds +:+ rest) [] (ds +:+ rest).
Proof.
  intros [-> | ->] Hne Hd; [|apply parses_opt, (parses_str true "-")].
  apply parses_opt_none, fails_str.
  destruct (digits_first ds rest) as (c & r & -> & Hc); [done..|].
  cbn [strip_prefix]. destruct (Ascii.eqb_spec "-" c) as [<-|]; [by vm_compute in Hc|done].
Qed.

Lemma ends_word_digits rest : ends_word rest -> stops is_ascii_digit rest.
Proof. destruct rest as [|c r]; [done|]. cbn. unfold ident_char. intros H. by reflect_bools. Qed.

Lemma parses_integer z rest :
  stops is_ascii_digit rest ->
  parses false (PRule R_integer) (print_int z +:+ rest) [mkPair R_integer (print_int z) []] rest.
Proof.
  intros Hr. apply parses_rule_text. destruct (print_int_parts z) as (sign & ds & -> & Hs & Hne & Hd).
  rewrite app_assoc_str. change (@nil Pair) with (@nil Pair ++ []).
  eapply parses_seq; [by apply parses_sign|]. by apply digit_run.
Qed.

(** No fraction follows the digits. *)
Lemma float_fails_integer z rest :
  stops is_ascii_digit rest -> starts_with rest "." = false ->
  fails false (PRule R_float) (print_int z +:+ rest).
Proof.
  intros Hr Hp. apply fails_rule. destruct (print_int_parts z) as (sign & ds & -> & Hs & Hne & Hd).
  rewrite app_assoc_str. cbn [rule_body is_atomic orb]. apply fails_seq_l. eapply fails_seq_r.
  - eapply parses_seq; [by apply parses_sign|]. by apply digit_run.
  - apply fails_str. unfold starts_with in Hp. reflect_bools.
    destruct (strip_prefix "." rest) eqn:E; [|done]. exfalso. eauto.
Qed.

(** A number does not start with this byte. *)
Definition not_number (s : string) : Prop := stops num_char s.
Lemma number_fails s :
  not_number s -> fails false (PRule R_float) s /\ fails false (PRule R_integer) s.
Proof.
  intros Hs.
  assert (Hrun : fails true (POpt (PStr "-") ~~ PPlus (PByte ascii_digit)) s).
  { eapply fails_seq_r.
    - apply parses_opt_none, fails_str. destruct s as [|c r]; [done|]. cbn [stops strip_prefix] in *.
      unfold not_number, stops, num_char in Hs. reflect_bools. destruct (Ascii.eqb_spec "-" c) as [<-|]; done.
    - apply fails_seq_l, byte_class_fails. destruct s as [|c r]; [done|]. cbn [stops] in *.
      unfold not_number, stops, num_char in Hs. by reflect_bools. }
  split; apply fails_rule; cbn [rule_body is_atomic orb]; [by apply fails_seq_l, fails_seq_l|done].
Qed.

(** An identifier that is not the keyword does not match it as a word. *)
Lemma keyword_fails k n rest :
  all_in ident_char k -> is_ident n = true -> n <> k -> ends_word rest ->
  fails true (PStr k ~~ word_end) (n +:+ rest).
Proof.
  intros Hk Hn Hne Hr. destruct (strip_prefix k (n +:+ rest)) as [r|] eqn:E; [|by apply fails_seq_l, fails_str].
  apply strip_prefix_Some in E. rewrite E. eapply fails_seq_r; [apply parses_str|].
  destruct r as [|c r]; [|destruct (ident_char c) eqn:Hc; [by apply word_end_fails|]];
    exfalso; apply Hne; apply (span_inj ident_char) in E as [? _]; auto using is_ident_all.
  done.
Qed.

(** * Levels of precedence *)

Inductive level : Type := LPrimary | LMul | LAdd | LCmp | LNot | LAnd | LOr | LExpr.

Definition level_rule (l : level) : GrlRule :=
  match l with
  | LPrimary => R_primary | LMul => R_mul_expr | LAdd => R_add_expr | LCmp => R_cmp_expr
  | LNot => R_not_expr | LAnd => R_and_expr | LOr => R_or_expr | LExpr => R_expression
  end.

(** The texts that would continue an expression of the level. *)
Definition path_stops : list string := ["."; "["; "("].
Definition mul_stops : list string := path_stops ++ ["*"; "/"].
Definition add_stops : list string := mul_stops ++ ["+"; "-"].
Definition cmp_stops : list string := add_stops ++ ["=="; "!="; "<"; ">"].
Definition level_stops (l : level) : list string :=
  match l with
  | LPrimary => path_stops
  | LMul => mul_stops
  | LAdd => add_stops
  | LCmp | LNot => cmp_stops
  | LAnd => cmp_stops ++ ["&&"]
  | LOr | LExpr => cmp_stops ++ ["&&"; "||"]
  end.
Definition next_not (ops : list string) (rest : string) : bool :=
  forallb (fun t => negb (starts_with (skip rest) t)) ops.
Definition follows (l : level) (rest : string) : Prop := ends_word rest /\ next_not (level_stops l) rest = true.

Lemma next_not_In ops t rest : next_not ops rest = true -> In t ops -> strip_prefix t (skip rest) = None.
Proof.
  unfold next_not. rewrite List.forallb_forall. intros H Ht. specialize (H t Ht). reflect_bools.
  unfold starts_with in H. reflect_bools. by destruct (strip_prefix t (skip rest)); [exfalso; eauto|].
Qed.
Lemma next_not_fails ops t rest atomic : next_not ops rest = true -> In t ops -> fails atomic (PStr t) (skip rest).
Proof. intros H Ht. by eapply fails_str, next_not_In. Qed.
Lemma next_not_app ops ops' rest : next_not (ops ++ ops') rest = true -> next_not ops rest = true.
Proof. unfold next_not. rewrite forallb_app. intros H. by reflect_bools. Qed.

(** The grammar reads a text as an expression, up to blanks. *)
Definition reads (r : GrlRule) (s : string) (e : Expr) (rest : string) : Prop :=
  exists text toks rest', parses false (PRule r) s [mkPair r text toks] rest' /\
    parse_expr (mkPair r text toks) = Ok e /\ skip rest' = skip rest.

(** The text of an expression, wherever it is followed by what cannot continue it. *)
Record text_at (l : level) (s : string) (e : Expr) : Prop := {
  text_solid : solid s = true;
  text_reads : forall rest, follows l rest -> reads (level_rule l) (s +:+ rest) e rest
}.

(** * Literals *)

Lemma quote_fails s : first_quote s = false -> fails false (PRule R_string) s.
Proof.
  intros Hq. apply fails_rule. cbn [rule_body is_atomic orb]. apply fails_seq_l, fails_seq_l, fails_str.
  destruct s as [|c r]; [done|]. cbn [first_quote quote strip_prefix] in *. rewrite Ascii.eqb_sym in Hq. by rewrite Hq.
Qed.

Lemma literal_reads s r text rest v :
  parses false (rule_body R_literal) (s +:+ rest) [mkPair r text []] rest ->
  parse_literal (mkPair R_literal s [mkPair r text []]) = Ok v ->
  reads R_primary (s +:+ rest) (ELiteral v) rest.
Proof.
  intros Hp Hv. do 3 eexists. split; [|split; [|done]].
  - apply parses_rule_text. cbn [rule_body]. apply parses_alt_l. apply parses_rule_text, Hp.
  - cbn [parse_expr]. by rewrite Hv.
Qed.

(** The strings that a literal of the converter gives back: no closing quote is
    escaped or lost, and no escape is expanded. *)
Definition literal_ok (s : string) : bool :=
  no_final_quote s && negb (last_backslash s) && negb (contains s "\n") && negb (contains s "\t").

Lemma string_text s : literal_ok s = true -> text_at LPrimary (grl_string_literal s) (ELiteral (VStr s)).
Proof.
  unfold literal_ok. intros Hs. reflect_bools. split; [done|]. intros rest _.
  eapply literal_reads; [apply parses_alt_l; by apply parses_string|].
  unfold parse_literal. cbn [into_inner as_rule pair_str]. by rewrite unquote_literal.
Qed.

Lemma num_char_quote c : num_char c = true -> Ascii.eqb c dquote = false.
Proof. destruct c as [[] [] [] [] [] [] [] []]; vm_compute; auto; discriminate. Qed.
Lemma num_char_solid c : num_char c = true -> solid_byte c = true.
Proof. destruct c as [[] [] [] [] [] [] [] []]; vm_compute; auto; discriminate. Qed.

Lemma follows_no_point l rest : follows l rest -> starts_with rest "." = false.
Proof.
  intros [_ Hn]. assert (Hp : next_not path_stops rest = true).
  { destruct l; cbn [level_stops] in Hn; try exact Hn; unfold cmp_stops, add_stops, mul_stops in Hn;
      rewrite <-?app_assoc in Hn; by apply next_not_app in Hn. }
  apply not_true_iff_false. intros [r ->]%starts_with_spec.
  apply (next_not_In _ ".") in Hp; [|by left]. rewrite skip_solid in Hp by done. by rewrite strip_prefix_app in Hp.
Qed.

Lemma int_text z : in_s 64 z -> text_at LPrimary (print_int z) (ELiteral (VInt z)).
Proof.
  intros Hz. destruct (print_int_head z) as (c & r & Hc & Hn).
  split; [by rewrite Hc; cbn; apply num_char_solid|]. intros rest Hf. pose proof (follows_no_point _ _ Hf) as Hp.
  destruct Hf as [Hw%ends_word_digits _]. eapply literal_reads.
  - apply parses_alt_r; [apply quote_fails; rewrite Hc; by apply num_char_quote|].
    apply parses_alt_r; [by apply float_fails_integer|]. by apply parses_alt_l, parses_integer.
  - unfold parse_literal. cbn [into_inner as_rule pair_str]. by rewrite parse_print_int.
Qed.

(** Decimal fractions. *)
Definition digits (s : string) : bool := negb (is_empty s) && forallb is_ascii_digit (str_bytes s).
Definition float_shape (s : string) : bool :=
  match split_once "." (default s (strip_prefix "-" s)) with Some (a, b) => digits a && digits b | None => false end.

Lemma digits_all s : digits s = true -> s <> "" /\ all_in is_ascii_digit s.
Proof.
  unfold digits. intros H. reflect_bools. split; [by intros ->|]. apply List.Forall_forall. by apply List.forallb_forall.
Qed.
Lemma split_once_text c s a b : split_once c s = Some (a, b) -> s = a +:+ String c b.
Proof.
  revert a b. induction s as [|d s IH]; intros a b; [done|]. cbn [split_once]. destruct (Ascii.eqb_spec d c) as [->|].
  - by intros [= <- <-].
  - destruct (split_once c s) as [[a' b']|]; [|done]. cbn. intros [= <- <-]. rewrite app_cons_str. f_equal. by apply IH.
Qed.
Lemma float_parts s : float_shape s = true -> exists sign a b,
  s = sign +:+ a +:+ "." +:+ b /\ (sign = "" \/ sign = "-") /\
  a <> "" /\ all_in is_ascii_digit a /\ b <> "" /\ all_in is_ascii_digit b.
Proof.
  unfold float_shape. intros H. assert (Hsign : exists sign t, s = sign +:+ t /\ (sign = "" \/ sign = "-") /\
    default s (strip_prefix "-" s) = t).
  { destruct (strip_prefix "-" s) as [t|] eqn:E; [|by exists "", s; auto].
    apply strip_prefix_Some in E. exists "-", t. auto. }
  destruct Hsign as (sign & t & -> & Hs & Hd). rewrite Hd in H.
  destruct (split_once "." t) as [[a b]|] eqn:E; [|done]. apply split_once_text in E as ->. reflect_bools.
  exists sign, a, b. split; [done|]. split; [done|].
  destruct (digits_all a), (digits_all b); auto.
Qed.

Lemma float_parses s rest :
  float_shape s = true -> stops is_ascii_digit rest ->
  parses false (PRule R_float) (s +:+ rest) [mkPair R_float s []] rest.
Proof.
  intros (sign & a & b & -> & Hs & Ha & Hda & Hb & Hdb)%float_parts Hr. apply parses_rule_text.
  rewrite !app_assoc_str. cbn [rule_body is_atomic].
  apply (parses_seq true _ _ _ [] (b +:+ rest) []); [|by apply digit_run].
  apply (parses_seq true _ _ _ [] ("." +:+ b +:+ rest) []); [|apply (parses_str true ".")].
  apply (parses_seq true _ _ _ [] (a +:+ "." +:+ b +:+ rest) []); [by apply parses_sign|].
  by apply digit_run.
Qed.

Lemma float_text f :
  float_shape (f64_display f) = true -> f64_parse (f64_display f) = Some f ->
  text_at LPrimary (f64_display f) (ELiteral (VFloat f)).
Proof.
  intros Hs Hf. assert (Hhead : forall rest, first_quote (f64_display f +:+ rest) = false /\ solid (f64_display f) = true).
  { intros rest. destruct (float_parts _ Hs) as (sign & a & b & -> & [-> | ->] & Ha & Hda & _); [|done].
    destruct (digits_first a ("." +:+ b) Ha Hda) as (c & r & Hc & Hd). rewrite app_nil_l_str, Hc, app_cons_str.
    assert (Hn : num_char c = true) by (unfold num_char; by rewrite Hd).
    split; [by apply num_char_quote|by apply num_char_solid]. }
  split; [by apply (Hhead "")|]. intros rest [Hw%ends_word_digits _]. eapply literal_reads.
  - apply parses_alt_r; [by apply quote_fails, Hhead|]. by apply parses_alt_l, float_parses.
  - unfold parse_literal. cbn [into_inner as_rule pair_str]. by rewrite Hf.
Qed.

(** Words are neither strings nor numbers. *)
Lemma ident_char_other c : ident_start c = true -> Ascii.eqb c dquote = false /\ num_char c = false /\ solid_byte c = true.
Proof. destruct c as [[] [] [] [] [] [] [] []]; vm_compute; auto; discriminate. Qed.
Lemma word_not_literal n rest :
  is_ident n = true ->
  fails false (PRule R_string) (n +:+ rest) /\ fails false (PRule R_float) (n +:+ rest) /\
  fails false (PRule R_integer) (n +:+ rest) /\ solid n = true.
Proof.
  intros (c & r & -> & Hc & _)%is_ident_head. destruct (ident_char_other c Hc) as (Hq & Hn & Hs).
  rewrite app_cons_str. pose proof (number_fails (String c (r +:+ rest)) Hn) as [? ?].
  split; [by apply quote_fails|]. done.
Qed.

Lemma bool_text b : text_at LPrimary (print_bool b) (ELiteral (VBool b)).
Proof.
  split; [by destruct b|]. intros rest [Hw _].
  destruct (word_not_literal (print_bool b) rest) as (Hs & Hf & Hi & _); [by destruct b|].
  eapply (literal_reads _ R_bool_lit (print_bool b)).
  - do 3 (apply parses_alt_r; [done|]). apply parses_alt_l, parses_rule_text.
    change (@nil Pair) with (@nil Pair ++ []). eapply parses_seq; [|by apply word_end_ok].
    destruct b; [apply parses_alt_l, (parses_str true "true")|].
    apply parses_alt_r; [by apply fails_str|apply (parses_str true "false")].
  - by destruct b.
Qed.

Lemma null_text : text_at LPrimary "null" (ELiteral VNull).
Proof.
  split; [done|]. intros rest [Hw _]. destruct (word_not_literal "null" rest) as (Hs & Hf & Hi & _); [done|].
  eapply (literal_reads _ R_null_lit "null"); [|done].
  do 3 (apply parses_alt_r; [done|]). apply parses_alt_r; [by exists 20%nat|]. apply parses_rule_text.
  change (@nil Pair) with (@nil Pair ++ []). eapply parses_seq; [apply (parses_str true "null")|by apply word_end_ok].
Qed.

(** Any other word is no literal. *)
Lemma word_literal_fails n rest :
  is_ident n = true -> is_keyword n = false -> ends_word rest -> fails false (PRule R_literal) (n +:+ rest).
Proof.
  intros Hn Hk Hw. destruct (word_not_literal n rest Hn) as (Hs & Hf & Hi & _). unfold is_keyword in Hk.
  reflect_bools. repeat match goal with H : String.eqb _ _ = false |- _ => apply String.eqb_neq in H end.
  assert (Hall : forall k, k ∈ ["true"; "false"; "null"] -> all_in ident_char k) by
    (intros k Hin; repeat (apply elem_of_cons in Hin as [->|Hin]; [by repeat constructor|]); by apply elem_of_nil in Hin).
  apply fails_rule. cbn [rule_body is_atomic orb].
  do 3 (apply fails_alt; [done|]). apply fails_alt; apply fails_rule; cbn [rule_body is_atomic orb].
  - assert (Ht : fails true (PStr "true" ~~ word_end) (n +:+ rest)) by (apply keyword_fails; auto; apply Hall; set_solver).
    assert (Hfa : fails true (PStr "false" ~~ word_end) (n +:+ rest)) by (apply keyword_fails; auto; apply Hall; set_solver).
    by apply fails_alt_seq.
  - apply keyword_fails; auto. apply Hall. set_solver.
Qed.

(** * From one level to the next *)

Definition next_level (l : level) : level :=
  match l with
  | LPrimary => LMul | LMul => LAdd | LAdd => LCmp | LCmp => LNot | LNot => LAnd | LAnd => LOr | _ => LExpr
  end.

Lemma follows_lower l rest : follows (next_level l) rest -> follows l rest.
Proof.
  intros [Hw Hn]. split; [done|].
  destruct l; cbn [next_level level_stops] in *; try exact Hn; try by apply next_not_app in Hn.
  change (cmp_stops ++ ["&&"; "||"]) with (cmp_stops ++ ["&&"] ++ ["||"]) in Hn. rewrite app_assoc in Hn.
  by apply next_not_app in Hn.
Qed.

(** A single operand, when nothing that follows continues it. *)
Lemma reads_single r q tail s e rest :
  rule_body r = PRule q ~~ tail -> is_atomic r = false ->
  (forall text t, parse_expr (mkPair r text [t]) = parse_expr t) ->
  parses false tail (skip rest) [] (skip rest) ->
  reads q s e rest -> reads r s e rest.
Proof.
  intros Hb Ha Ht Htail (text & toks & rest' & Hp & He & Hs). do 3 eexists. split; [|split].
  - apply parses_rule. rewrite Hb, Ha. eapply parses_seq; [exact Hp|]. cbn. rewrite Hs. exact Htail.
  - cbn [app]. by rewrite Ht.
  - apply skip_skip.
Qed.

Lemma star_none q op s : fails false (PStr op) s -> parses false (PStar (PStr op ~~ PRule q)) s [] s.
Proof. intros H. apply parses_star_none. by apply fails_seq_l. Qed.

Lemma single_expr_eq r text t :
  r ∈ [R_mul_expr; R_add_expr; R_cmp_expr; R_and_expr; R_or_expr; R_expression] ->
  parse_expr (mkPair r text [t]) = parse_expr t.
Proof.
  intros Hr. repeat (apply elem_of_cons in Hr as [->|Hr]; [cbn [parse_expr]; unfold parse_left_assoc, parse_binary; by destruct (parse_expr t)|]).
  by apply elem_of_nil in Hr.
Qed.

Ltac single q := eapply (reads_single _ q); [reflexivity|reflexivity|intros; apply single_expr_eq; set_solver|].

Lemma stop_at l t rest : follows l rest -> In t (level_stops l) -> fails false (PStr t) (skip rest).
Proof. intros [_ Hn] Ht. by eapply next_not_fails. Qed.

Ltac stop l := eapply (stop_at l); [eassumption|cbn; tauto].

Lemma bang_fails s : fails false (PRule R_cmp_expr) (String "!" s).
Proof. by exists 30%nat. Qed.

Lemma lift_mul s e rest : follows LMul rest -> reads R_primary s e rest -> reads R_mul_expr s e rest.
Proof.
  intros Hf. single R_primary. apply parses_star_none, fails_seq_l, fails_rule, fails_alt; stop LMul.
Qed.
Lemma lift_add s e rest : follows LAdd rest -> reads R_mul_expr s e rest -> reads R_add_expr s e rest.
Proof.
  intros Hf. single R_mul_expr. apply parses_star_none, fails_seq_l, fails_rule, fails_alt; stop LAdd.
Qed.

Lemma starts_shorter t c s : strip_prefix t s = None -> strip_prefix (t +:+ c) s = None.
Proof.
  intros Ht. destruct (strip_prefix (t +:+ c) s) as [r|] eqn:E; [|done]. apply strip_prefix_Some in E as ->.
  by rewrite app_assoc_str, strip_prefix_app in Ht.
Qed.
Lemma cmp_op_fails l rest : follows l rest -> l ∈ [LCmp; LNot; LAnd; LOr; LExpr] -> fails false (PRule R_cmp_op) (skip rest).
Proof.
  intros [_ Hn] Hl. assert (Hc : next_not cmp_stops rest = true).
  { repeat (apply elem_of_cons in Hl as [->|Hl]; [cbn [level_stops] in Hn; try exact Hn; by apply next_not_app in Hn|]).
    by apply elem_of_nil in Hl. }
  assert (Hs : forall t, In t ["=="; "!="; "<"; ">"] -> strip_prefix t (skip rest) = None).
  { intros t Ht. apply (next_not_In _ _ _ Hc). unfold cmp_stops. apply in_or_app. by right. }
  apply fails_rule. cbn [rule_body is_atomic orb].
  repeat apply fails_alt; apply fails_str; try (apply Hs; cbn; tauto).
  - apply (starts_shorter "<" "="), Hs. cbn. tauto.
  - apply (starts_shorter ">" "="), Hs. cbn. tauto.
Qed.
Lemma lift_cmp s e rest : follows LCmp rest -> reads R_add_expr s e rest -> reads R_cmp_expr s e rest.
Proof.
  intros Hf. single R_add_expr. apply parses_opt_none, fails_seq_l. eapply cmp_op_fails; [exact Hf|set_solver].
Qed.
Lemma lift_not s e rest : skip s = s -> reads R_cmp_expr s e rest -> reads R_not_expr s e rest.
Proof.
  intros Hsk (text & toks & rest' & Hp & He & Hs). do 3 eexists. split; [|split; [|exact Hs]].
  - apply parses_rule. cbn [rule_body is_atomic]. change [mkPair R_cmp_expr text toks] with ([] ++ [mkPair R_cmp_expr text toks]).
    eapply parses_seq; [|cbn; rewrite Hsk; exact Hp]. apply parses_opt_none, fails_rule, fails_str.
    destruct s as [|c s]; [done|]. cbn [strip_prefix]. destruct (Ascii.eqb_spec "!" c) as [<-|]; [|done].
    exfalso. eapply parses_not_fails; [exact Hp|apply bang_fails].
  - cbn [app]. cbn [parse_expr] in *. by destruct toks.
Qed.
Lemma lift_and s e rest : follows LAnd rest -> reads R_not_expr s e rest -> reads R_and_expr s e rest.
Proof. intros Hf. single R_not_expr. apply star_none. stop LAnd. Qed.
Lemma lift_or s e rest : follows LOr rest -> reads R_and_expr s e rest -> reads R_or_expr s e rest.
Proof. intros Hf. single R_and_expr. apply star_none. stop LOr. Qed.
Lemma lift_expr s e rest : reads R_or_expr s e rest -> reads R_expression s e rest.
Proof.
  intros (text & toks & rest' & Hp & He & Hs). do 3 eexists. split; [|split; [|exact Hs]].
  - by apply parses_rule.
  - by rewrite single_expr_eq by set_solver.
Qed.

Lemma text_lift l s e : text_at l s e -> text_at (next_level l) s e.
Proof.
  intros [Hsol Hr]. split; [done|]. intros rest Hf. specialize (Hr rest (follows_lower _ _ Hf)).
  destruct l; cbn [next_level level_rule] in *; try exact Hr.
  - by apply lift_mul.
  - by apply lift_add.
  - by apply lift_cmp.
  - apply lift_not; [by apply skip_solid_app|done].
  - by apply lift_and.
  - by apply lift_or.
  - by apply lift_expr.
Qed.

(** The order of the levels. *)
Definition level_nat (l : level) : nat :=
  match l with
  | LPrimary => 0 | LMul => 1 | LAdd => 2 | LCmp => 3 | LNot => 4 | LAnd => 5 | LOr => 6 | LExpr => 7
  end.
Lemma text_up l l' s e : (level_nat l <= level_nat l')%nat -> text_at l s e -> text_at l' s e.
Proof.
  remember (level_nat l' - level_nat l)%nat as n eqn:Hn. revert l Hn. induction n as [|n IH]; intros l Hn Hle Ht.
  - assert (l = l') as <- by (destruct l, l'; cbn in *; (done || lia)). done.
  - apply (IH (next_level l)); [| |by apply text_lift]; destruct l, l'; cbn in *; lia.
Qed.

(** * Binary operators *)

Definition infix (l sym r : string) : string := l +:+ " " +:+ sym +:+ " " +:+ r.

Lemma skip_blank s : skip (" " +:+ s) = skip s.
Proof. by apply (skip_space " "). Qed.
Definition visible (sym : string) : Prop := forall rest, skip (sym +:+ " " +:+ rest) = sym +:+ " " +:+ rest.

(** An operator and its right operand, after the left one. *)
Lemma reads_operator opr (lv : level) sym r er rest :
  is_atomic opr = false ->
  parses false (rule_body opr) (sym +:+ " " +:+ r +:+ rest) [] (" " +:+ r +:+ rest) ->
  text_at lv r er -> follows lv rest ->
  exists text toks rest', parses false (PRule opr ~~ PRule (level_rule lv)) (sym +:+ " " +:+ r +:+ rest)
    [mkPair opr sym []; mkPair (level_rule lv) text toks] rest' /\
    parse_expr (mkPair (level_rule lv) text toks) = Ok er /\ skip rest' = skip rest.
Proof.
  intros Ha Hop [Hr Hreads] Hf. destruct (Hreads rest Hf) as (text & toks & rest' & Hp & He & Hs).
  exists text, toks, rest'. split; [|done].
  change [mkPair opr sym []; mkPair (level_rule lv) text toks]
    with ([mkPair opr sym []] ++ [mkPair (level_rule lv) text toks]).
  eapply parses_seq; [apply parses_rule_text; rewrite Ha; exact Hop|].
  cbn [negb]. rewrite skip_blank. by rewrite skip_solid_app.
Qed.

Section Infix.
Context (lv lv' : level) (opr : GrlRule) (ops : list (string * BinOp)).
Hypothesis Hbody : rule_body (level_rule lv') =
  PRule (level_rule lv) ~~ PStar (PRule opr ~~ PRule (level_rule lv)).
Hypothesis Hatomic : is_atomic (level_rule lv') = false /\ is_atomic opr = false.
Hypothesis Hparse : forall text l, parse_expr (mkPair (level_rule lv') text l) = parse_left_assoc parse_expr ops l.
(** Each symbol is read by its rule, does not continue the left operand, and
    nothing that may follow the expression is one. *)
Hypothesis Hsyms : forall sym op, find_op ops sym = Some op ->
  visible sym /\ (forall rest, follows lv (" " +:+ sym +:+ " " +:+ rest)) /\
  forall rest, parses false (rule_body opr) (sym +:+ " " +:+ rest) [] (" " +:+ rest).
Hypothesis Hnone : forall rest, follows lv' rest -> fails false (PRule opr) (skip rest).
Hypothesis Hfollows : forall rest, follows lv' rest -> follows lv rest.

Lemma infix_text sym op l r el er :
  find_op ops sym = Some op -> text_at lv l el -> text_at lv r er ->
  text_at lv' (infix l sym r) (EBinary op el er).
Proof.
  intros Hop [Hl Hreads] Hr. destruct (Hsyms sym op Hop) as (Hsol & Hfol & Hp).
  split; [by apply solid_app|]. intros rest Hf. unfold infix. rewrite !app_assoc_str.
  destruct (Hreads _ (Hfol (r +:+ rest))) as (lt & ltoks & rest1 & Hpl & Hel & Hs1).
  destruct (reads_operator opr lv sym r er rest) as (rt & rtoks & rest2 & Hpr & Her & Hs2); auto; [apply Hatomic|].
  do 3 eexists. split; [|split; [|exact Hs2]].
  - apply parses_rule. rewrite Hbody, (proj1 Hatomic). eapply parses_seq; [exact Hpl|].
    cbn [negb]. rewrite Hs1, skip_blank, Hsol.
    eapply parses_star; [exact Hpr|]. apply parses_more_end. cbn [negb]. rewrite Hs2.
    by apply fails_seq_l, Hnone.
  - rewrite Hparse. cbn [app]. unfold parse_left_assoc. rewrite Hel. cbn -[parse_expr find_op].
    rewrite Hop. cbn -[parse_expr]. by rewrite Her.
Qed.
End Infix.

Ltac symbol_cases H :=
  cbn [find_op add_ops mul_ops] in H;
  repeat (match type of H with (if String.eqb ?t ?s then _ else _) = _ => destruct (String.eqb_spec t s) as [<-|?] end).

Lemma add_text sym op l r el er :
  find_op add_ops sym = Some op -> text_at LMul l el -> text_at LMul r er ->
  text_at LAdd (infix l sym r) (EBinary op el er).
Proof.
  apply (infix_text LMul LAdd R_add_op add_ops); try done.
  - intros s o Ho. symbol_cases Ho; [| |done]; (split; [done|split; [done|]]); intros rest.
    + apply parses_alt_l, (parses_str false "+").
    + apply parses_alt_r; [by apply fails_str|apply (parses_str false "-")].
  - intros rest Hf. apply fails_rule, fails_alt; stop LAdd.
  - intros rest. apply (follows_lower LMul).
Qed.
Lemma mul_text sym op l r el er :
  find_op mul_ops sym = Some op -> text_at LPrimary l el -> text_at LPrimary r er ->
  text_at LMul (infix l sym r) (EBinary op el er).
Proof.
  apply (infix_text LPrimary LMul R_mul_op mul_ops); try done.
  - intros s o Ho. symbol_cases Ho; [| |done]; (split; [done|split; [done|]]); intros rest.
    + apply parses_alt_l, (parses_str false "*").
    + apply parses_alt_r; [by apply fails_str|apply (parses_str false "/")].
  - intros rest Hf. apply fails_rule, fails_alt; stop LMul.
  - intros rest. apply (follows_lower LPrimary).
Qed.

Lemma cmp_op_symbol sym op :
  cmp_op sym = Some op ->
  visible sym /\ (forall rest, follows LAdd (" " +:+ sym +:+ " " +:+ rest)) /\
  forall rest, parses false (rule_body R_cmp_op) (sym +:+ " " +:+ rest) [] (" " +:+ rest).
Proof.
  unfold cmp_op. intros Ho.
  repeat (match type of Ho with (if String.eqb ?s ?t then _ else _) = _ => destruct (String.eqb_spec s t) as [->|?] end);
    try done; (split; [done|split; [done|]]); intros rest; by exists 10%nat.
Qed.

Lemma parse_cmp_eq text p q sym op e1 e2 :
  cmp_op sym = Some op -> parse_expr p = Ok e1 -> parse_expr q = Ok e2 ->
  parse_expr (mkPair R_cmp_expr text [p; mkPair R_cmp_op sym []; q]) = Ok (EBinary op e1 e2).
Proof.
  intros Hop H1 H2. cbn [parse_expr]. rewrite H1. cbn [mbind result_mbind pair_str]. rewrite Hop.
  cbn [mbind result_mbind ok_or]. by rewrite H2.
Qed.
Lemma parse_not_eq text t p e :
  parse_expr p = Ok e -> parse_expr (mkPair R_not_expr text [mkPair R_not_op t []; p]) = Ok (EUnary UNot e).
Proof. intros H. cbn [parse_expr]. by rewrite H. Qed.

Lemma cmp_text sym op l r el er :
  cmp_op sym = Some op -> text_at LAdd l el -> text_at LAdd r er ->
  text_at LCmp (infix l sym r) (EBinary op el er).
Proof.
  intros Hop [Hl Hreads] Hr. destruct (cmp_op_symbol sym op Hop) as (Hsol & Hfol & Hp).
  split; [by apply solid_app|]. intros rest Hf. unfold infix. rewrite !app_assoc_str.
  destruct (Hreads _ (Hfol (r +:+ rest))) as (lt & ltoks & rest1 & Hpl & Hel & Hs1).
  destruct (reads_operator R_cmp_op LAdd sym r er rest) as (rt & rtoks & rest2 & Hpr & Her & Hs2); auto.
  { by apply (follows_lower LAdd). }
  do 3 eexists. split; [|split; [|exact Hs2]].
  - apply parses_rule. cbn [rule_body is_atomic level_rule]. eapply parses_seq; [exact Hpl|].
    cbn [negb]. rewrite Hs1, skip_blank, Hsol. apply parses_opt. exact Hpr.
  - by apply parse_cmp_eq.
Qed.

(** [!e] *)
Lemma not_text s e : text_at LCmp s e -> text_at LNot ("!" +:+ s) (EUnary UNot e).
Proof.
  intros [Hs Hreads]. split; [done|]. intros rest Hf.
  destruct (Hreads rest) as (t & toks & rest' & Hp & He & Hsk); [by apply (follows_lower LCmp)|].
  do 3 eexists. split; [|split; [|exact Hsk]].
  - apply parses_rule. cbn [rule_body is_atomic level_rule]. rewrite app_assoc_str.
    eapply parses_seq; [apply parses_opt, parses_rule_text, (parses_str false "!")|].
    cbn [negb]. rewrite skip_solid_app by done. exact Hp.
  - by apply parse_not_eq.
Qed.

(** Between parentheses, or any other text that ends the expression. *)
Lemma paren_text s e : text_at LExpr s e -> text_at LPrimary ("(" +:+ s +:+ ")") e.
Proof.
  intros [Hs Hreads]. split; [done|]. intros rest _. rewrite !app_assoc_str.
  destruct (Hreads (")" +:+ rest)) as (t & toks & rest' & Hp & He & Hsk); [done|].
  exists ("(" +:+ s +:+ ")"). do 2 eexists. split; [|split; [|done]].
  - rewrite <-(app_assoc_str s), <-(app_assoc_str "("). apply parses_rule_text. cbn [rule_body is_atomic].
    rewrite !app_assoc_str.
    do 3 (apply parses_alt_r; [by exists 20%nat|]).
    change (?x :: ?l) with ([] ++ (x :: l)).
    eapply parses_seq; [|cbn [negb]; rewrite Hsk, skip_solid by done; apply (parses_str false ")")].
    eapply parses_seq; [apply (parses_str false "(")|]. cbn [negb]. rewrite skip_solid_app by done. exact Hp.
  - cbn [app parse_expr] in *. done.
Qed.

(** * Chains of [&&] and of [||] *)

Fixpoint join_tail (sep : string) (l : list string) : string :=
  match l with [] => "" | x :: l => sep +:+ x +:+ join_tail sep l end.
Lemma str_join_cons sep x l : str_join sep (x :: l) = x +:+ join_tail sep l.
Proof.
  revert x. induction l as [|y l IH]; intros x; [symmetry; apply app_nil_r_str|].
  change (x +:+ sep +:+ str_join sep (y :: l) = x +:+ sep +:+ y +:+ join_tail sep l). by rewrite IH.
Qed.

Lemma parse_binary_fold op p l e es :
  parse_expr p = Ok e -> Forall2 (fun t x => parse_expr t = Ok x) l es ->
  parse_binary parse_expr op (p :: l) = Ok (foldl (EBinary op) e es).
Proof.
  intros Hp Hl. unfold parse_binary. rewrite Hp. cbn [mbind result_mbind]. clear Hp p.
  revert e. induction Hl as [|t x l es Ht _ IH]; intros e; [done|].
  rewrite Ht. cbn [mbind result_mbind]. apply IH.
Qed.

(** Operands of level [lv], each after the first preceded by [sep]: the symbol
    with what may be skipped around it. *)
Section Chain.
Context (lv : level) (sym sep gap : string) (ending : string -> Prop).
Hypothesis Hsep : forall rest, skip (sep +:+ rest) = sym +:+ gap +:+ rest.
Hypothesis Hgap : forall rest, skip (gap +:+ rest) = skip rest.
Hypothesis Hfollows : forall rest, follows lv (sep +:+ rest).
Hypothesis Hlower : forall rest, ending rest -> follows lv rest.
Hypothesis Hstop : forall rest, ending rest -> fails false (PStr sym) (skip rest).

Let tail : peg := PStar (PStr sym ~~ PRule (level_rule lv)).

Lemma follows_tail ss rest : ending rest -> follows lv (join_tail sep ss +:+ rest).
Proof.
  intros Hf. destruct ss as [|s ss]; [by apply Hlower|]. cbn [join_tail]. rewrite app_assoc_str. apply Hfollows.
Qed.

Lemma chain_tail ss es rest pos :
  Forall2 (text_at lv) ss es -> ending rest -> skip pos = skip (join_tail sep ss +:+ rest) ->
  exists ts rest', parses false (PMore (PStr sym ~~ PRule (level_rule lv))) pos ts rest' /\
    Forall2 (fun t x => parse_expr t = Ok x) ts es /\ skip rest' = skip rest.
Proof.
  intros Hss Hf. revert pos. induction Hss as [|s e ss es [Hs Hreads] _ IH]; intros pos Hpos.
  - exists [], pos. split; [|done]. apply parses_more_end. cbn [negb]. rewrite Hpos. by apply fails_seq_l, Hstop.
  - destruct (Hreads _ (follows_tail ss rest Hf)) as (t & toks & rest1 & Hp & He & Hs1).
    destruct (IH _ Hs1) as (ts & rest' & Hps & Hes & Hsk).
    exists (mkPair (level_rule lv) t toks :: ts), rest'. split; [|split; [by constructor|done]].
    change (?x :: ts) with ([x] ++ ts). eapply parses_more; [|exact Hps]. cbn [negb].
    rewrite Hpos. cbn [join_tail]. rewrite !app_assoc_str, Hsep.
    change (?x :: ?l) with ([] ++ (x :: l)). eapply parses_seq; [apply parses_str|].
    cbn [negb]. rewrite Hgap, skip_solid_app by done. exact Hp.
Qed.

Lemma chain_parses s e ss es rest :
  text_at lv s e -> Forall2 (text_at lv) ss es -> ending rest ->
  exists t ts rest', parses false (PRule (level_rule lv) ~~ tail) (str_join sep (s :: ss) +:+ rest) (t :: ts) rest' /\
    Forall2 (fun t x => parse_expr t = Ok x) (t :: ts) (e :: es) /\ skip rest' = skip rest.
Proof.
  intros [Hs Hreads] Hss Hf. rewrite str_join_cons, app_assoc_str.
  destruct (Hreads _ (follows_tail ss rest Hf)) as (t & toks & rest1 & Hp & He & Hs1).
  destruct (chain_tail ss es rest rest1 Hss Hf Hs1) as (ts & rest2 & Hps & Hes & Hs2).
  apply star_of_more in Hps as (rest' & Hps & Hr).
  exists (mkPair (level_rule lv) t toks), ts, rest'. split; [|split; [by constructor|]].
  - change (?x :: ts) with ([x] ++ ts). eapply parses_seq; [exact Hp|exact Hps].
  - rewrite <-Hs2. destruct Hr as [-> | ->]; [done|apply skip_skip].
Qed.

(** A chain as a level of its own. *)
Lemma chain_text lv' bop s e ss es :
  rule_body (level_rule lv') = PRule (level_rule lv) ~~ tail -> is_atomic (level_rule lv') = false ->
  (forall text l, parse_expr (mkPair (level_rule lv') text l) = parse_binary parse_expr bop l) ->
  (forall rest, follows lv' rest -> ending rest) ->
  text_at lv s e -> Forall2 (text_at lv) ss es ->
  text_at lv' (str_join sep (s :: ss)) (foldl (EBinary bop) e es).
Proof.
  intros Hbody Ha Hparse Hend Hs Hss. split.
  { rewrite str_join_cons. apply solid_app. by destruct Hs. }
  intros rest Hf. destruct (chain_parses s e ss es rest Hs Hss (Hend _ Hf)) as (t & ts & rest' & Hp & He & Hsk).
  do 3 eexists. split; [|split; [|exact Hsk]].
  - apply parses_rule. rewrite Hbody, Ha. exact Hp.
  - rewrite Hparse. inversion He. subst. by apply parse_binary_fold.
Qed.
End Chain.

Lemma and_text s e ss es :
  text_at LNot s e -> Forall2 (text_at LNot) ss es ->
  text_at LAnd (str_join " && " (s :: ss)) (foldl (EBinary BAnd) e es).
Proof.
  apply (chain_text LNot "&&" " && " " " (follows LAnd)); try done.
  - apply skip_blank.
  - intros rest. apply (follows_lower LNot).
  - intros rest Hf. stop LAnd.
Qed.
Lemma or_text s e ss es :
  text_at LAnd s e -> Forall2 (text_at LAnd) ss es ->
  text_at LOr (str_join " || " (s :: ss)) (foldl (EBinary BOr) e es).
Proof.
  apply (chain_text LAnd "||" " || " " " (follows LOr)); try done.
  - apply skip_blank.
  - intros rest. apply (follows_lower LAnd).
  - intros rest Hf. stop LOr.
Qed.

(** * Paths and calls *)

(** The keys of a path that read back: no quote ends or escapes them. *)
Definition key_ok (seg : PathSeg) : bool :=
  match seg with
  | SegField s => is_ident s
  | SegIndex s => negb (contains s quote) && literal_ok s
  end.

Lemma escape_quotes_none s : contains s quote = false -> escape_quotes s = s.
Proof.
  induction s as [|c s IH]; [done|]. unfold quote. rewrite find_str_cons. intros H. reflect_bools.
  cbn [escape_quotes]. rewrite IH by done. destruct (Ascii.eqb_spec c dquote) as [->|]; [|done].
  exfalso. rename select (starts_with _ _ = false) into Hs. apply not_true_iff_false in Hs. apply Hs.
  apply starts_with_spec. by exists s.
Qed.
Lemma quoted_literal s : contains s quote = false -> quoted s = grl_string_literal s.
Proof. intros H. unfold quoted, grl_string_literal. by rewrite escape_quotes_none. Qed.

Definition seg_peg : peg := PStr "." ~~ PRule R_ident // PStr "[" ~~ PRule R_string ~~ PStr "]".
Definition seg_tok (seg : PathSeg) : Pair :=
  match seg with
  | SegField s => mkPair R_ident s []
  | SegIndex s => mkPair R_string (grl_string_literal s) []
  end.

Lemma index_text i s rest :
  contains s quote = false ->
  fmt_seg i (SegIndex s) +:+ rest = "[" +:+ grl_string_literal s +:+ "]" +:+ rest.
Proof. intros H. cbn [fmt_seg]. rewrite <-quoted_literal by done. unfold quoted. by autorewrite with waf_str. Qed.
Lemma field_text i s rest : fmt_seg (S i) (SegField s) +:+ rest = "." +:+ s +:+ rest.
Proof. done. Qed.

Lemma seg_parses i seg rest :
  key_ok seg = true -> ends_word rest ->
  parses false seg_peg (fmt_seg (S i) seg +:+ rest) [seg_tok seg] rest.
Proof.
  intros Hk Hw. destruct seg as [s|s]; cbn [key_ok seg_tok] in *.
  - rewrite field_text. apply parses_alt_l. change (?x :: ?l) with ([] ++ (x :: l)).
    eapply parses_seq; [apply parses_str|]. cbn [negb]. rewrite skip_solid_app; [by apply parses_ident|].
    destruct (is_ident_head s Hk) as (c & r & -> & Hc & _). cbn. by apply (ident_char_other c).
  - reflect_bools. rename select (literal_ok s = true) into Hl. unfold literal_ok in Hl. reflect_bools.
    rewrite index_text by done. apply parses_alt_r; [by exists 3%nat|].
    change (?x :: ?l) with ((x :: l) ++ []).
    apply (parses_seq _ _ _ _ _ ("]" +:+ rest)).
    + change (?x :: ?l) with ([] ++ (x :: l)). eapply parses_seq; [apply parses_str|].
      cbn [negb]. rewrite skip_solid by done. by apply parses_string.
    + cbn [negb]. rewrite skip_solid by done. apply parses_str.
Qed.

(** The fields and keys after the head of a path. *)
Definition path_rest_ok (rest : string) : Prop := ends_word rest /\ next_not ["."; "["] rest = true.
Lemma segs_end i segs rest : path_rest_ok rest -> ends_word (fmt_segs (S i) segs +:+ rest).
Proof. intros [Hw _]. by destruct segs as [|[s|s] segs]. Qed.

Lemma segs_parse i segs rest :
  forallb key_ok segs = true -> path_rest_ok rest ->
  parses false (PMore seg_peg) (fmt_segs (S i) segs +:+ rest) (map seg_tok segs) rest.
Proof.
  revert i. induction segs as [|seg segs IH]; intros i Hk Hr; cbn [fmt_segs map forallb] in *.
  - apply parses_more_end. destruct Hr as [_ Hn]. cbn [negb].
    apply fails_alt; [|apply fails_seq_l]; apply fails_seq_l; (eapply next_not_fails; [exact Hn|cbn; tauto]).
  - reflect_bools. rewrite app_assoc_str. change (seg_tok seg :: ?l) with ([seg_tok seg] ++ l).
    eapply parses_more; [|by apply IH]. cbn [negb].
    rewrite skip_solid by (by destruct seg). apply seg_parses; [done|]. by apply segs_end.
Qed.

Lemma parse_path_toks text head segs :
  forallb key_ok segs = true ->
  parse_path (mkPair R_path text (mkPair R_ident head [] :: map seg_tok segs)) = SegField head :: segs.
Proof.
  intros Hk. unfold parse_path. cbn [into_inner omap list_omap as_rule pair_str]. f_equal.
  induction segs as [|seg segs IH]; [done|]. cbn [forallb] in Hk. reflect_bools.
  cbn [map omap list_omap]. destruct seg as [s|s]; cbn [seg_tok as_rule pair_str]; rewrite IH by done; [done|].
  cbn [key_ok] in *. reflect_bools. rename select (literal_ok s = true) into Hl. unfold literal_ok in Hl. reflect_bools.
  by rewrite unquote_literal.
Qed.

Definition path_ok (p : Path) : bool :=
  match p with
  | SegField h :: segs => is_ident h && negb (is_keyword h) && forallb key_ok segs
  | _ => false
  end.

(** The rule [path], as an expression and as the target of an assignment. *)
Lemma path_parses p rest :
  path_ok p = true -> path_rest_ok rest ->
  exists text toks rest', parses false (PRule R_path) (path_display p +:+ rest) [mkPair R_path text toks] rest' /\
    parse_path (mkPair R_path text toks) = p /\ skip rest' = skip rest.
Proof.
  intros Hp Hr. destruct p as [|[h|] segs]; try done. cbn [path_ok] in Hp. reflect_bools.
  unfold path_display. cbn [fmt_segs fmt_seg Nat.ltb Nat.leb]. rewrite app_nil_l_str, app_assoc_str.
  rename select (forallb key_ok segs = true) into Hk.
  destruct (star_of_more _ _ _ _ (segs_parse 0 segs rest Hk Hr)) as (rest' & Hs & Hr').
  exists (span (h +:+ fmt_segs 1 segs +:+ rest) rest'), (mkPair R_ident h [] :: map seg_tok segs), rest'.
  split; [|split].
  - apply parses_rule. cbn [rule_body is_atomic]. change (?x :: ?l) with ([x] ++ l).
    eapply parses_seq; [|exact Hs]. apply parses_ident; [done|]. by apply segs_end.
  - by apply parse_path_toks.
  - destruct Hr' as [-> | ->]; [done|apply skip_skip].
Qed.

Lemma path_text p : path_ok p = true -> text_at LPrimary (path_display p) (EPath p).
Proof.
  intros Hp. pose proof Hp as Hp'. destruct p as [|[h|] segs]; try done. cbn [path_ok] in Hp'. reflect_bools.
  assert (Hd : path_display (SegField h :: segs) = h +:+ fmt_segs 1 segs) by done.
  assert (Hsol : solid h = true).
  { destruct (is_ident_head h) as (c & r & -> & Hc & _); [done|]. cbn. by apply (ident_char_other c). }
  split; [rewrite Hd; by apply solid_app|]. intros rest Hf.
  assert (Hr : path_rest_ok rest).
  { destruct Hf as [Hw Hn]. split; [done|]. by apply (next_not_app ["."; "["] ["("]). }
  destruct (path_parses _ rest Hp Hr) as (text & toks & rest' & Hpp & He & Hs).
  do 3 eexists. split; [|split; [|exact Hs]].
  - apply parses_rule. cbn [rule_body is_atomic level_rule]. apply parses_alt_r; [|apply parses_alt_r].
    + rewrite Hd, app_assoc_str. apply word_literal_fails; [done..|]. by apply segs_end.
    + rewrite Hd, app_assoc_str. apply fails_rule. cbn [rule_body is_atomic orb]. apply fails_seq_l, fails_seq_l.
      eapply fails_seq_r; [apply parses_ident; [done|by apply segs_end]|]. cbn [negb].
      destruct segs as [|[s|s] segs]; [|by apply fails_str; rewrite skip_solid..].
      rewrite app_nil_l_str. stop LPrimary.
    + apply parses_alt_l. exact Hpp.
  - cbn [parse_expr]. by rewrite He.
Qed.

(** The separators of arguments: of the converter and of the printer. *)
Definition comma (sep : string) : Prop := sep = ", " \/ sep = ",".

Lemma parse_args_all ts es : Forall2 (fun t x => parse_expr t = Ok x) ts es -> parse_args parse_expr ts = Ok es.
Proof. induction 1 as [|t x ts es Ht _ IH]; [done|]. cbn. rewrite Ht. cbn [mbind result_mbind]. fold (parse_args parse_expr). by rewrite IH. Qed.

Lemma args_parse sep s e ss es rest :
  comma sep -> text_at LExpr s e -> Forall2 (text_at LExpr) ss es ->
  exists text toks rest', parses false (PRule R_arg_list) (str_join sep (s :: ss) +:+ ")" +:+ rest)
      [mkPair R_arg_list text toks] rest' /\
    parse_args parse_expr toks = Ok (e :: es) /\ skip rest' = ")" +:+ rest.
Proof.
  intros Hsep Hs Hss.
  assert (H : exists t ts rest', parses false (rule_body R_arg_list) (str_join sep (s :: ss) +:+ ")" +:+ rest) (t :: ts) rest' /\
            Forall2 (fun t x => parse_expr t = Ok x) (t :: ts) (e :: es) /\ skip rest' = skip (")" +:+ rest)).
  { destruct Hsep as [-> | ->];
      [apply (chain_parses LExpr "," ", " " " (fun r => exists r', r = ")" +:+ r'))
      |apply (chain_parses LExpr "," "," "" (fun r => exists r', r = ")" +:+ r'))]; eauto; try done; try apply skip_blank;
      intros r [r' ->]; done || (apply fails_str; by rewrite skip_solid). }
  destruct H as (t & ts & rest' & Hp & He & Hsk). rewrite (skip_solid (")" +:+ rest)) in Hsk by done.
  do 3 eexists. split; [apply parses_rule; exact Hp|]. split; [by apply parse_args_all|done].
Qed.

(** A call, as an expression and as a statement. *)
Definition call_string (sep n : string) (args : list string) : string := n +:+ "(" +:+ str_join sep args +:+ ")".

Lemma arg_list_none rest : fails false (PRule R_arg_list) (")" +:+ rest).
Proof. by exists 40%nat. Qed.

Lemma call_parses sep n ss es rest :
  comma sep -> is_ident n = true -> Forall2 (text_at LExpr) ss es ->
  exists text toks, parses false (PRule R_call_expr) (call_string sep n ss +:+ rest) [mkPair R_call_expr text toks] rest /\
    parse_call_with parse_expr toks = Ok (n, es).
Proof.
  intros Hsep Hn Hss.
  enough (H : exists toks, parses false (rule_body R_call_expr) (call_string sep n ss +:+ rest) toks rest /\
                parse_call_with parse_expr toks = Ok (n, es)).
  { destruct H as (toks & Hp & Hc). do 2 eexists. split; [apply parses_rule; exact Hp|done]. }
  unfold call_string. rewrite !app_assoc_str.
  assert (Hname : parses false (PRule R_ident ~~ PStr "(") (n +:+ "(" +:+ str_join sep ss +:+ ")" +:+ rest)
                    [mkPair R_ident n []] (str_join sep ss +:+ ")" +:+ rest)).
  { change (?x :: ?l) with ((x :: l) ++ []). eapply parses_seq; [by apply parses_ident|].
    cbn [negb]. rewrite skip_solid by done. apply parses_str. }
  destruct Hss as [|s e ss es Hs Hss].
  - exists [mkPair R_ident n []]. split; [|done]. change (?x :: ?l) with (((x :: l) ++ []) ++ []).
    cbn [str_join] in *. rewrite app_nil_l_str in Hname.
    apply (parses_seq _ _ _ _ _ (")" +:+ rest)).
    + eapply parses_seq; [exact Hname|]. cbn [negb]. rewrite skip_solid by done.
      apply parses_opt_none, arg_list_none.
    + cbn [negb]. rewrite skip_solid by done. apply parses_str.
  - destruct (args_parse sep s e ss es rest Hsep Hs Hss) as (text & toks & rest' & Hp & Ha & Hsk).
    exists [mkPair R_ident n []; mkPair R_arg_list text toks]. split; [|cbn; by rewrite Ha].
    change [mkPair R_ident n []; mkPair R_arg_list text toks]
      with (([mkPair R_ident n []] ++ [mkPair R_arg_list text toks]) ++ []).
    apply (parses_seq _ _ _ _ _ rest').
    + eapply parses_seq; [exact Hname|]. cbn [negb]. rewrite skip_solid; [by apply parses_opt|].
      rewrite str_join_cons. by repeat apply solid_app; destruct Hs.
    + cbn [negb]. rewrite Hsk. apply parses_str.
Qed.

Lemma call_text sep n ss es :
  comma sep -> is_ident n = true -> is_keyword n = false -> Forall2 (text_at LExpr) ss es ->
  text_at LPrimary (call_string sep n ss) (ECall n es).
Proof.
  intros Hsep Hn Hk Hss.
  split.
  { destruct (is_ident_head n Hn) as (c & r & -> & Hc & _). cbn. by apply (ident_char_other c). }
  intros rest _. destruct (call_parses sep n ss es rest Hsep Hn Hss) as (text & toks & Hp & Hc).
  do 3 eexists. split; [|split; [|done]].
  - apply parses_rule. cbn [rule_body is_atomic level_rule]. apply parses_alt_r; [|by apply parses_alt_l].
    unfold call_string. rewrite !app_assoc_str. by apply word_literal_fails.
  - cbn [parse_expr]. by rewrite Hc.
Qed.

(** * Statements *)

Record stmt_text (s : string) (st : Stmt) : Prop := {
  stmt_solid : solid s = true;
  stmt_reads : forall rest, exists text toks, parses false (PRule R_statement) (s +:+ rest) [mkPair R_statement text toks] rest /\
    parse_stmt (mkPair R_statement text toks) = Ok st
}.

Definition assign_string (p : Path) (value : string) : string := path_display p +:+ " = " +:+ value +:+ ";".

Lemma assign_text p s e : path_ok p = true -> text_at LExpr s e -> stmt_text (assign_string p s) (SAssign p e).
Proof.
  intros Hp [Hs Hreads]. split; [by apply solid_app; destruct (path_text p Hp)|]. intros rest.
  destruct (path_parses p (" = " +:+ s +:+ ";" +:+ rest) Hp) as (ptext & ptoks & rest1 & Hpp & Hpath & Hs1); [done|].
  destruct (Hreads (";" +:+ rest)) as (etext & etoks & rest2 & Hpe & He & Hs2); [done|].
  assert (Ha : parses false (rule_body R_assignment) (assign_string p s +:+ rest)
            (([mkPair R_path ptext ptoks] ++ []) ++ [mkPair R_expression etext etoks]) rest2).
  { unfold assign_string. rewrite !app_assoc_str.
    apply (parses_seq _ _ _ _ _ (" " +:+ s +:+ ";" +:+ rest)).
    - eapply parses_seq; [exact Hpp|]. cbn [negb]. rewrite Hs1. apply (parses_str false "=").
    - cbn [negb]. rewrite skip_blank, skip_solid_app by done. exact Hpe. }
  apply (parses_rule R_assignment) in Ha. do 2 eexists. split.
  - apply parses_rule. cbn [rule_body is_atomic].
    eapply (parses_seq _ _ _ _ _ rest2); [apply parses_alt_l; exact Ha|].
    cbn [negb]. rewrite Hs2, skip_solid by done. apply parses_str.
  - cbn [app level_rule] in *. unfold parse_stmt. cbn [into_inner as_rule]. rewrite He.
    cbn [mbind result_mbind]. by rewrite Hpath.
Qed.

Lemma call_stmt_text sep n ss es :
  comma sep -> is_ident n = true -> Forall2 (text_at LExpr) ss es ->
  stmt_text (call_string sep n ss +:+ ";") (SCall (n, es)).
Proof.
  intros Hsep Hn Hss. split.
  { destruct (is_ident_head n Hn) as (c & r & -> & Hc & _). cbn. by apply (ident_char_other c). }
  intros rest. rewrite app_assoc_str.
  destruct (call_parses sep n ss es (";" +:+ rest) Hsep Hn Hss) as (text & toks & Hp & Hc).
  do 2 eexists. split.
  - apply parses_rule. cbn [rule_body is_atomic]. change (?x :: ?l) with ((x :: l) ++ []).
    eapply (parses_seq _ _ _ _ _ (";" +:+ rest)); [|cbn [negb]; rewrite skip_solid by done; apply parses_str].
    apply parses_alt_r; [|apply parses_rule; exact Hp].
    unfold call_string. rewrite !app_assoc_str. apply fails_rule. cbn [rule_body is_atomic orb]. apply fails_seq_l.
    eapply fails_seq_r.
    + apply parses_rule. cbn [rule_body is_atomic]. eapply parses_seq; [by apply parses_ident|].
      cbn [negb]. rewrite skip_solid by done. apply parses_star_none. by exists 5%nat.
    + cbn [negb]. rewrite skip_solid by done. by apply fails_str.
  - unfold parse_stmt, parse_call. cbn [into_inner as_rule app]. by rewrite Hc.
Qed.

(** * Rules *)

Fixpoint lines_text (l : list string) : string :=
  match l with [] => "" | s :: l => line s +:+ lines_text l end.

(** A rule as the converter lays it out, from the text of its condition and those
    of its statements. *)
Definition rule_layout (name salience condition : string) (statements : list string) : string :=
  "rule " +:+ name +:+ " salience " +:+ salience +:+ " {" +:+ newline +:+ line ("when " +:+ condition)
    +:+ line "then" +:+ lines_text statements +:+ "}" +:+ newline.

Lemma skip_line s rest : solid s = true -> skip (line s +:+ rest) = s +:+ newline +:+ rest.
Proof.
  intros Hs. unfold line. rewrite !app_assoc_str. do 4 (etransitivity; [by apply (skip_space " ")|]).
  by apply skip_solid_app.
Qed.
Lemma skip_newline rest : skip (newline +:+ rest) = skip rest.
Proof. by apply (skip_space (byte_of 10)). Qed.

Definition is_stmt (t : Pair) (st : Stmt) : Prop := as_rule t = R_statement /\ parse_stmt t = Ok st.

Lemma stmt_here s st pos rest :
  stmt_text s st -> skip pos = skip (line s +:+ rest) ->
  exists t, parses false (PRule R_statement) (skip pos) [t] (newline +:+ rest) /\ is_stmt t st.
Proof.
  intros [Hs Hreads] Hpos. rewrite Hpos, skip_line by done.
  destruct (Hreads (newline +:+ rest)) as (text & toks & Hp & Hst). by eexists.
Qed.

Lemma statements_end rest : fails false (PRule R_statement) ("}" +:+ rest).
Proof. by exists 30%nat. Qed.

Lemma statements_tail ss sts pos rest :
  Forall2 stmt_text ss sts -> skip pos = skip (lines_text ss +:+ "}" +:+ rest) ->
  exists ts rest', parses false (PMore (PRule R_statement)) pos ts rest' /\
    Forall2 is_stmt ts sts /\ skip rest' = "}" +:+ rest.
Proof.
  intros Hss. revert pos. induction Hss as [|s st ss sts Hs _ IH]; intros pos Hpos; cbn [lines_text] in Hpos.
  - rewrite (skip_solid ("" +:+ "}" +:+ rest)) in Hpos by done. exists [], pos. split; [|done].
    apply parses_more_end. cbn [negb]. rewrite Hpos. apply statements_end.
  - rewrite app_assoc_str in Hpos. destruct (stmt_here s st pos _ Hs Hpos) as (t & Hp & Ht).
    destruct (IH _ (skip_newline _)) as (ts & rest' & Hps & Hsts & Hsk).
    exists (t :: ts), rest'. split; [|split; [by constructor|done]].
    change (t :: ts) with ([t] ++ ts). eapply parses_more; [exact Hp|exact Hps].
Qed.

Lemma statements_parse s st ss sts pos rest :
  stmt_text s st -> Forall2 stmt_text ss sts -> skip pos = skip (lines_text (s :: ss) +:+ "}" +:+ rest) ->
  exists ts rest', parses false (PPlus (PRule R_statement)) (skip pos) ts rest' /\
    Forall2 is_stmt ts (st :: sts) /\ skip rest' = "}" +:+ rest.
Proof.
  intros Hs Hss Hpos. cbn [lines_text] in Hpos. rewrite app_assoc_str in Hpos.
  destruct (stmt_here s st pos _ Hs Hpos) as (t & Hp & Ht).
  destruct (statements_tail ss sts _ rest Hss (skip_newline _)) as (ts & rest1 & Hps & Hsts & Hsk).
  apply star_of_more in Hps as (rest' & Hps & Hr). exists (t :: ts), rest'.
  split; [|split; [by constructor|]].
  - change (t :: ts) with ([t] ++ ts). eapply parses_seq; [exact Hp|exact Hps].
  - destruct Hr as [-> | ->]; [done|by rewrite skip_skip].
Qed.

Lemma rule_parts_statements ts sts acc :
  Forall2 is_stmt ts sts ->
  rule_parts acc ts = Ok (mkPartial (pr_name acc) (pr_salience acc) (pr_when acc) (pr_then acc ++ sts)).
Proof.
  intros H. revert acc. induction H as [|t st ts sts [Hr Hst] _ IH]; intros acc.
  - rewrite app_nil_r. by destruct acc.
  - cbn [rule_parts]. unfold rule_part at 1. rewrite Hr, Hst. cbn [mbind result_mbind]. rewrite IH.
    cbn [pr_name pr_salience pr_when pr_then]. by rewrite <-app_assoc.
Qed.
Lemma parse_rule_parts text name salience etext etoks ts e sts n :
  GrlParser.unquote name = n -> in_s 32 salience -> parse_expr (mkPair R_expression etext etoks) = Ok e ->
  Forall2 is_stmt ts sts ->
  parse_rule (mkPair R_rule_def text (mkPair R_string name [] :: mkPair R_integer (print_int salience) []
                                        :: mkPair R_expression etext etoks :: ts)) =
  Ok (mkRuleAst n salience e sts).
Proof.
  intros <- Hs He Hts. unfold parse_rule. cbn [into_inner rule_parts].
  unfold rule_part at 1 2 3. cbn [as_rule pair_str mbind result_mbind pr_name pr_salience pr_when pr_then].
  rewrite parse_print_int, He by done. cbn [default mbind result_mbind]. rewrite (rule_parts_statements _ _ _ Hts).
  done.
Qed.

(** A part of a sequence, and where the next one starts. *)
Lemma seq_to a b s s2 t1 t2 r1 r2 :
  parses false a s t1 r1 -> skip r1 = s2 -> parses false b s2 t2 r2 -> parses false (a ~~ b) s (t1 ++ t2) r2.
Proof. intros Ha <- Hb. by eapply parses_seq. Qed.

(** The rule reads as the rule that its parts spell. *)
Lemma rule_reads name salience w e s st ss sts rest :
  literal_ok name = true -> in_s 32 salience -> text_at LExpr w e -> stmt_text s st -> Forall2 stmt_text ss sts ->
  exists t, parses false (PRule R_rule_def)
      (rule_layout (grl_string_literal name) (print_int salience) w (s :: ss) +:+ rest) [t] (newline +:+ rest) /\
    as_rule t = R_rule_def /\ parse_rule t = Ok (mkRuleAst name salience e (st :: sts)).
Proof.
  intros Hn Hsal [Hw Hreads] Hs Hss. pose proof Hn as Hn'. unfold literal_ok in Hn'. reflect_bools.
  set (body_text := lines_text (s :: ss) +:+ "}" +:+ newline +:+ rest).
  destruct (Hreads (newline +:+ line "then" +:+ body_text)) as (etext & etoks & rest1 & Hpe & He & Hs1); [done|].
  destruct (statements_parse s st ss sts (newline +:+ body_text) (newline +:+ rest) Hs Hss (skip_newline _))
    as (ts & rest2 & Hpt & Hts & Hs2).
  enough (H3 : exists toks, parses false (rule_body R_rule_def)
            (rule_layout (grl_string_literal name) (print_int salience) w (s :: ss) +:+ rest) toks (newline +:+ rest) /\
          toks = mkPair R_string (grl_string_literal name) [] :: mkPair R_integer (print_int salience) []
                   :: mkPair R_expression etext etoks :: ts).
  { destruct H3 as (toks & Hp & ->). eexists. split; [apply (parses_rule R_rule_def); exact Hp|].
    split; [reflexivity|]. by apply parse_rule_parts; [apply unquote_literal| | |]. }
  set (iname := grl_string_literal name). set (isal := print_int salience).
  assert (Htext : rule_layout iname isal w (s :: ss) +:+ rest =
            "rule" +:+ " " +:+ iname +:+ " " +:+ "salience" +:+ " " +:+ isal +:+ " " +:+ "{" +:+ newline
              +:+ line ("when" +:+ " " +:+ w) +:+ line "then" +:+ body_text).
  { unfold rule_layout, body_text, line. by autorewrite with waf_str. }
  assert (Hsolname : solid iname = true) by done.
  assert (Hsolsal : solid isal = true).
  { unfold isal. destruct (print_int_head salience) as (c & r & -> & Hc). by apply num_char_solid. }
  rewrite Htext. eexists. split.
  - eapply seq_to; [eapply seq_to; [eapply seq_to; [eapply seq_to; [eapply seq_to; [eapply seq_to;
      [eapply seq_to; [eapply seq_to|..]|..]|..]|..]|..]|..]|..].
    + apply (parses_str false "rule").
    + rewrite skip_blank. by apply skip_solid_app.
    + by apply parses_string.
    + rewrite skip_blank. by apply (skip_solid_app "salience").
    + apply parses_opt. eapply seq_to; [apply (parses_str false "salience")| |].
      * rewrite skip_blank. by apply skip_solid_app.
      * by apply parses_integer.
    + rewrite skip_blank. by apply (skip_solid_app "{").
    + apply (parses_str false "{").
    + rewrite skip_newline. apply skip_line. done.
    + rewrite !app_assoc_str. apply (parses_str false "when").
    + rewrite skip_blank. by apply skip_solid_app.
    + exact Hpe.
    + rewrite Hs1, skip_newline. by apply skip_line.
    + apply (parses_str false "then").
    + reflexivity.
    + exact Hpt.
    + exact Hs2.
    + apply (parses_str false "}").
  - cbn. by rewrite app_nil_r.
Qed.

(** * Files *)

Record rule_text (s : string) (r : RuleAst) : Prop := {
  rule_solid : solid s = true;
  rule_read_back : forall rest, exists t, parses false (PRule R_rule_def) (s +:+ rest) [t] (newline +:+ rest) /\
    as_rule t = R_rule_def /\ parse_rule t = Ok r
}.

Lemma layout_text name salience w e s st ss sts :
  literal_ok name = true -> in_s 32 salience -> text_at LExpr w e -> stmt_text s st -> Forall2 stmt_text ss sts ->
  rule_text (rule_layout (grl_string_literal name) (print_int salience) w (s :: ss))
    (mkRuleAst name salience e (st :: sts)).
Proof. intros. split; [done|]. intros rest. by apply rule_reads. Qed.

(** The text of a file: each rule and an empty line. *)
Fixpoint file_text (l : list string) : string :=
  match l with [] => "" | s :: l => s +:+ newline +:+ file_text l end.

Definition is_def (t : Pair) (r : RuleAst) : Prop := as_rule t = R_rule_def /\ parse_rule t = Ok r.

Lemma rules_tail ss rs pos :
  Forall2 rule_text ss rs -> skip pos = skip (file_text ss) ->
  exists ts rest', parses false (PMore (PRule R_rule_def)) pos ts rest' /\ Forall2 is_def ts rs /\ skip rest' = "".
Proof.
  intros Hss. revert pos. induction Hss as [|s r ss rs [Hs Hreads] _ IH]; intros pos Hpos; cbn [file_text] in Hpos.
  - exists [], pos. split; [|done]. apply parses_more_end. cbn [negb]. rewrite Hpos. by exists 20%nat.
  - rewrite skip_solid_app in Hpos by done. destruct (Hreads (newline +:+ file_text ss)) as (t & Hp & Ht).
    destruct (IH (newline +:+ newline +:+ file_text ss)) as (ts & rest' & Hps & Hrs & Hsk).
    { by rewrite !skip_newline. }
    exists (t :: ts), rest'. split; [|split; [by constructor|done]].
    change (t :: ts) with ([t] ++ ts). eapply parses_more; [|exact Hps]. cbn [negb]. by rewrite Hpos.
Qed.

Lemma collect_defs ts rs : Forall2 is_def ts rs -> collect_result parse_rule ts = Ok rs.
Proof.
  induction 1 as [|t r ts rs [_ Ht] _ IH]; [done|]. cbn [collect_result]. rewrite Ht. cbn [mbind result_mbind].
  by rewrite IH.
Qed.
Lemma filter_defs ts rs : Forall2 is_def ts rs -> List.filter (fun p => bool_decide (as_rule p = R_rule_def)) ts = ts.
Proof.
  induction 1 as [|t r ts rs [Ht _] _ IH]; [done|]. cbn [List.filter]. rewrite bool_decide_true by done. by rewrite IH.
Qed.

(** The grammar reads the text of a file as its rules. *)
Lemma file_reads ss rs : Forall2 rule_text ss rs -> grl_parse grammar_parse (file_text ss) = Ok rs.
Proof.
  intros Hss. destruct (rules_tail ss rs (file_text ss) Hss eq_refl) as (ts & rest1 & Hps & Hrs & Hs1).
  apply star_of_more in Hps as (rest' & Hps & Hr).
  assert (Hsk : skip rest' = "") by (destruct Hr as [-> | ->]; [done|by rewrite skip_skip]).
  assert (Hbody : parses false (rule_body R_file) (skip (file_text ss)) (ts ++ [mkPair R_EOI "" []]) "").
  { eapply parses_seq; [exact Hps|]. cbn [negb]. rewrite Hsk. by exists 3%nat. }
  destruct Hbody as [f Hf].
  assert (Hout : file_outcome f (file_text ss) =
            Matched [mkPair R_file (span (file_text ss) "") (ts ++ [mkPair R_EOI "" []])] "").
  { unfold file_outcome. by rewrite Hf. }
  unfold grl_parse, grammar_parse. rewrite (file_outcome_fuel f) by (by rewrite Hout). rewrite Hout.
  cbn [ok_or mbind result_mbind head into_inner]. rewrite List.filter_app. cbn [List.filter as_rule].
  rewrite (filter_defs _ _ Hrs), app_nil_r. by apply collect_defs.
Qed.

Lemma grl_parse_ext p q src : p src = q src -> grl_parse p src = grl_parse q src.
Proof. intros H. unfold grl_parse. by rewrite H. Qed.

(** * The canonical text *)

(** The values whose canonical text the grammar reads: 64-bit integers, decimal
    fractions, and strings of printable ASCII without quotes and backslashes. *)
Definition plain_string (s : string) : bool :=
  forallb plain_byte (str_bytes s) && negb (contains s (String backslash "")).
Definition printable_value (v : Value) : bool :=
  match v with
  | VInt i => (- 2 ^ 63 <=? i) && (i <? 2 ^ 63)
  | VFloat f => float_shape (f64_display f) && bool_decide (f64_parse (f64_display f) = Some f)
  | VStr s => plain_string s
  | _ => true
  end.
Fixpoint printable (e : Expr) : bool :=
  match e with
  | ELiteral v => printable_value v
  | EPath p => path_ok p
  | ECall name args => is_ident name && negb (is_keyword name) && forallb printable args
  | EBinary _ l r => printable l && printable r
  | EUnary _ e => printable e
  end.

Section Canonical.
Context `{UnicodeTables}.

Lemma no_backslash_doubled s : contains s (String backslash "") = false -> double_backslashes s = s.
Proof.
  induction s as [|c s IH]; [done|]. rewrite find_str_cons. intros Hc. reflect_bools.
  cbn [double_backslashes]. rewrite IH by done. destruct (Ascii.eqb_spec c backslash) as [->|]; [|done].
  exfalso. rename select (starts_with _ _ = false) into Hs. apply not_true_iff_false in Hs. apply Hs.
  apply starts_with_spec. by exists s.
Qed.
Lemma plain_no_quote s : plain_text s -> contains s quote = false.
Proof.
  unfold quote. induction s as [|c s IH]; [done|]. intros [Hc Hs]%plain_text_cons. rewrite find_str_cons, IH by done.
  rewrite orb_false_r. apply not_true_iff_false. intros [r Hr]%starts_with_spec. rewrite app_cons_str in Hr.
  injection Hr as -> _. by vm_compute in Hc.
Qed.
Lemma no_backslash_last s : contains s (String backslash "") = false -> last_backslash s = false.
Proof.
  induction s as [|c s IH]; [done|]. rewrite find_str_cons. intros Hc. reflect_bools. cbn [last_backslash].
  destruct s as [|d s]; [|by apply IH]. destruct (Ascii.eqb_spec c backslash) as [->|]; [|done].
  by vm_compute in *.
Qed.
Lemma no_backslash_escape s x : contains s (String backslash "") = false -> contains s (String backslash x) = false.
Proof.
  intros Hs. apply not_true_iff_false. intros Hx. apply not_true_iff_false in Hs. apply Hs.
  by apply (contains_prefix s (String backslash x)).
Qed.
Lemma plain_no_final_quote s : plain_text s -> no_final_quote s = true.
Proof.
  intros Hs%plain_no_quote. unfold no_final_quote. apply negb_true_iff, not_true_iff_false. intros Hq.
  unfold ends_with in Hq. reflect_bools. destruct Hq as [r Hr]. apply strip_suffix_Some in Hr as ->.
  apply not_true_iff_false in Hs. apply Hs. clear Hs. unfold quote. induction r as [|c r IH]; [done|].
  rewrite app_cons_str, find_str_cons, IH. apply orb_true_r.
Qed.

(** On plain strings, Rust's debug text is the literal the grammar reads. *)
Lemma debug_literal s : plain_string s = true -> debug_str s = grl_string_literal s /\ literal_ok s = true.
Proof.
  unfold plain_string. intros Hs. reflect_bools. rename select (contains _ _ = false) into Hb.
  assert (Hp : plain_text s) by (apply List.Forall_forall; by apply List.forallb_forall).
  split.
  - rewrite debug_plain, no_backslash_doubled by done. unfold grl_string_literal.
    by rewrite escape_quotes_none by (by apply plain_no_quote).
  - unfold literal_ok. rewrite plain_no_final_quote, no_backslash_last by done.
    by rewrite !no_backslash_escape.
Qed.

Lemma value_text_at v : printable_value v = true -> text_at LPrimary (value_text v) (ELiteral v).
Proof.
  unfold value_text. destruct v as [|b|i|f|s]; cbn [printable_value fmt_value]; rewrite app_nil_l_str; intros Hv.
  - apply null_text.
  - apply bool_text.
  - apply int_text. unfold in_s. lia.
  - reflect_bools. by apply float_text.
  - destruct (debug_literal s Hv) as [-> Hl]. by apply string_text.
Qed.

Lemma binary_text op l r el er :
  text_at LPrimary l el -> text_at LPrimary r er -> text_at LExpr (infix l (bin_sym op) r) (EBinary op el er).
Proof.
  intros Hl Hr.
  assert (Hup : forall lv s e, text_at LPrimary s e -> text_at lv s e) by (intros lv s e; apply text_up; destruct lv; cbn; lia).
  destruct op; cbn [bin_sym].
  - apply (text_up LAnd); [cbn; lia|]. by apply (and_text l el [r] [er]); auto.
  - apply (text_up LOr); [cbn; lia|]. by apply (or_text l el [r] [er]); auto.
  - apply (text_up LCmp); [cbn; lia|]. by apply cmp_text; auto.
  - apply (text_up LCmp); [cbn; lia|]. by apply cmp_text; auto.
  - apply (text_up LCmp); [cbn; lia|]. by apply cmp_text; auto.
  - apply (text_up LCmp); [cbn; lia|]. by apply cmp_text; auto.
  - apply (text_up LCmp); [cbn; lia|]. by apply cmp_text; auto.
  - apply (text_up LCmp); [cbn; lia|]. by apply cmp_text; auto.
  - apply (text_up LAdd); [cbn; lia|]. by apply add_text; auto.
  - apply (text_up LAdd); [cbn; lia|]. by apply add_text; auto.
  - apply (text_up LMul); [cbn; lia|]. by apply mul_text; auto.
  - apply (text_up LMul); [cbn; lia|]. by apply mul_text; auto.
Qed.

Lemma printed_text e : printable e = true -> text_at LPrimary (print_expr e) e.
Proof.
  rewrite print_expr_text. induction e as [v|p|n args IH|op l r IHl IHr|[] e IH] using Expr_ind';
    cbn [printable expr_text]; intros He.
  - by apply value_text_at.
  - by apply path_text.
  - reflect_bools. apply (call_text "," n (map expr_text args) args); [by right|done..|].
    rename select (forallb printable args = true) into Hargs. rewrite List.forallb_forall in Hargs.
    induction IH as [|e args He _ IHargs]; constructor.
    + apply (text_up LPrimary); [cbn; lia|]. apply He, Hargs. by left.
    + apply IHargs. intros x Hx. apply Hargs. by right.
  - reflect_bools. pose proof (paren_text _ _ (binary_text op _ _ _ _ (IHl ltac:(done)) (IHr ltac:(done)))) as Ht.
    unfold infix in Ht. by rewrite !app_assoc_str in Ht.
  - assert (Hn : text_at LExpr ("!" +:+ expr_text e) (EUnary UNot e)).
    { apply (text_up LNot); [cbn; lia|]. apply not_text. apply (text_up LPrimary); [cbn; lia|auto]. }
    apply paren_text in Hn. by rewrite !app_assoc_str in Hn.
Qed.

Lemma allow_stmt : stmt_text "allow();" (SCall ("allow", [])).
Proof. by apply (call_stmt_text ", " "allow" [] []); [left| |]. Qed.

(** C15: the canonical text of a condition, under which the network shares its nodes, is
    source text of the condition, when the condition is printable: its integers are of
    64 bits, its floats have a decimal text that reads back as the float, its strings
    are printable ASCII without quotes and backslashes (printing doubles a backslash,
    which reading does not undo), its paths begin with an identifier, with index keys
    without quotes that read back, and its functions have names that are identifiers and
    no keywords.  In a rule whose name is a literal that reads back ([literal_ok]: no
    quote or backslash at its end, no escape in it) and whose salience is of 32 bits, it
    is read back with all its operators, operands, calls, paths and literals, and the
    name and the salience of the rule are those written. *)
Theorem canonical_text_parses pest_parse e name salience :
  (forall src, pest_parse src = grammar_parse src) ->
  printable e = true -> literal_ok name = true -> in_s 32 salience ->
  grl_parse pest_parse
    (rule_layout (grl_string_literal name) (print_int salience) (print_expr e) ["allow();"] +:+ newline) =
  Ok [mkRuleAst name salience e [SCall ("allow", [])]].
Proof.
  intros Hpest He Hn Hs. rewrite (grl_parse_ext _ grammar_parse) by done.
  set (text := rule_layout _ _ _ _). set (rule := mkRuleAst _ _ _ _).
  assert (Ht : rule_text text rule).
  { apply layout_text; auto using allow_stmt. apply (text_up LPrimary); [cbn; lia|by apply printed_text]. }
  pose proof (file_reads [text] [rule] (List.Forall2_cons _ _ Ht (List.Forall2_nil _))) as Hfile.
  cbn [file_text] in Hfile. by rewrite app_nil_r_str in Hfile.
Qed.
End Canonical.

Definition sample_guard : Expr :=
  EBinary BAnd (EUnary UNot (ECall "matches" [EPath [SegField "Request"; SegField "Path"]; ELiteral (VStr "^/v[0-9]+")]))
    (EBinary BLt (EPath [SegField "Request"; SegField "Headers"; SegIndex "X-Score"])
       (EBinary BSub (ELiteral (VInt (-3))) (EPath [SegField "trueish"]))).
Lemma canonical_text_parses_witness :
  grl_parse grammar_parse
    (rule_layout (grl_string_literal "r 1") (print_int (-7)) (@print_expr plain_unicode sample_guard) ["allow();"]
       +:+ newline) =
  Ok [mkRuleAst "r 1" (-7) sample_guard [SCall ("allow", [])]].
Proof.
  exact (@canonical_text_parses plain_unicode grammar_parse sample_guard "r 1" (-7) (fun _ => eq_refl)
           eq_refl eq_refl ltac:(unfold in_s; lia)).
Defined.
