(* ===== verification/ConvSpec.v ===== *)
(** What converted rules mean: each condition of the YAML formats stands for a
    predicate on requests, and the text that [grl/converter.rs] writes for it is
    parsed to an expression with that value. *)
From S2P Require Import Prelude Utf8 RustStd Net Extern Float64 WafTypes Ast Functions Printer WorkingMemory Rete Engine GrlParser Pest Converter GrlText.
Local Open Scope Z_scope.

(** * Texts with a meaning *)

(** The functions the converter calls, as they are before plugins are installed:
    the built-in ones are not registered, [has_header] is the default one. *)
Definition builtin_names : list string :=
  ["matches"; "contains"; "starts_with"; "contains_sqli"; "contains_xss"; "contains_path_traversal";
   "contains_header_injection"].

Section Meaning.
Context `{UnicodeTables, RegexLib, HashOrder}.

Class Builtins (reg : FunctionRegistry) : Prop := {
  builtin_free : forall n, n ∈ builtin_names -> reg !! n = None;
  default_has_header : reg !! "has_header" = Some (fun ctx args => VBool (has_header ctx (first_str args)))
}.

Context (reg : FunctionRegistry) {Hreg : Builtins reg}.

Definition Pred : Type := RequestContext -> bool.

Definition seg_path (f : string) : Path := [SegField "Request"; SegField f].

(** A memory on which nothing but the risk score has been assigned: what the
    actions of converted rules leave. *)
Definition unassigned (wm : WorkingMemory) : Prop :=
  registry wm = reg /\ forall p, p <> seg_path "RiskScore" -> scratch wm !! p = None.

(** An expression of the language of the network that has the value of a predicate
    on the request, whichever rules have fired. *)
Definition computes (e : Expr) (h : Pred) : Prop :=
  wf_expr e = true /\ forall wm, unassigned wm -> as_bool (eval_expr wm e) = h (fact wm).
Definition means (text : string) (h : Pred) : Prop := exists e, text_at LNot text e /\ computes e h.

Lemma means_ext text h h' : (forall ctx, h ctx = h' ctx) -> means text h -> means text h'.
Proof. intros Hh (e & Ht & Hw & He). exists e. split; [done|]. split; [done|]. intros wm Hwm. by rewrite He. Qed.

Lemma means_bool b : means (print_bool b) (fun _ => b).
Proof. exists (ELiteral (VBool b)). split; [|by split]. apply (text_up LPrimary); [cbn; lia|apply bool_text]. Qed.

(** A literal that reads back, of a Rust string. *)
Definition quotable (s : string) : bool := literal_ok s && valid_utf8 s.
(** A path that the conditions may read. *)
Definition readable_path (p : Path) : bool :=
  path_ok p && wf_path p && negb (bool_decide (p = seg_path "RiskScore")).

Lemma plain_valid s : plain_string s = true -> valid_utf8 s = true.
Proof.
  unfold plain_string. intros Hs. reflect_bools. unfold valid_utf8. rewrite utf8_decode_ascii.
  - apply List.forallb_forall. intros o (a & <- & _)%List.in_map_iff. done.
  - rename select (forallb _ _ = true) into Hp. unfold is_ascii. apply List.forallb_forall. intros a Ha.
    rewrite List.forallb_forall in Hp. specialize (Hp a Ha). unfold plain_byte in Hp. reflect_bools. lia.
Qed.
Lemma debug_quotable s : plain_string s = true -> debug_str s = grl_string_literal s /\ quotable s = true.
Proof.
  intros Hs. destruct (debug_literal s Hs) as [Hd Hl]. split; [done|]. unfold quotable. by rewrite Hl, plain_valid.
Qed.
Lemma quotable_literal s : quotable s = true -> literal_ok s = true.
Proof. unfold quotable. intros Hs. by reflect_bools. Qed.
Lemma quotable_wf s : quotable s = true -> wf_expr (ELiteral (VStr s)) = true.
Proof. unfold quotable. intros Hs. by reflect_bools. Qed.
Lemma readable_ok p : readable_path p = true -> path_ok p = true /\ wf_path p = true.
Proof. unfold readable_path. intros Hp. by reflect_bools. Qed.
Lemma read_unassigned p wm : readable_path p = true -> unassigned wm -> read_path wm p = resolve p (fact wm).
Proof. unfold readable_path. intros Hp [_ Hs]. reflect_bools. unfold read_path. by rewrite Hs. Qed.

Lemma means_eq p get s :
  readable_path p = true -> quotable s = true -> (forall ctx, resolve p ctx = VStr (get ctx)) ->
  means (path_display p +:+ " == " +:+ grl_string_literal s) (fun ctx => String.eqb (get ctx) s).
Proof.
  intros Hp Hs Hget. destruct (readable_ok p Hp) as [Hpo Hpw].
  exists (EBinary BEq (EPath p) (ELiteral (VStr s))). split; [|split].
  - apply (text_up LCmp); [cbn; lia|].
    apply (cmp_text "==" BEq); [done| |]; apply (text_up LPrimary); [cbn; lia| |cbn; lia|].
    + by apply path_text.
    + by apply string_text, quotable_literal.
  - pose proof (quotable_wf s Hs) as Hw. cbn [wf_expr] in *. by rewrite Hpw, Hw.
  - intros wm Hwm. cbn [eval_expr eval_binary as_bool]. rewrite read_unassigned, Hget by done. done.
Qed.

(** Calls on one path, perhaps with a literal. *)
Lemma means_call n p args texts :
  is_ident n = true -> is_keyword n = false -> readable_path p = true ->
  Forall2 (fun t s => t = grl_string_literal s /\ quotable s = true) texts args ->
  means (call_string ", " n (path_display p :: texts))
    (fun ctx => as_bool (call reg n ctx (resolve p ctx :: map VStr args))).
Proof.
  intros Hn Hk Hp Hargs. destruct (readable_ok p Hp) as [Hpo Hpw].
  exists (ECall n (EPath p :: map (fun s => ELiteral (VStr s)) args)). split; [|split].
  - apply (text_up LPrimary); [cbn; lia|]. apply call_text; [by left|done..|].
    constructor; [apply (text_up LPrimary); [cbn; lia|by apply path_text]|].
    induction Hargs as [|t s ts args [-> Hs] _ IH]; cbn [map]; constructor; [|done].
    apply (text_up LPrimary); [cbn; lia|]. by apply string_text, quotable_literal.
  - cbn [wf_expr forallb]. rewrite Hn, Hpw. apply List.forallb_forall.
    intros x (s & <- & Hs)%List.in_map_iff. apply quotable_wf.
    induction Hargs as [|t s' ts args [_ Hq] _ IH]; [done|]. destruct Hs as [->|Hs]; [done|by apply IH].
  - intros wm Hwm. cbn [eval_expr map]. rewrite read_unassigned by done. destruct Hwm as [-> _].
    by rewrite List.map_map.
Qed.
Lemma means_call1 n p :
  is_ident n = true -> is_keyword n = false -> readable_path p = true ->
  means (call_string ", " n [path_display p]) (fun ctx => as_bool (call reg n ctx [resolve p ctx])).
Proof. intros. by apply (means_call n p [] []). Qed.
Lemma means_call2 n p s :
  is_ident n = true -> is_keyword n = false -> readable_path p = true -> quotable s = true ->
  means (call_string ", " n [path_display p; grl_string_literal s])
    (fun ctx => as_bool (call reg n ctx [resolve p ctx; VStr s])).
Proof. intros. apply (means_call n p [s]); try done. by repeat constructor. Qed.

Lemma call_builtin n ctx args : n ∈ builtin_names -> call reg n ctx args = dispatch n args.
Proof. intros Hn. apply call_unregistered. by apply builtin_free. Qed.

(** ** Connectives *)

Lemma means_list texts hs :
  Forall2 means texts hs -> exists es, Forall2 (text_at LNot) texts es /\ Forall2 computes es hs.
Proof.
  induction 1 as [|t h ts hs (e & Ht & He) _ (es & Hts & Hes)]; [by exists []|].
  exists (e :: es). split; by constructor.
Qed.

Definition all_hold (hs : list Pred) : Pred := fun ctx => forallb (fun h => h ctx) hs.
Definition some_holds (hs : list Pred) : Pred := fun ctx => existsb (fun h => h ctx) hs.

Lemma computes_and e h e' h' : computes e h -> computes e' h' -> computes (EBinary BAnd e e') (fun ctx => h ctx && h' ctx).
Proof.
  intros [Hw He] [Hw' He']. split; [cbn; by rewrite Hw, Hw'|]. intros wm Hwm. cbn [eval_expr eval_binary as_bool].
  rewrite He, He' by done. by destruct (h (fact wm)).
Qed.
Lemma computes_or e h e' h' : computes e h -> computes e' h' -> computes (EBinary BOr e e') (fun ctx => h ctx || h' ctx).
Proof.
  intros [Hw He] [Hw' He']. split; [cbn; by rewrite Hw, Hw'|]. intros wm Hwm. cbn [eval_expr eval_binary as_bool].
  rewrite He, He' by done. by destruct (h (fact wm)).
Qed.
Lemma computes_ext e h h' : (forall ctx, h ctx = h' ctx) -> computes e h -> computes e h'.
Proof. intros Hh [Hw He]. split; [done|]. intros wm Hwm. by rewrite He. Qed.

Lemma computes_all e h es hs :
  computes e h -> Forall2 computes es hs -> computes (foldl (EBinary BAnd) e es) (all_hold (h :: hs)).
Proof.
  intros He Hes. revert e h He. induction Hes as [|e' h' es hs He' _ IH]; intros e h He; cbn [foldl].
  - revert He. apply computes_ext. intros ctx. unfold all_hold. cbn. by rewrite andb_true_r.
  - eapply computes_ext; [|by apply IH, computes_and]. intros ctx. unfold all_hold. cbn. by rewrite andb_assoc.
Qed.
Lemma computes_some e h es hs :
  computes e h -> Forall2 computes es hs -> computes (foldl (EBinary BOr) e es) (some_holds (h :: hs)).
Proof.
  intros He Hes. revert e h He. induction Hes as [|e' h' es hs He' _ IH]; intros e h He; cbn [foldl].
  - revert He. apply computes_ext. intros ctx. unfold some_holds. cbn. by rewrite orb_false_r.
  - eapply computes_ext; [|by apply IH, computes_or]. intros ctx. unfold some_holds. cbn. by rewrite orb_assoc.
Qed.

Lemma text_parens s e : text_at LExpr s e -> text_at LNot ("(" +:+ s +:+ ")") e.
Proof. intros Ht. apply (text_up LPrimary); [cbn; lia|by apply paren_text]. Qed.

Lemma means_and texts hs :
  texts <> [] -> Forall2 means texts hs -> means ("(" +:+ str_join " && " texts +:+ ")") (all_hold hs).
Proof.
  intros Hne Hts. apply means_list in Hts as (es & Hts & Hes).
  destruct Hts as [|t e ts es Ht Hts]; [done|]. inversion Hes as [|? h ? hs' He Hes']. subst.
  exists (foldl (EBinary BAnd) e es). split.
  - apply text_parens. apply (text_up LAnd); [cbn; lia|]. by apply and_text.
  - by apply computes_all.
Qed.
Lemma means_or texts hs :
  texts <> [] -> Forall2 means texts hs -> means ("(" +:+ str_join " || " texts +:+ ")") (some_holds hs).
Proof.
  intros Hne Hts. apply means_list in Hts as (es & Hts & Hes).
  destruct Hts as [|t e ts es Ht Hts]; [done|]. inversion Hes as [|? h ? hs' He Hes']. subst.
  assert (Hup : forall s e, text_at LNot s e -> text_at LAnd s e) by (intros s x; apply text_up; cbn; lia).
  exists (foldl (EBinary BOr) e es). split.
  - apply text_parens. apply (text_up LOr); [cbn; lia|]. apply or_text; [by apply Hup|].
    eapply Forall2_impl; [exact Hts|auto].
  - by apply computes_some.
Qed.
Lemma means_not text h : means text h -> means ("!(" +:+ text +:+ ")") (fun ctx => negb (h ctx)).
Proof.
  intros (e & Ht & Hw & He). exists (EUnary UNot e). split; [|split; [done|]].
  - apply (not_text ("(" +:+ text +:+ ")")). apply (text_up LPrimary); [cbn; lia|]. apply paren_text.
    apply (text_up LNot); [cbn; lia|done].
  - intros wm Hwm. cbn [eval_expr as_bool]. by rewrite He.
Qed.

(** * What a rule can see of a request *)

Definition header_path (n : string) : Path := [SegField "Request"; SegField "Headers"; SegIndex n].

Definition req_path (ctx : RequestContext) : string := url_decode (path ctx).
Definition req_query (ctx : RequestContext) : string := form_decode (default "" (query ctx)).
Definition req_body (ctx : RequestContext) : string := default "" (from_utf8_lossy <$> body ctx).
Definition req_tier (ctx : RequestContext) : string := to_lowercase (tier_debug (tier ctx)).

(** The keys of headers that the grammar can quote. *)
Definition header_ok (n : string) : bool := negb (contains n quote) && literal_ok n.
Lemma no_quote_bytes n : contains n quote = false -> forallb (fun a => negb (Ascii.eqb a dquote)) (str_bytes n) = true.
Proof.
  unfold quote. induction n as [|c n IH]; [done|]. rewrite find_str_cons. intros Hq. reflect_bools.
  cbn [str_bytes forallb]. rewrite IH by done. rewrite andb_true_r. apply negb_true_iff.
  destruct (Ascii.eqb_spec c dquote) as [->|]; [|done]. rename select (starts_with _ _ = false) into Hs.
  exfalso. apply not_true_iff_false in Hs. apply Hs, starts_with_spec. by exists n.
Qed.
Lemma header_path_ok n : header_ok n = true -> readable_path (header_path n) = true.
Proof.
  unfold header_ok, readable_path. intros Hn. cbn [path_ok header_path forallb key_ok wf_path wf_seg].
  rewrite Hn. reflect_bools. by rewrite no_quote_bytes.
Qed.
Lemma header_display n :
  header_ok n = true -> path_display (header_path n) = "Request.Headers[" +:+ grl_string_literal n +:+ "]".
Proof.
  unfold header_ok. intros Hn. reflect_bools.
  pose proof (index_text 2 n "" ltac:(done)) as Hi. rewrite !app_nil_r_str in Hi.
  change (path_display (header_path n)) with ("Request.Headers" +:+ (fmt_seg 2 (SegIndex n) +:+ "")).
  by rewrite app_nil_r_str, Hi.
Qed.

(** * Conditions of the field/match/value format *)

(** A meaning that holds for the literals that read back. *)
Definition lit (s : string) (h : Pred) : option Pred := if quotable s then Some h else None.
Definition plain (s : string) (h : Pred) : option Pred := if plain_string s then Some h else None.

Definition path_match_meaning (p : string) : option Pred :=
  if String.eqb p "/**" || String.eqb p "**" then Some (fun _ => true)
  else match strip_suffix "/*" p with
  | Some prefix =>
    let re := "^" +:+ regex_escape prefix +:+ "/[^/]+$" in
    if contains re quote then None else lit re (fun ctx => regex_match re (req_path ctx))
  | None =>
    match strip_suffix "/**" p with
    | Some prefix => plain (prefix +:+ "/") (fun ctx => starts_with (req_path ctx) (prefix +:+ "/"))
    | None => plain p (fun ctx => String.eqb (req_path ctx) p)
    end
  end.

(** ** The reading of a leaf

    A leaf names a text of the request, a test and an operand, and the reading is that
    test on that text.  It has nothing of the texts that the converter writes, and is
    given for the leaves that the format allows and the converter writes faithfully: a
    network ([ip]/[cidr]), the presence of a header (a value without a colon) and a
    cookie, which it approximates, have no reading here, nor has a leaf of an unknown
    field or test. *)

(** The text a field stands for, and the operand; that of a header is [name: operand]. *)
Definition subject (field v : string) : option ((RequestContext -> string) * string) :=
  if String.eqb field "ip" then Some (client_ip, v)
  else if String.eqb field "path" then Some (req_path, v)
  else if String.eqb field "method" then Some (method, v)
  else if String.eqb field "payload" then Some (req_body, v)
  else if String.eqb field "header" then
    '(name, operand) ← split_once ":" v; Some (fun ctx => find_header ctx (trim name), trim operand)
  else None.
Definition leaf_test (m : string) : option (string -> string -> bool) :=
  if String.eqb m "exact" then Some (fun operand s => String.eqb s operand)
  else if String.eqb m "regex" then Some regex_match
  else if String.eqb m "contains" then Some (fun operand s => contains s operand)
  else None.
(** The combinations of the format. *)
Definition leaf_pairs : list (string * string) :=
  [("ip", "exact"); ("path", "exact"); ("path", "regex"); ("method", "exact"); ("method", "regex");
   ("header", "exact"); ("header", "regex"); ("payload", "regex"); ("payload", "contains")].
Definition in_format (field m : string) : bool := bool_decide ((field, m) ∈ leaf_pairs).
(** A header name that can be quoted; for [exact] the converter keeps the blanks around it. *)
Definition header_named (field m v : string) : bool :=
  if String.eqb field "header" then
    match split_once ":" v with
    | Some (name, _) => header_ok (trim name) && (negb (String.eqb m "exact") || String.eqb (trim name) name)
    | None => false
    end
  else true.

Definition leaf_meaning (field match_type v : string) : option Pred :=
  if String.eqb field "path" && String.eqb match_type "wildcard" then path_match_meaning v
  else if in_format field match_type && header_named field match_type v then
    '(get, operand) ← subject field v; test ← leaf_test match_type; lit operand (fun ctx => test operand (get ctx))
  else None.

Ltac meaning_cases H :=
  unfold lit, plain in H;
  repeat match type of H with
  | (if ?b then _ else _) = Some _ => destruct b eqn:?; [|discriminate H]
  end; injection H as <-.

Lemma means_eq_at f get s :
  readable_path (seg_path f) = true -> quotable s = true -> (forall ctx, resolve (seg_path f) ctx = VStr (get ctx)) ->
  means (path_display (seg_path f) +:+ " == " +:+ grl_string_literal s) (fun ctx => String.eqb (get ctx) s).
Proof. apply means_eq. Qed.

Lemma call2_string n a b : call_string ", " n [a; b] = n +:+ "(" +:+ a +:+ ", " +:+ b +:+ ")".
Proof. unfold call_string. cbn [str_join]. by rewrite !app_assoc_str. Qed.

(** [matches(path, literal)] and [contains(path, literal)] *)
Lemma means_matches p get s :
  readable_path p = true -> quotable s = true -> (forall ctx, resolve p ctx = VStr (get ctx)) ->
  means ("matches(" +:+ path_display p +:+ ", " +:+ grl_string_literal s +:+ ")") (fun ctx => regex_match s (get ctx)).
Proof.
  intros Hp Hs Hget. pose proof (means_call2 "matches" p s eq_refl eq_refl Hp Hs) as Hm. rewrite call2_string in Hm.
  revert Hm. apply means_ext.
  intros ctx. cbn beta. rewrite call_builtin by (unfold builtin_names; set_solver). by rewrite Hget.
Qed.
Lemma means_contains p get s :
  readable_path p = true -> quotable s = true -> (forall ctx, resolve p ctx = VStr (get ctx)) ->
  means ("contains(" +:+ path_display p +:+ ", " +:+ grl_string_literal s +:+ ")") (fun ctx => contains (get ctx) s).
Proof.
  intros Hp Hs Hget. pose proof (means_call2 "contains" p s eq_refl eq_refl Hp Hs) as Hm. rewrite call2_string in Hm.
  revert Hm. apply means_ext.
  intros ctx. cbn beta. rewrite call_builtin by (unfold builtin_names; set_solver). by rewrite Hget.
Qed.

Lemma quoted_ok s : contains s quote = false -> quoted s = grl_string_literal s.
Proof. apply quoted_literal. Qed.

Lemma path_match_means p h : path_match_meaning p = Some h -> means (path_match_grl p) h.
Proof.
  unfold path_match_meaning, path_match_grl. intros Hm. destruct (_ || _).
  { injection Hm as <-. apply (means_bool true). }
  destruct (strip_suffix "/*" p) as [prefix|].
  { destruct (contains _ quote) eqn:Hq; [done|]. meaning_cases Hm. rewrite quoted_ok by done.
    by apply (means_matches (seg_path "Path") req_path). }
  destruct (strip_suffix "/**" p) as [prefix|]; meaning_cases Hm;
    match goal with Hp : plain_string ?s = true |- _ => destruct (debug_quotable s Hp) as [-> Hl] end.
  - pose proof (means_call2 "starts_with" (seg_path "Path") _ eq_refl eq_refl eq_refl Hl) as Hs.
    rewrite call2_string in Hs. revert Hs. apply means_ext.
    intros ctx. cbn beta. by rewrite call_builtin by (unfold builtin_names; set_solver).
  - by apply (means_eq (seg_path "Path") req_path).
Qed.

Lemma means_header_eq n s :
  header_ok n = true -> quotable s = true ->
  means ("Request.Headers[" +:+ grl_string_literal n +:+ "] == " +:+ grl_string_literal s)
    (fun ctx => String.eqb (find_header ctx n) s).
Proof.
  intros Hn Hs. pose proof (means_eq (header_path n) (fun ctx => find_header ctx n) s) as Hh.
  rewrite header_display in Hh by done. rewrite !app_assoc_str in Hh. apply Hh; [by apply header_path_ok|done..].
Qed.
Lemma means_header_matches n s :
  header_ok n = true -> quotable s = true ->
  means ("matches(Request.Headers[" +:+ grl_string_literal n +:+ "], " +:+ grl_string_literal s +:+ ")")
    (fun ctx => regex_match s (find_header ctx n)).
Proof.
  intros Hn Hs. pose proof (means_matches (header_path n) (fun ctx => find_header ctx n) s) as Hh.
  rewrite header_display in Hh by done. rewrite !app_assoc_str in Hh. apply Hh; [by apply header_path_ok|done..].
Qed.

Lemma header_presence_means v :
  split_once ":" v = None -> quotable v = true -> means (header_exact v) (fun ctx => has_header ctx "").
Proof.
  intros Hv Hq. unfold header_exact. rewrite Hv.
  pose proof (means_call2 "has_header" [SegField "Request"] v eq_refl eq_refl eq_refl Hq) as Hh.
  rewrite call2_string in Hh. revert Hh. apply means_ext.
  intros ctx. cbn beta. by rewrite (call_registered _ _ _ _ _ default_has_header).
Qed.

Lemma leaf_means f m v h : leaf_meaning f m v = Some h -> means (leaf_to_grl f m v) h.
Proof.
  unfold leaf_meaning. destruct (String.eqb f "path" && String.eqb m "wildcard") eqn:Hw.
  { reflect_bools. repeat match goal with H : String.eqb _ _ = true |- _ => apply String.eqb_eq in H end. subst.
    apply path_match_means. }
  destruct (in_format f m) eqn:Hf; [|done]. destruct (header_named f m v) eqn:Hh; [|done]. cbn [andb].
  apply bool_decide_eq_true, list_elem_of_In in Hf. unfold leaf_pairs in Hf. cbn [In] in Hf.
  repeat (destruct Hf as [[= <- <-]|Hf]; [cbn -[quotable req_path req_body find_header header_ok trim split_once]; intros Hm|]); [..|done].
  - meaning_cases Hm. by apply (means_eq (seg_path "ClientIp") client_ip).
  - meaning_cases Hm. by apply (means_eq (seg_path "Path") req_path).
  - meaning_cases Hm. by apply (means_matches (seg_path "Path") req_path).
  - meaning_cases Hm. by apply (means_eq (seg_path "Method") method).
  - meaning_cases Hm. by apply (means_matches (seg_path "Method") method).
  - unfold header_named, header_exact in *. cbn [String.eqb Ascii.eqb Bool.eqb negb orb] in Hh.
    destruct (split_once ":" v) as [[name val]|]; [|done]. cbn in Hm. reflect_bools.
    match goal with H : String.eqb _ _ = true |- _ => apply String.eqb_eq in H; rewrite H in * end.
    meaning_cases Hm. by apply means_header_eq.
  - unfold header_named, header_regex in *. cbn [String.eqb Ascii.eqb Bool.eqb negb orb] in Hh.
    destruct (split_once ":" v) as [[name val]|]; [|done]. cbn in Hm. reflect_bools.
    meaning_cases Hm. by apply means_header_matches.
  - meaning_cases Hm. by apply (means_matches (seg_path "Body") req_body).
  - meaning_cases Hm. by apply (means_contains (seg_path "Body") req_body).
Qed.

Context `{YamlLib}.

(** The members of a list; an empty list is written as an empty pair of
    parentheses, which is not in the grammar. *)
Definition members (f : yaml -> option Pred) (l : list yaml) : option (list Pred) :=
  match l with [] => None | _ => mapM f l end.

(** The members of a leaf that the converter ignores although the other engine obeys
    them: a leaf with one of them has no reading. *)
Definition ignored_members : list string := ["negate"; "header_name"; "cookie_name"].
Definition ignores (map : mapping) : bool := existsb (fun k => bool_decide (is_Some (map_get k map))) ignored_members.

(** A condition in the field/match/value format. *)
Fixpoint new_meaning (fuel : nat) (c : yaml) : option Pred :=
  match fuel with
  | O => None
  | S fuel =>
    map ← y_mapping c;
    match map_get "and" map ≫= y_sequence with
    | Some l => all_hold <$> members (new_meaning fuel) l
    | None =>
      match map_get "or" map ≫= y_sequence with
      | Some l => some_holds <$> members (new_meaning fuel) l
      | None =>
        if ignores map then None
        else
          field ← str_field "field" map; match_type ← str_field "match" map;
          leaf_meaning field match_type (str_or_empty "value" map)
      end
    end
  end.

Lemma members_means (conv : yaml -> result string string) f l hs :
  (forall c h, f c = Some h -> exists text, conv c = Ok text /\ means text h) ->
  members f l = Some hs -> exists texts, collect_result conv l = Ok texts /\ texts <> [] /\ Forall2 means texts hs.
Proof.
  intros Hf Hl.
  assert (Hm : l <> [] /\ Forall2 (fun c h => f c = Some h) l hs).
  { destruct l; [done|]. split; [done|]. by apply mapM_Some. }
  clear Hl. destruct Hm as [Hne Hm].
  enough (Ht : exists texts, collect_result conv l = Ok texts /\ length texts = length l /\ Forall2 means texts hs).
  { destruct Ht as (texts & Hc & Hlen & Ht). exists texts. split; [done|]. split; [|done]. intros ->. by destruct l. }
  clear Hne. induction Hm as [|c h l hs Hc _ (texts & Ht & Hlen & Hts)]; [by exists []|].
  destruct (Hf c h Hc) as (t & Hconv & Ht'). exists (t :: texts). cbn. rewrite Hconv. cbn. rewrite Ht. cbn.
  split; [done|]. split; [by f_equal|by constructor].
Qed.

Lemma new_means fuel c h : new_meaning fuel c = Some h -> exists text, new_cond_to_grl fuel c = Ok text /\ means text h.
Proof.
  revert c h. induction fuel as [|fuel IH]; [done|]. intros c h Hm. cbn [new_meaning new_cond_to_grl] in *.
  destruct (y_mapping c) as [map|]; [|done]. cbn [mbind option_bind ok_or result_mbind] in *.
  destruct (map_get "and" map ≫= y_sequence) as [l|].
  { destruct (members (new_meaning fuel) l) as [hs|] eqn:Hl; [|done]. injection Hm as <-.
    destruct (members_means _ _ _ _ IH Hl) as (texts & -> & Hne & Hts). eexists. split; [done|]. by apply means_and. }
  destruct (map_get "or" map ≫= y_sequence) as [l|].
  { destruct (members (new_meaning fuel) l) as [hs|] eqn:Hl; [|done]. injection Hm as <-.
    destruct (members_means _ _ _ _ IH Hl) as (texts & -> & Hne & Hts). eexists. split; [done|]. by apply means_or. }
  destruct (ignores map); [done|].
  unfold new_leaf_to_grl. destruct (str_field "field" map) as [f|]; [|done].
  destruct (str_field "match" map) as [m|]; [|done]. cbn in *. eexists. split; [done|]. by apply leaf_means.
Qed.

(** * Conditions of the legacy format *)

Definition either (g h : Pred) : Pred := fun ctx => g ctx || h ctx.

(** A function of one string, called on a field of the request. *)
Definition on_field (n f : string) : Pred := fun ctx => as_bool (call reg n ctx [resolve (seg_path f) ctx]).

(** A cookie and [ssrf_pattern], which the converter approximates by searches for texts,
    have no reading. *)
Definition legacy_leaf_meaning (kind : string) (map : mapping) : option Pred :=
  let field k := str_or_empty k map in
  if String.eqb kind "ip_exact" then plain (field "value") (fun ctx => String.eqb (client_ip ctx) (field "value"))
  else if String.eqb kind "ip_in_blacklist" then Some (on_field "ip_in_blacklist" "ClientIp")
  else if String.eqb kind "ip_in_whitelist" then Some (on_field "ip_in_whitelist" "ClientIp")
  else if String.eqb kind "path_exact" then plain (field "value") (fun ctx => String.eqb (req_path ctx) (field "value"))
  else if String.eqb kind "path_wildcard" then path_match_meaning (field "pattern")
  else if String.eqb kind "path_regex" then
    plain (field "pattern") (fun ctx => regex_match (field "pattern") (req_path ctx))
  else if String.eqb kind "header_exact" then
    if plain_string (field "name") then
      plain (field "value") (fun ctx => String.eqb (find_header ctx (field "name")) (field "value"))
    else None
  else if String.eqb kind "header_regex" then
    if plain_string (field "name") then
      plain (field "pattern") (fun ctx => regex_match (field "pattern") (find_header ctx (field "name")))
    else None
  else if String.eqb kind "payload_regex" then
    plain (field "pattern") (either (fun ctx => regex_match (field "pattern") (req_body ctx))
                               (fun ctx => regex_match (field "pattern") (req_query ctx)))
  else if String.eqb kind "rate_limit_exceeded" then Some (fun _ => false)
  else if String.eqb kind "sqli_pattern" then
    Some (either (fun ctx => detect_sqli (req_query ctx)) (fun ctx => detect_sqli (req_body ctx)))
  else if String.eqb kind "xss_pattern" then
    Some (either (fun ctx => detect_xss (req_query ctx)) (fun ctx => detect_xss (req_body ctx)))
  else if String.eqb kind "path_traversal_pattern" then Some (fun ctx => detect_path_traversal (req_path ctx))
  else if String.eqb kind "header_injection_pattern" then
    Some (either (fun ctx => detect_header_injection (req_path ctx)) (fun ctx => detect_header_injection (req_query ctx)))
  else None.

Lemma means_either t u g h : means t g -> means u h -> means ("(" +:+ t +:+ " || " +:+ u +:+ ")") (either g h).
Proof.
  intros Ht Hu. pose proof (means_or [t; u] [g; h] ltac:(done) ltac:(by repeat constructor)) as Hm.
  cbn [str_join] in Hm. rewrite !app_assoc_str in Hm. revert Hm. apply means_ext.
  intros ctx. unfold some_holds, either. cbn. by rewrite orb_false_r.
Qed.

(** A detector on a field. *)
Lemma means_detect n (f : string) (detect : string -> bool) get :
  is_ident n = true -> is_keyword n = false -> n ∈ builtin_names -> readable_path (seg_path f) = true ->
  (forall args, dispatch n args = VBool (detect (arg_str args 0))) ->
  (forall ctx, resolve (seg_path f) ctx = VStr (get ctx)) ->
  means (n +:+ "(" +:+ path_display (seg_path f) +:+ ")") (fun ctx => detect (get ctx)).
Proof.
  intros Hn Hk Hin Hp Hd Hget. pose proof (means_call1 n (seg_path f) Hn Hk Hp) as Hm. revert Hm. apply means_ext.
  intros ctx. cbn beta. by rewrite call_builtin, Hd, Hget by done.
Qed.

Lemma plain_header n : plain_string n = true -> debug_str n = grl_string_literal n /\ header_ok n = true.
Proof.
  intros Hn. destruct (debug_quotable n Hn) as [Hd Hl%quotable_literal]. split; [done|]. unfold header_ok. rewrite Hl.
  unfold plain_string in Hn. reflect_bools. rewrite plain_no_quote; [done|].
  apply List.Forall_forall. by apply List.forallb_forall.
Qed.

Ltac builtin := unfold builtin_names; set_solver.
Ltac plains :=
  repeat match goal with
  | Hp : plain_string ?s = true |- _ => destruct (plain_header s Hp) as [-> ?]; destruct (debug_quotable s Hp) as [_ ?]; clear Hp
  end.

(** The kinds with a reading. *)
Definition legacy_kinds : list string :=
  ["ip_exact"; "ip_in_blacklist"; "ip_in_whitelist"; "path_exact"; "path_wildcard"; "path_regex"; "header_exact";
   "header_regex"; "payload_regex"; "rate_limit_exceeded"; "sqli_pattern"; "xss_pattern"; "path_traversal_pattern";
   "header_injection_pattern"].
Lemma legacy_kind kind map h : legacy_leaf_meaning kind map = Some h -> In kind legacy_kinds.
Proof.
  unfold legacy_leaf_meaning, legacy_kinds. intros Hm.
  repeat match type of Hm with
  | (if String.eqb ?k ?n then _ else _) = Some _ => destruct (String.eqb_spec k n) as [->|]; [cbn; tauto|]
  end. done.
Qed.

Lemma legacy_leaf_means kind map h :
  legacy_leaf_meaning kind map = Some h -> exists text, legacy_leaf kind map = Some text /\ means text h.
Proof.
  intros Hm. pose proof (legacy_kind _ _ _ Hm) as Hk. unfold legacy_kinds in Hk. cbn [In] in Hk.
  unfold legacy_leaf_meaning in Hm. unfold legacy_leaf.
  repeat (destruct Hk as [<-|Hk]; [cbn [String.eqb Ascii.eqb Bool.eqb] in *; eexists; split; [reflexivity|]|]); [..|done];
    try (by apply path_match_means); meaning_cases Hm; plains.
  - by apply (means_eq (seg_path "ClientIp") client_ip).
  - by apply (means_call1 "ip_in_blacklist" (seg_path "ClientIp")).
  - by apply (means_call1 "ip_in_whitelist" (seg_path "ClientIp")).
  - by apply (means_eq (seg_path "Path") req_path).
  - by apply (means_matches (seg_path "Path") req_path).
  - by apply means_header_eq.
  - by apply means_header_matches.
  - pose proof (means_either _ _ _ _
      (means_matches (seg_path "Body") req_body (str_or_empty "pattern" map) eq_refl ltac:(done) (fun _ => eq_refl))
      (means_matches (seg_path "Query") req_query (str_or_empty "pattern" map) eq_refl ltac:(done) (fun _ => eq_refl))) as Hm.
    by rewrite !app_assoc_str in Hm.
  - apply (means_bool false).
  - apply (means_either "contains_sqli(Request.Query)" "contains_sqli(Request.Body)").
    + apply (means_detect "contains_sqli" "Query"); done || builtin.
    + apply (means_detect "contains_sqli" "Body"); done || builtin.
  - apply (means_either "contains_xss(Request.Query)" "contains_xss(Request.Body)").
    + apply (means_detect "contains_xss" "Query"); done || builtin.
    + apply (means_detect "contains_xss" "Body"); done || builtin.
  - apply (means_detect "contains_path_traversal" "Path"); done || builtin.
  - apply (means_either "contains_header_injection(Request.Path)" "contains_header_injection(Request.Query)").
    + apply (means_detect "contains_header_injection" "Path"); done || builtin.
    + apply (means_detect "contains_header_injection" "Query"); done || builtin.
Qed.

(** A map in the field/match/value format: it has a list under [and] or [or], or the
    texts [field] and [match]. *)
Definition new_format (map : mapping) : bool :=
  bool_decide (is_Some (map_get "and" map ≫= y_sequence)) || bool_decide (is_Some (map_get "or" map ≫= y_sequence)) ||
  (bool_decide (is_Some (str_field "field" map)) && bool_decide (is_Some (str_field "match" map))).
Lemma not_new_format fuel c map :
  y_mapping c = Some map -> new_format map = false -> exists e, new_cond_to_grl (S fuel) c = Err e.
Proof.
  intros Hc Hn. unfold new_format in Hn. cbn [new_cond_to_grl]. rewrite Hc. cbn [ok_or mbind result_mbind].
  destruct (map_get "and" map ≫= y_sequence); [by rewrite bool_decide_eq_true_2 in Hn|].
  destruct (map_get "or" map ≫= y_sequence); [rewrite (bool_decide_eq_true_2 (is_Some (Some _))) in Hn by done; by rewrite orb_true_r in Hn|].
  unfold new_leaf_to_grl. destruct (str_field "field" map) as [f|]; cbn; [|eauto].
  destruct (str_field "match" map); cbn; [|eauto].
  rewrite !(bool_decide_eq_true_2 (is_Some (Some _))) in Hn by done. by rewrite orb_true_r in Hn.
Qed.

(** A condition of either format; a map in the first one is not read in the other. *)
Fixpoint cond_meaning (fuel : nat) (c : yaml) : option Pred :=
  match fuel with
  | O => None
  | S fuel' =>
    map ← y_mapping c;
    if new_format map then new_meaning fuel c
    else
      kind ← str_field "type" map;
      let conditions := map_get "conditions" map ≫= y_sequence in
      if String.eqb kind "and" then all_hold <$> (conditions ≫= members (cond_meaning fuel'))
      else if String.eqb kind "or" then some_holds <$> (conditions ≫= members (cond_meaning fuel'))
      else if String.eqb kind "not" then
        inner ← map_get "condition" map;
        (fun h ctx => negb (h ctx)) <$> cond_meaning fuel' inner
      else legacy_leaf_meaning kind map
  end.

Lemma new_is_meaning fuel c h : new_meaning (S fuel) c = Some h -> cond_meaning (S fuel) c = Some h.
Proof.
  intros Hn. cbn [cond_meaning]. pose proof (new_means _ _ _ Hn) as (t & Ht & _).
  destruct (y_mapping c) as [map|] eqn:Hc; [|cbn [new_meaning] in Hn; by rewrite Hc in Hn]. cbn [mbind option_bind].
  destruct (new_format map) eqn:Hf; [done|]. destruct (not_new_format fuel c map Hc Hf) as [e He]. congruence.
Qed.

Lemma combine_means fuel (list : option yaml) hs :
  (forall c h, cond_meaning fuel c = Some h -> exists text, cond_to_grl fuel c = Ok text /\ means text h) ->
  (list ≫= y_sequence) ≫= members (cond_meaning fuel) = Some hs ->
  forall sep, exists texts, combine_conds (cond_to_grl fuel) list sep = Ok ("(" +:+ str_join sep texts +:+ ")") /\
    texts <> [] /\ Forall2 means texts hs.
Proof.
  intros IH Hl sep. unfold combine_conds. apply bind_Some in Hl as (l & -> & Hl). cbn [ok_or mbind result_mbind].
  destruct (members_means _ _ _ _ IH Hl) as (texts & -> & Hne & Hts). exists texts. done.
Qed.

Lemma cond_means fuel c h : cond_meaning fuel c = Some h -> exists text, cond_to_grl fuel c = Ok text /\ means text h.
Proof.
  revert c h. induction fuel as [|fuel IH]; [done|]. intros c h Hm. cbn [cond_meaning] in Hm.
  destruct (y_mapping c) as [map|] eqn:Hmap; [|done]. cbn [mbind option_bind] in Hm.
  destruct (new_format map) eqn:Hnew.
  { apply new_means in Hm as (text & Ht & Hh). exists text. split; [|done]. cbn [cond_to_grl]. by rewrite Ht. }
  destruct (not_new_format fuel c map Hmap Hnew) as [e He]. cbn [cond_to_grl]. rewrite He, Hmap. cbn [mbind option_bind ok_or result_mbind].
  destruct (str_field "type" map) as [kind|]; [|done]. cbn [mbind option_bind ok_or result_mbind] in *.
  destruct (String.eqb kind "and") eqn:Hk_and.
  { apply String.eqb_eq in Hk_and as ->. destruct (_ ≫= _) as [hs|] eqn:Hl in Hm; [|done]. injection Hm as <-.
    destruct (combine_means _ _ _ IH Hl " && ") as (texts & Hc & Hne & Hts). cbn -[combine_conds]. rewrite Hc.
    eexists. split; [done|]. by apply means_and. }
  destruct (String.eqb kind "or") eqn:Hk_or.
  { apply String.eqb_eq in Hk_or as ->. destruct (_ ≫= _) as [hs|] eqn:Hl in Hm; [|done]. injection Hm as <-.
    destruct (combine_means _ _ _ IH Hl " || ") as (texts & Hc & Hne & Hts). cbn -[combine_conds]. rewrite Hc.
    eexists. split; [done|]. by apply means_or. }
  destruct (String.eqb kind "not") eqn:Hk_not.
  { apply String.eqb_eq in Hk_not as ->. destruct (map_get "condition" map) as [inner|]; [|done]. cbn [mbind option_bind ok_or result_mbind] in *.
    destruct (cond_meaning fuel inner) as [h'|] eqn:Hi; [|done]. injection Hm as <-.
    destruct (IH _ _ Hi) as (text & Hc & Ht). cbn -[cond_to_grl]. rewrite Hc. eexists. split; [done|]. by apply means_not. }
  destruct (legacy_leaf_means _ _ _ Hm) as (text & -> & Ht). by exists text.
Qed.

(** * Scopes *)

Definition anywhere : Pred := fun _ => true.
Definition scope_meaning (scope : option yaml) : option Pred :=
  match scope with
  | None => Some anywhere
  | Some scope =>
    match y_str scope with
    | Some s => if String.eqb s "global" then Some anywhere else plain s (fun ctx => String.eqb (req_tier ctx) s)
    | None =>
      match y_mapping scope with
      | None => Some anywhere
      | Some map =>
        match str_field "type" map with
        | None => Some anywhere
        | Some kind =>
          let field k (f : string -> option Pred) := match str_field k map with None => Some anywhere | Some s => f s end in
          if String.eqb kind "global" then Some anywhere
          else if String.eqb kind "tier" then field "tier" (fun s => plain s (fun ctx => String.eqb (req_tier ctx) s))
          else if String.eqb kind "route_pattern" then field "pattern" path_match_meaning
          else if String.eqb kind "ip" then field "ip" (fun s => plain s (fun ctx => String.eqb (client_ip ctx) s))
          else Some anywhere
        end
      end
    end
  end.

Lemma means_plain_eq f get s h :
  readable_path (seg_path f) = true -> (forall ctx, resolve (seg_path f) ctx = VStr (get ctx)) ->
  plain s (fun ctx => String.eqb (get ctx) s) = Some h ->
  means (path_display (seg_path f) +:+ " == " +:+ debug_str s) h.
Proof.
  intros Hp Hget Hm. meaning_cases Hm. rename select (plain_string s = true) into Hs.
  destruct (debug_quotable s Hs) as [-> Hl]. by apply means_eq.
Qed.

Lemma scope_means scope h :
  scope_meaning scope = Some h ->
  match scope_to_grl scope with Some text => means text h | None => forall ctx, h ctx = true end.
Proof.
  destruct scope as [scope|]; [|by intros [= <-]]. unfold scope_meaning, scope_to_grl. cbn [mbind option_bind].
  destruct (y_str scope) as [s|].
  { destruct (String.eqb s "global"); [by intros [= <-]|]. by apply (means_plain_eq "Tier" req_tier). }
  destruct (y_mapping scope) as [map|]; [|by intros [= <-]]. cbn [mbind option_bind].
  destruct (str_field "type" map) as [kind|]; [|by intros [= <-]]. cbn [mbind option_bind].
  repeat match goal with |- (if ?b then _ else _) = Some _ -> _ => destruct b end; try (by intros [= <-]);
    (destruct (str_field _ map) as [s|]; [|by intros [= <-]]); cbn [mbind option_bind].
  - by apply (means_plain_eq "Tier" req_tier).
  - apply path_match_means.
  - by apply (means_plain_eq "ClientIp" client_ip).
Qed.

(** * Rules *)

(** What a YAML rule stands for. *)
Record RuleMeaning := mkMeaning {
  m_name : string; m_salience : Z; m_when : Pred;
  m_delta : Z; m_backend : option string; m_action : string
}.
Definition call_of (n : string) (args : list Value) : Stmt := SCall (n, map ELiteral args).
Definition add_risk (delta : Z) : Stmt :=
  SAssign (seg_path "RiskScore") (EBinary BAdd (EPath (seg_path "RiskScore")) (ELiteral (VInt delta))).
Definition action_call (action id : string) : Stmt :=
  if String.eqb action "block" then call_of "block" [VStr id]
  else if String.eqb action "challenge" then call_of "challenge" [VStr "js"]
  else if String.eqb action "rate_limit" then call_of "rate_limit" [VInt 60]
  else if String.eqb action "allow" then call_of "allow" []
  else if String.eqb action "log" then call_of "log" [VStr id]
  else call_of "log" [VStr ("unknown_action:" +:+ action)].

(** The actions of a rule. *)
Definition m_then (m : RuleMeaning) : list Stmt :=
  (if m_delta m =? 0 then [] else [add_risk (m_delta m)])
    ++ match m_backend m with Some backend => [call_of "log" [VStr ("route:" +:+ backend)]] | None => [] end
    ++ [action_call (m_action m) (m_name m)].

(** A text between quotes that the converter does not escape. *)
Definition bare_ok (s : string) : bool := negb (contains s quote) && literal_ok s.

Definition rule_meaning (v : yaml) : option RuleMeaning :=
  id ← y_get "id" v ≫= y_str;
  let priority := default 500 (y_get "priority" v ≫= y_u64) in
  let action := default "log" (y_get "action" v ≫= y_str) in
  let delta := default 0 (y_get "risk_score_delta" v ≫= y_i64) in
  let upstream := y_get "upstream_backend" v ≫= y_str in
  cond ← y_get "condition" v;
  scope ← scope_meaning (y_get "scope" v);
  cond ← cond_meaning (S (y_size cond)) cond;
  if plain_string id && bool_decide (in_s 64 delta) && bare_ok ("unknown_action:" +:+ action)
     && bare_ok ("route:" +:+ default "" upstream)
  then Some (mkMeaning id (rule_salience priority (bool_decide (is_Some upstream)))
               (fun ctx => scope ctx && cond ctx) delta upstream action)
  else None.

Lemma rule_salience_range p b : in_s 32 (rule_salience p b).
Proof.
  unfold rule_salience. generalize (if b then Z.min 150 (Z.max 1 (wrap_s 64 (1000 - wrap_s 64 p))) else wrap_s 64 (1000 - wrap_s 64 p)).
  intros s. unfold in_s, wrap_s. change (2 ^ (32 - 1)) with 2147483648. change (2 ^ 32) with 4294967296.
  pose proof (Z.mod_pos_bound (s + 2147483648) 4294967296). lia.
Qed.

(** ** Statements *)

Lemma string_stmt n s t :
  is_ident n = true -> is_keyword n = false -> t = grl_string_literal s -> literal_ok s = true ->
  stmt_text (n +:+ "(" +:+ t +:+ ");") (call_of n [VStr s]).
Proof.
  intros Hn Hk -> Hs. pose proof (call_stmt_text ", " n [grl_string_literal s] [ELiteral (VStr s)]) as Hc.
  unfold call_string in Hc. cbn [str_join] in Hc. rewrite !app_assoc_str in Hc. apply Hc; [by left|done|].
  repeat constructor. apply (text_up LPrimary); [cbn; lia|by apply string_text].
Qed.
Lemma bare_literal s : bare_ok s = true -> quoted s = grl_string_literal s /\ literal_ok s = true.
Proof. unfold bare_ok. intros Hb. reflect_bools. split; [by apply quoted_literal|done]. Qed.

Lemma risk_stmt delta :
  in_s 64 delta -> stmt_text ("Request.RiskScore = Request.RiskScore + " +:+ print_int delta +:+ ";") (add_risk delta).
Proof.
  intros Hd. pose proof (assign_text (seg_path "RiskScore") (infix "Request.RiskScore" "+" (print_int delta))
    (EBinary BAdd (EPath (seg_path "RiskScore")) (ELiteral (VInt delta))) eq_refl) as Ha.
  apply Ha. apply (text_up LAdd); [cbn; lia|]. apply add_text; [done| |].
  - apply (text_up LPrimary); [cbn; lia|]. by apply (path_text (seg_path "RiskScore")).
  - apply (text_up LPrimary); [cbn; lia|]. by apply int_text.
Qed.

Lemma action_lines action id :
  plain_string id = true -> bare_ok ("unknown_action:" +:+ action) = true ->
  exists text, action_stmt action id = line text /\ stmt_text text (action_call action id).
Proof.
  intros Hid Ha. destruct (debug_literal id Hid) as [Hd Hl]. destruct (bare_literal _ Ha) as [Hq Hu].
  unfold action_stmt, action_call. repeat split_if; eexists; (split; [reflexivity|]).
  - by apply (string_stmt "block").
  - by apply (string_stmt "challenge").
  - by apply (call_stmt_text ", " "rate_limit" ["60"] [ELiteral (VInt 60)]); [left|done|];
      repeat constructor; apply (text_up LPrimary); [cbn; lia|apply (int_text 60)].
  - apply allow_stmt.
  - by apply (string_stmt "log").
  - by apply (string_stmt "log").
Qed.

Lemma lines_text_app l l' : lines_text (l ++ l') = lines_text l +:+ lines_text l'.
Proof. induction l as [|s l IH]; [done|]. cbn [app lines_text]. by rewrite IH, app_assoc_str. Qed.

(** The lines of a part of the statements. *)
Definition part (text : string) (sts : list Stmt) : Prop :=
  exists ss, text = lines_text ss /\ Forall2 stmt_text ss sts.
Lemma part_one text st : stmt_text text st -> part (line text) [st].
Proof. intros Ht. exists [text]. split; [symmetry; apply app_nil_r_str|by apply (List.Forall2_cons _ _ Ht)]. Qed.
Lemma part_none : part "" [].
Proof. by exists []. Qed.
Lemma part_app t1 t2 l1 l2 : part t1 l1 -> part t2 l2 -> part (t1 +:+ t2) (l1 ++ l2).
Proof.
  intros (s1 & -> & Hs1) (s2 & -> & Hs2). exists (s1 ++ s2). split; [by rewrite lines_text_app|by apply Forall2_app].
Qed.

(** The condition of a rule: its scope, if any, and its own condition. *)
Lemma when_means scope_doc scope ctext cond :
  scope_meaning scope_doc = Some scope -> means ctext cond ->
  exists w, text_at LExpr (match scope_to_grl scope_doc with
                           | Some s => "(" +:+ s +:+ ") && (" +:+ ctext +:+ ")"
                           | None => ctext
                           end) w /\ computes w (fun ctx => scope ctx && cond ctx).
Proof.
  intros Hscope%scope_means (ce & Hce & Hch). destruct (scope_to_grl scope_doc) as [stext|].
  - destruct Hscope as (se & Hse & Hsh). exists (EBinary BAnd se ce). split.
    + apply (text_up LAnd); [cbn; lia|].
      pose proof (and_text ("(" +:+ stext +:+ ")") se ["(" +:+ ctext +:+ ")"] [ce]) as Ha.
      cbn [str_join foldl] in Ha. rewrite !app_assoc_str in Ha. apply Ha.
      * apply text_parens. by apply (text_up LNot); [cbn; lia|].
      * constructor; [|constructor]. apply text_parens. by apply (text_up LNot); [cbn; lia|].
    + by apply computes_and.
  - exists ce. split; [by apply (text_up LNot); [cbn; lia|]|]. revert Hch. apply computes_ext. intros ctx. by rewrite Hscope.
Qed.

Lemma rule_means v m :
  rule_meaning v = Some m ->
  exists text w, rule_to_grl v = Ok text /\ rule_text text (mkRuleAst (m_name m) (m_salience m) w (m_then m)) /\
    computes w (m_when m).
Proof.
  unfold rule_meaning, rule_to_grl.
  destruct (y_get "id" v ≫= y_str) as [id|]; [|done]. cbn [mbind option_bind ok_or result_mbind].
  destruct (y_get "condition" v) as [c|]; [|done]. cbn [mbind option_bind ok_or result_mbind].
  destruct (scope_meaning (y_get "scope" v)) as [scope|] eqn:Hscope; [|done]. cbn [mbind option_bind].
  destruct (cond_meaning _ c) as [cond|] eqn:Hcond; [|done]. cbn [mbind option_bind].
  set (action := default "log" _). set (delta := default 0 _). set (upstream := y_get "upstream_backend" v ≫= y_str).
  destruct (_ && _) eqn:Hok; [|done]. reflect_bools. intros [= <-]. unfold m_then. cbn [m_name m_salience m_when m_delta m_backend m_action].
  destruct (cond_means _ _ _ Hcond) as (ctext & Hct & ce & Hce & Hch). rewrite Hct. cbn [mbind result_mbind].
  rename select (plain_string id = true) into Hid. destruct (debug_literal id Hid) as [Hd Hl].
  destruct (when_means _ _ _ _ Hscope (ex_intro _ ce (conj Hce Hch))) as (w & Hw & Hwh).
  destruct (action_lines action id Hid ltac:(done)) as (atext & Hat & Hast).
  assert (Hrisk : part (if delta =? 0 then "" else line ("Request.RiskScore = Request.RiskScore + " +:+ print_int delta +:+ ";"))
                    (if delta =? 0 then [] else [add_risk delta])).
  { destruct (delta =? 0); [apply part_none|]. by apply part_one, risk_stmt. }
  assert (Hroute : part match upstream with Some backend => line ("log(" +:+ quoted ("route:" +:+ backend) +:+ ");") | None => "" end
                     match upstream with Some backend => [call_of "log" [VStr ("route:" +:+ backend)]] | None => [] end).
  { rename select (bare_ok ("route:" +:+ _) = true) into Hb. destruct upstream as [backend|]; [|apply part_none].
    cbn [default from_option] in Hb. destruct (bare_literal _ Hb) as [Hq Hu]. apply part_one. by apply (string_stmt "log"). }
  pose proof (part_app _ _ _ _ Hrisk (part_app _ _ _ _ Hroute (part_one _ _ Hast))) as (ss & Hss & Hsts).
  eexists _, w. split; [reflexivity|]. split; [|exact Hwh].
  rewrite Hat, Hss, Hd.
  destruct Hsts as [|s st ss sts Hs Hsts]; [by destruct (delta =? 0), upstream|].
  by apply (layout_text id _ _ w s st ss sts); [|apply rule_salience_range| | |].
Qed.

(** * Documents *)

(** A rule without an id, or whose condition is not a map, is skipped. *)
Definition skipped (v : yaml) : bool :=
  negb (bool_decide (is_Some (y_get "id" v ≫= y_str)) && bool_decide (is_Some (y_get "condition" v ≫= y_mapping))).
Lemma skipped_error v : skipped v = true -> exists e, rule_to_grl v = Err e.
Proof.
  unfold skipped, rule_to_grl. intros Hs. apply negb_true_iff in Hs.
  destruct (y_get "id" v ≫= y_str) as [id|]; [|by eexists].
  rewrite bool_decide_eq_true_2 in Hs by done. cbn [andb] in Hs. cbn [ok_or mbind result_mbind].
  destruct (y_get "condition" v) as [c|]; [|by eexists]. cbn [ok_or mbind result_mbind option_bind] in *.
  apply bool_decide_eq_false in Hs. destruct (y_mapping c) as [map|] eqn:Hc; [by destruct Hs|].
  cbn [cond_to_grl new_cond_to_grl]. rewrite Hc. by eexists.
Qed.

(** The rules of a document, without those that are skipped. *)
Fixpoint rules_meaning (l : list yaml) : option (list RuleMeaning) :=
  match l with
  | [] => Some []
  | v :: l =>
    if skipped v then rules_meaning l
    else m ← rule_meaning v; ms ← rules_meaning l; Some (m :: ms)
  end.

(** A parsed rule and the meaning of a YAML rule agree. *)
Definition stands_for (r : RuleAst) (m : RuleMeaning) : Prop :=
  ra_name r = m_name m /\ ra_salience r = m_salience m /\ ra_then r = m_then m /\
  computes (ra_when r) (m_when m).

Lemma rules_mean l ms :
  rules_meaning l = Some ms ->
  exists texts rules, rules_to_grl l = file_text texts /\ Forall2 rule_text texts rules /\ Forall2 stands_for rules ms.
Proof.
  revert ms. induction l as [|v l IH]; intros ms; cbn [rules_meaning rules_to_grl].
  - intros [= <-]. by exists [], [].
  - destruct (skipped v) eqn:Hsk; [destruct (skipped_error v Hsk) as [e ->]; apply IH|].
    destruct (rule_meaning v) as [m|] eqn:Hm; [|done]. cbn [mbind option_bind].
    destruct (rules_meaning l) as [ms'|]; [|done]. cbn [mbind option_bind]. intros [= <-].
    destruct (IH ms' eq_refl) as (texts & rules & -> & Ht & Hs).
    destruct (rule_means v m Hm) as (text & w & Hv' & Htext & Hw). rewrite Hv'.
    exists (text :: texts), (mkRuleAst (m_name m) (m_salience m) w (m_then m) :: rules).
    split; [done|]. split; [by constructor|]. by constructor.
Qed.

End Meaning.

(** * Examples *)

(** The registry of an engine without plugins. *)
#[export] Instance default_builtins `{UnicodeTables, RegexLib, HashOrder} : Builtins (register_context_defaults ∅).
Proof.
  split; [|done]. intros n Hn. unfold builtin_names in Hn.
  repeat (apply elem_of_cons in Hn as [->|Hn]; [done|]). by apply elem_of_nil in Hn.
Qed.

Definition leaf_doc (field match_type v : string) : ytree :=
  YtMap [("field", YtStr field); ("match", YtStr match_type); ("value", YtStr v)].
Definition rule_doc (id action : string) (priority : Z) (cond : ytree) : ytree :=
  YtMap [("id", YtStr id); ("action", YtStr action); ("priority", YtInt priority); ("condition", cond);
         ("risk_score_delta", YtInt (-5)); ("scope", YtMap [("type", YtStr "tier"); ("tier", YtStr "critical")])].
Definition sample_doc : list ytree :=
  [rule_doc "slow-down" "rate_limit" 300 (YtMap [("type", YtStr "path_wildcard"); ("pattern", YtStr "/api/**")]);
   rule_doc "no-admin" "block" 900
     (YtMap [("and", YtSeq [leaf_doc "path" "regex" "/admin"; leaf_doc "method" "exact" "POST"])])].

Definition sample_meanings : list RuleMeaning :=
  default [] (@rules_meaning plain_unicode literal_regex sorted_hash_order
                (@register_context_defaults plain_unicode ∅) tree_yaml sample_doc).
Definition sample_registry : FunctionRegistry := @register_context_defaults plain_unicode ∅.

Definition api_request (p : string) : RequestContext :=
  mkContext "id" 0 "POST" p None Critical "1.2.3.4" None ∅ None None None (RiskScore_ZERO) None ∅.

Lemma sample_meanings_ok :
  @rules_meaning plain_unicode literal_regex sorted_hash_order sample_registry tree_yaml sample_doc = Some sample_meanings.
Proof.
  assert (Hs : forall o : option (list RuleMeaning), match o with Some _ => true | None => false end = true ->
            o = Some (default [] o)) by (by intros []).
  apply Hs. vm_compute. reflexivity.
Qed.


(** * Conditions that do not mean what they say *)

Definition good_rule : ytree := rule_doc "good" "block" 100 (leaf_doc "path" "exact" "/x").
Definition bad_rule (cond : ytree) : list ytree := [good_rule; rule_doc "bad" "block" 100 cond].
Definition loaded (l : list ytree) : result GrlError (list RuleAst) :=
  match @yaml_to_grl plain_unicode tree_yaml (YtSeq l) with
  | Ok text => grl_parse grammar_parse text
  | Err _ => Err GrlEmpty
  end.

(** C20: a network condition is written as a search for the text of the network in the
    client's address, and the presence of a header as a call of [has_header] on the
    request, whose first argument the function takes as the name: neither holds for
    any request whose address has no slash and whose headers all have a name. *)
Theorem approximated_conditions_never_hold `{UnicodeTables, RegexLib, HashOrder} reg `{!Builtins reg} net name :
  quotable net = true -> contains net "/" = true ->
  quotable name = true -> split_once ":" name = None ->
  forall leaf, leaf = leaf_to_grl "ip" "cidr" net \/ leaf = leaf_to_grl "header" "exact" name ->
  exists e, text_at LExpr leaf e /\ forall wm, unassigned reg wm ->
    contains (client_ip (fact wm)) "/" = false -> has_header (fact wm) "" = false ->
    as_bool (eval_expr wm e) = false.
Proof.
  intros Hnet Hslash Hname Hcolon leaf Hleaf.
  assert (Hm : exists h, means reg leaf h /\ forall ctx, contains (client_ip ctx) "/" = false -> has_header ctx "" = false -> h ctx = false).
  { destruct Hleaf as [-> | ->].
    - exists (fun ctx => contains (client_ip ctx) net). split.
      + by apply (means_contains reg (seg_path "ClientIp") client_ip).
      + intros ctx Hip _. apply not_true_iff_false. intros Hc. by rewrite (contains_trans _ _ _ Hc Hslash) in Hip.
    - exists (fun ctx => has_header ctx ""). split; [|done].
      by apply (header_presence_means reg). }
  destruct Hm as (h & (e & Ht & _ & He) & Hh). exists e. split; [by apply (text_up LNot); [cbn; lia|]|].
  intros wm Hwm Hip Hhd. rewrite He by done. by apply Hh.
Qed.

Lemma approximated_conditions_never_hold_witness :
  exists e, text_at LExpr (@leaf_to_grl plain_unicode "ip" "cidr" "10.0.1.0/24") e /\
    as_bool (@eval_expr plain_unicode literal_regex sorted_hash_order
               (WorkingMemory_new (api_request "/x") sample_registry) e) = false.
Proof.
  destruct (@approximated_conditions_never_hold plain_unicode literal_regex sorted_hash_order sample_registry
    (@default_builtins plain_unicode literal_regex sorted_hash_order) "10.0.1.0/24" "x-api-key" eq_refl eq_refl eq_refl eq_refl
    _ (or_introl eq_refl)) as (e & Ht & He).
  exists e. split; [exact Ht|]. apply He; [by split|reflexivity|reflexivity].
Defined.

(** A value that ends in a backslash escapes the closing quote of its literal, an
    empty list of conditions gives an empty pair of parentheses, and a comment mark
    in an unknown condition ends the comment around it: in each case the whole file
    is lost, with the rules that are written well. *)
Theorem bad_text_loses_the_file :
  map ra_name <$> loaded [good_rule] = Ok ["good"] /\
  loaded (bad_rule (leaf_doc "path" "regex" "^C:\")) = Err GrlSyntax /\
  loaded (bad_rule (YtMap [("and", YtSeq [])])) = Err GrlSyntax /\
  loaded (bad_rule (leaf_doc "header" "regex" "^*/*$")) = Err GrlSyntax.
Proof. split; [vm_compute; reflexivity|]. split; [vm_compute; reflexivity|]. split; vm_compute; reflexivity. Qed.
