(* ===== verification/ConvEngine.v ===== *)
(** What the engine decides on converted rules: the YAML rules that match a request
    fire in the order of their saliences, and the decision can be read off them. *)
From S2P Require Import Prelude Utf8 RustStd Net Extern Float64 WafTypes Ast Functions Printer WorkingMemory Rete Engine EngineSpec GrlParser Pest Converter GrlText ConvSpec.
Local Open Scope Z_scope.

Section Decide.
Context `{UnicodeTables, RegexLib, HashOrder}.
Context (reg : FunctionRegistry) {Hreg : Builtins reg}.

(** * The decision, from the rules that match *)

(** The rules of a document in the order in which they fire: higher saliences
    first, and rules of the same salience as in the document. *)
Definition sort_meanings (ms : list RuleMeaning) : list RuleMeaning := sort_by_key (fun m => - m_salience m) ms.
Definition matching (ctx : RequestContext) (ms : list RuleMeaning) : list RuleMeaning :=
  List.filter (fun m => m_when m ctx) (sort_meanings ms).

(** The actions in turn: a rule that blocks or allows ends the run, a challenge
    takes precedence over a rate limit, and neither ends it. *)
Fixpoint verdict (pending : Decision) (l : list RuleMeaning) : Decision :=
  match l with
  | [] => pending
  | m :: l =>
    if String.eqb (m_action m) "block" then Block (m_name m)
    else if String.eqb (m_action m) "allow" then pending
    else if String.eqb (m_action m) "challenge" then verdict (Challenge JsChallenge) l
    else if String.eqb (m_action m) "rate_limit" then
      verdict (match pending with Challenge c => Challenge c | _ => RateLimit 60 end) l
    else verdict pending l
  end.

(** * Firing one rule *)

(** An outcome that has not stopped the run, with what it would decide. *)
Definition pending_on (o : Outcome) (d : Decision) : Prop :=
  block_reason o = None /\ allow o = false /\ outcome_to_decision o = d /\
  match challenge o with Some ReqPow => False | _ => True end.

Definition after (m : RuleMeaning) (st : State) : State :=
  run_actions (m_then m) (on_outcome (push_matched (m_name m)) st.1, {[m_name m]} ∪ st.2).

(** The statements before the action of a rule change neither the decision nor
    what the conditions see. *)
Record same_view (st st' : State) : Prop := {
  view_fact : fact st'.1 = fact st.1;
  view_unassigned : unassigned reg st.1 -> unassigned reg st'.1;
  view_fired : st'.2 = st.2
}.
Lemma same_view_trans st1 st2 st3 : same_view st1 st2 -> same_view st2 st3 -> same_view st1 st3.
Proof. intros [] []. split; [congruence|auto|congruence]. Qed.

Lemma view_outcome f st : same_view st (on_outcome f st.1, st.2).
Proof. by split. Qed.

Lemma risk_view delta st :
  same_view st (run_stmt (add_risk delta) st.1 st.2) /\ outcome (run_stmt (add_risk delta) st.1 st.2).1 = outcome st.1.
Proof.
  split; [|done]. split; [done| |done]. intros [Hr Hs]. split; [done|]. intros p Hp. cbn.
  rewrite lookup_insert_ne by congruence. auto.
Qed.

Definition preamble (m : RuleMeaning) : list Stmt :=
  (if m_delta m =? 0 then [] else [add_risk (m_delta m)])
    ++ match m_backend m with Some backend => [call_of "log" [VStr ("route:" +:+ backend)]] | None => [] end.

Lemma preamble_view m st :
  same_view st (run_actions (preamble m) st) /\ same_verdict (outcome st.1) (outcome (run_actions (preamble m) st).1).
Proof.
  unfold preamble. destruct (m_delta m =? 0), (m_backend m) as [b|]; cbn [app run_actions foldl]; try by split.
  - split; [|done]. eapply same_view_trans; [apply risk_view|apply view_outcome].
  - split; [apply risk_view|done].
Qed.

Lemma run_actions_app l l' st : run_actions (l ++ l') st = run_actions l' (run_actions l st).
Proof. unfold run_actions. by rewrite foldl_app. Qed.

Lemma pending_verdict o o' d : same_verdict o o' -> pending_on o d -> pending_on o' d.
Proof.
  intros (Hb & Ha & Hc & Hr) (Hb' & Ha' & <- & Hk). unfold pending_on, outcome_to_decision. by rewrite Hb, Ha, Hc, Hr, Hb'.
Qed.

(** The action of a rule, on a run that has not stopped. *)
Definition act (m : RuleMeaning) (st : State) : State :=
  run_stmt (action_call (m_action m) (m_name m)) st.1 st.2.
Lemma act_view m st : same_view st (act m st).
Proof. unfold act, action_call. by repeat split_if. Qed.

Lemma act_decides m st d :
  pending_on (outcome st.1) d ->
  if stops_firing (act m st).1
  then forall l, verdict d (m :: l) = outcome_to_decision (outcome (act m st).1)
  else exists d', pending_on (outcome (act m st).1) d' /\ forall l, verdict d (m :: l) = verdict d' l.
Proof.
  intros (Hb & Ha & Hd & Hc). unfold act, action_call. cbn [verdict].
  destruct (String.eqb (m_action m) "block") eqn:Hblock; [done|].
  destruct (String.eqb (m_action m) "challenge") eqn:Hch.
  { apply String.eqb_eq in Hch. rewrite Hch in *. unfold stops_firing. cbn. rewrite Hb, Ha. cbn.
    exists (Challenge JsChallenge). split; [|done]. by unfold pending_on, outcome_to_decision; cbn; rewrite Hb, Ha. }
  destruct (String.eqb (m_action m) "rate_limit") eqn:Hrate.
  { apply String.eqb_eq in Hrate. rewrite Hrate in *. unfold stops_firing. cbn. rewrite Hb, Ha. cbn.
    eexists. split; [|done]. unfold pending_on, outcome_to_decision in *. cbn. rewrite Hb in *. rewrite Ha.
    repeat split; [|done]. subst d. destruct (challenge (outcome st.1)) as [[]|]; [done|done|].
    by destruct (rate_limit_secs (outcome st.1)). }
  destruct (String.eqb (m_action m) "allow") eqn:Hallow.
  { unfold stops_firing. cbn. rewrite orb_true_r. intros _. rewrite <-Hd. unfold outcome_to_decision. cbn. by rewrite Hb. }
  assert (Hlog : forall v, exists d', pending_on (outcome (run_stmt (call_of "log" [v]) st.1 st.2).1) d' /\
            forall l, verdict d l = verdict d' l).
  { intros v. exists d. split; [|done]. by apply (pending_verdict (outcome st.1)). }
  assert (Hstop : forall v, stops_firing (run_stmt (call_of "log" [v]) st.1 st.2).1 = false).
  { intros v. unfold stops_firing. cbn. by rewrite Hb, Ha. }
  destruct (String.eqb (m_action m) "log"); rewrite Hstop; apply Hlog.
Qed.

(** A rule that fires: what it leaves, and what it decides. *)
Lemma after_rule m st d :
  unassigned reg st.1 -> pending_on (outcome st.1) d ->
  fact (after m st).1 = fact st.1 /\ unassigned reg (after m st).1 /\ (after m st).2 = {[m_name m]} ∪ st.2 /\
  if stops_firing (after m st).1
  then forall l, verdict d (m :: l) = outcome_to_decision (outcome (after m st).1)
  else exists d', pending_on (outcome (after m st).1) d' /\ forall l, verdict d (m :: l) = verdict d' l.
Proof.
  intros Hu Hp. set (st0 := (on_outcome (push_matched (m_name m)) st.1, {[m_name m]} ∪ st.2) : State).
  assert (Heq : after m st = act m (run_actions (preamble m) st0)).
  { unfold after, m_then, act. fold st0. rewrite app_assoc, run_actions_app. fold (preamble m).
    by destruct (run_actions (preamble m) st0). }
  destruct (preamble_view m st0) as [Hv Hs].
  destruct (same_view_trans _ _ _ Hv (act_view m _)) as [Hf Hun Hfired]. rewrite Heq.
  split; [exact Hf|]. split; [by apply Hun|]. split; [exact Hfired|].
  apply act_decides. apply (pending_verdict (outcome st0.1)); [done|]. by apply (pending_verdict (outcome st.1)).
Qed.

(** * Firing the rules that match *)

Lemma find_filter {A} (f : A -> bool) l : List.find f l = head (List.filter f l).
Proof. induction l as [|x l IH]; [done|]. cbn. by destruct (f x). Qed.
Definition names (l : list RuleMeaning) : gset string := list_to_set (map m_name l).

Lemma nodup_names_filter (f : RuleMeaning -> bool) l :
  NoDup (map m_name l) -> NoDup (map m_name (List.filter f l)).
Proof.
  induction l as [|m l IH]; [done|]. cbn. intros [Hni Hnd]%NoDup_cons. destruct (f m); [|auto]. cbn.
  apply NoDup_cons. split; [|auto]. intros Hin. apply Hni.
  apply list_elem_of_In, in_map_iff in Hin as (x & <- & [Hx _]%List.filter_In).
  apply list_elem_of_In. by apply in_map.
Qed.

(** What is left to fire, when the rules before it have fired. *)
Lemma filter_fired dn todo :
  NoDup (map m_name (dn ++ todo)) ->
  List.filter (fun m => negb (bool_decide (m_name m ∈ names dn))) (dn ++ todo) = todo.
Proof.
  intros Hnd. rewrite List.filter_app. rewrite map_app in Hnd. apply NoDup_app in Hnd as (_ & Hdis & _).
  assert (Hin : forall l m, In m l -> m_name m ∈ map m_name l) by (intros; apply list_elem_of_In; by apply in_map).
  assert (Hdn : List.filter (fun m => negb (bool_decide (m_name m ∈ names dn))) dn = []).
  { assert (Hall : forall l, incl l dn -> List.filter (fun m => negb (bool_decide (m_name m ∈ names dn))) l = []).
    { induction l as [|m l IH]; [done|]. intros Hl. cbn. rewrite bool_decide_true; [|].
      - apply IH. intros x Hx. apply Hl. by right.
      - unfold names. rewrite elem_of_list_to_set. apply Hin, Hl. by left. }
    apply Hall, incl_refl. }
  rewrite Hdn. cbn [app]. clear Hdn.
  assert (Hall : forall l, incl l todo -> List.filter (fun m => negb (bool_decide (m_name m ∈ names dn))) l = l).
  { induction l as [|m l IH]; [done|]. intros Hl. cbn. rewrite bool_decide_false; cbn.
    - rewrite IH; [done|]. intros x Hx. apply Hl. by right.
    - unfold names. rewrite elem_of_list_to_set. intros Hm. apply (Hdis _ Hm), Hin, Hl. by left. }
  apply Hall, incl_refl.
Qed.

Lemma find_stands rs l st :
  unassigned reg st.1 -> Forall2 (stands_for reg) rs l ->
  match List.find (eligible st) rs with
  | Some r => exists m, stands_for reg r m /\
      List.find (fun m => m_when m (fact st.1) && negb (bool_decide (m_name m ∈ st.2))) l = Some m
  | None => List.find (fun m => m_when m (fact st.1) && negb (bool_decide (m_name m ∈ st.2))) l = None
  end.
Proof.
  intros Hu. induction 1 as [|r m rs l Hm _ IH]; [done|]. cbn [List.find].
  assert (Heq : eligible st r = m_when m (fact st.1) && negb (bool_decide (m_name m ∈ st.2))).
  { destruct Hm as (Hn & _ & _ & _ & Hc). unfold eligible, holds. by rewrite Hc, Hn. }
  rewrite Heq. destruct (m_when m _ && _); [by exists m|exact IH].
Qed.

Lemma after_matched m st : matched_rules (outcome (after m st).1) = matched_rules (outcome st.1) ++ [m_name m].
Proof.
  unfold after. by rewrite (frame_matched _ _ (run_actions_frame (m_then m)
    (on_outcome (push_matched (m_name m)) st.1, {[m_name m]} ∪ st.2))).
Qed.

(** A network of rules that stand for a list of meanings, and a run that has fired
    the first of the rules that match. *)
Record network_stands (rules : list RuleAst) (net : Network) (ms : list RuleMeaning) : Prop := {
  stands_network : network_wf net;
  stands_terminals : Forall2 (terminal_for net) (terminals net) (sort_rules rules);
  stands_rules : Forall2 (stands_for reg) (sort_rules rules) (sort_meanings ms);
  stands_distinct : NoDup (map m_name (sort_meanings ms))
}.
Record run_at (ms : list RuleMeaning) (st : State) (dn todo : list RuleMeaning) : Prop := {
  run_unassigned : unassigned reg st.1;
  run_matching : matching (fact st.1) ms = dn ++ todo;
  run_fired : st.2 = names dn
}.

(** One cycle fires the next of them. *)
Lemma cycle_fires rules net ms st dn todo :
  network_stands rules net ms -> run_at ms st dn todo ->
  match scan (map (fun a => eval_alpha a st.1) (alphas net)) st.2 (terminals net) with
  | Some t => exists m todo', todo = m :: todo' /\ fire_terminal t st.1 st.2 = after m st
  | None => todo = []
  end.
Proof.
  intros [Hwf Hterm Hstand Hnd] [Hu Hm Hfired].
  assert (Hmatches : registry st.1 !! "matches" = None).
  { destruct Hu as [-> _]. apply builtin_free. unfold builtin_names. set_solver. }
  pose proof (scan_rules net st.1 st.2 _ _ Hwf Hmatches Hterm) as Hscan.
  pose proof (find_stands _ _ st Hu Hstand) as Hfind.
  rewrite (find_filter _ (sort_meanings ms)), <-filter_filter in Hfind.
  fold (matching (fact st.1) ms) in Hfind. rewrite Hm, Hfired, filter_fired in Hfind.
  2: { rewrite <-Hm. by apply nodup_names_filter. }
  replace (eligible (st.1, st.2)) with (eligible st) in Hscan by (by destruct st).
  destruct (scan _ _ _) as [t|].
  - destruct Hscan as (r & Hr & Hname & _ & Hact & _). rewrite Hr in Hfind.
    destruct Hfind as (m & (Hrn & _ & Hthen & _) & Htodo). destruct todo as [|m' todo]; [done|]. injection Htodo as ->.
    exists m, todo. split; [done|]. unfold fire_terminal, after. by rewrite Hname, Hact, Hrn, Hthen.
  - rewrite Hscan in Hfind. by destruct todo.
Qed.

Lemma run_next ms m st dn todo d :
  run_at ms st dn (m :: todo) -> pending_on (outcome st.1) d -> run_at ms (after m st) (dn ++ [m]) todo.
Proof.
  intros [Hu Hm Hfired] Hp. destruct (after_rule m st d Hu Hp) as (Hf & Hu' & Hset & _). split; [done| |].
  - by rewrite Hf, Hm, <-app_assoc.
  - rewrite Hset, Hfired. unfold names. rewrite map_app, list_to_set_app_L. cbn. set_solver.
Qed.

(** The run decides by the rules that are left, and fires the first of them. *)
Lemma fire_matching rules net ms cycles st d dn todo :
  network_stands rules net ms -> run_at ms st dn todo -> pending_on (outcome st.1) d ->
  let final := outcome (fire_cycles cycles net st.1 st.2) in
  outcome_to_decision final = verdict d (take cycles todo) /\
  exists l, matched_rules final = matched_rules (outcome st.1) ++ map m_name l /\
    l `prefix_of` take cycles todo /\ head l = head (take cycles todo).
Proof.
  intros Hnet. revert st d dn todo. induction cycles as [|cycles IH]; intros st d dn todo Hrun Hp; cbn [fire_cycles take].
  { split; [by destruct Hp as (_ & _ & -> & _)|]. exists []. by rewrite app_nil_r. }
  pose proof (cycle_fires _ _ _ _ _ _ Hnet Hrun) as Hcycle. destruct (scan _ _ _) as [t|].
  - destruct Hcycle as (m & todo' & -> & ->). pose proof (run_next _ _ _ _ _ _ Hrun Hp) as Hnext.
    destruct (after_rule m st d (run_unassigned _ _ _ _ Hrun) Hp) as (_ & _ & _ & Hd).
    pose proof (after_matched m st) as Hmr. destruct (after m st) as [wm fired]. cbn [fst snd take] in *.
    destruct (stops_firing wm).
    + split; [by rewrite Hd|]. exists [m]. rewrite Hmr. split; [done|]. split; [|done]. by exists (take cycles todo').
    + destruct Hd as (d' & Hp' & ->). destruct (IH (wm, fired) d' _ _ Hnext Hp') as (Hdec & l & Hl & Hpre & _).
      split; [exact Hdec|]. exists (m :: l). cbn [fst snd] in Hl. rewrite Hl, Hmr, <-app_assoc.
      split; [done|]. split; [by apply prefix_cons|done].
  - subst todo. split; [by destruct Hp as (_ & _ & -> & _)|]. exists []. by rewrite app_nil_r.
Qed.

Context `{YamlLib}.

Lemma stands_sorted rules ms :
  Forall2 (stands_for reg) rules ms -> Forall2 (stands_for reg) (sort_rules rules) (sort_meanings ms).
Proof. apply sort_by_key_Forall2. intros r m (_ & -> & _). done. Qed.

Lemma stands_wf rules ms : Forall2 (stands_for reg) rules ms -> forallb wf_rule rules = true.
Proof.
  induction 1 as [|r m rules ms (_ & _ & _ & Hw & _) _ IH]; [done|]. cbn. unfold wf_rule at 1. by rewrite Hw, IH.
Qed.

(** Rules that stand for a list of meanings decide by it. *)
Lemma standing_fires rules ms eng ctx :
  Forall2 (stands_for reg) rules ms -> NoDup (map m_name ms) ->
  network eng = compile rules -> engine_registry eng = reg ->
  outcome_to_decision (fire eng ctx) = verdict Allow (take MAX_CYCLES (matching ctx ms)) /\
  exists l, matched_rules (fire eng ctx) = map m_name l /\
    l `prefix_of` take MAX_CYCLES (matching ctx ms) /\ head l = head (take MAX_CYCLES (matching ctx ms)).
Proof.
  intros Hs Hnd Hnet Heng. destruct (compile_spec rules (stands_wf _ _ Hs)) as [Hwf Hterm].
  unfold fire. rewrite Hnet, Heng.
  apply (fire_matching rules (compile rules) ms MAX_CYCLES (WorkingMemory_new ctx reg, ∅) Allow []); [|done|done].
  split; [done|done|by apply stands_sorted|]. unfold sort_meanings. by rewrite sort_by_key_perm.
Qed.

End Decide.

Lemma sample_names_distinct : NoDup (map m_name sample_meanings).
Proof. apply (bool_decide_unpack _). vm_compute. done. Qed.
