(* ===== verification/Agree.v ===== *)
(** The two engines on the rules they share: a YAML rule file is read by
    [crates/rule] and, through [grl/converter.rs], by the network engine.  On the
    conditions that both formats read alike, the engines decide alike. *)
From S2P Require Import Prelude Utf8 RustStd Net Extern Float64 WafTypes RuleTypes RuleEngine Ast Functions Printer WorkingMemory Rete Engine EngineSpec GrlParser Pest Converter GrlText ConvSpec ConvEngine.
Local Open Scope Z_scope.

(** * The documents that the two readers share *)

(** The names [serde] gives to the variants. *)
Definition field_name (f : Field) : string :=
  match f with
  | FIp => "ip" | FPath => "path" | FHeader => "header" | FPayload => "payload" | FCookie => "cookie"
  | FMethod => "method" | FContentType => "content_type" | FSessionId => "session_id" | FDeviceFp => "device_fp"
  end.
Definition match_name (m : MatchType) : string :=
  match m with
  | MExact => "exact" | MWildcard => "wildcard" | MRegex => "regex" | MCidr => "cidr"
  | MPresence => "presence" | MAbsence => "absence"
  end.
Definition action_name (a : Action) : string :=
  match a with
  | ActAllow => "allow" | ActBlock => "block" | ActChallenge => "challenge"
  | ActRateLimit => "rate_limit" | ActLog => "log"
  end.

Section Documents.
Context `{YamlLib}.

(** A document of a condition. *)
Fixpoint cond_doc (c : ConditionNode) (v : yaml) : Prop :=
  let fix docs (cs : list ConditionNode) (l : list yaml) : Prop :=
    match cs, l with
    | [], [] => True
    | c :: cs, v :: l => cond_doc c v /\ docs cs l
    | _, _ => False
    end in
  exists m, y_mapping v = Some m /\
    match c with
    | CAnd cs => exists l, map_get "and" m ≫= y_sequence = Some l /\ docs cs l
    | COr cs => map_get "and" m ≫= y_sequence = None /\ exists l, map_get "or" m ≫= y_sequence = Some l /\ docs cs l
    | CLeaf x =>
      map_get "and" m ≫= y_sequence = None /\ map_get "or" m ≫= y_sequence = None /\ ignores m = false /\
      str_field "field" m = Some (field_name (field x)) /\
      str_field "match" m = Some (match_name (match_type x)) /\
      str_or_empty "value" m = value x
    end.

(** A document of a rule. *)
Record rule_doc (v : yaml) (r : RuleRaw ConditionNode) : Prop := {
  doc_id : y_get "id" v ≫= y_str = Some (raw_id r);
  doc_priority : y_get "priority" v ≫= y_u64 = Some (raw_priority r);
  doc_action : y_get "action" v ≫= y_str = Some (action_name (raw_action r));
  doc_delta : default 0 (y_get "risk_score_delta" v ≫= y_i64) = raw_risk_score_delta r;
  doc_condition : exists c, y_get "condition" v = Some c /\ cond_doc (raw_condition r) c
}.

(** A text without letters is equal to another up to case only if it is equal to it. *)
Definition caseless (s : string) : bool := forallb (fun a => negb (ascii_alpha a)) (str_bytes s).

(** The leaves with one meaning: the converter ignores [negate], which is not set
    here, and [case_sensitive], which is off unless a document sets it. *)
Definition common_leaf (x : ConditionLeaf) : bool :=
  negb (negate x) && quotable (value x) &&
  match field x, match_type x with
  | FIp, MExact | FPath, MExact | FMethod, MExact => case_sensitive x || caseless (value x)
  | FPath, MRegex | FMethod, MRegex | FPayload, MRegex => case_sensitive x || starts_with (value x) "(?i)"
  | _, _ => false
  end.
Fixpoint common_cond (c : ConditionNode) : bool :=
  match c with
  | CAnd [] | COr [] => false
  | CAnd cs | COr cs => forallb common_cond cs
  | CLeaf x => common_leaf x
  end.

(** The rules: the converter also ignores [enabled] and [tier]. *)
Record common_rule (v : yaml) (r : RuleRaw ConditionNode) : Prop := {
  common_document : rule_doc v r;
  common_condition : common_cond (raw_condition r) = true;
  common_enabled : raw_enabled r = true;
  common_everywhere : raw_tier r = None /\ y_get "scope" v = None;
  common_routing : y_get "upstream_backend" v ≫= y_str = None;
  common_id : plain_string (raw_id r) = true;
  common_priority : 0 <= raw_priority r < 2 ^ 31
}.
End Documents.

(** * Conditions *)

Section Conditions.
Context `{UnicodeTables, RegexLib, HashOrder}.
Context (reg : FunctionRegistry) {Hreg : Builtins reg}.

(** One request, as the two engines are given it. *)
Record same_request (ctx : Ast.RequestContext) (yctx : RuleEngine.RequestContext) : Prop := {
  same_ip : client_ip ctx = RuleEngine.ip yctx;
  same_method : Ast.method ctx = RuleEngine.method yctx;
  same_path : req_path ctx = RuleEngine.path yctx;
  same_payload : req_body ctx = default "" (from_utf8 (RuleEngine.payload yctx))
}.

(** A predicate of the network engine and one of the other engine. *)
Definition alike (h : Pred) (g : RuleEngine.RequestContext -> bool) : Prop :=
  forall ctx yctx, same_request ctx yctx -> h ctx = g yctx.

Lemma lower_letter a b : to_ascii_lowercase a = to_ascii_lowercase b -> ascii_alpha b = false -> a = b.
Proof.
  unfold to_ascii_lowercase, is_ascii_uppercase, ascii_alpha, byte_in. intros Hab Hb.
  pose proof (byte_val_range a). pose proof (byte_val_range b). apply byte_val_inj.
  apply (f_equal byte_val) in Hab. revert Hab. repeat split_if; rewrite ?byte_val_of by lia; lia.
Qed.
Lemma caseless_eq s v : caseless v = true -> eq_ignore_ascii_case s v = String.eqb s v.
Proof.
  intros Hv. unfold eq_ignore_ascii_case. apply eq_true_iff_eq. rewrite bool_decide_eq_true, String.eqb_eq.
  split; [|by intros ->]. revert v Hv. induction s as [|a s IH]; intros [|b v]; cbn; try done.
  unfold caseless. cbn. intros Hv [= Ha Hs]. reflect_bools. f_equal; [by apply lower_letter|by apply IH].
Qed.

Lemma exact_alike x s :
  match_type x = MExact -> case_sensitive x || caseless (value x) = true ->
  String.eqb s (value x) = RuleEngine.match_value s x.
Proof.
  unfold RuleEngine.match_value. intros -> Hc. destruct (case_sensitive x).
  - apply eq_true_iff_eq. by rewrite bool_decide_eq_true, String.eqb_eq.
  - by rewrite caseless_eq.
Qed.
Lemma regex_alike x s :
  match_type x = MRegex -> case_sensitive x || starts_with (value x) "(?i)" = true ->
  regex_match (value x) s = RuleEngine.match_value s x.
Proof.
  unfold RuleEngine.match_value, regex_pattern. intros -> Hc.
  destruct (case_sensitive x); [done|]. cbn in Hc. by rewrite Hc.
Qed.

Lemma leaf_alike x :
  common_leaf x = true ->
  exists h, leaf_meaning (field_name (field x)) (match_name (match_type x)) (value x) = Some h /\
    alike h (RuleEngine.eval_leaf x).
Proof.
  unfold common_leaf, RuleEngine.eval_leaf, alike. intros Hx. reflect_bools.
  rename select (negate x = false) into Hn. rename select (quotable _ = true) into Hq.
  destruct (field x) eqn:Hf, (match_type x) eqn:Hm; try done; unfold leaf_meaning, lit; cbn [field_name match_name];
    cbn -[quotable]; rewrite Hq; (eexists; split; [reflexivity|]); intros ctx yctx [Hi Hme Hp Hb]; rewrite Hn, ?Hi, ?Hme, ?Hp, ?Hb;
    first [by apply exact_alike | by apply regex_alike].
Qed.

Lemma all_alike hs gs : Forall2 alike hs gs -> alike (all_hold hs) (fun yctx => forallb (fun g => g yctx) gs).
Proof.
  intros Hall ctx yctx Hs. unfold all_hold.
  induction Hall as [|h g hs gs Hh _ IH]; [done|]. cbn. by rewrite (Hh ctx yctx Hs), IH.
Qed.
Lemma some_alike hs gs : Forall2 alike hs gs -> alike (some_holds hs) (fun yctx => existsb (fun g => g yctx) gs).
Proof.
  intros Hall ctx yctx Hs. unfold some_holds.
  induction Hall as [|h g hs gs Hh _ IH]; [done|]. cbn. by rewrite (Hh ctx yctx Hs), IH.
Qed.

Context `{YamlLib}.

(** The members of a list of conditions. *)
Fixpoint cond_docs (cs : list ConditionNode) (l : list yaml) : Prop :=
  match cs, l with
  | [], [] => True
  | c :: cs, v :: l => cond_doc c v /\ cond_docs cs l
  | _, _ => False
  end.
Lemma cond_docs_Forall2 cs l : cond_docs cs l -> Forall2 cond_doc cs l.
Proof. revert l. induction cs as [|c cs IH]; intros [|v l]; try done. intros [? ?]. constructor; auto. Qed.

(** A condition has a meaning with any fuel over its size, and it holds when the
    other engine's does. *)
Definition means_alike (c : ConditionNode) : Prop :=
  forall v fuel, cond_doc c v -> common_cond c = true -> (y_size v < fuel)%nat ->
    exists h, new_meaning fuel v = Some h /\ alike h (RuleEngine.eval_node c).

Lemma members_alike cs l fuel :
  Forall means_alike cs -> cond_docs cs l -> forallb common_cond cs = true -> cs <> [] ->
  (forall v, In v l -> (y_size v < fuel)%nat) ->
  exists hs, members (new_meaning fuel) l = Some hs /\ Forall2 alike hs (map RuleEngine.eval_node cs).
Proof.
  intros Hcs Hl%cond_docs_Forall2 Hc Hne Hsize.
  assert (Hm : exists hs, mapM (new_meaning fuel) l = Some hs /\ Forall2 alike hs (map RuleEngine.eval_node cs)).
  { clear Hne. induction Hl as [|c v cs l Hv _ IH]; [by exists []|].
    inversion Hcs as [|? ? Hh Hcs']. subst. cbn in Hc. reflect_bools.
    destruct (Hh v fuel Hv ltac:(done) (Hsize v (or_introl eq_refl))) as (h & Hm & Ha).
    destruct IH as (hs & Hms & Has); [done|done|intros w Hw; apply Hsize; by right|].
    exists (h :: hs). cbn. rewrite Hm. cbn. rewrite Hms. split; [done|]. by constructor. }
  destruct Hm as (hs & Hm & Ha). exists hs. split; [|done].
  destruct Hl; [done|]. exact Hm.
Qed.

Lemma member_size v m k l x :
  y_mapping v = Some m -> map_get k m ≫= y_sequence = Some l -> In x l -> (y_size x < y_size v)%nat.
Proof.
  intros Hm (s & Hs & Hl)%bind_Some Hx.
  pose proof (y_mapping_size _ _ _ _ Hm Hs). pose proof (y_sequence_size _ _ _ Hl Hx). lia.
Qed.

Lemma cond_alike c : means_alike c.
Proof.
  induction c as [cs IH|cs IH|x] using Cond_ind'; intros v fuel Hv Hc Hsize;
    (destruct fuel as [|fuel]; [lia|]); cbn [cond_doc new_meaning] in *; destruct Hv as (m & Hm & Hv);
    rewrite Hm; cbn [mbind option_bind].
  - destruct Hv as (l & Hl & Hd). change (cond_docs cs l) in Hd. rewrite Hl.
    destruct (members_alike cs l fuel IH Hd) as (hs & Hhs & Ha); [by destruct cs|by destruct cs|..].
    { intros x Hx. pose proof (member_size _ _ _ _ _ Hm Hl Hx). lia. }
    rewrite Hhs. eexists. split; [done|]. intros ctx yctx Hs. rewrite (all_alike _ _ Ha _ _ Hs).
    cbn. unfold RuleEngine.eval_node. clear. induction cs as [|c cs IH]; [done|]. cbn. by rewrite IH.
  - destruct Hv as (Hand & l & Hl & Hd). change (cond_docs cs l) in Hd. rewrite Hand, Hl.
    destruct (members_alike cs l fuel IH Hd) as (hs & Hhs & Ha); [by destruct cs|by destruct cs|..].
    { intros x Hx. pose proof (member_size _ _ _ _ _ Hm Hl Hx). lia. }
    rewrite Hhs. eexists. split; [done|]. intros ctx yctx Hs. rewrite (some_alike _ _ Ha _ _ Hs).
    cbn. unfold RuleEngine.eval_node. clear. induction cs as [|c cs IH]; [done|]. cbn. by rewrite IH.
  - destruct Hv as (Hand & Hor & Hig & Hf & Hmt & Hval). rewrite Hand, Hor, Hig, Hf, Hmt, Hval. cbn [mbind option_bind].
    by apply leaf_alike.
Qed.

(** * Rules *)

(** A rule, and what its document stands for. *)
Record stands_alike (r : RuleRaw ConditionNode) (m : RuleMeaning) : Prop := {
  alike_name : m_name m = raw_id r;
  alike_order : m_salience m = 1000 - raw_priority r;
  alike_action : m_action m = action_name (raw_action r);
  alike_when : alike (m_when m) (RuleEngine.eval_node (raw_condition r))
}.

Lemma rule_alike v r :
  common_rule v r -> rule_ok r -> exists m, rule_meaning reg v = Some m /\ stands_alike r m.
Proof.
  intros [[Hid Hprio Hact Hdelta (c & Hc & Hdoc)] Hcond Hen [_ Hscope] Hup Hpid Hp] (Hdr & _ & _).
  destruct (cond_alike _ c (S (y_size c)) Hdoc Hcond ltac:(lia)) as (h & Hh & Ha).
  assert (Hm : cond_meaning reg (S (y_size c)) c = Some h).
  { by apply new_is_meaning. }
  unfold rule_meaning. rewrite Hid, Hc, Hprio, Hact, Hup, Hscope, Hdelta. cbn [mbind option_bind default from_option Datatypes.id scope_meaning].
  rewrite Hm. cbn [mbind option_bind]. rewrite Hpid, bool_decide_eq_true_2 by (unfold in_s; lia).
  assert (Hb : bare_ok ("unknown_action:" +:+ action_name (raw_action r)) = true) by (by destruct (raw_action r)).
  rewrite Hb. cbn [andb default]. eexists. split; [reflexivity|]. split; cbn; [done| |done|].
  - by rewrite rule_salience_plain.
  - intros ctx yctx Hs. by apply Ha.
Qed.

Lemma rules_alike l raw :
  Forall2 common_rule l raw -> Forall rule_ok raw ->
  exists ms, rules_meaning reg l = Some ms /\ Forall2 stands_alike raw ms.
Proof.
  induction 1 as [|v r l raw Hv _ IH]; intros Hok; [by exists []|]. inversion Hok as [|? ? Hr Hraw]. subst.
  destruct (rule_alike v r Hv Hr) as (m & Hm & Ha). destruct (IH Hraw) as (ms & Hms & Has).
  exists (m :: ms). cbn [rules_meaning]. destruct (rule_means reg v m Hm) as (t & w & Ht & _).
  assert (Hsk : skipped v = false) by (destruct (skipped v) eqn:Hsk; [by destruct (skipped_error v Hsk); congruence|done]).
  rewrite Hsk, Hm, Hms. split; [done|]. by constructor.
Qed.

Lemma stands_names raw ms : Forall2 stands_alike raw ms -> map m_name ms = map raw_id raw.
Proof. induction 1 as [|r m raw ms [Hn _ _ _] _ IH]; [done|]. cbn. by rewrite Hn, IH. Qed.
End Conditions.

(** * Decisions *)

(** What the network engine decides, where the other engine reports a rule: blocks
    and allows are the same; a challenge or a rate limit does not end the run, so
    that a later blocking rule, or for a rate limit a later challenge, prevails. *)
Section Decisions.
Context `{UnicodeTables, RegexLib}.

(** A rule that comes after the rule [id], in the order of priorities, with an action and
    a condition that holds. *)
Definition later (raw : list (RuleRaw ConditionNode)) (yctx : RuleEngine.RequestContext) (id : string) (a : Action)
  (r : RuleRaw ConditionNode) : Prop :=
  In r raw /\ raw_action r = a /\ RuleEngine.eval_node (raw_condition r) yctx = true /\
  exists r0, In r0 raw /\ raw_id r0 = id /\ raw_priority r0 < raw_priority r.

Definition blocked_later (raw : list (RuleRaw ConditionNode)) (yctx : RuleEngine.RequestContext) (id : string) (d : Decision) : Prop :=
  exists r, later raw yctx id ActBlock r /\ d = Block (raw_id r).
Definition challenged_later (raw : list (RuleRaw ConditionNode)) (yctx : RuleEngine.RequestContext) (id : string) (d : Decision) : Prop :=
  exists r, later raw yctx id ActChallenge r /\ d = Challenge JsChallenge.

Definition decided (raw : list (RuleRaw ConditionNode)) (yctx : RuleEngine.RequestContext)
  (m : option RuleMatch) (d : Decision) : Prop :=
  match m with
  | None => d = Allow
  | Some m =>
    match rm_action m with
    | ActBlock => d = Block (rule_id m)
    | ActAllow => d = Allow
    | ActChallenge => d = Challenge JsChallenge \/ blocked_later raw yctx (rule_id m) d
    | ActRateLimit =>
      d = RateLimit 60 \/ challenged_later raw yctx (rule_id m) d \/ blocked_later raw yctx (rule_id m) d
    | ActLog => False
    end
  end.

Lemma later_incl raw raw' yctx id a r : incl raw raw' -> later raw yctx id a r -> later raw' yctx id a r.
Proof. intros Hi (Hr & Ha & Hh & r0 & Hr0 & Hp0). split; [by apply Hi|]. split; [done|]. split; [done|]. exists r0. split; [by apply Hi|done]. Qed.
Lemma decided_incl raw raw' yctx m d : incl raw raw' -> decided raw yctx m d -> decided raw' yctx m d.
Proof.
  intros Hi. assert (Hl : forall id a P, (exists r, later raw yctx id a r /\ P r) -> exists r, later raw' yctx id a r /\ P r).
  { intros id a P (r & Hr & HP). exists r. split; [by apply (later_incl raw)|done]. }
  unfold decided, challenged_later, blocked_later. destruct m as [m|]; [|done].
  pose proof (Hl (rule_id m) ActBlock (fun r => d = Block (raw_id r))).
  pose proof (Hl (rule_id m) ActChallenge (fun _ => d = Challenge JsChallenge)). destruct (rm_action m); tauto.
Qed.

(** The rules in force: none is disabled, and none is for a tier. *)
Definition in_force (r : RuleRaw ConditionNode) : Prop := raw_enabled r = true /\ raw_tier r = None.

Lemma rules_in_force `{YamlLib} l raw : Forall2 common_rule l raw -> Forall in_force raw.
Proof. induction 1 as [|v r l raw [_ _ He [Ht _] _ _ _] _ IH]; constructor; [by split|done]. Qed.

Lemma decides_common r yctx :
  in_force r ->
  decides yctx [] (build_rule r) =
  RuleEngine.eval_node (raw_condition r) yctx && negb (bool_decide (raw_action r = ActLog)).
Proof. intros [He Ht]. unfold decides, tier_applies. cbn. by rewrite He, Ht. Qed.

(** What the rules that are left can add to a challenge or a rate limit. *)
Lemma verdict_later ctx yctx raw ms d :
  same_request ctx yctx -> Forall2 stands_alike raw ms ->
  (d = Challenge JsChallenge \/ d = RateLimit 60) ->
  let v := verdict d (List.filter (fun m => m_when m ctx) ms) in
  v = d \/
  (d = RateLimit 60 /\ v = Challenge JsChallenge /\
   exists r, In r raw /\ raw_action r = ActChallenge /\ RuleEngine.eval_node (raw_condition r) yctx = true) \/
  (exists r, In r raw /\ raw_action r = ActBlock /\ RuleEngine.eval_node (raw_condition r) yctx = true /\ v = Block (raw_id r)).
Proof.
  intros Hs Hall. revert d. induction Hall as [|r m raw ms [Hn Ho Ha Hw] _ IH]; intros d Hd; [by left|].
  assert (Hrest : let v := verdict d (List.filter (fun m => m_when m ctx) ms) in
            v = d \/
            (d = RateLimit 60 /\ v = Challenge JsChallenge /\
             exists x, In x (r :: raw) /\ raw_action x = ActChallenge /\ RuleEngine.eval_node (raw_condition x) yctx = true) \/
            (exists x, In x (r :: raw) /\ raw_action x = ActBlock /\ RuleEngine.eval_node (raw_condition x) yctx = true /\ v = Block (raw_id x))).
  { cbv zeta in *. destruct (IH d Hd) as [Hv|[(He & Hv & x & Hx & Hr)|(x & Hx & Hr)]]; [by left|right; left|right; right].
    - split; [done|]. split; [done|]. exists x. split; [by right|done].
    - exists x. split; [by right|done]. }
  cbn [List.filter]. rewrite (Hw ctx yctx Hs). destruct (RuleEngine.eval_node _ yctx) eqn:Hc; [|exact Hrest].
  cbn [verdict]. rewrite Ha, Hn. destruct (raw_action r) eqn:Hr; cbn.
  - by left.
  - right. right. exists r. split; [by left|]. done.
  - destruct (IH (Challenge JsChallenge) (or_introl eq_refl)) as [Hv|[(He & _)|(x & Hx & Hxr)]]; [|done|].
    + rewrite Hv. destruct Hd as [->| ->]; [by left|]. right. left. split; [done|]. split; [done|]. exists r. split; [by left|done].
    + right. right. exists x. split; [by right|done].
  - destruct Hd as [->| ->]; exact Hrest.
  - exact Hrest.
Qed.

Lemma evaluate_decided ctx yctx raw ms :
  same_request ctx yctx -> Forall2 stands_alike raw ms -> Forall in_force raw ->
  StronglySorted (fun r r' => raw_priority r < raw_priority r') raw ->
  decided raw yctx (RuleEngine.evaluate (map build_rule raw) yctx [])
    (verdict Allow (List.filter (fun m => m_when m ctx) ms)).
Proof.
  intros Hs Hall. induction Hall as [|r m raw ms [Hn Ho Ha Hw] Hall IH]; intros Hf Hsort; [done|].
  inversion Hf as [|? ? Hr Hraw]. subst. apply StronglySorted_inv in Hsort as [Hsort Hfirst]. specialize (IH Hraw Hsort).
  apply (decided_incl raw (r :: raw)) in IH; [|by intros x; right]. rewrite List.Forall_forall in Hfirst.
  assert (Hlater : forall x, In x raw -> RuleEngine.eval_node (raw_condition x) yctx = true ->
            later (r :: raw) yctx (raw_id r) (raw_action x) x).
  { intros x Hx Hh. split; [by right|]. split; [done|]. split; [done|]. exists r. split; [by left|]. split; [done|]. by apply Hfirst. }
  cbn [map List.filter]. rewrite evaluate_cons, decides_common, (Hw ctx yctx Hs) by done.
  destruct (RuleEngine.eval_node _ yctx) eqn:Hc; [|exact IH].
  cbn [verdict]. rewrite Ha, Hn. unfold decided at 1.
  destruct (raw_action r) eqn:Hact; (rewrite bool_decide_eq_false_2 by done) || (rewrite bool_decide_eq_true_2 by done);
    cbn; rewrite ?Hact; cbn; try done.
  - destruct (verdict_later ctx yctx raw ms (Challenge JsChallenge) Hs Hall (or_introl eq_refl))
      as [-> |[[? _]|(x & Hx & Hxa & Hxh & ->)]]; [by left|done|]. right. exists x. split; [|done]. rewrite <- Hxa. by apply Hlater.
  - destruct (verdict_later ctx yctx raw ms (RateLimit 60) Hs Hall (or_intror eq_refl))
      as [-> |[(_ & -> & x & Hx & Hxa & Hxh)|(x & Hx & Hxa & Hxh & ->)]]; [by left|right; left|right; right];
      exists x; (split; [|done]); rewrite <- Hxa; by apply Hlater.
Qed.

(** The number of rules that match a request. *)
Definition matched (raw : list (RuleRaw ConditionNode)) (yctx : RuleEngine.RequestContext) : nat :=
  length (List.filter (fun r => RuleEngine.eval_node (raw_condition r) yctx) raw).

Lemma matched_perm raw raw' yctx : raw ≡ₚ raw' -> matched raw yctx = matched raw' yctx.
Proof.
  unfold matched. induction 1 as [|r l l' _ IH|r r' l|l1 l2 l3 _ IH1 _ IH2]; cbn; [done| | |congruence].
  - destruct (RuleEngine.eval_node _ _); cbn; congruence.
  - by repeat destruct (RuleEngine.eval_node _ _).
Qed.
Lemma matched_meanings ctx yctx raw ms :
  same_request ctx yctx -> Forall2 stands_alike raw ms ->
  length (List.filter (fun m => m_when m ctx) ms) = matched raw yctx.
Proof.
  unfold matched. intros Hs. induction 1 as [|r m raw ms [_ _ _ Hw] _ IH]; [done|].
  cbn. rewrite (Hw ctx yctx Hs). destruct (RuleEngine.eval_node _ _); cbn; congruence.
Qed.

Lemma stands_in_order raw ms :
  Forall2 stands_alike raw ms -> Forall2 stands_alike (sort_by_key raw_priority raw) (sort_meanings ms).
Proof.
  apply sort_by_key_related. intros r m r' m' [_ Ho _ _] [_ Ho' _ _]. rewrite Ho, Ho'.
  destruct (Z.leb_spec (raw_priority r) (raw_priority r')); symmetry; [apply Z.leb_le|apply Z.leb_gt]; lia.
Qed.

(** Rules of distinct priorities are strictly sorted. *)
Lemma sorted_strictly raw :
  NoDup (map raw_priority raw) -> StronglySorted (fun r r' : RuleRaw ConditionNode => raw_priority r < raw_priority r') (sort_by_key raw_priority raw).
Proof.
  intros Hnd. pose proof (sort_by_key_sorted raw_priority raw) as Hs. rewrite <- (sort_by_key_perm raw_priority raw) in Hnd.
  induction Hs as [|r l Hs IH Hr]; constructor.
  - apply IH. by apply NoDup_cons in Hnd as [_ ?].
  - apply List.Forall_forall. intros x Hx. rewrite List.Forall_forall in Hr. specialize (Hr x Hx). unfold key_le in Hr.
    cbn in Hnd. apply NoDup_cons in Hnd as [Hn _]. assert (raw_priority r <> raw_priority x); [|lia].
    intros Heq. apply Hn. rewrite Heq. apply list_elem_of_In. by apply in_map.
Qed.

Lemma compiled_in_order `{UnstableSort} raw set :
  RuleEngine.compile raw = Ok set -> NoDup (map raw_priority raw) ->
  set = map build_rule (sort_by_key raw_priority raw).
Proof.
  intros (-> & _)%compile_ok Hnd. rewrite <-(sort_by_key_map raw_priority priority build_rule) by done.
  apply sort_by_key_unique; [apply sort_unstable_sorted|apply sort_unstable_perm|by rewrite List.map_map].
Qed.
End Decisions.

(** The two engines agree on a file of rules that both read alike, given the rules that
    the documents stand for. *)
Lemma rules_agree `{UnicodeTables, RegexLib, HashOrder, YamlLib, UnstableSort}
  reg `{!Builtins reg} pest_parse doc l raw set :
  (forall src, pest_parse src = grammar_parse src) ->
  y_sequence doc = Some l -> Forall2 common_rule l raw ->
  RuleEngine.compile raw = Ok set -> NoDup (map raw_priority raw) ->
  exists text rules, yaml_to_grl doc = Ok text /\ grl_parse pest_parse text = Ok rules /\
    forall eng ctx yctx, network eng = compile rules -> engine_registry eng = reg -> same_request ctx yctx ->
      (matched raw yctx <= MAX_CYCLES)%nat ->
      decided raw yctx (RuleEngine.evaluate set yctx []) (outcome_to_decision (fire eng ctx)).
Proof.
  intros Hpest Hl Hcommon Hset Hprio. unfold yaml_to_grl. rewrite Hl. cbn [ok_or mbind result_mbind].
  pose proof Hset as (_ & Hids & Hok)%compile_ok.
  destruct (rules_alike reg l raw Hcommon Hok) as (ms & Hms & Ha).
  destruct (rules_mean reg l ms Hms) as (texts & rules & -> & Ht & Hs). exists (file_text texts), rules.
  split; [done|]. split; [rewrite (grl_parse_ext _ grammar_parse) by done; by apply file_reads|].
  intros eng ctx yctx Hnet Hreg Hsame Hfew.
  destruct (standing_fires reg rules ms eng ctx Hs ltac:(by rewrite (stands_names raw ms Ha)) Hnet Hreg) as [-> _].
  pose proof (stands_in_order raw ms Ha) as Hsorted. pose proof (sort_by_key_perm raw_priority raw) as Hperm.
  rewrite take_ge by (unfold matching; by rewrite (matched_meanings ctx yctx _ _ Hsame Hsorted), (matched_perm _ _ _ Hperm)).
  rewrite (compiled_in_order raw set Hset Hprio).
  apply (decided_incl (sort_by_key raw_priority raw)); [intros x Hx; by apply In_sorted in Hx|].
  apply evaluate_decided; [done|done| |by apply sorted_strictly]. rewrite Hperm. by apply (rules_in_force l).
Qed.

(** * A shared rule file *)

Fixpoint cond_tree (c : ConditionNode) : ytree :=
  match c with
  | CAnd cs => YtMap [("and", YtSeq (map cond_tree cs))]
  | COr cs => YtMap [("or", YtSeq (map cond_tree cs))]
  | CLeaf x =>
    YtMap [("field", YtStr (field_name (field x))); ("match", YtStr (match_name (match_type x)));
           ("value", YtStr (value x)); ("case_sensitive", YtBool (case_sensitive x))]
  end.
Definition rule_tree (r : RuleRaw ConditionNode) : ytree :=
  YtMap [("id", YtStr (raw_id r)); ("priority", YtInt (raw_priority r)); ("action", YtStr (action_name (raw_action r)));
         ("risk_score_delta", YtInt (raw_risk_score_delta r)); ("condition", cond_tree (raw_condition r))].

Definition shared_leaf (f : Field) (m : MatchType) (v : string) : ConditionNode :=
  CLeaf (mkLeaf f m v None None true false).
Definition shared_rules : list (RuleRaw ConditionNode) :=
  [sample_raw "audit" 1 (shared_leaf FMethod MExact "POST") ActLog;
   sample_raw "slow-down" 30 (COr [shared_leaf FPath MRegex "/api/"; shared_leaf FIp MExact "10.0.0.1"]) ActRateLimit;
   sample_raw "no-admin" 20 (CAnd [shared_leaf FPath MRegex "/admin"; shared_leaf FPayload MRegex "drop"]) ActBlock].
Definition shared_set : RuleEngine.RuleSet := map build_rule (sort_by_key raw_priority shared_rules).

(** One request, twice. *)
Definition network_request (p body : string) : Ast.RequestContext :=
  mkContext "id" 0 "POST" p None Critical "1.2.3.4" None ∅ (Some body) None None (RiskScore_ZERO) None ∅.
Definition crate_request (p body : string) : RuleEngine.RequestContext :=
  mkRequestContext "1.2.3.4" p "POST" ∅ body ∅ Critical "" "" None.

Lemma shared_common : Forall2 (@common_rule tree_yaml) (map rule_tree shared_rules) shared_rules.
Proof.
  repeat (constructor; [split; [split; [done..|]|done|done|done|done|done|done]|]); [..|constructor];
    (eexists; split; [reflexivity|]); cbn; repeat eexists.
Qed.
