(* ===== verification/Documents.v ===== *)
(** Documents of rules: what [crates/rule] reads from a plain document is what the
    converter of the network engine reads from it, so that the engines agree on the
    rules of one document. *)
From S2P Require Import Prelude Utf8 RustStd Net Extern Float64 WafTypes RuleTypes RuleEngine Ast Functions Printer WorkingMemory Rete Engine EngineSpec GrlParser Pest Converter GrlText ConvSpec ConvEngine Agree Serde Schema TreeModel.
Local Open Scope Z_scope.

(** * The two views of a document *)

(** [serde_yaml::Value]: what a reader is offered, and what the accessors of the value
    give. *)
Class DocumentViews `{YamlLib, DataModel yaml} := {
  view_str : forall v s, dm_str v = Some s -> y_str v = Some s;
  view_enum : forall v s, dm_str v = Some s -> dm_enum v = Some (s, None);
  view_u64 : forall v z, dm_int v = Some z -> 0 <= z -> y_u64 v = Some z;
  view_i64 : forall v z, dm_int v = Some z -> -2 ^ 63 <= z < 2 ^ 63 -> y_i64 v = Some z;
  view_map : forall v m, dm_map v = Some m ->
    exists mp, y_mapping v = Some mp /\ forall k, map_get k mp = assoc k m;
  view_get : forall k v, y_get k v = y_mapping v ≫= map_get k
}.

(** The contents of a value are its text, its members or its entries. *)
Class ContentViews (C : Type) `{YamlLib, Format yaml C} := {
  content_str : forall v c s, buffered v = Some c -> dm_str c = Some s -> y_str v = Some s;
  content_map : forall v c m, buffered v = Some c -> dm_map c = Some m ->
    exists mp, y_mapping v = Some mp /\ forall k,
      match assoc k m with
      | Some x => exists y, map_get k mp = Some y /\ buffered y = Some x
      | None => map_get k mp = None
      end;
  content_seq : forall v c, buffered v = Some c ->
    match dm_seq c with
    | Some l => exists l', y_sequence v = Some l' /\ Forall2 (fun y x => buffered y = Some x) l' l
    | None => y_sequence v = None
    end
}.

(** * Plain documents *)

Section Plain.
Context {C : Type} `{YamlLib, Format yaml C}.

(** An entry that is a text. *)
Definition text_entry {T} `{DataModel T} (k : string) (m : list (string * T)) : option string := assoc k m ≫= dm_str.

(** A condition written with maps, the variants alone in theirs, its fields without the
    aliases that only [serde] knows, and its leaves without the members that the
    converter ignores. *)
Inductive plain_condition : C -> Prop :=
| plain_branch c k x l :
    dm_map c = Some [(k, x)] -> k = "and" \/ k = "or" -> dm_seq x = Some l ->
    List.Forall plain_condition l -> plain_condition c
| plain_leaf c m f t :
    dm_map c = Some m -> assoc "and" m = None -> assoc "or" m = None ->
    (forall k, In k ignored_members -> assoc k m = None) ->
    text_entry "field" m = Some f -> f <> "uri" -> f <> "body" -> text_entry "match" m = Some t ->
    plain_condition c.

(** A rule written as a map, with its action as a text. *)
Record plain_rule (v : yaml) : Prop := {
  plain_map : exists m cv c a, dm_map v = Some m /\ assoc "condition" m = Some cv /\ buffered cv = Some c /\
    plain_condition c /\ text_entry "action" m = Some a
}.
End Plain.

(** * Reading *)

Lemma assoc_In {A} k (l : list (string * A)) a : assoc k l = Some a -> In (k, a) l.
Proof.
  unfold assoc. destruct (List.find _ l) as [[k' x]|] eqn:Hf; [|done]. intros [= <-].
  apply List.find_some in Hf as [Hin Hk]. cbn in Hk. apply String.eqb_eq in Hk as <-. done.
Qed.

(** The names of a table, one by one. *)
Ltac name_cases H :=
  cbn in H; repeat (destruct H as [H|H]; [by inversion H; subst|]); by destruct H.

Section Variants.
Context {T : Type} `{DataModel T}.

Lemma unit_variant_text {A} (names : list (string * A)) v s a :
  dm_enum v = Some (s, None) -> unit_variant names v = Some a -> In (s, a) names.
Proof. unfold unit_variant. intros ->. cbn. apply assoc_In. Qed.

Lemma read_action_text v s a : dm_enum v = Some (s, None) -> read_action v = Some a -> s = action_name a.
Proof. intros Hs Ha. apply (unit_variant_text _ _ s) in Ha; [|done]. name_cases Ha. Qed.
Lemma read_match_text v s a : dm_enum v = Some (s, None) -> read_match_type v = Some a -> s = match_name a.
Proof. intros Hs Ha. apply (unit_variant_text _ _ s) in Ha; [|done]. name_cases Ha. Qed.
Lemma read_field_text v s a :
  dm_enum v = Some (s, None) -> s <> "uri" -> s <> "body" -> read_field v = Some a -> s = field_name a.
Proof. intros Hs Hu Hb Ha. apply (unit_variant_text _ _ s) in Ha; [|done]. name_cases Ha. Qed.
End Variants.

Section Read.
Context {C : Type} `{YamlLib, Format yaml C, !ContentLaws C, !DocumentViews, !ContentViews C}.

Lemma content_enum_text (c : C) s : dm_str c = Some s -> dm_enum c = Some (s, None).
Proof. intros Hs. by rewrite content_enum, Hs. Qed.

(** A leaf. *)
Lemma read_leaf_doc v c m f t x :
  buffered v = Some c -> dm_map c = Some m -> assoc "and" m = None -> assoc "or" m = None ->
  (forall k, In k ignored_members -> assoc k m = None) ->
  text_entry "field" m = Some f -> f <> "uri" -> f <> "body" -> text_entry "match" m = Some t ->
  read_leaf c = Some x -> cond_doc (CLeaf x) v.
Proof using Type*.
  intros Hv Hm Hand Hor Hig Hf Hu Hb Ht Hr.
  destruct (content_map v c m Hv Hm) as (mp & Hmp & Hget).
  exists mp. split; [done|].
  assert (Htext : forall k s, text_entry k m = Some s -> str_field k mp = Some s).
  { intros k s. unfold text_entry, str_field. specialize (Hget k). destruct (assoc k m) as [w|]; [|done].
    destruct Hget as (y & -> & Hy). cbn. by apply content_str. }
  pose proof (Hget "and") as Ha. pose proof (Hget "or") as Ho. rewrite Hand in Ha. rewrite Hor in Ho.
  rewrite Ha, Ho. split; [done|]. split; [done|]. split.
  { unfold ignores. apply not_true_iff_false. intros (k & Hk & He)%List.existsb_exists.
    specialize (Hget k). rewrite Hig in Hget by done. rewrite Hget in He. by apply bool_decide_eq_true, is_Some_None in He. }
  unfold read_leaf, parts_of in Hr. rewrite Hm in Hr. cbn [mbind option_bind] in Hr. read_fields Hr.
  injection Hr as <-. cbn [field match_type value].
  destruct (struct_required _ _ _ 0 _ _ E ltac:(cbn; lia) E0) as (fv & Hfv & Hfield).
  destruct (struct_required _ _ _ 1 _ _ E ltac:(cbn; lia) E1) as (tv & Htv & Hmatch).
  destruct (struct_required _ _ _ 2 _ _ E ltac:(cbn; lia) E2) as (vv & Hvv & Hvalue). cbn [nth] in *.
  assert (Hfs : dm_str fv = Some f) by (unfold text_entry in Hf; by rewrite Hfv in Hf).
  assert (Hts : dm_str tv = Some t) by (unfold text_entry in Ht; by rewrite Htv in Ht).
  apply (read_field_text _ f) in Hfield; [|by apply content_enum_text|done..].
  apply (read_match_text _ t) in Hmatch; [|by apply content_enum_text].
  rewrite <-Hfield, <-Hmatch. split; [by apply Htext|]. split; [by apply Htext|].
  unfold str_or_empty. by erewrite Htext by (unfold text_entry; rewrite Hvv; exact Hvalue).
Qed.

Lemma cond_docs_of cs l : Forall2 cond_doc cs l -> cond_docs cs l.
Proof. by induction 1. Qed.

(** What the reader does with a plain branch and with a plain leaf. *)
Lemma branch_read (c x : C) k cl :
  dm_map c = Some [(k, x)] -> k = "and" \/ k = "or" -> dm_seq x = Some cl ->
  read_node read_leaf c = (if String.eqb k "and" then CAnd else COr) <$> mapM (read_node read_leaf) cl.
Proof using Type*.
  intros Hm Hk Hl. rewrite read_node_unfold. unfold read_branch.
  rewrite content_enum, (content_map_str _ _ Hm), Hm. cbn [mbind option_bind]. unfold seq_of. rewrite Hl.
  cbn [mbind option_bind].
  assert (Hleaf : Schema.read_leaf c = None).
  { unfold read_leaf, parts_of. rewrite Hm. cbn [mbind option_bind].
    destruct (struct_fields _ (Named [(k, x)])) as [s|] eqn:Hs; [|done]. cbn [mbind option_bind].
    destruct (required read_field s 0) eqn:Hr; [|done].
    destruct (struct_required _ _ _ 0 _ _ Hs ltac:(cbn; lia) Hr) as (w & Hw & _).
    by destruct Hk as [-> | ->]. }
  rewrite Hleaf. destruct (mapM _ cl); destruct Hk as [-> | ->]; done.
Qed.

Lemma leaf_read (c : C) m :
  dm_map c = Some m -> assoc "and" m = None -> assoc "or" m = None ->
  read_node read_leaf c = CLeaf <$> read_leaf c.
Proof using Type*.
  intros Hm Ha Ho. rewrite read_node_unfold. unfold read_branch.
  rewrite content_enum, (content_map_str _ _ Hm), Hm.
  destruct m as [|[k x] [|]]; [done| |done]. cbn [mbind option_bind].
  unfold assoc in Ha, Ho. cbn in Ha, Ho. by destruct (String.eqb k "and"), (String.eqb k "or").
Qed.

Lemma branch_value v (c x : C) k cl :
  buffered v = Some c -> dm_map c = Some [(k, x)] -> dm_seq x = Some cl ->
  exists mp l, y_mapping v = Some mp /\ map_get k mp ≫= y_sequence = Some l /\
    Forall2 (fun y x => buffered y = Some x) l cl /\ forall k', k' <> k -> map_get k' mp = None.
Proof using Type*.
  intros Hv Hm Hl. destruct (content_map v c _ Hv Hm) as (mp & Hmp & Hget).
  pose proof (Hget k) as Hk. unfold assoc in Hk. cbn in Hk. rewrite String.eqb_refl in Hk.
  destruct Hk as (y & Hy & Hb). cbn in Hb.
  pose proof (content_seq _ _ Hb) as Hs. rewrite Hl in Hs.
  destruct Hs as (l & Hls & Hall). exists mp, l. split; [done|]. rewrite Hy. split; [done|]. split; [done|].
  intros k' Hne. specialize (Hget k'). unfold assoc in Hget. cbn in Hget.
  by destruct (String.eqb_spec k k'); [congruence|].
Qed.

Lemma members_doc cs cl l :
  List.Forall (fun node => forall v c, buffered v = Some c -> plain_condition c ->
    read_node read_leaf c = Some node -> cond_doc node v) cs ->
  List.Forall plain_condition cl -> Forall2 (fun y x => buffered y = Some x) l cl ->
  mapM (read_node read_leaf) cl = Some cs -> cond_docs cs l.
Proof using Type*.
  intros Hcs Hplain Hbuf Hm%mapM_Some_1. apply cond_docs_of.
  revert l cs Hcs Hbuf Hm. induction Hplain as [|c cl Hc _ IH]; intros l cs Hcs Hbuf Hm.
  - inversion Hm; subst. inversion Hbuf; subst. constructor.
  - inversion Hm; subst. inversion Hbuf; subst. inversion Hcs; subst. constructor; eauto.
Qed.

(** A condition that is read is the condition that the converter finds. *)
Lemma read_node_doc node v c :
  buffered v = Some c -> plain_condition c -> read_node read_leaf c = Some node -> cond_doc node v.
Proof using Type*.
  revert v c. induction node as [cs IH|cs IH|x] using Cond_ind'; intros v c Hv Hplain Hr.
  all: destruct Hplain as [c k y cl Hm Hk Hl Hall|c m f t Hm Hand Hor Hig Hf Hu Hb Ht].
  all: try (rewrite (leaf_read c m) in Hr by done; destruct (read_leaf c) eqn:Hleaf; [|done]).
  all: try (rewrite (branch_read c y k cl) in Hr by done; destruct (mapM _ cl) as [cs'|] eqn:Hcs; [|done];
            destruct (branch_value v c y k cl Hv Hm Hl) as (mp & l & Hmp & Hget & Hbuf & Hother)).
  all: try (by destruct Hk as [-> | ->]); try done.
  - destruct Hk as [-> | ->]; [|done]. injection Hr as <-. exists mp. split; [done|]. exists l.
    split; [done|]. by apply (members_doc _ cl).
  - destruct Hk as [-> | ->]; [done|]. injection Hr as <-. exists mp. split; [done|].
    split; [by rewrite Hother|]. exists l. split; [done|]. by apply (members_doc _ cl).
  - injection Hr as ->. by apply (read_leaf_doc v c m f t).
Qed.

(** A rule that is read from a plain document is the rule that the converter finds. *)
Lemma read_raw_doc v r : plain_rule v -> read_raw v = Some r -> rule_doc v r.
Proof using Type*.
  intros [(m & cv & c & a & Hm & Hcv & Hc & Hplain & Ha)] Hr.
  destruct (view_map v m Hm) as (mp & Hmp & Hget).
  assert (Hy : forall k, y_get k v = assoc k m) by (intros k; by rewrite view_get, Hmp; cbn).
  pose proof (read_rule_range _ _ _ _ Hr) as [Hprio _ _ _ _].
  unfold read_raw, read_rule_raw, parts_of in Hr. rewrite Hm in Hr. cbn [mbind option_bind] in Hr. read_fields Hr.
  injection Hr as <-. cbn [raw_priority] in Hprio.
  destruct (struct_required _ _ _ 0 _ _ E ltac:(cbn; lia) E0) as (iv & Hiv & Hid).
  destruct (struct_required _ _ _ 3 _ _ E ltac:(cbn; lia) E3) as (pv & Hpv & Hp).
  destruct (struct_required _ _ _ 4 _ _ E ltac:(cbn; lia) E4) as (cv' & Hcv' & Hcond).
  destruct (struct_required _ _ _ 5 _ _ E ltac:(cbn; lia) E5) as (av & Hav & Hact). cbn [nth] in *.
  destruct (struct_fields_named _ _ _ 6 E ltac:(cbn; lia)) as [_ Hdelta]. apply field_value_assoc in Hdelta. cbn [nth] in Hdelta.
  split; cbn [raw_id raw_priority raw_action raw_risk_score_delta raw_condition]; rewrite Hy.
  - rewrite Hiv. by apply view_str.
  - rewrite Hpv. apply int_in_range in Hp as [Hp _]. apply view_u64; [done|lia].
  - rewrite Hav. cbn. unfold text_entry in Ha. rewrite Hav in Ha. cbn in Ha. rewrite (view_str _ _ Ha).
    f_equal. exact (read_action_text av a _ (view_enum _ _ Ha) Hact).
  - rewrite Hdelta. unfold defaulted in E6. destruct (value_at _ 6) as [dv|]; [|by injection E6 as <-].
    apply int_in_range in E6 as [Hi Hrange]. cbn. by rewrite (view_i64 dv _ Hi ltac:(lia)).
  - rewrite Hcv in Hcv'. injection Hcv' as <-. exists cv. split; [done|].
    unfold read_condition, read_buffered in Hcond. rewrite Hc in Hcond. cbn in Hcond. by apply (read_node_doc _ cv c).
Qed.

(** A rule of the fragment that both engines read alike. *)
Record shared_rule (v : yaml) (r : RuleRaw ConditionNode) : Prop := {
  shared_plain : plain_rule v;
  shared_read : read_raw v = Some r;
  shared_condition : common_cond (raw_condition r) = true;
  shared_enabled : raw_enabled r = true;
  shared_everywhere : raw_tier r = None /\ y_get "scope" v = None;
  shared_routing : y_get "upstream_backend" v ≫= y_str = None;
  shared_id : plain_string (raw_id r) = true;
  shared_priority : raw_priority r < 2 ^ 31
}.

Lemma shared_is_common v r : shared_rule v r -> common_rule v r.
Proof using Type*.
  intros [Hp Hr ? ? ? ? ? ?]. pose proof (read_rule_range _ _ _ _ Hr) as [? _ _ _ _].
  split; try done; [by apply read_raw_doc|lia].
Qed.
End Read.


(** * The shared rule file, read *)

Lemma tree_views : @DocumentViews tree_yaml tree_document.
Proof.
  split.
  - by intros [].
  - intros [] s'; try done. by intros [= ->].
  - intros [] z'; try done. intros [= ->] Hz. cbn. by rewrite (proj2 (Z.leb_le 0 z') Hz).
  - by intros [].
  - intros [| | | | |m] m'; try done. intros [= ->]. by exists m'.
  - done.
Qed.
Lemma tree_content_views : @ContentViews ytree tree_yaml tree_document tree_content tree_format.
Proof.
  split.
  - intros v c s [= <-]. by destruct v.
  - intros v c m [= <-]. destruct v as [| | | | |m']; try done. intros [= ->]. exists m. split; [done|]. intros k.
    cbn. unfold ytree_get, assoc. destruct (List.find _ m) as [[k' x]|]; cbn; eauto.
  - intros v c [= <-]. destruct v as [| | | |l|]; try done. cbn. exists l. split; [done|]. by induction l; constructor.
Qed.

Lemma plain_cond_tree c : @plain_condition ytree tree_content (cond_tree c).
Proof.
  assert (Hplain : forall l, List.Forall (fun c => @plain_condition ytree tree_content (cond_tree c)) l ->
            List.Forall (@plain_condition ytree tree_content) (map cond_tree l)) by (induction 1; by constructor).
  induction c as [l IH|l IH|x] using Cond_ind'; cbn [cond_tree].
  - eapply plain_branch; [done|by left|done|auto].
  - eapply plain_branch; [done|by right|done|auto].
  - eapply plain_leaf; try done; [|by destruct (field x)..].
    intros k Hk. unfold ignored_members in Hk. cbn [In] in Hk. by destruct Hk as [<-|[<-|[<-|[]]]].
Qed.

Lemma shared_documents :
  Forall2 (@shared_rule ytree tree_yaml tree_document tree_content tree_format) (map rule_tree shared_rules) shared_rules.
Proof.
  repeat (constructor; [split;
    [split; do 4 eexists; (split; [reflexivity|]); (split; [reflexivity|]); (split; [reflexivity|]);
       split; [apply plain_cond_tree|reflexivity]
    |vm_compute; reflexivity|reflexivity|reflexivity|by split|reflexivity|reflexivity|cbn; lia]|]).
  constructor.
Qed.

