(* ===== verification/Loader.v ===== *)
(** Loading rule files ([rules/loader.rs]): the YAML rules of the routing path and
    the GRL rules of the engine, from a directory of the file system. *)
From S2P Require Import Prelude Utf8 RustStd Net Extern Float64 WafTypes Ast Functions WorkingMemory CrsTypes CrsTx CrsTransform CrsTarget CrsOperator CrsParser CrsEval.
From S2P Require Import GrlParser Converter Matcher.
Local Open Scope Z_scope.

Inductive RulesError : Type :=
| CannotReadDir | BadEntry | CannotRead (path : string) | InvalidRules (path : string).

Section Loader.
Context `{UnicodeTables, YamlLib}.
(** [serde_yaml::from_str] at the types [Vec<Rule>] and [Value]. *)
Variable yaml_rules : string -> option (list Rule).
Variable yaml_value : string -> option yaml.
Variable pest_parse : string -> option (list Pair).
Variable fs : FileSystem.

(** * YAML rules *)

Definition load_from_file (path : string) : result RulesError (list Rule) :=
  text ← ok_or (fs_read fs path) (CannotRead path);
  ok_or (yaml_rules text) (InvalidRules path).

Fixpoint load_yaml_entries (entries : list (option string)) (rules : list Rule)
  : result RulesError (list Rule) :=
  match entries with
  | [] => Ok rules
  | entry :: entries =>
    path ← ok_or entry BadEntry;
    if bool_decide (path_extension path = Some "yaml") then
      match load_from_file path with
      | Ok r => load_yaml_entries entries (rules ++ r)
      | Err _ => load_yaml_entries entries rules
      end
    else load_yaml_entries entries rules
  end.

Definition load_from_dir (dir : string) : result RulesError (list Rule) :=
  entries ← ok_or (fs_read_dir fs dir) CannotReadDir;
  rules ← load_yaml_entries entries [];
  Ok (sort_by_key wr_priority rules).

(** * GRL rules *)

(** The GRL text of a file, converted when it is YAML; [None] when the file is
    skipped. *)
Definition grl_source (ext txt : string) : option string :=
  if String.eqb ext "grl" then Some txt
  else if String.eqb ext "yaml" || String.eqb ext "yml" then
    doc ← yaml_value txt;
    match yaml_to_grl doc with Ok s => Some s | Err _ => None end
  else None.

Fixpoint load_grl_entries (entries : list (option string)) (rules : list RuleAst)
  : result RulesError (list RuleAst) :=
  match entries with
  | [] => Ok rules
  | entry :: entries =>
    path ← ok_or entry BadEntry;
    if negb (fs_is_file fs path) then load_grl_entries entries rules
    else
      let ext := default "" (path_extension path) in
      match fs_read fs path with
      | None => load_grl_entries entries rules
      | Some txt =>
        match grl_source ext txt with
        | None => load_grl_entries entries rules
        | Some src =>
          match grl_parse pest_parse src with
          | Ok r => load_grl_entries entries (rules ++ r)
          | Err _ => load_grl_entries entries rules
          end
        end
      end
  end.

Definition load_grl_from_dir (dir : string) : result RulesError (list RuleAst) :=
  if negb (fs_exists fs dir) then Ok []
  else
    entries ← ok_or (fs_read_dir fs dir) CannotReadDir;
    load_grl_entries entries [].

(** * What is loaded *)

(** The rules one file contributes; none when any step on it fails. *)
Definition yaml_file_rules (path : string) : list Rule :=
  if bool_decide (path_extension path = Some "yaml") then
    match load_from_file path with Ok r => r | Err _ => [] end
  else [].

Definition grl_file_rules (path : string) : list RuleAst :=
  if fs_is_file fs path then
    default [] (txt ← fs_read fs path;
                src ← grl_source (default "" (path_extension path)) txt;
                match grl_parse pest_parse src with Ok r => Some r | Err _ => None end)
  else [].

Lemma load_yaml_entries_spec entries rules :
  load_yaml_entries entries rules =
  (paths ← collect_result (fun e => ok_or e BadEntry) entries; Ok (rules ++ flat_map yaml_file_rules paths)).
Proof.
  revert rules. induction entries as [|[path|] entries IH]; intros rules; [by cbn; rewrite app_nil_r| |done].
  assert (Hstep : load_yaml_entries (Some path :: entries) rules = load_yaml_entries entries (rules ++ yaml_file_rules path)).
  { cbn. unfold yaml_file_rules. destruct (bool_decide (path_extension path = Some "yaml")); [destruct (load_from_file path)|];
      by rewrite ?app_nil_r. }
  rewrite Hstep, IH. cbn. destruct (collect_result _ entries); cbn; by rewrite ?app_assoc.
Qed.

Lemma load_grl_entries_spec entries rules :
  load_grl_entries entries rules =
  (paths ← collect_result (fun e => ok_or e BadEntry) entries; Ok (rules ++ flat_map grl_file_rules paths)).
Proof.
  revert rules. induction entries as [|[path|] entries IH]; intros rules; [by cbn; rewrite app_nil_r| |done].
  assert (Hstep : load_grl_entries (Some path :: entries) rules = load_grl_entries entries (rules ++ grl_file_rules path)).
  { cbn. unfold grl_file_rules. destruct (fs_is_file fs path); cbn; [|by rewrite app_nil_r].
    destruct (fs_read fs path) as [txt|]; cbn; [|by rewrite app_nil_r].
    destruct (grl_source _ txt) as [src|]; cbn; [|by rewrite app_nil_r].
    destruct (grl_parse pest_parse src); cbn; by rewrite ?app_nil_r. }
  rewrite Hstep, IH. cbn. destruct (collect_result _ entries); cbn; by rewrite ?app_assoc.
Qed.
End Loader.

Lemma listed_entries (paths : list string) :
  collect_result (fun e => ok_or e BadEntry) (map Some paths) = Ok paths.
Proof. induction paths as [|p paths IH]; [done|]. cbn. by rewrite IH. Qed.

(** The directory is loaded whatever single files hold: when its entries can be
    listed, the engine gets the rules of each readable, parsable file in directory
    order, and a file that cannot be read, converted or parsed adds nothing. *)
Theorem load_grl_skips_bad_files `{UnicodeTables, YamlLib} yv pest fs dir paths :
  fs_exists fs dir = true -> fs_read_dir fs dir = Some (map Some paths) ->
  load_grl_from_dir yv pest fs dir = Ok (flat_map (grl_file_rules yv pest fs) paths) /\
  (forall p, fs_read fs p = None \/
             (exists txt, fs_read fs p = Some txt /\ grl_source yv (default "" (path_extension p)) txt = None) \/
             (exists txt src e, fs_read fs p = Some txt /\ grl_source yv (default "" (path_extension p)) txt = Some src /\
                grl_parse pest src = Err e) ->
   grl_file_rules yv pest fs p = []).
Proof.
  intros Hex Hdir. split.
  - unfold load_grl_from_dir. rewrite Hex, Hdir. cbn. rewrite load_grl_entries_spec.
    by rewrite listed_entries.
  - intros p Hp. unfold grl_file_rules. destruct (fs_is_file fs p); [|done].
    destruct Hp as [->|[(txt & -> & Hs)|(txt & src & e & -> & Hs & He)]]; cbn; rewrite ?Hs; cbn; [done..|].
    by rewrite He.
Qed.

(** The routing rules come sorted by priority, rules of one priority in the
    order of the files, and are exactly the rules of the YAML files that parse. *)
Theorem load_from_dir_sorted yr fs dir paths :
  fs_read_dir fs dir = Some (map Some paths) ->
  exists rules, load_from_dir yr fs dir = Ok rules /\
    StronglySorted (fun a b => wr_priority a <= wr_priority b) rules /\
    rules ≡ₚ flat_map (yaml_file_rules yr fs) paths /\
    forall k, filter (fun r => wr_priority r = k) rules =
              filter (fun r => wr_priority r = k) (flat_map (yaml_file_rules yr fs) paths).
Proof.
  intros Hdir. unfold load_from_dir. rewrite Hdir. cbn. rewrite load_yaml_entries_spec.
  rewrite listed_entries. cbn. eexists. split; [done|].
  split; [apply (sort_by_key_sorted wr_priority)|]. split; [apply sort_by_key_perm|].
  intros k. apply sort_by_key_stable.
Qed.

(** * A sample directory *)

Definition sample_fs : FileSystem := {|
  fs_exists d := String.eqb d "rules";
  fs_is_file _ := true;
  fs_read_dir d := if String.eqb d "rules"
                   then Some [Some "rules/z.yaml"; Some "rules/a.yaml"; Some "rules/bad.grl"] else None;
  fs_read p := if String.eqb p "rules/bad.grl" then Some "not grl" else Some p
|}.
Definition sample_rule (id : string) (priority : Z) : Rule :=
  mkWafRule id priority ScopeGlobal (PathWildcard "/api/*") RaAllow 0 (Some "go").
Definition sample_yaml_rules (text : string) : option (list Rule) :=
  if String.eqb text "rules/z.yaml" then Some [sample_rule "z1" 60; sample_rule "z2" 10]
  else if String.eqb text "rules/a.yaml" then Some [sample_rule "a1" 10] else None.

Lemma load_from_dir_sorted_witness :
  load_from_dir sample_yaml_rules sample_fs "rules" = Ok [sample_rule "z2" 10; sample_rule "a1" 10; sample_rule "z1" 60].
Proof.
  destruct (load_from_dir_sorted sample_yaml_rules sample_fs "rules"
              ["rules/z.yaml"; "rules/a.yaml"; "rules/bad.grl"] eq_refl) as (rules & Hr & _).
  assert (He : Ok (E := RulesError) rules = Ok [sample_rule "z2" 10; sample_rule "a1" 10; sample_rule "z1" 60]).
  { rewrite <-Hr. reflexivity. }
  rewrite Hr. exact He.
Defined.

Lemma load_grl_skips_bad_files_witness :
  @load_grl_from_dir plain_unicode tree_yaml (fun _ => None) (fun _ => None) sample_fs "rules" = Ok [] /\
  @grl_file_rules plain_unicode tree_yaml (fun _ => None) (fun _ => None) sample_fs "rules/bad.grl" = [].
Proof.
  destruct (@load_grl_skips_bad_files plain_unicode tree_yaml (fun _ => None) (fun _ => None) sample_fs "rules"
              ["rules/z.yaml"; "rules/a.yaml"; "rules/bad.grl"] eq_refl eq_refl) as [H1 H2].
  split; [exact H1|]. apply H2. right. right. exists "not grl", "not grl", GrlSyntax. repeat split.
Defined.
