(* ===== verification/WafSchema.v ===== *)
(** The schema of the routing rules ([rules/rule.rs]): a condition is an internally
    tagged enum, whose variants with a single unnamed value are read from what is left
    of the map. *)
From S2P Require Import Prelude Utf8 RustStd Net Extern Float64 WafTypes Ast Matcher Serde Schema Converter TreeModel Loader.
Local Open Scope Z_scope.

Section Read.
Context {D C : Type} `{Format D C}.

(** [Tier] of [waf-types], [rename_all = "snake_case"] *)
Definition read_tier : D -> option Tier :=
  unit_variant [("critical", Critical); ("high", High); ("medium", Medium); ("catch_all", CatchAll)].

(** An externally tagged enum: a name alone, or a name with its value. *)
Definition read_scope (v : D) : option RuleScope :=
  '(k, payload) ← dm_enum v;
  if String.eqb k "global" then
    match payload with Some x => if dm_null x then Some ScopeGlobal else None | None => Some ScopeGlobal end
  else
    x ← payload;
    if String.eqb k "tier" then ScopeTier <$> read_tier x
    else if String.eqb k "route_pattern" then ScopeRoutePattern <$> dm_str x
    else if String.eqb k "ip" then ScopeIp <$> dm_str x
    else if String.eqb k "session" then ScopeSession <$> dm_str x
    else if String.eqb k "device_fingerprint" then ScopeDeviceFingerprint <$> dm_str x
    else None.

Definition read_rule_action : D -> option RuleAction :=
  unit_variant [("allow", RaAllow); ("block", RaBlock); ("challenge", RaChallenge);
                ("rate_limit", RaRateLimit); ("log", RaLog)].

(** * Conditions *)

(** Variants with named fields. *)
Definition one_text (name : string) (make : string -> Condition) (p : parts C) : option Condition :=
  s ← struct_fields [name] p; a ← required dm_str s 0; Some (make a).
Definition two_texts (name1 name2 : string) (make : string -> string -> Condition) (p : parts C) : option Condition :=
  s ← struct_fields [name1; name2] p; a ← required dm_str s 0; b ← required dm_str s 1; Some (make a b).
Definition without_data (c : Condition) (p : parts C) : option Condition := _ ← no_data p; Some c.

(** The variants without sub-conditions, by tag ([rename_all = "snake_case"]). *)
Definition simple_variants : list (string * (parts C -> option Condition)) :=
  [("ip_exact", one_text "value" IpExact);
   ("ip_in_blacklist", without_data IpInBlacklist);
   ("ip_in_whitelist", without_data IpInWhitelist);
   ("path_exact", one_text "value" PathExact);
   ("path_wildcard", one_text "pattern" PathWildcard);
   ("path_regex", one_text "pattern" PathRegex);
   ("header_exact", two_texts "name" "value" HeaderExact);
   ("header_regex", two_texts "name" "pattern" HeaderRegex);
   ("payload_regex", one_text "pattern" PayloadRegex);
   ("cookie_exact", two_texts "name" "value" CookieExact);
   ("rate_limit_exceeded", without_data RateLimitExceeded);
   ("sqli_pattern", without_data SqliPattern);
   ("xss_pattern", without_data XssPattern);
   ("path_traversal_pattern", without_data PathTraversalPattern);
   ("ssrf_pattern", without_data SsrfPattern);
   ("header_injection_pattern", without_data HeaderInjectionPattern)].

(** [And] and [Or] hold a list, so they are read only from positions; [Not] reads the
    rest as a condition. *)
Fixpoint read_parts (fuel : nat) (p : parts C) : option Condition :=
  match fuel with
  | O => None
  | S fuel =>
    let member x := parts_of x ≫= read_parts fuel in
    '(tag, rest) ← split_tag p;
    match assoc tag simple_variants with
    | Some read => read rest
    | None =>
      if String.eqb tag "and" then
        match rest with Positional l => CondAnd <$> mapM member l | Named _ => None end
      else if String.eqb tag "or" then
        match rest with Positional l => CondOr <$> mapM member l | Named _ => None end
      else if String.eqb tag "not" then CondNot <$> read_parts fuel rest
      else None
    end
  end.
Definition read_condition (v : D) : option Condition :=
  c ← buffered v; p ← parts_of c; read_parts (S (parts_size p)) p.

(** * Rules *)

Definition read_rule (v : D) : option Rule :=
  s ← parts_of v ≫= struct_fields ["id"; "priority"; "scope"; "condition"; "action"; "risk_score_delta"; "upstream_backend"];
  id ← required dm_str s 0;
  priority ← required u32 s 1;
  scope ← required read_scope s 2;
  condition ← required read_condition s 3;
  action ← required read_rule_action s 4;
  risk_score_delta ← required i32 s 5;
  upstream_backend ← optional_default dm_str s 6;
  Some (mkWafRule id priority scope condition action risk_score_delta upstream_backend).

(** [Vec<Rule>] *)
Definition read_rules : D -> option (list Rule) := seq_of read_rule.
End Read.

(** * Enough fuel *)

Section Fuel.
Context {C : Type} `{DataModel C}.

(** What is left for [Not] is smaller, or has no tag. *)
Lemma rest_smaller (p : parts C) tag r : split_tag p = Some (tag, r) -> (parts_size r < parts_size p)%nat.
Proof.
  destruct p as [m|[|t l]]; intros Hs; [|done|].
  2: { cbn [split_tag] in Hs. destruct (dm_str t); [|done]. injection Hs as <- <-.
       cbn [parts_size map list_sum foldr]. unfold list_sum. lia. }
  cbn [split_tag] in Hs. destruct (field_value m "type") as [[t|]|] eqn:Ht; [|done..].
  cbn in Hs. destruct (dm_str t); [|done]. injection Hs as <- <-. cbn [parts_size].
  apply field_value_assoc in Ht. clear -Ht. unfold assoc in Ht. induction m as [|[k x] m IH]; [done|]. cbn in *.
  destruct (String.eqb k "type") eqn:Hk; cbn.
  - assert (Hle : (list_sum (map (fun kv => S (dm_size (snd kv)))
             (List.filter (fun kv : string * C => negb (String.eqb (fst kv) "type")) m))
             <= list_sum (map (fun kv => S (dm_size (snd kv))) m))%nat); [|unfold list_sum in *; lia].
    clear. induction m as [|[k x] m IH]; cbn; [done|]. unfold list_sum in IH. destruct (negb _); cbn; lia.
  - specialize (IH Ht). unfold list_sum in *. cbn. lia.
Qed.

Lemma read_parts_enough fuel (p : parts C) :
  (parts_size p < fuel)%nat -> read_parts fuel p = read_parts (S (parts_size p)) p.
Proof.
  assert (Hgen : forall n m (p : parts C), (parts_size p < n)%nat -> (parts_size p < m)%nat -> read_parts n p = read_parts m p);
    [|intros; apply Hgen; lia].
  induction n as [|n IH]; intros [|m] q Hn Hm; [lia..|]. cbn [read_parts].
  destruct (split_tag q) as [[tag rest]|] eqn:Hs; [|done]. cbn [mbind option_bind]. apply rest_smaller in Hs as Hr.
  destruct (assoc tag simple_variants); [done|].
  assert (Hl : match rest with Positional l => mapM (fun x => parts_of x ≫= read_parts n) l
                             = mapM (fun x => parts_of x ≫= read_parts m) l | _ => True end).
  { destruct rest as [|l]; [done|]. apply mapM_ext_In. intros x Hx.
    destruct (parts_of x) as [px|] eqn:Hp; [|done]. cbn. apply parts_of_size in Hp.
    pose proof (list_sum_le (fun x => S (dm_size x)) x l Hx). cbn [parts_size] in Hr. cbn beta in *.
    apply IH; lia. }
  rewrite (IH m rest) by lia. destruct rest as [|l]; [done|]. rewrite Hl. done.
Qed.
End Fuel.

(** * Rules that are not read *)

Section Unreadable.
Context {D C : Type} `{Format D C, !TagFormat D}.

(** The tag of a condition that is written as a map. *)
Definition map_tag (cv : D) : option string :=
  c ← buffered cv; m ← dm_map c; t ← assoc "type" m; dm_str t.

(** A rule with a combinator written as a map, or a scope written as a map. *)
Definition unreadable (v : D) : Prop :=
  exists m, dm_map v = Some m /\
    ((exists cv tag, assoc "condition" m = Some cv /\ map_tag cv = Some tag /\ tag ∈ ["and"; "or"; "not"]) \/
     (exists sv sm, assoc "scope" m = Some sv /\ dm_map sv = Some sm)).

Lemma no_tag_left fuel (m : list (string * C)) :
  read_parts fuel (Named (List.filter (fun kv => negb (String.eqb (fst kv) "type")) m)) = None.
Proof.
  destruct fuel as [|fuel]; [done|]. cbn [read_parts split_tag].
  assert (Hn : field_value (List.filter (fun kv => negb (String.eqb (fst kv) "type")) m) "type" = Some None);
    [|by rewrite Hn].
  unfold field_value. induction m as [|[k x] m IH]; [done|]. cbn. by destruct (String.eqb k "type") eqn:Hk; cbn; rewrite ?Hk.
Qed.

Lemma map_combinator_unread cv tag :
  map_tag cv = Some tag -> tag ∈ ["and"; "or"; "not"] -> read_condition cv = None.
Proof.
  unfold map_tag, read_condition. destruct (buffered cv) as [c|]; [|done]. cbn.
  destruct (dm_map c) as [m|] eqn:Hm; [|done]. cbn. unfold parts_of. rewrite Hm. cbn [mbind option_bind].
  intros Ht Htag. cbn [read_parts].
  assert (Hs : match split_tag (Named m) with Some (tag', rest) => tag' = tag /\ forall fuel, read_parts fuel rest = None | None => True end).
  { cbn [split_tag]. destruct (field_value m "type") as [[t|]|] eqn:Hf; [|done..]. apply field_value_assoc in Hf.
    rewrite Hf in Ht. cbn in *. rewrite Ht. split; [done|]. intros fuel. apply no_tag_left. }
  destruct (split_tag (Named m)) as [[tag' rest]|] eqn:Hsp; [|done]. destruct Hs as [-> Hrest].
  assert (Hnamed : exists m', rest = Named m').
  { cbn [split_tag] in Hsp. destruct (mjoin _) as [t|]; [|done]. cbn in Hsp. destruct (dm_str t); [|done].
    injection Hsp as _ <-. eauto. }
  destruct Hnamed as [m' ->]. cbn [mbind option_bind].
  repeat (apply elem_of_cons in Htag as [->|Htag]; [cbn -[read_parts]; by rewrite ?Hrest|]).
  by apply elem_of_nil in Htag.
Qed.

Lemma unreadable_unread v : unreadable v -> read_rule v = None.
Proof using Type*.
  intros (m & Hm & Hbad). destruct (read_rule v) as [r|] eqn:Hr; [|done]. exfalso.
  unfold read_rule, parts_of in Hr. rewrite Hm in Hr. cbn [mbind option_bind] in Hr. read_fields Hr.
  destruct (struct_required _ _ _ 2 _ _ E ltac:(cbn; lia) E2) as (sv & Hsv & Hscope).
  destruct (struct_required _ _ _ 3 _ _ E ltac:(cbn; lia) E3) as (cv & Hcv & Hcond).
  cbn [nth] in *. destruct Hbad as [(cv' & tag & Hcv' & Htag & Hin)|(sv' & sm & Hsv' & Hsm)].
  - rewrite Hcv in Hcv'. injection Hcv' as <-. by rewrite (map_combinator_unread _ _ Htag Hin) in Hcond.
  - rewrite Hsv in Hsv'. injection Hsv' as <-. unfold read_scope in Hscope. by rewrite (map_not_enum _ _ Hsm) in Hscope.
Qed.

Lemma unreadable_file l d v : dm_seq d = Some l -> In v l -> unreadable v -> read_rules d = None.
Proof using Type*.
  intros Hl Hv Hbad. unfold read_rules, seq_of. rewrite Hl. cbn. apply (mapM_None_In _ _ v Hv).
  by apply unreadable_unread.
Qed.

(** C16: a routing rule whose scope is a map, or whose condition is [and], [or] or [not]
    written as a map, loses its file: no rule of the file is loaded, and the directory
    is loaded as if the file were not there. *)
Theorem map_rule_loses_the_file (parse : string -> option D) fs path text d l v :
  fs_read fs path = Some text -> parse text = Some d -> dm_seq d = Some l -> In v l -> unreadable v ->
  let yaml_rules text := parse text ≫= read_rules in
  load_from_file yaml_rules fs path = Err (InvalidRules path) /\
  forall dir paths, fs_read_dir fs dir = Some (map Some paths) ->
    load_from_dir yaml_rules fs dir =
    Ok (sort_by_key wr_priority (flat_map (yaml_file_rules yaml_rules fs) (List.filter (fun p => negb (String.eqb p path)) paths))).
Proof using Type*.
  intros Hread Hparse Hl Hv Hbad yaml_rules.
  assert (Hfile : load_from_file yaml_rules fs path = Err (InvalidRules path)).
  { unfold load_from_file, yaml_rules. rewrite Hread. cbn. rewrite Hparse. cbn. by rewrite (unreadable_file l d v). }
  split; [done|]. intros dir paths Hdir. unfold load_from_dir. rewrite Hdir. cbn.
  rewrite load_yaml_entries_spec, listed_entries. cbn. do 2 f_equal.
  clear Hdir. induction paths as [|p paths IH]; [done|]. cbn. rewrite IH.
  destruct (String.eqb_spec p path) as [->|]; cbn; [|done].
  unfold yaml_file_rules. rewrite Hfile. by case_bool_decide.
Qed.
End Unreadable.

(** ** The shipped rules *)

(** The first rule of [config/rules2/high.yaml], and one of [backends.yaml]. *)
Definition high_rate_limit : ytree :=
  YtMap [("id", YtStr "high-rate-limit-ip"); ("priority", YtInt 100);
         ("scope", YtMap [("type", YtStr "tier"); ("tier", YtStr "high")]);
         ("condition", YtMap [("type", YtStr "rate_limit_exceeded")]);
         ("action", YtStr "rate_limit"); ("risk_score_delta", YtInt 20)].
Definition route_login : ytree :=
  YtMap [("id", YtStr "route-login-java"); ("priority", YtInt 50); ("scope", YtStr "global");
         ("condition", YtMap [("type", YtStr "path_exact"); ("value", YtStr "/login")]);
         ("action", YtStr "allow"); ("upstream_backend", YtStr "java"); ("risk_score_delta", YtInt 0)].
Definition shipped_value (text : string) : option ytree :=
  if String.eqb text "high" then Some (YtSeq [route_login; high_rate_limit])
  else if String.eqb text "backends" then Some (YtSeq [route_login]) else None.
Definition shipped_fs : FileSystem :=
  mkFs (fun _ => true) (fun _ => true) (fun _ => Some (map Some ["high.yaml"; "backends.yaml"]))
    (fun p => if String.eqb p "high.yaml" then Some "high" else Some "backends").

Lemma tree_document_tags : @TagFormat ytree tree_document.
Proof. split. by intros []. Qed.

Lemma map_rule_loses_the_file_witness :
  load_from_dir (fun text => shipped_value text ≫= @read_rules ytree ytree tree_document tree_content tree_format)
    shipped_fs "config/rules2"
  = Ok [mkWafRule "route-login-java" 50 ScopeGlobal (PathExact "/login") RaAllow 0 (Some "java")].
Proof.
  assert (Hbad : @unreadable ytree ytree tree_document tree_content tree_format high_rate_limit).
  { eexists. split; [reflexivity|]. right. by eexists _, _. }
  destruct (@map_rule_loses_the_file ytree ytree tree_document tree_content tree_format tree_document_tags
    shipped_value shipped_fs "high.yaml" "high" (YtSeq [route_login; high_rate_limit])
    [route_login; high_rate_limit] high_rate_limit eq_refl eq_refl eq_refl ltac:(right; left; done) Hbad) as [_ Hdir].
  rewrite (Hdir "config/rules2" ["high.yaml"; "backends.yaml"] eq_refl). reflexivity.
Defined.
