(* ===== verification/Routing.v ===== *)
(** The condition of a routing rule is read three times: by the schema of the rule, for
    the direct evaluator and the proxy, and by the converter, for the network engine.
    Where the readings agree. *)
From S2P Require Import Prelude Utf8 RustStd Net Extern Float64 WafTypes Ast Functions Printer WorkingMemory Rete Engine EngineSpec Matcher GrlParser Pest Converter GrlText ConvSpec ConvEngine Serde Schema TreeModel Loader RuleTypes RuleEngine Agree Documents WafSchema.
Local Open Scope Z_scope.

Section Routing.
Context `{UnicodeTables, RegexLib, HashOrder}.

(** Header names are in lower case, as the request context keeps them. *)
Definition lowercase_headers (ctx : Ast.RequestContext) : Prop :=
  forall k, is_Some (Ast.headers ctx !! k) -> to_lowercase k = k.

(** The conditions on which the direct evaluator and the converted rule agree, for a
    request: the direct evaluator tests the path as it was sent, and finds no empty
    text in a header that is missing. *)
Definition alike_on (ctx : Ast.RequestContext) (c : Condition) : Prop :=
  match c with
  | IpExact _ | RateLimitExceeded => True
  | PathExact _ | PathRegex _ => url_decode (Ast.path ctx) = Ast.path ctx
  | HeaderExact _ v => v <> ""
  | HeaderRegex n _ => is_Some (Ast.headers ctx !! to_lowercase n)
  | _ => False
  end.

Lemma find_header_lookup ctx n :
  lowercase_headers ctx -> find_header ctx n = default "" (Ast.headers ctx !! to_lowercase n).
Proof.
  intros Hlow. unfold find_header. f_equal.
  assert (Hin : forall k v, In (k, v) (hash_iter (Ast.headers ctx)) <-> Ast.headers ctx !! k = Some v).
  { intros k v. rewrite <-list_elem_of_In, hash_iter_perm. apply elem_of_map_to_list. }
  destruct (List.find _ _) as [[k v]|] eqn:Hf; cbn.
  - apply List.find_some in Hf as [Hkv Hk]. apply Hin in Hkv. cbn in Hk. apply String.eqb_eq in Hk.
    rewrite <-Hk, Hlow by (by rewrite Hkv). by rewrite Hkv.
  - destruct (Ast.headers ctx !! to_lowercase n) as [v|] eqn:Hv; [|done].
    apply List.find_none with (x := (to_lowercase n, v)) in Hf; [|by apply Hin].
    cbn in Hf. rewrite (Hlow (to_lowercase n)), String.eqb_refl in Hf by (by rewrite Hv). done.
Qed.
End Routing.

(** * Reading a variant from a map *)

Section Read.
Context {C : Type} `{YamlLib, Format yaml C, !ContentLaws C, !ContentViews C}.

Lemma field_value_untagged (m : list (string * C)) k :
  k <> "type" ->
  field_value (List.filter (fun kv => negb (String.eqb (fst kv) "type")) m) k = field_value m k.
Proof.
  intros Hk. unfold field_value.
  assert (Hf : List.filter (fun kv => String.eqb (fst kv) k) (List.filter (fun kv => negb (String.eqb (fst kv) "type")) m)
               = List.filter (fun kv => String.eqb (fst kv) k) m); [|by rewrite Hf].
  induction m as [|[k' x] m IH]; [done|]. cbn [List.filter fst].
  destruct (String.eqb_spec k' "type") as [->|]; cbn [negb List.filter fst].
  - destruct (String.eqb_spec "type" k) as [E|]; [congruence|]. exact IH.
  - rewrite IH. done.
Qed.

(** The entry of a map that a required text of a variant is read from. *)
Lemma required_text (m : list (string * C)) names s i a :
  struct_fields names (Named (List.filter (fun kv => negb (String.eqb (fst kv) "type")) m)) = Some s ->
  (i < length names)%nat -> nth i names "" <> "type" -> required dm_str s i = Some a ->
  text_entry (nth i names "") m = Some a.
Proof.
  intros Hs Hi Hne Hr. destruct (struct_fields_named _ _ _ _ Hs Hi) as [_ Hf].
  rewrite field_value_untagged in Hf by done. apply field_value_assoc in Hf.
  unfold required in Hr. unfold text_entry. by rewrite Hf.
Qed.

(** A condition that was read from a map is a variant without sub-conditions. *)
Lemma read_condition_simple v c m cond :
  buffered v = Some c -> dm_map c = Some m -> read_condition v = Some cond ->
  exists tag read, text_entry "type" m = Some tag /\ In (tag, read) simple_variants /\
    read (Named (List.filter (fun kv => negb (String.eqb (fst kv) "type")) m)) = Some cond.
Proof.
  intros Hv Hm Hr. unfold read_condition, parts_of in Hr. rewrite Hv in Hr. cbn [mbind option_bind] in Hr. rewrite Hm in Hr.
  cbn [mbind option_bind read_parts split_tag] in Hr.
  destruct (field_value m "type") as [[t|]|] eqn:Ht; [|done..]. apply field_value_assoc in Ht.
  cbn [mjoin option_join mbind option_bind] in Hr. destruct (dm_str t) as [tag|] eqn:Htag; [|done].
  cbn [mbind option_bind] in Hr. exists tag.
  destruct (assoc tag simple_variants) as [read|] eqn:Hs.
  - exists read. split; [unfold text_entry; by rewrite Ht|]. split; [by apply assoc_In|done].
  - repeat (destruct (String.eqb tag _); [by rewrite ?no_tag_left in Hr|]). done.
Qed.
End Read.

(** * The readings agree *)

Section Agreement.
Context `{UnicodeTables, RegexLib, HashOrder, YamlLib} {C : Type} `{Format yaml C, !ContentLaws C, !ContentViews C}.
Context (reg : FunctionRegistry) `{!Builtins reg}.

(** A condition of the legacy format: a map with a tag and no field of the other one. *)
Record legacy_condition (v : yaml) (c : C) (m : list (string * C)) : Prop := {
  legacy_buffered : buffered v = Some c;
  legacy_map : dm_map c = Some m;
  legacy_no_field : assoc "field" m = None;
  legacy_no_and : assoc "and" m = None;
  legacy_no_or : assoc "or" m = None
}.

Lemma legacy_meaning v c m fuel h kind :
  legacy_condition v c m -> text_entry "type" m = Some kind -> existsb (String.eqb kind) ["and"; "or"; "not"] = false ->
  cond_meaning reg (S fuel) v = Some h ->
  exists mp, y_mapping v = Some mp /\ legacy_leaf_meaning reg kind mp = Some h /\
    forall k s, text_entry k m = Some s -> str_or_empty k mp = s.
Proof using Type*.
  intros [Hv Hm Hf Ha Ho] Hkind Hnot Hmean. destruct (content_map v c m Hv Hm) as (mp & Hmp & Hget).
  assert (Htext : forall k s, text_entry k m = Some s -> str_field k mp = Some s).
  { intros k s. unfold text_entry, str_field. specialize (Hget k). destruct (assoc k m) as [w|]; [|done].
    destruct Hget as (y & -> & Hy). cbn. by apply content_str. }
  pose proof (Hget "field") as Gf. pose proof (Hget "and") as Ga. pose proof (Hget "or") as Go.
  rewrite Hf in Gf. rewrite Ha in Ga. rewrite Ho in Go.
  exists mp. split; [done|].
  assert (Hnew : new_format mp = false) by (unfold new_format, str_field; by rewrite Ga, Go, Gf).
  cbn [cond_meaning] in Hmean. rewrite Hmp in Hmean. cbn [mbind option_bind] in Hmean.
  rewrite Hnew, (Htext _ _ Hkind) in Hmean. cbn [mbind option_bind] in Hmean. cbn [existsb] in Hnot. split.
  - destruct (String.eqb kind "and"), (String.eqb kind "or"), (String.eqb kind "not"); done.
  - intros k s Hs. unfold str_or_empty. by rewrite (Htext _ _ Hs).
Qed.

(** C17: a routing condition read from a map, with a reading of [ConvSpec] (a kind
    other than a cookie, a challenge or server-side requests, whose texts, where the
    converter does not escape them, are printable ASCII without quotes or backslashes),
    is the condition that the converter writes for the network engine: the text for it
    parses to an expression, and the direct evaluator agrees with the expression on
    every request with header names in lower case, for tests of the address, of a path
    that has nothing to decode, of a header against a text that is not empty, of a
    header that is there against a regex, and of the rate limit, which never holds. *)
Theorem routing_readings_agree v c m cond h :
  legacy_condition v c m -> read_condition v = Some cond -> cond_meaning reg (S (y_size v)) v = Some h ->
  exists text, cond_to_grl (S (y_size v)) v = Ok text /\ means reg text h /\
    forall ctx, lowercase_headers ctx -> alike_on ctx cond -> matcher_evaluate cond ctx = h ctx.
Proof using Type*.
  intros Hleg Hread Hmean. destruct (cond_means reg _ _ _ Hmean) as (text & Htext & Hh).
  exists text. split; [done|]. split; [done|]. intros ctx Hlow Halike.
  destruct Hleg as [Hv Hm Hf Ha Ho] eqn:Hl. clear Hl.
  destruct (read_condition_simple v c m cond Hv Hm Hread) as (tag & read & Htag & Hin & Hr).
  unfold simple_variants in Hin. cbn [In] in Hin.
  repeat (destruct Hin as [[= <- <-]|Hin];
    [destruct (legacy_meaning v c m (y_size v) h _ Hleg Htag eq_refl Hmean) as (mp & Hmp & Hleaf & Hget);
     unfold one_text, two_texts, without_data in Hr; read_fields Hr; injection Hr as <-; try (by destruct Halike)|]).
  all: try done.
  all: unfold legacy_leaf_meaning in Hleaf; cbn -[req_path find_header plain_string str_or_empty] in Hleaf.
  all: try (pose proof (Hget _ _ (required_text m _ _ 0 _ E ltac:(cbn; lia) ltac:(done) E0)) as G; cbn [nth] in G; rewrite !G in Hleaf; clear G).
  all: try (pose proof (Hget _ _ (required_text m _ _ 1 _ E ltac:(cbn; lia) ltac:(done) E1)) as G; cbn [nth] in G; rewrite !G in Hleaf; clear G).
  all: unfold plain in Hleaf; repeat match type of Hleaf with (if ?b then _ else _) = _ => destruct b; [|done] end.
  all: injection Hleaf as <-; cbn [matcher_evaluate alike_on] in *; unfold req_path;
    rewrite ?Halike, ?find_header_lookup by done; try done.
  - destruct (Ast.headers ctx !! to_lowercase s); [done|]. by destruct s0.
  - by destruct (Ast.headers ctx !! to_lowercase s), Halike.
Qed.
End Agreement.

Definition login_condition : ytree := YtMap [("type", YtStr "path_exact"); ("value", YtStr "/login")].

Lemma routing_readings_agree_witness :
  exists text, @cond_to_grl plain_unicode tree_yaml 2 login_condition = Ok text /\
    @matcher_evaluate plain_unicode literal_regex sorted_hash_order (PathExact "/login") (api_request "/login") = true.
Proof.
  destruct (@routing_readings_agree plain_unicode literal_regex sorted_hash_order tree_yaml ytree tree_document tree_content
    tree_format tree_content_laws tree_content_views sample_registry
    (@default_builtins plain_unicode literal_regex sorted_hash_order)
    login_condition login_condition [("type", YtStr "path_exact"); ("value", YtStr "/login")] (PathExact "/login")
    (fun ctx => String.eqb (req_path ctx) "/login")) as (text & Htext & _ & Hagree);
    [by split|reflexivity|reflexivity|].
  exists text. split; [exact Htext|]. rewrite (Hagree (api_request "/login")).
  - vm_compute. reflexivity.
  - intros k Hk. cbn in Hk. rewrite lookup_empty in Hk. by destruct Hk.
  - vm_compute. reflexivity.
Defined.
