(* ===== verification/App.v ===== *)
(** The application around the rule engine: configuration ([config/schema.rs]),
    the hot-swappable rule store ([rules/store.rs]), the file watcher
    ([rules/watcher.rs]), start-up ([state/store.rs]) and the request pipeline
    ([pipeline.rs]).  The watcher is modelled as [start_watcher] defines it; the
    command line of this version does not start it. *)
From S2P Require Import Prelude Utf8 RustStd Net Extern Float64 WafTypes Ast Functions Printer Rete WorkingMemory Engine EngineSpec.
From S2P Require Import CrsTypes CrsTx CrsTransform CrsTarget CrsOperator CrsParser CrsEval Lists Geo GrlParser Converter Matcher Loader.
Local Open Scope Z_scope.

(** * Configuration *)

Record ServerConfig := mkServerConfig {
  bind : string; upstream : string; backends : gmap string string
}.
Record DashboardApiConfig := mkDashboardApiConfig { dash_bind : string }.
Record RulesConfig := mkRulesConfig {
  rules_dir : string; crs_dir : option string; blacklist_file : option string
}.
Definition RulesConfig_default : RulesConfig := mkRulesConfig "config/rules" None None.
Record TierConfig := mkTierConfig {
  tc_tier : Tier; tc_routes : list string; fail_mode : FailMode;
  max_rps_per_ip : option Z; max_rps_per_session : option Z; cache_ttl_secs : option Z
}.
Record RateLimitConfig := mkRateLimitConfig { default_rps_per_ip : Z; default_rps_per_session : Z }.
Record CacheConfig := mkCacheConfig { ttl_medium_secs : Z }.
Record CircuitBreakerConfig := mkCircuitBreakerConfig { failure_threshold : Z; recovery_secs : Z }.
Record AuditConfig := mkAuditConfig { log_path : string }.
Record GeoConfig := mkGeoConfig {
  db_path : option string; country_headers : list string; geo_blocked_countries : list string
}.
Definition GeoConfig_default : GeoConfig := mkGeoConfig None [] [].
Record Config := mkConfig {
  server : ServerConfig;
  dashboard_api : DashboardApiConfig;
  cfg_rules : RulesConfig;
  tiers : gmap string TierConfig;
  risk : RiskConfig;
  rate_limit : RateLimitConfig;
  cache : CacheConfig;
  circuit_breaker : CircuitBreakerConfig;
  audit : AuditConfig;
  geo : GeoConfig
}.

(** [Config::load_from_file], over the file's text and the TOML reader. *)
Definition load_config (toml_from_str : string -> option Config) (text : option string)
  : result string Config :=
  text ← ok_or text "cannot read";
  ok_or (toml_from_str text) "invalid waf.toml".

Section App.
Context `{UnicodeTables, RegexLib, AhoCorasickLib, IpNetLib, HashOrder, !RegexReplaceLib, ModSecLib, GeoDbLib, YamlLib}.
Variable yaml_rules : string -> option (list Rule).
Variable yaml_value : string -> option yaml.
Variable pest_parse : string -> option (list Pair).

(** * Rule store *)

Record RuleStore := mkStore { store_rules : list Rule; store_engine : Engine }.
Definition RuleStore_new (initial : list Rule) : RuleStore := mkStore initial (Engine_new Network_new).
Definition reload (rules : list Rule) (s : RuleStore) : RuleStore := mkStore rules (store_engine s).
Definition reload_engine (eng : Engine) (s : RuleStore) : RuleStore := mkStore (store_rules s) eng.
Definition snapshot (s : RuleStore) : list Rule := store_rules s.

(** * Watcher *)

(** What the watcher looks at in a notification of the file system. *)
Inductive FsEventKind : Type := EvCreate | EvModify | EvRemove | EvOther.
Record FsEvent := mkFsEvent { ev_kind : FsEventKind; ev_paths : list string }.

Definition is_rules_change (e : FsEvent) : bool :=
  match ev_kind e with EvOther => false | _ => true end &&
  existsb (fun p => match path_extension p with
                    | Some ext => bool_decide (ext ∈ ["yaml"; "yml"; "grl"])
                    | None => false
                    end) (ev_paths e).

(** The body of the watcher's loop, for one event; [None] is an error of the
    watcher itself. *)
Definition handle_event (fs : FileSystem) (dir : string) (event : option FsEvent) (s : RuleStore) : RuleStore :=
  match event with
  | None => s
  | Some e =>
    if negb (is_rules_change e) then s
    else
      let s := match load_from_dir yaml_rules fs dir with Ok rules => reload rules s | Err _ => s end in
      match load_grl_from_dir yaml_value pest_parse fs dir with
      | Ok asts => reload_engine (Engine_new (compile asts)) s
      | Err _ => s
      end
  end.

(** * Start-up *)

Record AppState := mkApp { config : Config; app_rules : RuleStore; ip_lists : IpListStore }.

(** [Path::join]: an absolute path replaces the first one. *)
Definition path_join (dir file : string) : string :=
  if starts_with file "/" || is_empty dir then file
  else if ends_with dir "/" then dir +:+ file
  else dir +:+ "/" +:+ file.
Definition file_name (path : string) : string :=
  match rsplit_once "/" path with Some (_, name) => name | None => path end.

(** The CRS rule set of a directory; entries that cannot be read are dropped. *)
Definition load_crs (fs : FileSystem) (conf_dir data_dir : string) : result LoadError CrsRuleset :=
  CrsEval.load_from_dir path_join (fs_read fs)
    (if fs_exists fs conf_dir then
       Some (match fs_read_dir fs conf_dir with
             | Some entries => Ok (omap (fun e : option string => file_name <$> e) entries)
             | None => Err ReadDirFailed
             end)
     else None) conf_dir data_dir.

Definition initial_rules (fs : FileSystem) (dir : string) : list Rule :=
  if fs_exists fs dir then match load_from_dir yaml_rules fs dir with Ok r => r | Err _ => [] end else [].
Definition initial_grl (fs : FileSystem) (dir : string) : list RuleAst :=
  match load_grl_from_dir yaml_value pest_parse fs dir with Ok r => r | Err _ => [] end.
Definition initial_lists (fs : FileSystem) (blacklist_file : option string) : IpListStore :=
  match blacklist_file with
  | Some path => (load_blacklist_from_file (fs_read fs path) IpListStore_new).2
  | None => IpListStore_new
  end.

(** The plugins installed at start-up, in order. *)
Definition install_crs (fs : FileSystem) (rc : RulesConfig) (eng : Engine) : Engine :=
  match crs_dir rc with
  | Some dir =>
    match load_crs fs dir (path_join (rules_dir rc) "data") with
    | Ok ruleset => install (CrsPlugin ruleset) eng
    | Err _ => eng
    end
  | None => eng
  end.
Definition configured_geo (config : Config) : GeoState :=
  GeoPlugin_new (db_path (geo config)) (country_headers (geo config)) (geo_blocked_countries (geo config)).
Definition initial_engine (fs : FileSystem) (config : Config) (lists : IpListStore) : Engine :=
  let rc := cfg_rules config in
  let eng := Engine_new (compile (initial_grl fs (rules_dir rc))) in
  let eng := install (BlacklistPlugin lists) eng in
  let eng := install_crs fs rc eng in
  install (GeoPlugin (configured_geo config)) eng.

(** [AppState::init]; [audit_ok] says whether the audit log could be opened. *)
Definition AppState_init (audit_ok : bool) (fs : FileSystem) (config : Config) : result string AppState :=
  if negb audit_ok then Err "audit log"
  else
    let rc := cfg_rules config in
    let store := RuleStore_new (initial_rules fs (rules_dir rc)) in
    let lists := initial_lists fs (blacklist_file rc) in
    let store := reload_engine (initial_engine fs config lists) store in
    Ok (mkApp config store lists).

(** The watcher running in the started application. *)
Definition watch_event (fs : FileSystem) (event : option FsEvent) (st : AppState) : AppState :=
  mkApp (config st) (handle_event fs (rules_dir (cfg_rules (config st))) event (app_rules st)) (ip_lists st).

(** * Pipeline *)

Definition apply_risk (delta : Z) (ctx : RequestContext) : RequestContext :=
  if delta =? 0 then ctx
  else with_risk (mkRiskScore (Z.min (risk_value RiskScore_MAX)
                    (Z.max 0 (wrap_s 64 (risk_value (risk_score ctx) + delta))))) ctx.

Definition run_inbound (ctx : RequestContext) (st : AppState) : RequestContext * Decision :=
  let outcome := fire (store_engine (app_rules st)) ctx in
  let ctx := match head (matched_rules outcome) with
             | Some rule_id => with_matched_rule rule_id ctx
             | None => ctx
             end in
  (apply_risk (risk_delta outcome) ctx, outcome_to_decision outcome).

(** [run_outbound]: the response body as it came. *)
Definition run_outbound (response_body : string) : result Decision string := Ok response_body.
End App.

(** * The pipeline leaves the risk score alone *)

Section Pipeline.
Context `{UnicodeTables, RegexLib, HashOrder, IpNetLib}.

Lemma fire_cycles_risk n net wm fired :
  risk_delta (outcome (fire_cycles n net wm fired)) = risk_delta (outcome wm).
Proof.
  revert wm fired. induction n as [|n IH]; intros wm fired; [done|]. cbn [fire_cycles].
  destruct (scan _ fired _) as [term|]; [|done].
  destruct (fire_terminal term wm fired) as [wm' fired'] eqn:Hf.
  assert (Hr : risk_delta (outcome wm') = risk_delta (outcome wm)).
  { unfold fire_terminal in Hf.
    pose proof (frame_risk _ _ (run_actions_frame (actions term)
      (on_outcome (push_matched (rule_name term)) wm, {[rule_name term]} ∪ fired))) as Hfr.
    rewrite Hf in Hfr. exact Hfr. }
  destruct (stops_firing wm'); [done|]. by rewrite IH.
Qed.

(** The pipeline never changes the risk score of a request, whatever the rules
    assign to [Request.RiskScore]: only the id of the first matched rule is
    recorded, and the decision is the one of the outcome. *)
Theorem run_inbound_keeps_risk ctx st :
  let o := fire (store_engine (app_rules st)) ctx in
  run_inbound ctx st =
    (match head (matched_rules o) with Some r => with_matched_rule r ctx | None => ctx end, outcome_to_decision o) /\
  risk_score (run_inbound ctx st).1 = risk_score ctx.
Proof.
  cbn zeta. unfold run_inbound.
  assert (Hr : risk_delta (fire (store_engine (app_rules st)) ctx) = 0) by apply fire_cycles_risk.
  rewrite Hr. cbn [apply_risk Z.eqb]. unfold apply_risk. cbn [Z.eqb fst].
  split; [done|]. by destruct (head _).
Qed.
End Pipeline.

(** * Plugins and the registry *)

(** What an installed plugin provides is what it provides alone, whatever was
    installed before, and survives every plugin that provides other names. *)
Lemma install_provided `{RegexLib} p `{!PluginSpec p} eng (n : string) :
  n ∈ provided (p := p) ->
  engine_registry (install p eng) !! n = plugin_register p (∅ : FunctionRegistry) !! n.
Proof. intros Hn. by apply (register_provided (p := p)). Qed.
Lemma install_other `{RegexLib} p `{!PluginSpec p} eng (n : string) :
  n ∉ provided (p := p) -> engine_registry (install p eng) !! n = engine_registry eng !! n.
Proof. intros Hn. by apply (register_other (p := p)). Qed.

Lemma call_is `{UnicodeTables, RegexLib} (reg : FunctionRegistry) n (f : CtxFn) ctx args v :
  reg !! n = Some f -> f ctx args = v -> call reg n ctx args = v.
Proof. intros Hn <-. by apply call_registered. Qed.

Definition plugin_functions : list string :=
  ["ip_in_blacklist"; "ip_in_whitelist"; "crs_score"; "crs_match"; "GetCountry"; "geo_blocked"].

Section Reload.
Context `{UnicodeTables, RegexLib, AhoCorasickLib, IpNetLib, HashOrder, !RegexReplaceLib, ModSecLib, GeoDbLib, YamlLib}.
Variable yaml_rules : string -> option (list Rule).
Variable yaml_value : string -> option yaml.
Variable pest_parse : string -> option (list Pair).

(** A fresh engine knows none of the plugin functions. *)
Lemma fresh_engine_functions net n ctx args :
  In n plugin_functions -> call (engine_registry (Engine_new net)) n ctx args = VNull.
Proof.
  intros Hn. rewrite call_unregistered.
  - unfold plugin_functions in Hn. repeat (destruct Hn as [<-|Hn]; [reflexivity|]). done.
  - cbn [Engine_new engine_registry]. unfold register_context_defaults.
    rewrite !lookup_register_ne; [apply (lookup_empty (M := gmap string))|..];
      intros <-; unfold plugin_functions in Hn; cbn in Hn; intuition discriminate.
Qed.

Lemma install_crs_other fs rc eng n :
  n ∉ (({["crs_score"; "crs_match"]} : gset string)) ->
  engine_registry (install_crs fs rc eng) !! n = engine_registry eng !! n.
Proof.
  intros Hn. unfold install_crs. destruct (crs_dir rc) as [dir|]; [|done].
  destruct (load_crs fs dir _) as [rs|]; [|done]. by rewrite (install_other (CrsPlugin rs)).
Qed.

(** At start-up the registry answers [ip_in_blacklist] and [geo_blocked] from
    the configured lists and countries whatever else is installed, and [crs_score]
    from the CRS rule set when it loads. *)
Theorem startup_registers_plugins fs cfg st :
  AppState_init yaml_rules yaml_value pest_parse true fs cfg = Ok st ->
  let reg := engine_registry (store_engine (app_rules st)) in
  (forall ctx args, call reg "ip_in_blacklist" ctx args = VBool (is_blacklisted (ip_lists st) (ip_argument ctx args))) /\
  (forall ctx args, call reg "geo_blocked" ctx args = VBool (geo_blocked (configured_geo cfg) ctx)) /\
  (forall dir ruleset, crs_dir (cfg_rules cfg) = Some dir ->
     load_crs fs dir (path_join (rules_dir (cfg_rules cfg)) "data") = Ok ruleset ->
     forall ctx args, call reg "crs_score" ctx args = VInt (inbound_score (crs_evaluate ruleset ctx))).
Proof.
  unfold AppState_init. cbn [negb]. intros [= <-]. cbn [app_rules store_engine reload_engine ip_lists].
  unfold initial_engine. repeat split.
  - intros ctx args. eapply (call_is _ _ (fun ctx args => VBool (is_blacklisted (initial_lists fs (blacklist_file (cfg_rules cfg))) (ip_argument ctx args)))); [|done].
    rewrite (install_other (GeoPlugin (configured_geo cfg))) by set_solver.
    rewrite install_crs_other by set_solver.
    rewrite (install_provided (BlacklistPlugin _)) by set_solver.
    cbn. rewrite lookup_register_ne by done. apply lookup_register_eq.
  - intros ctx args. eapply (call_is _ _ (fun ctx _ => VBool (geo_blocked (configured_geo cfg) ctx))); [|done].
    rewrite (install_provided (GeoPlugin (configured_geo cfg))) by set_solver. apply lookup_register_eq.
  - intros dir rs Hdir Hload ctx args.
    eapply (call_is _ _ (fun ctx _ => VInt (inbound_score (crs_evaluate rs ctx)))); [|done].
    rewrite (install_other (GeoPlugin (configured_geo cfg))) by set_solver.
    unfold install_crs. rewrite Hdir, Hload, (install_provided (CrsPlugin rs)) by set_solver.
    cbn. rewrite lookup_register_ne by done. apply lookup_register_eq.
Qed.

(** C26: after a reload the engine has no plugin: the first change of a rule file that
    loads replaces it by an engine in which every plugin function answers null, so
    the blacklist, the CRS score and geo-blocking no longer match. *)
Theorem reload_drops_plugins fs cfg st fs' e asts :
  AppState_init yaml_rules yaml_value pest_parse true fs cfg = Ok st ->
  is_rules_change e = true ->
  load_grl_from_dir yaml_value pest_parse fs' (rules_dir (cfg_rules cfg)) = Ok asts ->
  let eng := store_engine (app_rules st) in
  let eng' := store_engine (app_rules (watch_event yaml_rules yaml_value pest_parse fs' (Some e) st)) in
  plugins eng <> [] /\ plugins eng' = [] /\ network eng' = compile asts /\
  forall n ctx args, In n plugin_functions -> call (engine_registry eng') n ctx args = VNull.
Proof.
  intros Hinit He Hload. unfold AppState_init in Hinit. cbn [negb] in Hinit. injection Hinit as <-.
  cbn [watch_event app_rules config]. unfold handle_event. rewrite He, Hload. cbn [negb].
  cbn zeta. repeat split; [|by intros; apply fresh_engine_functions].
  cbn [store_engine reload_engine]. unfold initial_engine. cbn [install plugins]. by intros []%app_eq_nil.
Qed.

(** A failed reload keeps what was loaded: an event that is not about rule files
    changes nothing, a directory that cannot be listed keeps the routing rules and
    the engine, but a directory that is gone leaves the routing rules and an engine
    without rules. *)
Theorem failed_reload_keeps_rules fs dir event s :
  let s' := handle_event yaml_rules yaml_value pest_parse fs dir event s in
  (match event with Some e => is_rules_change e = false | None => True end -> s' = s) /\
  (fs_read_dir fs dir = None -> store_rules s' = store_rules s) /\
  (fs_read_dir fs dir = None -> fs_exists fs dir = true -> store_engine s' = store_engine s) /\
  (forall e, event = Some e -> is_rules_change e = true -> fs_exists fs dir = false ->
   store_engine s' = Engine_new (compile [])).
Proof.
  cbn zeta. unfold handle_event. destruct event as [e|]; [|by repeat split].
  unfold load_grl_from_dir, load_from_dir. repeat split.
  - by intros ->.
  - intros ->. by destruct (is_rules_change e), (fs_exists fs dir).
  - intros -> ->. by destruct (is_rules_change e).
  - intros e' [= <-] -> ->. done.
Qed.
End Reload.

(** * A sample application *)

Definition sample_config : Config :=
  mkConfig (mkServerConfig "0.0.0.0:8111" "http://127.0.0.1:33333"
              (list_to_map [("go", "http://127.0.0.1:33333"); ("python", "http://127.0.0.1:33334")]))
    (mkDashboardApiConfig "0.0.0.0:8112") (mkRulesConfig "rules" (Some "crs") None) ∅ (mkRiskConfig 30 70)
    (mkRateLimitConfig 100 50) (mkCacheConfig 300) (mkCircuitBreakerConfig 5 30) (mkAuditConfig "logs/audit.jsonl")
    (mkGeoConfig None [] ["KP"]).

Section Sample.
Local Existing Instances plain_unicode literal_regex phrase_automaton pair_ipnet sorted_hash_order literal_replace
  sample_modsec_lib no_geo_db tree_yaml.

Definition started (fs : FileSystem) : AppState :=
  mkApp sample_config
    (reload_engine (initial_engine (fun _ => None) (fun _ => None) fs sample_config IpListStore_new)
       (RuleStore_new (initial_rules sample_yaml_rules fs "rules")))
    IpListStore_new.
Definition empty_fs : FileSystem := mkFs (fun _ => false) (fun _ => false) (fun _ => None) (fun _ => None).

Lemma startup_registers_plugins_witness :
  let ctx := sample_request "GET" in
  call (engine_registry (store_engine (app_rules (started sample_fs)))) "crs_score" ctx [] =
  VInt (inbound_score (crs_evaluate (mkRuleset "" ∅ "crs" 0) ctx)).
Proof.
  apply (startup_registers_plugins sample_yaml_rules (fun _ => None) (fun _ => None) sample_fs sample_config
           (started sample_fs) eq_refl) with (dir := "crs"); reflexivity.
Defined.

Lemma reload_drops_plugins_witness :
  let ctx := sample_request "GET" in
  call (engine_registry (store_engine (app_rules
    (watch_event sample_yaml_rules (fun _ => None) (fun _ => None) sample_fs
       (Some (mkFsEvent EvModify ["rules/a.yaml"])) (started sample_fs))))) "ip_in_blacklist" ctx [] = VNull.
Proof.
  apply (reload_drops_plugins sample_yaml_rules (fun _ => None) (fun _ => None) sample_fs sample_config
           (started sample_fs) sample_fs (mkFsEvent EvModify ["rules/a.yaml"]) [] eq_refl eq_refl eq_refl).
  by left.
Defined.
End Sample.
