(* ===== verification/Proxy.v ===== *)
(** The reverse proxy ([waf-proxy/src/handler.rs]): from a raw request to a
    decision, a routing choice and a forwarded request or an error response. *)
From S2P Require Import Prelude Utf8 RustStd Net Extern Float64 WafTypes Ast Functions Printer Rete WorkingMemory Engine EngineSpec.
From S2P Require Import CrsTypes CrsTx CrsTransform CrsTarget CrsOperator CrsParser CrsEval Lists Geo GrlParser Converter Matcher Loader App.
Local Open Scope Z_scope.

(** * Requests and responses of the [hyper] crate *)

(** An [http::HeaderMap]: names are in lower case, and a name can have several values,
    in the order in which they came.  The map says nothing of the order of different
    names: a list stands for the map with the same values under each name
    ([same_headers] below, which all definitions here respect). *)
Definition Headers : Type := list (string * string).
Definition hm_remove (name : string) (h : Headers) : Headers :=
  List.filter (fun kv => negb (String.eqb (fst kv) name)) h.
Definition hm_insert (name value : string) (h : Headers) : Headers := hm_remove name h ++ [(name, value)].

(** [raw_body] is [None] when collecting the body fails. *)
Record RawRequest := mkRaw {
  raw_method : string; raw_path : string; raw_query : option string;
  raw_headers : Headers; raw_body : option string
}.
Record Upstream := mkUpstream { up_method : string; up_uri : string; up_headers : Headers; up_body : string }.
Record Response := mkResponse { status : Z; resp_headers : Headers; resp_body : string }.

Class HttpLib := {
  (** [HeaderValue::to_str] and [HeaderValue::from_str] *)
  header_to_str : string -> option string;
  header_from_str : string -> option string;
  uri : Type;
  uri_parse : string -> option uri;
  uri_host : uri -> option string;
  uri_port : uri -> option Z;
  (** the text of the JSON object with one member, [error] *)
  json_error_text : string -> string
}.

(** * Routing *)

(** [/**] and [/*] are everything, [p/*] is [p] and what is under it. *)
Definition wildcard_matches (pattern path : string) : bool :=
  if String.eqb pattern "/**" || String.eqb pattern "/*" then true
  else
    match strip_suffix "/*" pattern with
    | Some prefix => String.eqb path prefix || starts_with path (prefix +:+ "/")
    | None => String.eqb pattern path
    end.

Fixpoint path_condition_matches (condition : Condition) (path : string) : bool :=
  match condition with
  | PathExact value => String.eqb value path
  | PathWildcard pattern => wildcard_matches pattern path
  | CondAnd conds => forallb (fun c => path_condition_matches c path) conds
  | CondOr conds => existsb (fun c => path_condition_matches c path) conds
  | _ => false
  end.

(** The loop of [resolve_upstream] over the snapshot of the rules. *)
Fixpoint find_backend (backends : gmap string string) (path : string) (rules : list Rule) : option string :=
  match rules with
  | [] => None
  | rule :: rules =>
    match wr_upstream_backend rule with
    | None => find_backend backends path rules
    | Some backend_name =>
      if path_condition_matches (wr_condition rule) path then
        match backends !! backend_name with
        | Some url => Some url
        | None => find_backend backends path rules
        end
      else find_backend backends path rules
    end
  end.

Section Proxy.
Context `{UnicodeTables, RegexLib, IpNetLib, HashOrder, HttpLib}.

Definition resolve_upstream (path : string) (st : AppState) : string :=
  default (upstream (server (config st)))
    (find_backend (backends (server (config st))) path (snapshot (app_rules st))).

(** * Responses *)

Definition json_error (status : Z) (msg : string) : Response :=
  mkResponse status [("content-type", "application/json")] (json_error_text msg).
Definition rate_limit_response (retry_after_secs : Z) : Response :=
  mkResponse 429 [("retry-after", print_int retry_after_secs); ("content-type", "application/json")]
    ("{" +:+ quoted "error" +:+ ":" +:+ quoted "rate limit exceeded" +:+ "}").

(** * Forwarding *)

Definition hop_by_hop : list string := ["connection"; "keep-alive"; "transfer-encoding"; "upgrade"].
Definition forwarded_headers (addr : string) (h : Headers) : Headers :=
  hm_insert "host" addr (foldl (fun h name => hm_remove name h) h hop_by_hop).

(** [addr]: the host and port of the upstream. *)
Definition upstream_addr (u : uri) : string :=
  default "127.0.0.1" (uri_host u) +:+ ":" +:+ print_int (default 80 (uri_port u)).

(** The request [forward] sends, or [None] when a conversion fails. *)
Definition forward_request (raw : RawRequest) (body upstream_base : string) : option Upstream :=
  u ← uri_parse upstream_base;
  let target := match raw_query raw with
                | Some q => upstream_base +:+ raw_path raw +:+ "?" +:+ q
                | None => upstream_base +:+ raw_path raw
                end in
  _ ← uri_parse target;
  host ← header_from_str (upstream_addr u);
  Some (mkUpstream (raw_method raw) target (forwarded_headers host (raw_headers raw)) body).

(** The HTTP client: the response, or [None] when the exchange fails. *)
Definition http_client : Type := Upstream -> option Response.

(** [forward]: the requests sent, and the response. *)
Definition forward (client : http_client) (raw : RawRequest) (body upstream_base : string)
  : list Upstream * option Response :=
  match forward_request raw body upstream_base with
  | Some req => ([req], client req)
  | None => ([], None)
  end.

(** * Handler *)

(** [headers.iter().map(...).collect::<HashMap<_, _>>()]: a later value of a name
    replaces an earlier one. *)
Definition collect_headers (h : Headers) : gmap string string :=
  foldl (fun m kv => <[fst kv := default "" (header_to_str (snd kv))]> m) ∅ h.

Definition build_context (request_id : string) (now : Z) (raw : RawRequest) (body : string) : RequestContext :=
  let headers := collect_headers (raw_headers raw) in
  mkContext request_id now (raw_method raw) (raw_path raw) (raw_query raw) CatchAll "0.0.0.0"
    (headers !! "x-forwarded-for") headers (if is_empty body then None else Some body) None None
    RiskScore_ZERO None ∅.

(** [handle_request]: the requests sent upstream, and the response. *)
Definition handle_request (client : http_client) (request_id : string) (now : Z) (raw : RawRequest) (st : AppState)
  : list Upstream * Response :=
  match raw_body raw with
  | None => ([], json_error 400 "failed to read request body")
  | Some body =>
    let ctx := build_context request_id now raw body in
    let '(ctx, decision) := run_inbound ctx st in
    match decision with
    | Allow =>
      let '(sent, resp) := forward client raw body (resolve_upstream (path ctx) st) in
      (sent, match resp with Some resp => resp | None => json_error 502 "upstream unavailable" end)
    | Block reason => ([], json_error 403 ("blocked: " +:+ reason))
    | Challenge _ => ([], json_error 403 "challenge required")
    | RateLimit secs => ([], rate_limit_response secs)
    end
  end.
End Proxy.

(** * Routing *)

(** A pattern of the proxy stands for every path, for a prefix and what is under
    it, or for itself. *)
Theorem wildcard_matches_spec pattern path :
  wildcard_matches pattern path = true <->
  pattern = "/**" \/ pattern = "/*" \/
  (exists p, strip_suffix "/*" pattern = Some p /\ (path = p \/ exists r, path = p +:+ "/" +:+ r)) \/
  (strip_suffix "/*" pattern = None /\ pattern = path).
Proof.
  unfold wildcard_matches.
  destruct (String.eqb_spec pattern "/**") as [->|H1]; [by split; auto|].
  destruct (String.eqb_spec pattern "/*") as [->|H2]; [by split; auto|]. cbn [orb].
  destruct (strip_suffix "/*" pattern) as [p|] eqn:Hp.
  - rewrite orb_true_iff, String.eqb_eq, starts_with_spec. setoid_rewrite app_assoc_str.
    split; [intros H; do 2 right; left; by exists p|].
    intros [?|[?|[(q & [= <-] & H)|[? _]]]]; done.
  - rewrite String.eqb_eq. split; [intros H; do 3 right; done|].
    intros [?|[?|[(q & ? & H)|[_ H]]]]; done.
Qed.

Definition routes (backends : gmap string string) (path : string) (r : Rule) : bool :=
  match wr_upstream_backend r with
  | Some b => bool_decide (is_Some (backends !! b)) && path_condition_matches (wr_condition r) path
  | None => false
  end.
Definition route_url (backends : gmap string string) (r : Rule) : option string :=
  b ← wr_upstream_backend r; backends !! b.

Lemma find_backend_find backends path rules :
  find_backend backends path rules =
  (r ← List.find (routes backends path) rules; route_url backends r).
Proof.
  induction rules as [|r rules IH]; [done|]. cbn [find_backend List.find].
  unfold routes at 1. destruct (wr_upstream_backend r) as [b|] eqn:Hb; [|done].
  destruct (path_condition_matches (wr_condition r) path); [|by rewrite andb_false_r].
  rewrite andb_true_r. destruct (backends !! b) as [url|] eqn:Hu.
  - rewrite bool_decide_eq_true_2 by done. cbn. unfold route_url. by rewrite Hb.
  - by rewrite bool_decide_eq_false_2 by (by intros []).
Qed.

(** C33: with the rules as the loader sorts them, a request goes to the backend of the
    routing rule of least priority number that matches its path and names a known
    backend, the first in file order among equals, and otherwise to the default
    upstream. *)
Theorem resolve_upstream_least_priority `{RegexLib, IpNetLib} path (st : AppState) loaded :
  store_rules (app_rules st) = sort_by_key wr_priority loaded ->
  let p := routes (backends (server (config st))) path in
  (exists r url, first_least wr_priority p loaded r /\
     route_url (backends (server (config st))) r = Some url /\ resolve_upstream path st = url) \/
  ((forall r, In r loaded -> p r = false) /\ resolve_upstream path st = upstream (server (config st))).
Proof.
  intros Hs. cbn zeta. unfold resolve_upstream, snapshot. rewrite Hs, find_backend_find.
  destruct (List.find _ (sort_by_key wr_priority loaded)) as [r|] eqn:Hf.
  - left. exists r. pose proof Hf as Hr. apply List.find_some in Hr as [_ Hr]. apply find_sort_by_key in Hf.
    unfold routes in Hr. destruct (wr_upstream_backend r) as [b|] eqn:Hw; [|done].
    reflect_bools. rename select (is_Some _) into Hb. destruct Hb as [url Hb]. exists url.
    assert (Hu : route_url (backends (server (config st))) r = Some url) by (unfold route_url; by rewrite Hw).
    split; [done|]. split; [done|]. cbn [mbind option_bind]. by rewrite Hu.
  - right. split; [|done]. by apply (find_sort_by_key_None wr_priority).
Qed.

(** For a pattern ending in [/**] the proxy and the rule engine disagree: the
    proxy takes the pattern as one literal path, the converted rule as a prefix. *)
Theorem double_star_readings_differ `{UnicodeTables} prefix rest :
  prefix <> "" ->
  let pattern := prefix +:+ "/**" in
  let path := prefix +:+ "/" +:+ rest in
  wildcard_matches pattern path = String.eqb pattern path /\
  path_match_grl pattern = "starts_with(Request.Path, " +:+ debug_str (prefix +:+ "/") +:+ ")" /\
  fn_starts_with [VStr path; VStr (prefix +:+ "/")] = VBool true.
Proof.
  intros Hne. cbn zeta.
  assert (Hs : strip_suffix "/*" (prefix +:+ "/**") = None).
  { destruct (strip_suffix _ _) as [r|] eqn:Hr; [|done]. apply strip_suffix_Some in Hr.
    apply (f_equal str_bytes) in Hr. rewrite !str_bytes_app in Hr.
    change (str_bytes "/**") with (["/"; "*"] ++ ["*"])%char in Hr.
    change (str_bytes "/*") with (["/"] ++ ["*"])%char in Hr. rewrite !app_assoc in Hr.
    apply app_inj_tail in Hr as [Hr _]. change ["/"; "*"]%char with (["/"] ++ ["*"])%char in Hr.
    rewrite app_assoc in Hr. apply app_inj_tail in Hr as [_ Hr]. done. }
  assert (H1 : String.eqb (prefix +:+ "/**") "/**" = false).
  { apply String.eqb_neq. intros Heq%(f_equal str_len). rewrite str_len_app in Heq.
    destruct prefix; cbn in *; [done|lia]. }
  assert (H2 : String.eqb (prefix +:+ "/**") "/*" = false).
  { apply String.eqb_neq. intros Heq. rewrite Heq in Hs. done. }
  assert (H3 : String.eqb (prefix +:+ "/**") "**" = false).
  { apply String.eqb_neq. intros Heq%(f_equal str_len). rewrite str_len_app in Heq. cbn in Heq. lia. }
  unfold wildcard_matches, path_match_grl. rewrite H1, H2, H3, Hs, strip_suffix_app. cbn [orb].
  split; [done|]. split; [done|].
  change (VBool (starts_with (prefix +:+ "/" +:+ rest) (prefix +:+ "/")) = VBool true). f_equal. apply starts_with_spec. exists rest. by rewrite app_assoc_str.
Qed.

Lemma double_star_readings_differ_witness :
  wildcard_matches "/api/**" "/api/users" = false /\
  fn_starts_with [VStr "/api/users"; VStr "/api/"] = VBool true.
Proof.
  destruct (@double_star_readings_differ plain_unicode "/api" "users" ltac:(discriminate)) as (H1 & _ & H3).
  split; [exact H1|exact H3].
Defined.

(** * Forwarding *)

Definition header_values (name : string) (h : Headers) : list string :=
  map snd (List.filter (fun kv => String.eqb (fst kv) name) h).

(** Lists that stand for one header map. *)
Definition same_headers : relation Headers := fun h h' => forall name, header_values name h = header_values name h'.
#[export] Instance same_headers_equivalence : Equivalence same_headers.
Proof. split; [by intros h|by intros h h' Hh name|by intros h1 h2 h3 H12 H23 name; rewrite H12]. Qed.

Lemma header_values_app name h h' : header_values name (h ++ h') = header_values name h ++ header_values name h'.
Proof. unfold header_values. by rewrite List.filter_app, List.map_app. Qed.
Lemma header_values_remove name n h : header_values name (hm_remove n h) = if String.eqb n name then [] else header_values name h.
Proof.
  unfold header_values, hm_remove. rewrite filter_filter. induction h as [|[k v] h IH]; cbn [List.filter fst].
  { by destruct (String.eqb n name). }
  destruct (String.eqb_spec k name) as [->|]; [|by rewrite andb_false_r]. rewrite andb_true_r, String.eqb_sym.
  destruct (String.eqb_spec n name) as [->|]; cbn [negb map]; [exact IH|]. by rewrite IH.
Qed.
Lemma header_values_insert name n v h : header_values name (hm_insert n v h) = if String.eqb n name then [v] else header_values name h.
Proof.
  unfold hm_insert. rewrite header_values_app, header_values_remove. unfold header_values at 2. cbn [List.filter fst map].
  destruct (String.eqb n name); cbn [map app]; [done|by rewrite app_nil_r].
Qed.
#[export] Instance hm_remove_proper : Proper (eq ==> same_headers ==> same_headers) hm_remove.
Proof. intros n ? <- h h' Hh name. by rewrite !header_values_remove, Hh. Qed.
#[export] Instance hm_insert_proper : Proper (eq ==> eq ==> same_headers ==> same_headers) hm_insert.
Proof. intros n ? <- v ? <- h h' Hh name. by rewrite !header_values_insert, Hh. Qed.
#[export] Instance forwarded_headers_proper : Proper (eq ==> same_headers ==> same_headers) forwarded_headers.
Proof. intros addr ? <- h h' Hh. unfold forwarded_headers, hop_by_hop. cbn [foldl]. by rewrite Hh. Qed.

(** The proxy keeps one value of each name for the rules: the last. *)
Lemma collect_headers_lookup `{HttpLib} h name :
  collect_headers h !! name = (fun v => default "" (header_to_str v)) <$> last (header_values name h).
Proof.
  unfold collect_headers. induction h as [|[k v] h IH] using rev_ind; [apply (lookup_empty (M := gmap string))|].
  rewrite foldl_app, header_values_app. cbn [foldl fst snd]. unfold header_values at 2. cbn [List.filter fst].
  destruct (String.eqb_spec k name) as [->|Hne]; cbn [map].
  - by rewrite lookup_insert_eq, last_snoc.
  - by rewrite lookup_insert_ne, app_nil_r by done.
Qed.
#[export] Instance collect_headers_proper `{HttpLib} : Proper (same_headers ==> eq) collect_headers.
Proof. intros h h' Hh. apply map_eq. intros name. by rewrite !collect_headers_lookup, Hh. Qed.

(** C34: a forwarded request carries no hop-by-hop header and one Host, the address of
    the upstream; under every other name it has the values that the client sent, in
    their order; its method and body are those of the client, and its target is the
    upstream's base followed by the path and, if there is a query, a question mark and
    the query. *)
Theorem forward_request_headers `{HttpLib} raw body base req :
  forward_request raw body base = Some req ->
  (forall name, In name hop_by_hop -> header_values name (up_headers req) = []) /\
  (exists u addr, uri_parse base = Some u /\ header_from_str (upstream_addr u) = Some addr /\
     header_values "host" (up_headers req) = [addr]) /\
  (forall name, ~ In name ("host" :: hop_by_hop) -> header_values name (up_headers req) = header_values name (raw_headers raw)) /\
  up_method req = raw_method raw /\ up_body req = body /\
  up_uri req = base +:+ raw_path raw +:+ match raw_query raw with Some q => "?" +:+ q | None => "" end.
Proof.
  unfold forward_request. destruct (uri_parse base) as [u|] eqn:Hu; [|done]. cbn [mbind option_bind].
  set (target := match raw_query raw with Some q => _ | None => _ end).
  destruct (uri_parse target); [|done]. cbn [mbind option_bind].
  destruct (header_from_str (upstream_addr u)) as [addr|] eqn:Ha; [|done]. cbn [mbind option_bind].
  intros [= <-]. cbn [up_headers up_method up_body up_uri]. unfold forwarded_headers, hop_by_hop. cbn [foldl].
  split; [|split; [|split; [|split; [|split]]]]; try done.
  - intros name Hin. by repeat (destruct Hin as [<-|Hin]; [by rewrite header_values_insert, !header_values_remove|]).
  - exists u, addr. by rewrite header_values_insert.
  - intros name Hno. rewrite header_values_insert, !header_values_remove.
    repeat match goal with |- context [String.eqb ?k name] =>
      destruct (String.eqb_spec k name) as [<-|_]; [by destruct Hno; cbn; tauto|] end. done.
  - unfold target. destruct (raw_query raw); [done|]. by rewrite app_nil_r_str.
Qed.

(** * Handling a request *)

Lemma outcome_allows o :
  outcome_to_decision o = Allow <->
  block_reason o = None /\ challenge o = None /\ rate_limit_secs o = None.
Proof.
  unfold outcome_to_decision.
  destruct (block_reason o), (challenge o) as [[]|], (rate_limit_secs o); split; naive_solver.
Qed.

(** C10: a request reaches an upstream only when its body was read and no rule blocked,
    challenged or rate limited it, and then at most once, at the upstream routing
    chose; every request kept back is answered 400, 403, 429 or 502. *)
Theorem forwarded_only_when_allowed `{UnicodeTables, RegexLib, IpNetLib, HashOrder, HttpLib} client id now raw st :
  let '(sent, resp) := handle_request client id now raw st in
  (sent = [] /\ In (status resp) [400; 403; 429; 502]) \/
  (exists body req, raw_body raw = Some body /\ sent = [req] /\
     forward_request raw body (resolve_upstream (raw_path raw) st) = Some req /\
     resp = default (json_error 502 "upstream unavailable") (client req) /\
     let o := fire (store_engine (app_rules st)) (build_context id now raw body) in
     block_reason o = None /\ challenge o = None /\ rate_limit_secs o = None).
Proof.
  unfold handle_request. destruct (raw_body raw) as [body|]; [|left; cbn; auto].
  set (ctx := build_context id now raw body).
  assert (Hpath : path (run_inbound ctx st).1 = raw_path raw).
  { unfold run_inbound, apply_risk. cbn [fst]. destruct (_ =? 0), (head _); done. }
  assert (Hd : (run_inbound ctx st).2 = outcome_to_decision (fire (store_engine (app_rules st)) ctx)) by done.
  destruct (run_inbound ctx st) as [ctx' d] eqn:Hrun. cbn [fst snd] in *. subst d. rewrite Hpath.
  destruct (outcome_to_decision _) eqn:Ho; try (left; cbn; auto; fail).
  unfold forward. destruct (forward_request raw body _) as [req|] eqn:Hreq; [|left; cbn; by auto 6].
  right. exists body, req. apply outcome_allows in Ho.
  repeat (split; [done|]). exact Ho.
Qed.

(** The rules see every request of the proxy as coming from address 0.0.0.0 in the
    catch-all tier and without enrichment: conditions on the client address or the
    tier do not depend on the request, and no request is geo-blocked. *)
Theorem proxy_hides_client `{UnicodeTables, RegexLib, IpNetLib, HashOrder, HttpLib} id now raw body reg :
  let ctx := build_context id now raw body in
  let wm := WorkingMemory_new ctx reg in
  read_path wm [SegField "Request"; SegField "ClientIp"] = VStr "0.0.0.0" /\
  read_path wm [SegField "Request"; SegField "Tier"] = VStr "catchall" /\
  (forall lists, is_blacklisted lists (ip_argument ctx []) = is_blacklisted lists "0.0.0.0") /\
  (forall `{GeoDbLib} g, geo_blocked g ctx = false).
Proof.
  cbn zeta. repeat split.
Qed.

(** * Samples *)

(** URIs of the form [http://host:port...] and ASCII header values. *)
Definition sample_authority (u : string) : option (string * string) :=
  rest ← strip_prefix "http://" u;
  split_once ":" (match split_once "/" rest with Some (a, _) => a | None => rest end).
Definition sample_http : HttpLib := {|
  header_to_str s := if is_ascii s then Some s else None;
  header_from_str s := if is_ascii s then Some s else None;
  uri := string;
  uri_parse u := if starts_with u "http://" then Some u else None;
  uri_host u := fst <$> sample_authority u;
  uri_port u := '(_, p) ← sample_authority u; parse_unsigned 16 p;
  json_error_text msg := "{" +:+ quoted "error" +:+ ":" +:+ quoted msg +:+ "}"
|}.

Definition sample_raw : RawRequest :=
  mkRaw "GET" "/api/users" (Some "id=1")
    [("host", "waf.example"); ("connection", "keep-alive"); ("accept", "text/html"); ("accept", "text/plain");
     ("upgrade", "websocket")] (Some "").
Definition sample_upstream : Upstream :=
  mkUpstream "GET" "http://127.0.0.1:33333/api/users?id=1"
    [("accept", "text/html"); ("accept", "text/plain"); ("host", "127.0.0.1:33333")] "".

Lemma forward_request_headers_witness :
  @forward_request sample_http sample_raw "" "http://127.0.0.1:33333" = Some sample_upstream /\
  header_values "host" (up_headers sample_upstream) = ["127.0.0.1:33333"].
Proof.
  split; [reflexivity|].
  destruct (@forward_request_headers sample_http sample_raw "" "http://127.0.0.1:33333" sample_upstream eq_refl)
    as (_ & (u & addr & Hu & Ha & Hh) & _).
  rewrite Hh. injection Hu as <-. injection Ha as <-. reflexivity.
Defined.

Section Routed.
Local Existing Instances plain_unicode literal_regex phrase_automaton pair_ipnet sorted_hash_order literal_replace
  sample_modsec_lib no_geo_db tree_yaml.
Definition routed_app : AppState :=
  mkApp sample_config
    (mkStore (sort_by_key wr_priority
                [sample_rule "late" 70;
                 mkWafRule "first" 60 ScopeGlobal (PathWildcard "/api/*") RaAllow 0 (Some "python")])
       (Engine_new Network_new)) IpListStore_new.

Lemma resolve_upstream_least_priority_witness : resolve_upstream "/api/users" routed_app = "http://127.0.0.1:33334".
Proof.
  destruct (resolve_upstream_least_priority "/api/users" routed_app
              [sample_rule "late" 70;
               mkWafRule "first" 60 ScopeGlobal (PathWildcard "/api/*") RaAllow 0 (Some "python")] eq_refl)
    as [(r & url & _ & _ & Hu)|(Hn & _)].
  - rewrite Hu. assert (Hr : resolve_upstream "/api/users" routed_app = "http://127.0.0.1:33334") by reflexivity.
    congruence.
  - exfalso. specialize (Hn (sample_rule "late" 70) ltac:(by left)). vm_compute in Hn. discriminate.
Defined.
End Routed.
