(* ===== verification/Concurrent.v ===== *)
(** Requests and reloads at the same time: the accept loop of the proxy
    ([waf-proxy/src/server.rs]) starts a task for each request while the watcher of
    the rule files replaces the rules and the engine.  The two are under locks of
    their own ([rules/store.rs]), so a request and a reload interleave between any two
    of their accesses; a schedule says in what order. *)
From S2P Require Import Prelude Utf8 RustStd Net Extern Float64 WafTypes Ast Functions Rete WorkingMemory Engine.
From S2P Require Import CrsTypes CrsTx CrsTransform CrsTarget CrsOperator CrsParser CrsEval Lists Geo GrlParser Pest Converter Matcher Loader App Proxy.
Local Open Scope Z_scope.

Section Tasks.
Context `{UnicodeTables, RegexLib, IpNetLib, HashOrder, HttpLib}.

(** * A request, access by access *)

(** [pipeline::run_inbound] once it holds the engine. *)
Definition fire_inbound (engine : Engine) (ctx : RequestContext) : RequestContext * Decision :=
  let outcome := fire engine ctx in
  let ctx := match head (matched_rules outcome) with
             | Some rule_id => with_matched_rule rule_id ctx
             | None => ctx
             end in
  (apply_risk (risk_delta outcome) ctx, outcome_to_decision outcome).

(** Where [handle_request] is: reading the body, about to take the engine, firing it,
    about to take the routing rules, talking to the upstream. *)
Inductive Task : Type :=
| Received (request_id : string) (now : Z) (raw : RawRequest)
| Deciding (ctx : RequestContext) (raw : RawRequest) (body : string)
| Firing (engine : Engine) (ctx : RequestContext) (raw : RawRequest) (body : string)
| Routing (ctx : RequestContext) (raw : RawRequest) (body : string)
| Forwarding (upstream : string) (raw : RawRequest) (body : string)
| Answered (sent : list Upstream) (resp : Response).

(** The next access of a task; [st] is the shared state at that time. *)
Definition task_step (client : http_client) (st : AppState) (t : Task) : Task :=
  match t with
  | Received request_id now raw =>
    match raw_body raw with
    | None => Answered [] (json_error 400 "failed to read request body")
    | Some body => Deciding (build_context request_id now raw body) raw body
    end
  | Deciding ctx raw body => Firing (store_engine (app_rules st)) ctx raw body
  | Firing engine ctx raw body =>
    let '(ctx, decision) := fire_inbound engine ctx in
    match decision with
    | Allow => Routing ctx raw body
    | Block reason => Answered [] (json_error 403 ("blocked: " +:+ reason))
    | Challenge _ => Answered [] (json_error 403 "challenge required")
    | RateLimit secs => Answered [] (rate_limit_response secs)
    end
  | Routing ctx raw body => Forwarding (resolve_upstream (path ctx) st) raw body
  | Forwarding upstream raw body =>
    let '(sent, resp) := forward client raw body upstream in
    Answered sent (match resp with Some resp => resp | None => json_error 502 "upstream unavailable" end)
  | Answered sent resp => Answered sent resp
  end.
End Tasks.

Section Watching.
Context `{UnicodeTables, RegexLib, HashOrder, YamlLib}.
Variable yaml_rules : string -> option (list Rule).
Variable yaml_value : string -> option yaml.
Variable pest_parse : string -> option (list Pair).

(** * The watcher, access by access *)

(** Where the watcher's loop is: waiting for an event, reading the YAML rules, about
    to store them, reading the GRL rules, about to store the engine. *)
Inductive Watcher : Type :=
| Waiting
| ReadingRules
| StoringRules (rules : list Rule)
| ReadingGrl
| StoringEngine (engine : Engine).

(** The next access; [fs] is the file system, and [event] what is received, then. *)
Definition watcher_step (fs : FileSystem) (dir : string) (event : option FsEvent) (w : Watcher) (s : RuleStore)
  : Watcher * RuleStore :=
  match w with
  | Waiting =>
    (match event with Some e => if is_rules_change e then ReadingRules else Waiting | None => Waiting end, s)
  | ReadingRules =>
    (match load_from_dir yaml_rules fs dir with Ok rules => StoringRules rules | Err _ => ReadingGrl end, s)
  | StoringRules rules => (ReadingGrl, reload rules s)
  | ReadingGrl =>
    (match load_grl_from_dir yaml_value pest_parse fs dir with
     | Ok asts => StoringEngine (Engine_new (compile asts))
     | Err _ => Waiting
     end, s)
  | StoringEngine engine => (Waiting, reload_engine engine s)
  end.

(** The accesses of the loop until it waits again. *)
Fixpoint finish (n : nat) (fs : FileSystem) (dir : string) (ws : Watcher * RuleStore) : Watcher * RuleStore :=
  match n, ws with
  | O, _ | _, (Waiting, _) => ws
  | S n, (w, s) => finish n fs dir (watcher_step fs dir None w s)
  end.

(** Undisturbed, on files that do not change, they handle the event. *)
Lemma watcher_handles_event fs dir event s :
  finish 4 fs dir (watcher_step fs dir event Waiting s) =
  (Waiting, handle_event yaml_rules yaml_value pest_parse fs dir event s).
Proof.
  unfold handle_event. cbn [watcher_step]. destruct event as [e|]; [|done].
  destruct (is_rules_change e); [|done]. cbn [finish watcher_step negb].
  destruct (load_from_dir yaml_rules fs dir) as [rules|], (load_grl_from_dir yaml_value pest_parse fs dir) as [asts|] eqn:Hg;
    cbn [finish watcher_step]; rewrite ?Hg; done.
Qed.
End Watching.

(** * Schedules *)

Section System.
Context `{UnicodeTables, RegexLib, IpNetLib, HashOrder, HttpLib, YamlLib}.
Variable yaml_rules : string -> option (list Rule).
Variable yaml_value : string -> option yaml.
Variable pest_parse : string -> option (list Pair).
(** The application as it was started: its configuration and lists stay. *)
Variable app : AppState.

(** [handled] counts the events that the watcher is done with. *)
Record System := mkSystem {
  store : RuleStore; watcher : Watcher; handled : nat; tasks : gmap nat Task
}.

Definition shared (s : System) : AppState := mkApp (config app) (store s) (ip_lists app).

Inductive Access : Type :=
| Accept (i : nat) (request_id : string) (now : Z) (raw : RawRequest)
| Work (i : nat) (client : http_client)
| Watch (fs : FileSystem) (event : option FsEvent).

Definition is_waiting (w : Watcher) : bool := match w with Waiting => true | _ => false end.

(** One access: a request arrives, a task goes on, or the watcher does. *)
Definition access (a : Access) (s : System) : System :=
  match a with
  | Accept i request_id now raw =>
    match tasks s !! i with
    | None => mkSystem (store s) (watcher s) (handled s) (<[i := Received request_id now raw]> (tasks s))
    | Some _ => s
    end
  | Work i client =>
    match tasks s !! i with
    | Some t => mkSystem (store s) (watcher s) (handled s) (<[i := task_step client (shared s) t]> (tasks s))
    | None => s
    end
  | Watch fs event =>
    let '(w, st) := watcher_step yaml_rules yaml_value pest_parse fs (rules_dir (cfg_rules (config app))) event
                      (watcher s) (store s) in
    mkSystem st w (if negb (is_waiting (watcher s)) && is_waiting w then S (handled s) else handled s) (tasks s)
  end.

Fixpoint state_at (schedule : nat -> Access) (s : System) (n : nat) : System :=
  match n with
  | O => s
  | S n => access (schedule n) (state_at schedule s n)
  end.

(** The events that the watcher has begun with. *)
Definition begun (s : System) : nat := if is_waiting (watcher s) then handled s else S (handled s).

(** How many events the rules in the store reflect; for the engine that is [handled]. *)
Definition rules_version (s : System) : nat :=
  match watcher s with
  | Waiting | ReadingRules | StoringRules _ => handled s
  | ReadingGrl | StoringEngine _ => S (handled s)
  end.
End System.

(** * Every answer is that of one instant *)

Section Instants.
Context `{UnicodeTables, RegexLib, IpNetLib, HashOrder, HttpLib, YamlLib}.
Variable yaml_rules : string -> option (list Rule).
Variable yaml_value : string -> option yaml.
Variable pest_parse : string -> option (list Pair).
Variable app : AppState.
Variable schedule : nat -> Access.
Variable start : System.
Notation at_time := (state_at yaml_rules yaml_value pest_parse app schedule start).

Lemma versions_ordered (s : System) : (handled s <= rules_version s <= begun s)%nat.
Proof. unfold rules_version, begun. destruct (watcher s); cbn; lia. Qed.

(** One access moves one version at most, and leaves what keeps its version. *)
Lemma access_versions a s :
  let s' := access yaml_rules yaml_value pest_parse app a s in
  (handled s <= handled s')%nat /\ (rules_version s <= rules_version s')%nat /\ (begun s <= begun s')%nat /\
  (handled s' = handled s -> store_engine (store s') = store_engine (store s)) /\
  (rules_version s' = rules_version s -> store_rules (store s') = store_rules (store s)) /\
  (handled s' = handled s \/ rules_version s' = rules_version s).
Proof.
  destruct a as [i id now raw|i client|fs event]; cbn [access].
  - destruct (tasks s !! i); cbn; auto 10.
  - destruct (tasks s !! i); cbn; auto 10.
  - unfold rules_version, begun. destruct s as [st [| |rules| |eng] k ts]; cbn [watcher watcher_step].
    + destruct event as [e|]; [destruct (is_rules_change e)|]; cbn; auto 10.
    + destruct (load_from_dir _ _ _); cbn; repeat split; auto; lia.
    + cbn. repeat split; auto; lia.
    + destruct (load_grl_from_dir _ _ _ _); cbn; repeat split; auto; lia.
    + cbn. repeat split; auto; lia.
Qed.

Lemma versions_grow m n :
  (m <= n)%nat -> (handled (at_time m) <= handled (at_time n))%nat /\
  (rules_version (at_time m) <= rules_version (at_time n))%nat /\ (begun (at_time m) <= begun (at_time n))%nat.
Proof.
  induction 1 as [|n Hmn IH]; [lia|]. cbn [state_at].
  pose proof (access_versions (schedule n) (at_time n)) as (? & ? & ? & _). lia.
Qed.

(** An engine and later rules, no more than one event apart, were in the store
    together at some time between. *)
Lemma together m n :
  (m <= n)%nat -> (rules_version (at_time n) <= S (handled (at_time m)))%nat ->
  exists t, (m <= t <= n)%nat /\
    store_engine (store (at_time t)) = store_engine (store (at_time m)) /\
    store_rules (store (at_time t)) = store_rules (store (at_time n)).
Proof.
  induction 1 as [|n Hmn IH]; intros Hv; [by exists m|].
  pose proof (access_versions (schedule n) (at_time n)) as (Hh & Hr & _ & Heng & Hrules & Hone).
  change (access _ _ _ _ (schedule n) (at_time n)) with (at_time (S n)) in *.
  destruct (decide (rules_version (at_time (S n)) = rules_version (at_time n))) as [Hsame|Hmoved].
  - destruct IH as (t & Ht & He & Hru); [lia|]. exists t. repeat split; [lia..|done|]. rewrite Hru. symmetry. auto.
  - exists (S n). repeat split; [lia..|].
    assert (Hk : forall k, (m <= k <= n)%nat -> handled (at_time k) = handled (at_time m)).
    { intros k Hk. pose proof (versions_grow m k ltac:(lia)). pose proof (versions_grow k n ltac:(lia)).
      pose proof (versions_ordered (at_time n)). lia. }
    assert (Hprev : forall k, (m <= k <= n)%nat -> store_engine (store (at_time k)) = store_engine (store (at_time m))).
    { intros k [Hk1 Hk2]. induction Hk1 as [|k Hk1 IHk]; [done|]. rewrite <- IHk by lia.
      destruct (access_versions (schedule k) (at_time k)) as (_ & _ & _ & Hkeep & _). apply Hkeep.
      change (access _ _ _ _ (schedule k) (at_time k)) with (at_time (S k)). rewrite (Hk k), (Hk (S k)) by lia. done. }
    rewrite <- (Hprev n) by lia. apply Heng. destruct Hone; [done|lia].
Qed.

(** What a task has seen since it was received at time [a]: the engine at one time,
    the rules at a later one. *)
Definition seen (a n : nat) (id : string) (now : Z) (raw : RawRequest) (t : Task) : Prop :=
  let ctx := build_context id now raw in
  match t with
  | Received id' now' raw' => id' = id /\ now' = now /\ raw' = raw
  | Deciding c raw' body => raw' = raw /\ raw_body raw = Some body /\ c = ctx body
  | Firing eng c raw' body => raw' = raw /\ raw_body raw = Some body /\ c = ctx body /\
      exists t1, (a <= t1 <= n)%nat /\ eng = store_engine (store (at_time t1))
  | Routing c raw' body => raw' = raw /\ raw_body raw = Some body /\
      exists t1, (a <= t1 <= n)%nat /\ fire_inbound (store_engine (store (at_time t1))) (ctx body) = (c, Allow)
  | Forwarding up raw' body => raw' = raw /\ raw_body raw = Some body /\
      exists t1 t2 c, (a <= t1 <= t2)%nat /\ (t2 <= n)%nat /\
        fire_inbound (store_engine (store (at_time t1))) (ctx body) = (c, Allow) /\
        up = resolve_upstream (path c) (shared app (at_time t2))
  | Answered sent resp =>
      exists t1 t2 client, (a <= t1 <= t2)%nat /\ (t2 <= n)%nat /\
        handle_request client id now raw
          (mkApp (config app) (mkStore (store_rules (store (at_time t2))) (store_engine (store (at_time t1)))) (ip_lists app))
        = (sent, resp)
  end.

Lemma seen_later a n id now raw t : seen a n id now raw t -> seen a (S n) id now raw t.
Proof.
  destruct t; cbn [seen]; [done|done| | | |].
  - intros (? & ? & ? & t1 & ? & ?). repeat split; [done..|]. exists t1. split; [lia|done].
  - intros (? & ? & t1 & ? & ?). repeat split; [done..|]. exists t1. split; [lia|done].
  - intros (? & ? & t1 & t2 & c & ? & ? & ? & ?). repeat split; [done..|]. exists t1, t2, c. split; [lia|]. split; [lia|]. done.
  - intros (t1 & t2 & client & ? & ? & ?). exists t1, t2, client. split; [lia|]. split; [lia|]. done.
Qed.

Lemma task_step_seen a n id now raw client t :
  (a <= n)%nat -> seen a n id now raw t -> seen a (S n) id now raw (task_step client (shared app (at_time n)) t).
Proof.
  intros Han. destruct t as [id' now' raw'|c raw' body|eng c raw' body|c raw' body|up raw' body|sent resp]; cbn [seen task_step].
  - intros (-> & -> & ->). destruct (raw_body raw) as [body|] eqn:Hb; [done|].
    exists n, n, client. unfold handle_request. rewrite Hb. repeat split; lia.
  - intros (-> & Hb & ->). repeat split; [done..|]. exists n. split; [lia|done].
  - intros (-> & Hb & -> & t1 & Ht1 & ->).
    destruct (fire_inbound _ _) as [c d] eqn:Hf.
    assert (Hd : d <> Allow -> seen a (S n) id now raw (Answered []
                 (match d with Block reason => json_error 403 ("blocked: " +:+ reason)
                  | RateLimit secs => rate_limit_response secs | _ => json_error 403 "challenge required" end))).
    { intros Hna. exists t1, t1, client. split; [lia|]. split; [lia|]. unfold handle_request. rewrite Hb.
      change (run_inbound _ _) with (fire_inbound (store_engine (store (at_time t1))) (build_context id now raw body)).
      rewrite Hf. by destruct d. }
    destruct d; try (apply Hd; done). cbn [seen]. repeat split; [done..|]. exists t1. split; [lia|done].
  - intros (-> & Hb & t1 & Ht1 & Hf). repeat split; [done..|]. exists t1, n, c. repeat split; [lia..|done].
  - intros (-> & Hb & t1 & t2 & c & Ht1 & Ht2 & Hf & ->).
    destruct (forward client raw body _) as [sent resp] eqn:Hw. exists t1, t2, client. repeat split; [lia..|].
    unfold handle_request. rewrite Hb.
    change (run_inbound _ _) with (fire_inbound (store_engine (store (at_time t1))) (build_context id now raw body)).
    rewrite Hf. change (resolve_upstream (path c) _) with (resolve_upstream (path c) (shared app (at_time t2))). by rewrite Hw.
  - intros (t1 & t2 & client' & Ht1 & Ht2 & Hh). exists t1, t2, client'. split; [lia|]. split; [lia|]. done.
Qed.

Lemma task_seen a n i id now raw :
  (a <= n)%nat -> tasks (at_time a) !! i = Some (Received id now raw) ->
  exists t, tasks (at_time n) !! i = Some t /\ seen a n id now raw t.
Proof.
  intros Han Ha. induction Han as [|n Han (t & Ht & Hs)]; [by eexists|]. cbn [state_at].
  destruct (schedule n) as [j id' now' raw'|j client|fs event]; cbn [access].
  - destruct (tasks (at_time n) !! j) eqn:Hj; cbn [tasks]; [eauto using seen_later|].
    rewrite lookup_insert_ne by congruence. eauto using seen_later.
  - destruct (decide (j = i)) as [->|Hne].
    + rewrite Ht. cbn [tasks]. rewrite lookup_insert_eq. eauto using task_step_seen.
    + destruct (tasks (at_time n) !! j); cbn [tasks]; [rewrite lookup_insert_ne by done|]; eauto using seen_later.
  - destruct (watcher_step _ _ _ _ _ _ _ _). cbn [tasks]. eauto using seen_later.
Qed.

(** C11: requests and reloads do not tear: when the watcher is busy with one event at
    most while a request is handled, the request is answered, whatever the order of
    their accesses, as if it had been handled at one instant, by the rules and the
    engine that were in the store then. *)
Theorem request_at_one_instant a n i id now raw sent resp :
  (a <= n)%nat ->
  tasks (at_time a) !! i = Some (Received id now raw) ->
  tasks (at_time n) !! i = Some (Answered sent resp) ->
  (begun (at_time n) <= S (handled (at_time a)))%nat ->
  exists t client, (a <= t <= n)%nat /\
    handle_request client id now raw (shared app (at_time t)) = (sent, resp).
Proof.
  intros Han Ha Hn Hone. destruct (task_seen a n i id now raw Han Ha) as (task & Ht & Hs).
  rewrite Hn in Ht. injection Ht as <-. destruct Hs as (t1 & t2 & client & Ht1 & Ht2 & Hh).
  destruct (together t1 t2) as (t & Htt & He & Hr); [lia|..].
  - pose proof (versions_grow t2 n Ht2). pose proof (versions_grow a t1 ltac:(lia)).
    pose proof (versions_ordered (at_time n)). lia.
  - exists t, client. split; [lia|]. rewrite <- Hh. unfold shared. do 2 f_equal.
    destruct (store (at_time t)); cbn in *. by subst.
Qed.
End Instants.

(** * Two reloads during one request *)

Section Sample.
Local Existing Instances plain_unicode literal_regex phrase_automaton pair_ipnet sorted_hash_order literal_replace
  sample_modsec_lib no_geo_db tree_yaml sample_http.

(** A rule that blocks every request, and a routing rule for one backend. *)
Definition block_all : string :=
  "rule " +:+ quoted "B" +:+ " { when true then block(" +:+ quoted "closed" +:+ "); }".
Definition to_python : Rule := mkWafRule "py" 10 ScopeGlobal (PathWildcard "/api/*") RaAllow 0 (Some "python").
Definition one_rule_yaml (text : string) : option (list Rule) :=
  if String.eqb text "python" then Some [to_python] else None.
Definition dir_of (paths : list string) : FileSystem :=
  mkFs (fun _ => true) (fun _ => true) (fun _ => Some (map Some paths))
    (fun p => if String.eqb p "rules/b.grl" then Some block_all else Some "python").
Definition closed_dir : FileSystem := dir_of ["rules/b.grl"].
Definition closed_dir_routed : FileSystem := dir_of ["rules/b.grl"; "rules/py.yaml"].

(** At first every request is let through to the default upstream. *)
Definition open_app : AppState := mkApp sample_config (mkStore [] (Engine_new Network_new)) IpListStore_new.
Definition open_start : System := mkSystem (app_rules open_app) Waiting 0 ∅.

Definition rules_event : option FsEvent := Some (mkFsEvent EvModify ["rules/b.grl"]).
Definition no_upstream : http_client := fun _ => None.
Definition reloading (fs : FileSystem) : list Access := repeat (Watch fs rules_event) 5.
Definition in_order (l : list Access) (n : nat) : Access := nth n l (Watch closed_dir None).
Notation run_of l := (state_at one_rule_yaml (fun _ => None) grammar_parse open_app (in_order l) open_start).

(** A request that takes the engine before a reload, and its routing rules after it. *)
Definition one_reload : list Access :=
  [Accept 0 "r" 0 sample_raw; Work 0 no_upstream; Work 0 no_upstream] ++ reloading closed_dir_routed ++
  [Work 0 no_upstream; Work 0 no_upstream; Work 0 no_upstream].
(** The same with a reload before, and the second one half way. *)
Definition two_reloads : list Access :=
  [Accept 0 "r" 0 sample_raw; Work 0 no_upstream; Work 0 no_upstream] ++ reloading closed_dir ++
  repeat (Watch closed_dir_routed rules_event) 3 ++
  [Work 0 no_upstream; Work 0 no_upstream; Work 0 no_upstream].

Definition python_request : Upstream :=
  mkUpstream "GET" "http://127.0.0.1:33334/api/users?id=1"
    [("accept", "text/html"); ("accept", "text/plain"); ("host", "127.0.0.1:33334")] "".
Definition no_answer : Response := json_error 502 "upstream unavailable".

Lemma request_at_one_instant_witness :
  exists t client, (1 <= t <= 11)%nat /\
    handle_request client "r" 0 sample_raw (shared open_app (run_of one_reload t)) = ([python_request], no_answer).
Proof.
  apply (request_at_one_instant one_rule_yaml (fun _ => None) grammar_parse open_app (in_order one_reload) open_start
           1 11 0 "r" 0 sample_raw [python_request] no_answer).
  - lia.
  - reflexivity.
  - vm_compute. reflexivity.
  - vm_compute. lia.
Defined.

(** Two reloads can tear a request apart: it is sent to a backend of the newest
    rules although the engine that allowed it was replaced before they were stored,
    and at no time would a request have been sent there. *)
Theorem two_reloads_tear :
  tasks (run_of two_reloads 14) !! 0%nat = Some (Answered [python_request] no_answer) /\
  forall t client, (t <= 14)%nat ->
    (handle_request client "r" 0 sample_raw (shared open_app (run_of two_reloads t))).1 <> [python_request].
Proof.
  split; [vm_compute; reflexivity|]. intros t client Ht.
  do 15 (destruct t as [|t]; [vm_compute; discriminate|]). lia.
Qed.
End Sample.

(** * Reading the lists while they change *)

Section Lookups.
Context `{IpNetLib}.

(** [is_blacklisted] takes the lock of the whitelist, and later that of the
    blacklist: the answer when the lists are [first] and [second] at these times. *)
Definition blacklisted_between (first second : IpListStore) (ip : string) : bool :=
  match parse_ip ip with
  | None => false
  | Some addr => if ipset_contains (whitelist first) addr then false else ipset_contains (blacklist second) addr
  end.

(** An address that is let through was not blacklisted at one of the two times; one
    that is held back was not whitelisted at the first and is on the blacklist at the
    second, which is the answer of the second if the whitelist did not change. *)
Theorem lookups_between first second ip :
  (first = second -> blacklisted_between first second ip = is_blacklisted first ip) /\
  (blacklisted_between first second ip = false -> is_blacklisted first ip = false \/ is_blacklisted second ip = false) /\
  (blacklisted_between first second ip = true ->
   is_whitelisted first ip = false /\
   (is_blacklisted second ip = true \/ is_whitelisted second ip = true)).
Proof.
  unfold blacklisted_between, is_blacklisted, is_whitelisted.
  destruct (parse_ip ip) as [addr|]; [|naive_solver].
  split; [by intros ->|]. destruct (ipset_contains (whitelist first) addr), (ipset_contains (whitelist second) addr); naive_solver.
Qed.
End Lookups.

(** An address that is whitelisted before the range around it is blacklisted can
    still be held back, by a lookup that looked at the whitelist before. *)
Example carve_out_race :
  let l0 := IpListStore_new (H := pair_ipnet) in
  let l1 := add_to_whitelist "10.0.0.5" l0 in
  let l2 := add_to_blacklist "10.0.0.0/8" l1 in
  blacklisted_between l0 l2 "10.0.0.5" = true /\
  map (fun l => is_blacklisted l "10.0.0.5") [l0; l1; l2] = [false; false; false].
Proof. split; reflexivity. Qed.
