(* ===== verification/ConfigSchema.v ===== *)
(** The configuration file ([config/schema.rs]): the readers that [serde] derives for
    [Config] and its tables, which files they accept, and what the application is
    started with when an optional table is not there. *)
From S2P Require Import Prelude Utf8 RustStd Net Extern Float64 WafTypes Ast Functions Rete WorkingMemory Engine.
From S2P Require Import CrsTypes CrsTx CrsTransform CrsTarget CrsOperator CrsParser CrsEval Lists Geo GrlParser Converter Matcher Loader App.
From S2P Require Import Serde Schema TreeModel WafSchema.
Local Open Scope Z_scope.

(** * Readers *)

Section Read.
Context {D : Type} `{DataModel D}.

Definition read_server_config (v : D) : option ServerConfig :=
  s ← parts_of v ≫= struct_fields ["bind"; "upstream"; "backends"];
  bind ← required dm_str s 0;
  upstream ← required dm_str s 1;
  backends ← defaulted ∅ string_map s 2;
  Some (mkServerConfig bind upstream backends).

Definition read_dashboard_api_config (v : D) : option DashboardApiConfig :=
  s ← parts_of v ≫= struct_fields ["bind"]; mkDashboardApiConfig <$> required dm_str s 0.

Definition read_rules_config (v : D) : option RulesConfig :=
  s ← parts_of v ≫= struct_fields ["dir"; "crs_dir"; "blacklist_file"];
  dir ← required dm_str s 0;
  crs ← optional_default dm_str s 1;
  blacklist ← optional_default dm_str s 2;
  Some (mkRulesConfig dir crs blacklist).

Definition read_fail_mode : D -> option FailMode := unit_variant [("close", Close); ("open", Open)].

Definition read_tier_config (v : D) : option TierConfig :=
  s ← parts_of v ≫=
        struct_fields ["tier"; "routes"; "fail_mode"; "max_rps_per_ip"; "max_rps_per_session"; "cache_ttl_secs"];
  tier ← required read_tier s 0;
  routes ← required (seq_of dm_str) s 1;
  mode ← required read_fail_mode s 2;
  per_ip ← optional u32 s 3;
  per_session ← optional u32 s 4;
  ttl ← optional u64 s 5;
  Some (mkTierConfig tier routes mode per_ip per_session ttl).

(** [HashMap<String, TierConfig>] *)
Definition read_tiers (v : D) : option (gmap string TierConfig) :=
  m ← dm_map v;
  kvs ← mapM (fun kv => t ← read_tier_config (snd kv); Some (fst kv, t)) m;
  Some (foldl (fun acc kv => <[fst kv := snd kv]> acc) ∅ kvs).

Definition read_risk_config (v : D) : option RiskConfig :=
  s ← parts_of v ≫= struct_fields ["allow_threshold"; "challenge_threshold"];
  allow ← required u32 s 0; challenge ← required u32 s 1;
  Some (mkRiskConfig allow challenge).

Definition read_rate_limit_config (v : D) : option RateLimitConfig :=
  s ← parts_of v ≫= struct_fields ["default_rps_per_ip"; "default_rps_per_session"];
  per_ip ← required u32 s 0; per_session ← required u32 s 1;
  Some (mkRateLimitConfig per_ip per_session).

Definition read_cache_config (v : D) : option CacheConfig :=
  s ← parts_of v ≫= struct_fields ["ttl_medium_secs"]; mkCacheConfig <$> required u64 s 0.

Definition read_circuit_breaker_config (v : D) : option CircuitBreakerConfig :=
  s ← parts_of v ≫= struct_fields ["failure_threshold"; "recovery_secs"];
  failures ← required u32 s 0; secs ← required u64 s 1;
  Some (mkCircuitBreakerConfig failures secs).

Definition read_audit_config (v : D) : option AuditConfig :=
  s ← parts_of v ≫= struct_fields ["log_path"]; mkAuditConfig <$> required dm_str s 0.

Definition read_geo_config (v : D) : option GeoConfig :=
  s ← parts_of v ≫= struct_fields ["db_path"; "country_headers"; "blocked_countries"];
  db ← optional_default dm_str s 0;
  hs ← defaulted [] (seq_of dm_str) s 1;
  blocked ← defaulted [] (seq_of dm_str) s 2;
  Some (mkGeoConfig db hs blocked).

Definition config_tables : list string :=
  ["server"; "dashboard_api"; "rules"; "tiers"; "risk"; "rate_limit"; "cache"; "circuit_breaker"; "audit"; "geo"].

Definition read_config (v : D) : option Config :=
  s ← parts_of v ≫= struct_fields config_tables;
  server ← required read_server_config s 0;
  dashboard ← required read_dashboard_api_config s 1;
  rules ← defaulted RulesConfig_default read_rules_config s 2;
  tiers ← required read_tiers s 3;
  risk ← required read_risk_config s 4;
  rate_limit ← required read_rate_limit_config s 5;
  cache ← required read_cache_config s 6;
  breaker ← required read_circuit_breaker_config s 7;
  audit ← required read_audit_config s 8;
  geo ← defaulted GeoConfig_default read_geo_config s 9;
  Some (mkConfig server dashboard rules tiers risk rate_limit cache breaker audit geo).
End Read.

(** * What is accepted *)

Section Accepted.
Context {D : Type} `{DataModel D}.

(** A table has one value for each key. *)
Lemma field_value_nodup (m : list (string * D)) k : base.NoDup (map fst m) -> field_value m k = Some (assoc k m).
Proof.
  unfold field_value, assoc. induction m as [|[k' x] m IH]; cbn; [done|]. intros [Hnin Hnd]%NoDup_cons.
  destruct (String.eqb_spec k' k) as [->|]; [|by apply IH].
  assert (Hno : List.filter (fun kv : string * D => String.eqb (fst kv) k) m = []).
  { clear -Hnin. induction m as [|[k' y] m IH]; [done|]. cbn in *. apply not_elem_of_cons in Hnin as [Hne Hnin].
    destruct (String.eqb_spec k' k) as [->|]; [done|]. by apply IH. }
  by rewrite Hno.
Qed.

Lemma struct_fields_nodup names (m : list (string * D)) :
  base.NoDup (map fst m) ->
  struct_fields names (Named m) = Some (mkFields true (fun i => nth i (map (fun k => assoc k m) names) None)).
Proof.
  intros Hnd. cbn [struct_fields]. rewrite (mapM_total _ (fun k => assoc k m)); [done|].
  apply List.Forall_forall. intros k _. by apply field_value_nodup.
Qed.

(** The table [name] of a file, and that of an optional one. *)
Definition table {A} (read : D -> option A) (m : list (string * D)) (name : string) : option A := assoc name m ≫= read.
Definition table_or {A} (d : A) (read : D -> option A) (m : list (string * D)) (name : string) : option A :=
  match assoc name m with Some v => read v | None => Some d end.

(** A file is accepted exactly when the eight required tables are there and readable
    and the two optional ones readable or missing; neither the order of the tables nor
    tables of other names matter. *)
Theorem config_accepted v m c :
  dm_map v = Some m -> base.NoDup (map fst m) ->
  read_config v = Some c <->
  table read_server_config m "server" = Some (server c) /\
  table read_dashboard_api_config m "dashboard_api" = Some (dashboard_api c) /\
  table_or RulesConfig_default read_rules_config m "rules" = Some (cfg_rules c) /\
  table read_tiers m "tiers" = Some (tiers c) /\
  table read_risk_config m "risk" = Some (risk c) /\
  table read_rate_limit_config m "rate_limit" = Some (rate_limit c) /\
  table read_cache_config m "cache" = Some (cache c) /\
  table read_circuit_breaker_config m "circuit_breaker" = Some (circuit_breaker c) /\
  table read_audit_config m "audit" = Some (audit c) /\
  table_or GeoConfig_default read_geo_config m "geo" = Some (geo c).
Proof.
  intros Hm Hnd. unfold read_config, parts_of. rewrite Hm. cbn [mbind option_bind].
  rewrite struct_fields_nodup by done. unfold required, defaulted, table, table_or, config_tables.
  cbn [mbind option_bind value_at nth map]. split.
  - intros Hr. read_fields Hr. injection Hr as <-. cbn. auto 20.
  - intros (H1 & H2 & H3 & H4 & H5 & H6 & H7 & H8 & H9 & H10).
    cbn [mbind option_bind] in *. rewrite H1, H2, H3, H4, H5, H6, H7, H8, H9, H10. by destruct c.
Qed.

(** The eight required tables are there and readable, and the two others readable or
    missing. *)
Record readable_tables (m : list (string * D)) : Prop := {
  server_readable : is_Some (table read_server_config m "server");
  dashboard_readable : is_Some (table read_dashboard_api_config m "dashboard_api");
  rules_readable : is_Some (table_or RulesConfig_default read_rules_config m "rules");
  tiers_readable : is_Some (table read_tiers m "tiers");
  risk_readable : is_Some (table read_risk_config m "risk");
  rate_limit_readable : is_Some (table read_rate_limit_config m "rate_limit");
  cache_readable : is_Some (table read_cache_config m "cache");
  circuit_breaker_readable : is_Some (table read_circuit_breaker_config m "circuit_breaker");
  audit_readable : is_Some (table read_audit_config m "audit");
  geo_readable : is_Some (table_or GeoConfig_default read_geo_config m "geo")
}.
Lemma readable_accepted v m :
  dm_map v = Some m -> base.NoDup (map fst m) -> readable_tables m ->
  exists c, read_config v = Some c /\
    table_or RulesConfig_default read_rules_config m "rules" = Some (cfg_rules c) /\
    table_or GeoConfig_default read_geo_config m "geo" = Some (geo c).
Proof.
  intros Hm Hnd [[s Hs] [d Hd] [r Hr] [t Ht] [k Hk] [l Hl] [c Hc] [b Hb] [a Ha] [g Hg]].
  exists (mkConfig s d r t k l c b a g). split; [|done]. by apply (config_accepted v m).
Qed.
End Accepted.

(** * Tables that are not there *)

Section Missing.
Context `{UnicodeTables, RegexLib, AhoCorasickLib, IpNetLib, HashOrder, !RegexReplaceLib, ModSecLib, GeoDbLib, YamlLib}.
Variable yaml_rules : string -> option (list Rule).
Variable yaml_value : string -> option yaml.
Variable pest_parse : string -> option (list Pair).
Context {D : Type} `{DataModel D}.
Variable toml : string -> option D.

Lemma no_country_blocked g ctx : blocked_countries g = [] -> geo_blocked g ctx = false.
Proof. intros Hb. unfold geo_blocked. rewrite Hb. apply andb_false_r. Qed.

Lemma empty_lists_block_nothing ip : is_blacklisted IpListStore_new ip = false.
Proof. unfold is_blacklisted. by destruct (parse_ip ip). Qed.

End Missing.

(** * The command line *)

(** [RunArgs]: the path of the configuration, with its default. *)
Record RunArgs := mkRunArgs { config_path : string }.
Definition RunArgs_default : RunArgs := mkRunArgs "config/waf.toml".

Section Start.
Context `{UnicodeTables, RegexLib, AhoCorasickLib, IpNetLib, HashOrder, !RegexReplaceLib, ModSecLib, GeoDbLib, YamlLib}.
Variable yaml_rules : string -> option (list Rule).
Variable yaml_value : string -> option yaml.
Variable pest_parse : string -> option (list Pair).
Context {D : Type} `{DataModel D}.
Variable toml : string -> option D.

(** [run_async] up to the two servers: the addresses they listen on, and the state they
    share. *)
Definition run_async (audit_ok : bool) (fs : FileSystem) (args : RunArgs) : result string (string * string * AppState) :=
  config ← load_config (fun text => toml text ≫= read_config) (fs_read fs (config_path args));
  state ← AppState_init yaml_rules yaml_value pest_parse audit_ok fs config;
  Ok (bind (server config), dash_bind (dashboard_api config), state).

(** The functions of the plugins that need the tables. *)
Lemma no_geo_table fs c st :
  AppState_init yaml_rules yaml_value pest_parse true fs c = Ok st -> geo c = GeoConfig_default ->
  forall ctx args, call (engine_registry (store_engine (app_rules st))) "geo_blocked" ctx args = VBool false.
Proof.
  intros Hst Hgeo ctx args. destruct (startup_registers_plugins yaml_rules yaml_value pest_parse fs c st Hst) as (_ & Hblocked & _).
  rewrite Hblocked. f_equal. apply no_country_blocked. unfold configured_geo. by rewrite Hgeo.
Qed.
Lemma no_rules_table fs c st :
  AppState_init yaml_rules yaml_value pest_parse true fs c = Ok st -> cfg_rules c = RulesConfig_default ->
  let reg := engine_registry (store_engine (app_rules st)) in
  ip_lists st = IpListStore_new /\ reg !! "crs_score" = None /\ reg !! "crs_match" = None.
Proof.
  unfold AppState_init. cbn [negb]. intros [= <-] Hrules. cbn [app_rules store_engine reload_engine ip_lists].
  assert (Hlists : initial_lists fs (blacklist_file (cfg_rules c)) = IpListStore_new) by (by rewrite Hrules).
  split; [done|]. rewrite Hlists. unfold initial_engine. rewrite Hrules. cbn [install_crs crs_dir RulesConfig_default].
  assert (Hfree : forall n, n = "crs_score" \/ n = "crs_match" ->
    engine_registry (install (GeoPlugin (configured_geo c)) (install (BlacklistPlugin IpListStore_new)
      (Engine_new (compile (initial_grl yaml_value pest_parse fs (rules_dir RulesConfig_default)))))) !! n = None).
  { intros n Hn. rewrite (install_other (GeoPlugin _)) by (destruct Hn as [-> | ->]; set_solver).
    rewrite (install_other (BlacklistPlugin _)) by (destruct Hn as [-> | ->]; set_solver).
    cbn [Engine_new engine_registry]. unfold register_context_defaults.
    rewrite !lookup_register_ne by (by destruct Hn as [-> | ->]). apply (lookup_empty (M := gmap string)). }
  split; apply Hfree; tauto.
Qed.

(** C27: a configuration without the table [geo], or without the table [rules], be it
    that its name is misspelt, starts and disarms the application, when the other
    tables can be read and the audit log can be opened, whatever other tables the file
    has and whatever the file system holds.  Without [geo], [geo_blocked] is false for
    every request.  Without [rules], no address is on the blacklist, and the core rule
    set is not there: no rule that wants a positive score, or a match, of it holds. *)
Theorem missing_tables_disarm text v m fs args :
  fs_read fs (config_path args) = Some text -> toml text = Some v ->
  dm_map v = Some m -> base.NoDup (map fst m) -> readable_tables m ->
  exists c st, run_async true fs args = Ok (bind (server c), dash_bind (dashboard_api c), st) /\
    let reg := engine_registry (store_engine (app_rules st)) in
    (assoc "geo" m = None -> forall ctx args, call reg "geo_blocked" ctx args = VBool false) /\
    (assoc "rules" m = None ->
       rules_dir (cfg_rules c) = "config/rules" /\
       (forall ip, is_blacklisted (ip_lists st) ip = false) /\
       (forall ctx args, call reg "ip_in_blacklist" ctx args = VBool false) /\
       (forall ctx n, 0 < n ->
          as_bool (eval_expr (WorkingMemory_new ctx reg) (EBinary BGte (ECall "crs_score" []) (ELiteral (VInt n)))) = false) /\
       (forall ctx args, as_bool (eval_expr (WorkingMemory_new ctx reg) (ECall "crs_match" args)) = false)).
Proof.
  intros Hread Ht Hm Hnd Hok. destruct (readable_accepted v m Hm Hnd Hok) as (c & Hc & Hrules & Hgeo).
  destruct (AppState_init yaml_rules yaml_value pest_parse true fs c) as [st|e] eqn:Hst; [|done]. exists c, st. split.
  { unfold run_async, load_config. rewrite Hread. cbn [ok_or mbind result_mbind]. rewrite Ht. cbn [mbind option_bind]. rewrite Hc.
    cbn [ok_or mbind result_mbind]. by rewrite Hst. }
  unfold table_or in Hrules, Hgeo. split.
  - intros Hno. rewrite Hno in Hgeo. injection Hgeo as Hgeo. by apply (no_geo_table fs c st Hst).
  - intros Hno. rewrite Hno in Hrules. injection Hrules as Hrules.
    destruct (no_rules_table fs c st Hst (eq_sym Hrules)) as (Hlists & Hscore & Hmatch).
    destruct (startup_registers_plugins yaml_rules yaml_value pest_parse fs c st Hst) as (Hblack & _).
    split; [by rewrite <- Hrules|]. rewrite Hlists in *. split; [apply empty_lists_block_nothing|]. split; [|split].
    + intros ctx args'. rewrite Hblack. f_equal. apply empty_lists_block_nothing.
    + intros ctx n Hn. cbn [eval_expr eval_binary as_bool map registry fact WorkingMemory_new].
      rewrite call_unregistered by done. cbn. apply Z.leb_gt. lia.
    + intros ctx args'. cbn [eval_expr registry fact WorkingMemory_new]. by rewrite call_unregistered.
Qed.

(** The program starts unless the configuration cannot be read, is not accepted, or
    the audit log cannot be opened: nothing about rules, lists, core rules or the
    country database keeps it from starting. *)
Theorem run_async_outcome (audit_ok : bool) fs args :
  match fs_read fs (config_path args) with
  | None => run_async audit_ok fs args = Err "cannot read"
  | Some text =>
    match toml text ≫= read_config with
    | None => run_async audit_ok fs args = Err "invalid waf.toml"
    | Some c =>
      if audit_ok then exists st, run_async audit_ok fs args = Ok (bind (server c), dash_bind (dashboard_api c), st) /\ config st = c
      else run_async audit_ok fs args = Err "audit log"
    end
  end.
Proof.
  unfold run_async, load_config. destruct (fs_read fs (config_path args)) as [text|]; [|done]. cbn [ok_or mbind result_mbind].
  destruct (toml text ≫= read_config) as [c|]; [|done]. cbn [ok_or mbind result_mbind].
  destruct audit_ok; [|done]. eexists. split; [reflexivity|done].
Qed.
End Start.

(** * The shipped file *)

(** [config/waf.toml]; [rules] and [geo] are its optional tables. *)
Definition tier_table (tier : string) (routes : list string) (mode : string) (more : list (string * ytree)) : ytree :=
  YtMap ([("tier", YtStr tier); ("routes", YtSeq (map YtStr routes)); ("fail_mode", YtStr mode)] ++ more).
Definition required_tables : list (string * ytree) :=
  [("server", YtMap [("bind", YtStr "0.0.0.0:8111"); ("upstream", YtStr "http://127.0.0.1:33333");
      ("backends", YtMap [("go", YtStr "http://127.0.0.1:33333"); ("python", YtStr "http://127.0.0.1:33334");
                          ("java", YtStr "http://127.0.0.1:33335")])]);
   ("dashboard_api", YtMap [("bind", YtStr "0.0.0.0:8112")]);
   ("tiers", YtMap
      [("critical", tier_table "critical" ["/login"; "/otp"; "/deposit"; "/withdrawal"] "close"
          [("max_rps_per_ip", YtInt 10); ("max_rps_per_session", YtInt 5)]);
       ("high", tier_table "high" ["/game/*"; "/api/*"; "/user/*"] "open"
          [("max_rps_per_ip", YtInt 100); ("max_rps_per_session", YtInt 60)]);
       ("medium", tier_table "medium" ["/static/*"; "/assets/*"; "/public/*"] "open"
          [("cache_ttl_secs", YtInt 300); ("max_rps_per_ip", YtInt 500)]);
       ("catch_all", tier_table "catch_all" ["/**"] "open" [("max_rps_per_ip", YtInt 200)])]);
   ("risk", YtMap [("allow_threshold", YtInt 30); ("challenge_threshold", YtInt 70)]);
   ("rate_limit", YtMap [("default_rps_per_ip", YtInt 100); ("default_rps_per_session", YtInt 50)]);
   ("cache", YtMap [("ttl_medium_secs", YtInt 300)]);
   ("circuit_breaker", YtMap [("failure_threshold", YtInt 5); ("recovery_secs", YtInt 30)]);
   ("audit", YtMap [("log_path", YtStr "logs/audit.jsonl")])].
Definition waf_toml : ytree :=
  YtMap (required_tables ++
    [("rules", YtMap [("dir", YtStr "config/rules"); ("crs_dir", YtStr "config/rules/crs")]);
     ("geo", YtMap [("blocked_countries", YtSeq [])])]).

Definition read_toml : ytree -> option Config := @read_config ytree tree_document.

(** The shipped file is accepted, with two tiers limited by session and one cached. *)
Example waf_toml_accepted :
  match read_toml waf_toml with
  | Some c =>
    backends (server c) !! "java" = Some "http://127.0.0.1:33335" /\
    cfg_rules c = mkRulesConfig "config/rules" (Some "config/rules/crs") None /\
    tiers c !! "medium" = Some (mkTierConfig Medium ["/static/*"; "/assets/*"; "/public/*"] Open (Some 500) None (Some 300)) /\
    risk c = mkRiskConfig 30 70 /\ geo c = GeoConfig_default
  | None => False
  end.
Proof. vm_compute. done. Qed.

(** A table without one of its entries, or with a number that is too large, is an
    error for the whole file. *)
Example bad_tables :
  map (fun t => read_toml (YtMap (required_tables ++ [t])))
    [("rules", YtMap [("crs_dir", YtStr "config/rules/crs")]); ("geo", YtMap [("blocked_countries", YtStr "KP")])]
  = [None; None] /\
  @read_risk_config ytree tree_document (YtMap [("allow_threshold", YtInt (-1)); ("challenge_threshold", YtInt 70)]) = None /\
  @u32 ytree tree_document (YtInt 4294967296) = None.
Proof. vm_compute. done. Qed.

(** The bands of the shipped thresholds: the comment of the file puts 70 among the
    challenges. *)
Example shipped_bands :
  map (fun v => threshold_decision (mkRiskScore v) (mkRiskConfig 30 70)) [29; 30; 69]
  = [Allow; Challenge JsChallenge; Challenge JsChallenge] /\
  severity (threshold_decision (mkRiskScore 70) (mkRiskConfig 30 70)) = 2.
Proof. split; reflexivity. Qed.

Section Disarmed.
Local Existing Instances plain_unicode literal_regex phrase_automaton pair_ipnet sorted_hash_order literal_replace
  sample_modsec_lib no_geo_db tree_yaml tree_document.

(** The table of the blocked countries under a name that is not read. *)
Definition misspelt_toml : ytree := YtMap (required_tables ++ [("geoblock", YtMap [("blocked_countries", YtSeq [YtStr "KP"])])]).
Definition from_korea : RequestContext := with_extension "geo.country" "KP" (sample_request "GET").

Definition misspelt_fs : FileSystem := mkFs (fun _ => false) (fun _ => false) (fun _ => None) (fun _ => Some "").
Lemma missing_tables_disarm_witness :
  exists c st, run_async (fun _ => None) (fun _ => None) (fun _ => None) (fun _ => Some misspelt_toml) true misspelt_fs RunArgs_default =
      Ok (bind (server c), dash_bind (dashboard_api c), st) /\
    call (engine_registry (store_engine (app_rules st))) "geo_blocked" from_korea [] = VBool false /\
    as_bool (eval_expr (WorkingMemory_new from_korea (engine_registry (store_engine (app_rules st))))
               (EBinary BGte (ECall "crs_score" []) (ELiteral (VInt 5)))) = false.
Proof.
  assert (Hkeys : base.NoDup (map fst (match misspelt_toml with YtMap m => m | _ => [] end))).
  { apply (bool_decide_unpack _). vm_compute. exact I. }
  destruct (@missing_tables_disarm plain_unicode literal_regex phrase_automaton pair_ipnet sorted_hash_order literal_replace
    sample_modsec_lib no_geo_db tree_yaml (fun _ => None) (fun _ => None) (fun _ => None) ytree tree_document
    (fun _ => Some misspelt_toml) "" misspelt_toml _ misspelt_fs RunArgs_default eq_refl eq_refl eq_refl Hkeys)
    as (c & st & Hrun & Hgeo & Hrules).
  { split; apply (bool_decide_unpack _); vm_compute; exact I. }
  exists c, st. split; [exact Hrun|]. split; [by apply Hgeo|]. apply Hrules; [reflexivity|lia].
Defined.
End Disarmed.
