(* ===== verification/EngineTests.v ===== *)
(** The unit and integration tests of the rule language and its engine, run on the
    model: [grl/parser.rs], [grl/converter.rs], [rete/mod.rs], [rete/engine.rs],
    [crs/parser.rs] and [tests/rule_engine_test.rs].  The texts are those of the tests and
    are read by the grammar.  Tests of patterns are left out, since they ask what the
    [regex] crate answers. *)
From S2P Require Import Prelude Utf8 RustStd Net Extern Float64 WafTypes Ast Functions Printer Rete WorkingMemory Engine.
From S2P Require Import CrsTypes CrsTx CrsTransform CrsTarget CrsOperator CrsParser CrsEval Lists Geo Matcher GrlParser Pest Converter Loader App.
Local Open Scope Z_scope.

(** Texts are written with backquotes for quotes. *)
Definition text (s : string) : string := str_map (fun c => if Ascii.eqb c "`" then dquote else c) s.

Definition parse (src : string) : result GrlError (list RuleAst) := grl_parse grammar_parse (text src).
(** [parse(src).expect("parse")] *)
Definition parsed (src : string) : list RuleAst := match parse src with Ok rules => rules | Err _ => [] end.
Definition parses (src : string) : bool := match parse src with Ok _ => true | Err _ => false end.

Local Existing Instances plain_unicode literal_regex sorted_hash_order pair_ipnet phrase_automaton.

(** * [grl/parser.rs] *)

Definition parses_minimal_rule : list (string * Z * nat) :=
  map (fun r => (ra_name r, ra_salience r, length (ra_then r)))
    (parsed "
            rule `Allow` salience 1 {
                when true
                then allow();
            }
        ").

Definition complex_rule : list RuleAst := parsed "
            rule `BlockSqli` salience 90 {
                when contains_sqli(Request.Query) || contains_sqli(Request.Body)
                then
                    Request.RiskScore = Request.RiskScore + 80;
                    block(`sqli detected`);
            }
        ".
Definition parses_complex_rule : list (string * Z * nat) * bool :=
  (map (fun r => (ra_name r, ra_salience r, length (ra_then r))) complex_rule,
   match map ra_when complex_rule with [EBinary BOr _ _] => true | _ => false end).

Definition parses_multiple_rules : list Z :=
  map ra_salience (parsed "
            rule `A` { when true then allow(); }
            rule `B` salience 5 { when false then block(`x`); }
        ").

Definition parses_path_with_index : option Path :=
  match parsed "
            rule `Hdr` {
                when Request.Headers[`X-Forwarded-For`] == `1.2.3.4`
                then block(`xff`);
            }
        " with
  | r :: _ => match ra_when r with EBinary BEq (EPath p) _ => Some p | _ => None end
  | [] => None
  end.

Definition parses_nested_logic : bool := parses "
            rule `Mix` {
                when (Request.Method == `POST` && contains_sqli(Request.Body)) || !ip_in_whitelist(Request.ClientIp)
                then block(`nested`);
            }
        ".

Example parser_tests_pass :
  parses_minimal_rule = [("Allow", 1, 1%nat)] /\
  parses_complex_rule = ([("BlockSqli", 90, 2%nat)], true) /\
  parses_multiple_rules = [0; 5] /\
  parses_path_with_index = Some [SegField "Request"; SegField "Headers"; SegIndex "X-Forwarded-For"] /\
  parses_nested_logic = true.
Proof. vm_compute. done. Qed.

(** * [grl/converter.rs] *)

(** The rules of the text that is written for a document. *)
Definition converted (doc : ytree) : option (list RuleAst) :=
  match @yaml_to_grl plain_unicode tree_yaml doc with
  | Ok grl => match grl_parse grammar_parse grl with Ok rules => Some rules | Err _ => None end
  | Err _ => None
  end.

Definition condition_of_type (t : string) (more : list (string * ytree)) : ytree := YtMap (("type", YtStr t) :: more).

Definition converts_sqli_block_rule : option (list (string * Z)) :=
  map (fun r => (ra_name r, ra_salience r)) <$> converted (YtSeq [YtMap
    [("id", YtStr "critical-sqli"); ("priority", YtInt 90);
     ("scope", YtMap [("type", YtStr "tier"); ("tier", YtStr "critical")]);
     ("condition", condition_of_type "sqli_pattern" []);
     ("action", YtStr "block"); ("risk_score_delta", YtInt 80)]]).

Definition converts_path_wildcard_routing : option nat :=
  length <$> converted (YtSeq [YtMap
    [("id", YtStr "route-api"); ("priority", YtInt 60); ("scope", YtStr "global");
     ("condition", condition_of_type "path_wildcard" [("pattern", YtStr "/api/*")]);
     ("action", YtStr "allow"); ("upstream_backend", YtStr "python"); ("risk_score_delta", YtInt 0)]]).

Definition handles_and_or_combinator : option nat :=
  length <$> converted (YtSeq [YtMap
    [("id", YtStr "combo"); ("priority", YtInt 100); ("scope", YtStr "global");
     ("condition", condition_of_type "and" [("conditions", YtSeq
        [condition_of_type "path_exact" [("value", YtStr "/x")];
         condition_of_type "or" [("conditions", YtSeq
           [condition_of_type "sqli_pattern" []; condition_of_type "xss_pattern" []])]])]);
     ("action", YtStr "block"); ("risk_score_delta", YtInt 50)]]).

Example converter_tests_pass :
  converts_sqli_block_rule = Some [("critical-sqli", 1000 - 90)] /\
  converts_path_wildcard_routing = Some 1%nat /\ handles_and_or_combinator = Some 1%nat.
Proof. vm_compute. done. Qed.

(** * [rete/mod.rs] *)

Definition shared_net : Network := compile (parsed "
            rule `A` salience 10 {
                when contains_sqli(Request.Body) && Request.Method == `POST`
                then block(`a`);
            }
            rule `B` salience 5 {
                when contains_sqli(Request.Body) || Request.Path == `/x`
                then block(`b`);
            }
        ").
Definition shares_identical_alpha_nodes : nat * nat * option string :=
  (alpha_count shared_net, rule_count shared_net, rule_name <$> head (terminals shared_net)).

Definition flattens_nested_and_or : option nat :=
  match terminals (compile (parsed "
            rule `X` {
                when (a() && b()) && (c() && d())
                then allow();
            }
        ")) with
  | t :: _ => match guard t with GAnd parts => Some (length parts) | _ => None end
  | [] => None
  end.

Example rete_tests_pass :
  shares_identical_alpha_nodes = (3%nat, 2%nat, Some "A") /\ flattens_nested_and_or = Some 4%nat.
Proof. vm_compute. done. Qed.

(** * [rete/engine.rs] *)

Definition ctx (method path body : string) : RequestContext :=
  mkContext "test" 0 method path None CatchAll "127.0.0.1" None ∅ (Some body) None None RiskScore_ZERO None ∅.

(** The reason that a request is blocked for. *)
Definition blocked (src method path : string) : option string :=
  block_reason (fire (Engine_new (compile (parsed src))) (ctx method path "")).

Definition literal_block_rule_fires : option string := blocked "
            rule `BlockPostX` salience 10 {
                when Request.Method == `POST` && Request.Path == `/x`
                then block(`matched`);
            }
        " "POST" "/x".

Definition salience_orders_rules : option string := blocked "
            rule `Allow`  salience 1  { when true then allow(); }
            rule `BlockA` salience 50 { when true then block(`a`); }
            rule `BlockB` salience 99 { when true then block(`b`); }
        " "GET" "/".

Definition assignment_and_dependency_chain : option string := blocked "
            rule `Score` salience 50 {
                when Request.Method == `POST`
                then Request.RiskScore = 90;
            }
            rule `BlockHighRisk` salience 10 {
                when Request.RiskScore >= 80
                then block(`high risk`);
            }
        " "POST" "/".

Definition retract_prevents_rule_from_firing : option string := blocked "
            rule `Blocker` salience 99 {
                when true
                then retract(`Target`);
            }
            rule `Target` salience 1 {
                when true
                then block(`should not reach`);
            }
        " "GET" "/".

Example engine_tests_pass :
  literal_block_rule_fires = Some "matched" /\ salience_orders_rules = Some "b" /\
  assignment_and_dependency_chain = Some "high risk" /\ retract_prevents_rule_from_firing = None.
Proof. vm_compute. done. Qed.

(** * [crs/parser.rs] *)

Definition join_continuation_lines : nat * bool :=
  let lf := String (ascii_of_nat 10) "" in
  let lines := join_continuations ("SecRule ARGS \" +:+ lf +:+ text "    `@rx foo` \" +:+ lf +:+ text "    `id:1,phase:2,pass`") in
  (length lines, match lines with l :: _ => contains l "@rx foo" | [] => false end).

Definition parse_simple_detect_sqli_rule : list (Z * Z * bool * bool) :=
  map (fun item => match item with
                   | ItemRule r =>
                     (sr_id r, sr_phase r, negb (bool_decide (setvars (sr_actions r) = [])),
                      bool_decide ("attack-sqli" ∈ tags (sr_actions r)))
                   | _ => (0, 0, false, false)
                   end)
    (parse_conf (text "SecRule ARGS `@detectSQLi` `id:9001,phase:2,block,tag:'attack-sqli',setvar:'tx.sql_injection_score=+%{tx.critical_anomaly_score}',setvar:'tx.inbound_anomaly_score_pl1=+%{tx.critical_anomaly_score}'`")).

Definition parse_skip_after_rule : option string :=
  match parse_conf (text "SecRule TX:DETECTION_PARANOIA_LEVEL `@lt 1` `id:942011,phase:1,pass,nolog,tag:'OWASP_CRS',skipAfter:END-CRS`") with
  | ItemRule r :: _ => skip_after (sr_actions r)
  | _ => None
  end.

Definition parse_marker : option string :=
  match parse_conf (text "SecMarker `END-REQUEST-942-APPLICATION-ATTACK-SQLI`") with
  | ItemMarker n :: _ => Some n
  | _ => None
  end.

Definition setvar_tx_ref : option SetVarOp :=
  parse_setvar "tx.inbound_anomaly_score_pl1=+%{tx.critical_anomaly_score}".

Example crs_tests_pass :
  join_continuation_lines = (1%nat, true) /\
  parse_simple_detect_sqli_rule = [(9001, 2, true, true)] /\
  parse_skip_after_rule = Some "END-CRS" /\
  parse_marker = Some "END-REQUEST-942-APPLICATION-ATTACK-SQLI" /\
  setvar_tx_ref = Some (mkSetVarOp "inbound_anomaly_score_pl1" IncrBy (RhsTxRef "critical_anomaly_score")).
Proof. vm_compute. done. Qed.

(** * [tests/rule_engine_test.rs] *)

Definition make_ctx (ip path : string) : RequestContext :=
  mkContext "test-id" 0 "GET" path None Medium ip None ∅ None None None RiskScore_ZERO None ∅.

Definition holds (cond : Condition) (requests : list (string * string)) : list bool :=
  map (fun r => matcher_evaluate cond (make_ctx r.1 r.2)) requests.

Definition test_rule_matches_exact_ip : list bool :=
  holds (IpExact "1.2.3.4") [("1.2.3.4", "/"); ("9.9.9.9", "/")].
Definition test_and_condition_requires_all : list bool :=
  holds (CondAnd [IpExact "1.2.3.4"; PathExact "/secret"])
    [("1.2.3.4", "/secret"); ("1.2.3.4", "/other"); ("9.9.9.9", "/secret"); ("9.9.9.9", "/other")].
Definition test_or_condition_requires_one : list bool :=
  holds (CondOr [IpExact "1.2.3.4"; PathExact "/public"])
    [("9.9.9.9", "/public"); ("1.2.3.4", "/other"); ("1.2.3.4", "/public"); ("9.9.9.9", "/other")].
Definition test_not_condition_inverts : list bool :=
  holds (CondNot (IpExact "1.2.3.4")) [("1.2.3.4", "/"); ("9.9.9.9", "/")].

Definition path_rule (rid : string) (prio : Z) (p : string) (a : RuleAction) (delta : Z) : Matcher.Rule :=
  mkWafRule rid prio ScopeGlobal (PathExact p) a delta None.
Definition test_rule_priority_ordering : list string :=
  map wr_id (sort_by_key wr_priority
    [path_rule "low-priority" 100 "/" RaLog 0; path_rule "high-priority" 1 "/" RaBlock 50]).

Definition old_store : RuleStore := RuleStore_new [path_rule "old-rule" 1 "/old" RaBlock 0].
Definition test_hot_reload_replaces_rules : list (list string) :=
  map (fun s => map wr_id (snapshot s)) [old_store; reload [path_rule "new-rule" 1 "/new" RaAllow 0] old_store].

(** An engine with the rule and the plugin over [lists]: what it blocks a request from
    [ip] for, and the extension that the plugin leaves. *)
Definition with_blacklist (lists : IpListStore) (rule ip : string) : option string * option string :=
  let engine := install (BlacklistPlugin lists) (Engine_new (compile (parsed rule))) in
  let ctx := enrich engine (make_ctx ip "/") in
  (block_reason (fire engine ctx), extensions ctx !! "blacklisted").

Definition block_blacklisted : string := "
        rule `BlockBlacklisted` salience 100 {
            when ip_in_blacklist(Request.ClientIp)
            then block(`blacklisted`);
        }
    ".
Definition block_cidr : string := "
        rule `BlockCidr` salience 100 {
            when ip_in_blacklist(Request.ClientIp)
            then block(`cidr-blacklisted`);
        }
    ".
Definition test_blacklist_plugin_blocks_listed_ip : option string * option string :=
  with_blacklist (add_to_blacklist "10.0.0.1" IpListStore_new) block_blacklisted "10.0.0.1".
Definition test_blacklist_plugin_allows_clean_ip : option string * option string :=
  with_blacklist (add_to_blacklist "10.0.0.1" IpListStore_new) block_blacklisted "9.9.9.9".
Definition test_blacklist_plugin_cidr_match : list (option string) :=
  map (fun ip => (with_blacklist (add_to_blacklist "192.168.1.0/24" IpListStore_new) block_cidr ip).1)
    ["192.168.1.42"; "192.168.2.1"].
Definition test_whitelist_overrides_blacklist : list bool :=
  map (is_blacklisted (add_to_whitelist "10.0.0.5" (add_to_blacklist "10.0.0.0/8" IpListStore_new)))
    ["10.0.0.5"; "10.0.0.6"].

Example condition_and_store_tests_pass :
  test_rule_matches_exact_ip = [true; false] /\
  test_and_condition_requires_all = [true; false; false; false] /\
  test_or_condition_requires_one = [true; true; true; false] /\
  test_not_condition_inverts = [false; true] /\
  test_rule_priority_ordering = ["high-priority"; "low-priority"] /\
  test_hot_reload_replaces_rules = [["old-rule"]; ["new-rule"]].
Proof. vm_compute. done. Qed.

Example plugin_tests_pass :
  test_blacklist_plugin_blocks_listed_ip = (Some "blacklisted", Some "true") /\
  test_blacklist_plugin_allows_clean_ip = (None, Some "false") /\
  test_blacklist_plugin_cidr_match = [Some "cidr-blacklisted"; None] /\
  test_whitelist_overrides_blacklist = [false; true].
Proof. vm_compute. done. Qed.
