(* ===== verification/Shipped.v ===== *)
(** The shipped rules and configuration: [config/rules2/detection.grl], whose rules all
    block, and what a start without a rules directory comes to. *)
From S2P Require Import Prelude Utf8 RustStd Net Extern Float64 WafTypes Ast Functions Printer Rete WorkingMemory Engine EngineSpec.
From S2P Require Import CrsTypes CrsTx CrsTransform CrsTarget CrsOperator CrsParser CrsEval Lists Geo GrlParser Pest Converter Matcher Loader App Proxy.
From S2P Require Import Serde TreeModel ConfigSchema.
From stdpp Require Import relations.
Local Open Scope Z_scope.

(** * Rules that decide *)

(** What a rule decides that assigns and logs, and then blocks or allows. *)
Fixpoint decision_after (l : list Stmt) : option WafTypes.Decision :=
  match l with
  | [SCall (name, [ELiteral (VStr reason)])] => if String.eqb name "block" then Some (Block reason) else None
  | [SCall (name, [])] => if String.eqb name "allow" then Some Allow else None
  | SAssign _ _ :: l => decision_after l
  | SCall (name, _) :: l => if String.eqb name "log" then decision_after l else None
  | [] => None
  end.
Definition deciding (r : RuleAst) : option WafTypes.Decision := decision_after (ra_then r).

Section Deciding.
Context `{UnicodeTables, RegexLib, HashOrder}.

(** An outcome on which nothing has been decided. *)
Definition undecided (o : Outcome) : Prop := block_reason o = None /\ challenge o = None /\ rate_limit_secs o = None.

Lemma decision_after_run l d st :
  decision_after l = Some d -> undecided (outcome st.1) ->
  stops_firing (run_actions l st).1 = true /\ outcome_to_decision (outcome (run_actions l st).1) = d.
Proof.
  revert st. induction l as [|[p v|[name args]] l IH]; intros st; [done|by apply (IH (run_stmt (SAssign p v) st.1 st.2))|].
  intros Hd Ho. pose proof Ho as (Hb & Hc & Hr).
  assert (Hlog : String.eqb name "log" = true -> decision_after l = Some d ->
            stops_firing (run_actions (SCall (name, args) :: l) st).1 = true /\
            outcome_to_decision (outcome (run_actions (SCall (name, args) :: l) st).1) = d).
  { intros ->%String.eqb_eq Hl. by apply (IH (run_stmt (SCall ("log", args)) st.1 st.2)). }
  assert (Hallow : d = Allow -> stops_firing (on_outcome set_allow st.1) = true /\
            outcome_to_decision (outcome (on_outcome set_allow st.1)) = d).
  { intros ->. unfold stops_firing, outcome_to_decision. cbn. rewrite Hb, Hc, Hr. by rewrite orb_true_r. }
  destruct l as [|s l].
  - destruct args as [|[[| | |reason|]| | | |] [|]]; cbn [decision_after] in Hd; try (destruct (String.eqb name "log"); done).
    + destruct (String.eqb_spec name "allow") as [->|]; [|done]. injection Hd as <-. by apply Hallow.
    + destruct (String.eqb_spec name "block") as [->|]; [|done]. injection Hd as <-. done.
  - assert (Hd' : (if String.eqb name "log" then decision_after (s :: l) else None) = Some d).
    { revert Hd. by destruct args as [|[[]| | | |] [|]]. }
    destruct (String.eqb name "log") eqn:Hn; [|done]. by apply Hlog.
Qed.

(** The decision of a batch is that of the first rule, in order of salience and then of
    the batch, whose condition holds of the request, when every such rule decides: what
    it assigns and logs before has no effect. *)
Theorem deciding_rules_decide rules eng ctx :
  forallb wf_rule rules = true -> network eng = compile rules -> engine_registry eng !! "matches" = None ->
  (forall r, In r rules -> holds (WorkingMemory_new ctx (engine_registry eng)) r = true -> is_Some (deciding r)) ->
  outcome_to_decision (fire eng ctx) =
  match List.find (holds (WorkingMemory_new ctx (engine_registry eng))) (sort_rules rules) with
  | Some r => default Allow (deciding r)
  | None => Allow
  end.
Proof.
  intros Hwf Hnet Hreg Hall.
  destruct (fire_maximal_run rules eng ctx Hwf Hnet Hreg) as (st & (n & _ & Hsteps & Hend) & <-).
  set (st0 := initial ctx (engine_registry eng)) in *.
  assert (Hel : forall r, eligible st0 r = holds (WorkingMemory_new ctx (engine_registry eng)) r).
  { intros r. unfold eligible. cbn [st0 initial fst snd]. rewrite bool_decide_eq_false_2 by set_solver. apply andb_true_r. }
  rewrite <- (find_ext_in (eligible st0)) by (intros r _; apply Hel).
  inversion Hsteps as [|n' ? st1 ? Hfirst Hrest]; subst.
  - destruct Hend as [?|[Hq|?]]; [done| |done].
    destruct (List.find _ _) as [r|] eqn:Hf; [|done]. apply List.find_some in Hf as [Hin He].
    rewrite Hq in He; [done|]. by apply In_sorted in Hin.
  - inversion Hfirst as [? r _ Hp]; subst. destruct (picks_in _ _ _ Hp) as [Hin He].
    destruct (Hall r Hin) as [d Hr]; [by rewrite <- Hel|].
    destruct (decision_after_run (ra_then r) d (on_outcome (push_matched (ra_name r)) st0.1, {[ra_name r]} ∪ st0.2) Hr)
      as [Hstop Hd]; [done|].
    assert (Hst : st = fire_rule r st0).
    { inversion Hrest as [|? ? ? ? Hmore _]; subst; [done|]. inversion Hmore as [? ? Hgo _]; subst.
      unfold fire_rule in Hgo. by rewrite Hstop in Hgo. }
    destruct (List.find (eligible st0) (sort_rules rules)) as [r'|] eqn:Hf.
    + apply picks_sorted in Hf. rewrite (picks_unique _ _ _ _ Hf Hp), Hr, Hst. exact Hd.
    + exfalso. rewrite (List.find_none _ _ Hf r) in He; [done|]. by apply In_sorted.
Qed.
End Deciding.

(** * The detection rules *)

(** The text of the file, with single quotes for quotes. *)
Definition double_quoted (s : string) : string := str_map (fun c => if Ascii.eqb c "'" then dquote else c) s.
Definition detection_grl : string := double_quoted "// Detection rules — applied globally to every request.
//
// Higher salience fires first. `block(reason)` short-circuits the engine.
// `Request.RiskScore` accumulates additional risk for downstream stages.

// ── IP blacklist ──────────────────────────────────────────────────────────────
//
// ip_in_blacklist(ip) — true when ip matches any entry in the loaded blacklist.
// The list is loaded from disk at startup (see [rules] blacklist_file in waf.toml).
// IpSet uses HashSet<IpAddr> for exact IPs (O(1)) and Vec<IpNet> for CIDRs,
// so 100k-entry lists add negligible per-request overhead.
rule 'BlockBlacklisted' salience 970 {
    when ip_in_blacklist(Request.ClientIp)
    then
        Request.RiskScore = Request.RiskScore + 100;
        block('ip blacklisted');
}


//
// Country resolution order (handled internally by the GeoPlugin):
//   1. Request header (CF-IPCountry, X-Country, X-GeoIP-Country, …)
//   2. MaxMind GeoLite2-Country DB lookup on the canonical client IP
//
// GetCountry()     — returns the ISO-3166-1 alpha-2 country code
// GetCountry(ip)   — explicit IP lookup (e.g. for XFF chain inspection)
// geo_blocked()    — true when GetCountry() is in the config blocked_countries list
rule 'GeoBlock' salience 960 {
    when geo_blocked()
    then
        Request.RiskScore = Request.RiskScore + 80;
        block('geo-block');
}

// Block all traffic originating from Vietnam (VN).
// Country is resolved from CDN headers first (CF-IPCountry, X-Country, …),
// then falls back to a MaxMind DB lookup on the canonical client IP.
rule 'GeoBlockVN' salience 955 {
    when GetCountry() == 'VN'
    then
        Request.RiskScore = Request.RiskScore + 80;
        block('geo-block-vn');
}

// CRS anomaly scoring: fires when the OWASP Core Rule Set inbound score >= 5.
// This covers SQLi, XSS, LFI, RCE, PHP attacks, and scanner detection.
rule 'CrsBlock' salience 1000 {
    when  crs_score() >= 5
    then
        Request.RiskScore = Request.RiskScore + 90;
        block('crs');
}

rule 'BlockSqli' salience 900 {
    when contains_sqli(Request.Query) || contains_sqli(Request.Body)
    then
        Request.RiskScore = Request.RiskScore + 80;
        block('sqli detected');
}

rule 'BlockXss' salience 890 {
    when contains_xss(Request.Query) || contains_xss(Request.Body)
    then
        Request.RiskScore = Request.RiskScore + 70;
        block('xss detected');
}

rule 'BlockPathTraversal' salience 880 {
    when contains_path_traversal(Request.Path) || contains_path_traversal(Request.Query)
    then
        Request.RiskScore = Request.RiskScore + 90;
        block('path traversal detected');
}

rule 'BlockSensitivePath' salience 875 {
    when starts_with(Request.Path, '/etc/')
      || starts_with(Request.Path, '/proc/')
      || starts_with(Request.Path, '/.git/')
      || Request.Path == '/.env'
      || ends_with(Request.Path, '/passwd')
      || ends_with(Request.Path, '/shadow')
    then
        Request.RiskScore = Request.RiskScore + 90;
        block('sensitive path access');
}

rule 'BlockSsrf' salience 870 {
    when contains(Request.Body, '169.254.169.254')
      || contains(Request.Query, '169.254.169.254')
      || contains(Request.Body, 'file://')
      || contains(Request.Query, 'file://')
    then
        Request.RiskScore = Request.RiskScore + 95;
        block('ssrf detected');
}

rule 'BlockHeaderInjection' salience 860 {
    when contains_header_injection(Request.Path) || contains_header_injection(Request.Query)
    then
        Request.RiskScore = Request.RiskScore + 80;
        block('header injection detected');
}

rule 'BlockCanaryAdminTest' salience 850 {
    when Request.Path == '/admin-test' || Request.Path == '/api-debug'
    then
        Request.RiskScore = Request.RiskScore + 100;
        block('canary endpoint hit');
}
".

Definition detection_rules : list RuleAst := match grl_parse grammar_parse detection_grl with Ok rules => rules | Err _ => [] end.

(** The file is read: eleven rules of distinct saliences, all of which decide. *)
Example detection_reads :
  map (fun r => (ra_name r, ra_salience r)) (sort_rules detection_rules) =
    [("CrsBlock", 1000); ("BlockBlacklisted", 970); ("GeoBlock", 960); ("GeoBlockVN", 955); ("BlockSqli", 900);
     ("BlockXss", 890); ("BlockPathTraversal", 880); ("BlockSensitivePath", 875); ("BlockSsrf", 870);
     ("BlockHeaderInjection", 860); ("BlockCanaryAdminTest", 850)] /\
  forallb (fun r => bool_decide (is_Some (deciding r))) detection_rules = true /\
  forallb wf_rule detection_rules = true.
Proof. vm_compute. done. Qed.

Section Decided.
Local Existing Instances plain_unicode literal_regex sorted_hash_order.

Definition detection_engine : Engine := Engine_new (compile detection_rules).
Definition get (path query : string) : RequestContext :=
  mkContext "r" 0 "GET" path (Some query) CatchAll "203.0.113.7" None ∅ None None None RiskScore_ZERO None ∅.

(** Without plugins only the rules on the text of the request can hold. *)
Lemma deciding_rules_decide_witness :
  map (fun ctx => outcome_to_decision (fire detection_engine ctx))
    [get "/etc/hosts" ""; get "/fetch" "u=http://169.254.169.254/"; get "/admin-test" ""; get "/" "q=1"]
  = [Block "sensitive path access"; Block "ssrf detected"; Block "canary endpoint hit"; Allow].
Proof.
  assert (Hwf : forallb wf_rule detection_rules = true) by (vm_compute; reflexivity).
  assert (Hall : Forall (fun r => is_Some (deciding r)) detection_rules).
  { apply (bool_decide_unpack _). vm_compute. exact I. }
  assert (Hd : forall ctx, outcome_to_decision (fire detection_engine ctx) = _)
    by (intros ctx; exact (deciding_rules_decide detection_rules detection_engine ctx Hwf eq_refl eq_refl
          (fun r Hr _ => proj1 (List.Forall_forall _ _) Hall r Hr))).
  cbn [map]. rewrite !Hd. vm_compute. reflexivity.
Defined.
End Decided.

(** * No rules directory *)

Section NoRules.
Context `{UnicodeTables, RegexLib, AhoCorasickLib, IpNetLib, HashOrder, !RegexReplaceLib, ModSecLib, GeoDbLib, YamlLib, HttpLib}.
Variable yaml_rules : string -> option (list Matcher.Rule).
Variable yaml_value : string -> option yaml.
Variable pest_parse : string -> option (list Pair).

(** A file system without rules: the directory is not there, or cannot be listed. *)
Definition no_rules (fs : FileSystem) (dir : string) : Prop := fs_exists fs dir = false \/ fs_read_dir fs dir = None.

Lemma no_rules_loaded fs dir :
  no_rules fs dir -> initial_rules yaml_rules fs dir = [] /\ initial_grl yaml_value pest_parse fs dir = [].
Proof.
  unfold initial_rules, initial_grl, load_grl_from_dir, load_from_dir.
  intros [Hn|Hn]; rewrite Hn; [done|]. by destruct (fs_exists fs dir).
Qed.

Lemma initial_network fs cfg lists :
  network (initial_engine yaml_value pest_parse fs cfg lists) =
  compile (initial_grl yaml_value pest_parse fs (rules_dir (cfg_rules cfg))).
Proof.
  unfold initial_engine, install_crs. destruct (crs_dir (cfg_rules cfg)); [|done]. by destruct (load_crs _ _ _).
Qed.

Lemma fire_no_rules eng ctx : network eng = compile [] -> fire eng ctx = Outcome_default.
Proof. intros Hn. unfold fire. by rewrite Hn. Qed.

(** C23: a start whose rules directory is missing or cannot be listed fails open: when
    the audit log can be opened it succeeds, whatever lists, countries and core rules
    are configured, and the application passes every request whose body can be read to
    the default upstream, as if there were no firewall. *)
Theorem no_rules_fails_open fs cfg :
  no_rules fs (rules_dir (cfg_rules cfg)) ->
  exists st, AppState_init yaml_rules yaml_value pest_parse true fs cfg = Ok st /\
    forall client id now raw body, raw_body raw = Some body ->
      let '(sent, resp) := forward client raw body (upstream (server cfg)) in
      handle_request client id now raw st =
        (sent, match resp with Some resp => resp | None => json_error 502 "upstream unavailable" end).
Proof.
  intros Hno. destruct (no_rules_loaded fs _ Hno) as [Hrules Hgrl]. unfold AppState_init. cbn [negb].
  eexists. split; [reflexivity|]. intros client id now raw body Hbody.
  unfold handle_request. rewrite Hbody. unfold run_inbound. cbn [app_rules store_engine reload_engine].
  rewrite fire_no_rules by (by rewrite initial_network, Hgrl).
  cbn. unfold resolve_upstream. cbn [config app_rules snapshot store_rules RuleStore_new reload_engine].
  rewrite Hrules. cbn. by destruct (forward _ _ _ _).
Qed.
End NoRules.

Section FailsOpen.
Local Existing Instances plain_unicode literal_regex phrase_automaton pair_ipnet sorted_hash_order literal_replace
  sample_modsec_lib no_geo_db tree_yaml sample_http.

(** The shipped configuration, where the directory it names is not there. *)
Definition shipped_config : Config := default sample_config (read_toml waf_toml).
Definition attack : RawRequest := mkRaw "GET" "/../../etc/passwd" None [] (Some "").

Lemma no_rules_fails_open_witness :
  exists st, AppState_init (fun _ => None) (fun _ => None) (fun _ => None) true empty_fs shipped_config = Ok st /\
    (handle_request (fun _ => None) "r" 0 attack st).1 =
      [mkUpstream "GET" "http://127.0.0.1:33333/../../etc/passwd" [("host", "127.0.0.1:33333")] ""].
Proof.
  destruct (no_rules_fails_open (fun _ => None) (fun _ => None) (fun _ => None) empty_fs shipped_config (or_introl eq_refl))
    as (st & Hst & Hopen). exists st. split; [exact Hst|].
  specialize (Hopen (fun _ => None) "r" 0 attack "" eq_refl).
  destruct (forward _ _ _ _) as [sent resp] eqn:Hf in Hopen. rewrite Hopen. cbn [fst].
  vm_compute in Hf. by injection Hf as <- _.
Defined.
End FailsOpen.
