(* ===== verification/Enforce.v ===== *)
(** From the rules directory to the answer of the proxy: what the YAML documents of a
    directory mean, that the application started on it answers every request as they
    say, that a reload puts the directory as it is then in force, and that every request is
    answered by one engine, the one started or one built from a directory as it once was. *)
From S2P Require Import Prelude Utf8 RustStd Net Extern Float64 WafTypes Ast Functions Printer Rete WorkingMemory Engine EngineSpec.
From S2P Require Import CrsTypes CrsTx CrsTransform CrsTarget CrsOperator CrsParser CrsEval Lists Geo GrlParser Pest Converter GrlText ConvSpec ConvEngine.
From S2P Require Import Matcher Loader App Proxy Concurrent Shipped.
Local Open Scope Z_scope.

(** * What a directory means *)

Section Directory.
Context `{UnicodeTables, RegexLib, HashOrder, YamlLib}.
Variable yaml_value : string -> option yaml.
Variable pest_parse : string -> option (list Pair).
Hypothesis grammar : forall src, pest_parse src = grammar_parse src.

(** The rules of one file, as meanings: those of its YAML document, and none when the
    file is skipped.  A GRL file that parses is not described. *)
Definition file_meaning (reg : FunctionRegistry) (fs : FileSystem) (path : string) : option (list RuleMeaning) :=
  if fs_is_file fs path then
    match fs_read fs path with
    | None => Some []
    | Some txt =>
      let ext := default "" (path_extension path) in
      if String.eqb ext "grl" then
        match grl_parse grammar_parse txt with Ok _ => None | Err _ => Some [] end
      else if String.eqb ext "yaml" || String.eqb ext "yml" then
        match yaml_value txt ≫= y_sequence with Some l => rules_meaning reg l | None => Some [] end
      else Some []
    end
  else Some [].

(** The files of the directory in the order in which they are listed. *)
Definition dir_meaning (reg : FunctionRegistry) (fs : FileSystem) (paths : list string) : option (list RuleMeaning) :=
  mjoin <$> mapM (file_meaning reg fs) paths.

(** A directory that can be listed, of rules with distinct names. *)
Definition describes (reg : FunctionRegistry) (fs : FileSystem) (dir : string) (ms : list RuleMeaning) : Prop :=
  fs_exists fs dir = true /\
  exists paths, fs_read_dir fs dir = Some (map Some paths) /\ dir_meaning reg fs paths = Some ms /\
    NoDup (map m_name ms).

Section Registry.
Context (reg : FunctionRegistry) `{!Builtins reg}.

Lemma file_rules_stand fs path ms :
  file_meaning reg fs path = Some ms ->
  Forall2 (stands_for reg) (grl_file_rules yaml_value pest_parse fs path) ms.
Proof.
  unfold file_meaning, grl_file_rules. destruct (fs_is_file fs path); [|by intros [= <-]].
  destruct (fs_read fs path) as [txt|]; cbn [mbind option_bind]; [|by intros [= <-]].
  unfold grl_source. destruct (String.eqb _ "grl").
  { cbn. rewrite (grl_parse_ext pest_parse grammar_parse) by done. destruct (grl_parse _ txt); [done|by intros [= <-]]. }
  destruct (_ || _); [|by intros [= <-]]. cbn [mbind option_bind].
  destruct (yaml_value txt) as [doc|]; cbn [mbind option_bind]; [|by intros [= <-]].
  unfold yaml_to_grl. destruct (y_sequence doc) as [l|]; cbn [mbind option_bind result_mbind ok_or]; [|by intros [= <-]].
  intros (texts & rules & -> & Ht & Hs)%(rules_mean reg).
  rewrite (grl_parse_ext pest_parse grammar_parse), (file_reads texts rules) by done. exact Hs.
Qed.

Lemma dir_rules_stand fs paths ms :
  dir_meaning reg fs paths = Some ms ->
  Forall2 (stands_for reg) (flat_map (grl_file_rules yaml_value pest_parse fs) paths) ms.
Proof.
  unfold dir_meaning. intros (mss & Hm & ->)%fmap_Some. apply mapM_Some in Hm.
  induction Hm as [|path ms' paths mss Hp _ IH]; [constructor|]. cbn.
  apply Forall2_app; [by apply file_rules_stand|exact IH].
Qed.

(** What is loaded from a directory that is described. *)
Lemma described_rules fs dir ms :
  describes reg fs dir ms ->
  exists rules, load_grl_from_dir yaml_value pest_parse fs dir = Ok rules /\ Forall2 (stands_for reg) rules ms.
Proof.
  intros (Hex & paths & Hdir & Hms & _). unfold load_grl_from_dir. rewrite Hex, Hdir. cbn [negb ok_or mbind result_mbind].
  rewrite load_grl_entries_spec, listed_entries. eexists. split; [done|]. by apply dir_rules_stand.
Qed.
End Registry.
End Directory.

(** * What an engine enforces *)

Section Enforcing.
Context `{UnicodeTables, RegexLib, HashOrder}.

(** The decision that a list of meanings takes on a request. *)
Definition decision_of (ms : list RuleMeaning) (ctx : RequestContext) : Decision :=
  verdict Allow (take MAX_CYCLES (matching ctx ms)).

(** An engine that decides every request so. *)
Definition enforces (eng : Engine) (ms : list RuleMeaning) : Prop :=
  forall ctx, outcome_to_decision (fire eng ctx) = decision_of ms ctx.

Lemma standing_enforces reg `{!Builtins reg} rules ms eng :
  Forall2 (stands_for reg) rules ms -> NoDup (map m_name ms) ->
  network eng = compile rules -> engine_registry eng = reg -> enforces eng ms.
Proof. intros Hs Hnd Hnet Hreg ctx. by destruct (standing_fires reg rules ms eng ctx Hs Hnd Hnet Hreg) as [-> _]. Qed.
End Enforcing.

Section Answers.
Context `{UnicodeTables, RegexLib, IpNetLib, HashOrder, HttpLib}.

(** The answer of the proxy to a request with a decision and an upstream. *)
Definition answer (client : http_client) (raw : RawRequest) (body url : string) (d : Decision) : list Upstream * Response :=
  match d with
  | Allow => let '(sent, resp) := forward client raw body url in (sent, default (json_error 502 "upstream unavailable") resp)
  | Block reason => ([], json_error 403 ("blocked: " +:+ reason))
  | Challenge _ => ([], json_error 403 "challenge required")
  | RateLimit secs => ([], rate_limit_response secs)
  end.

Lemma handled_answer client id now raw st body :
  raw_body raw = Some body ->
  handle_request client id now raw st =
  answer client raw body (resolve_upstream (raw_path raw) st)
    (outcome_to_decision (fire (store_engine (app_rules st)) (build_context id now raw body))).
Proof.
  intros Hb. unfold handle_request. rewrite Hb. unfold run_inbound. set (o := fire _ _).
  assert (Hp : path (apply_risk (risk_delta o) match head (matched_rules o) with
                     | Some r => with_matched_rule r (build_context id now raw body)
                     | None => build_context id now raw body end) = raw_path raw).
  { unfold apply_risk. by destruct (_ =? 0), (head _). }
  rewrite Hp. unfold answer. destruct (outcome_to_decision o); done.
Qed.
End Answers.

(** * The started application *)

Section Startup.
Context `{UnicodeTables, RegexLib, AhoCorasickLib, IpNetLib, HashOrder, !RegexReplaceLib, ModSecLib, GeoDbLib, YamlLib}.
Variable yaml_value : string -> option yaml.
Variable pest_parse : string -> option (list Pair).

(** The plugins leave every other name as it is in a fresh engine. *)
Lemma startup_registry_keeps fs cfg lists n :
  n ∉ plugin_functions ->
  engine_registry (initial_engine yaml_value pest_parse fs cfg lists) !! n = register_context_defaults ∅ !! n.
Proof.
  intros Hn. unfold plugin_functions in Hn. unfold initial_engine.
  rewrite (install_other (GeoPlugin (configured_geo cfg))) by set_solver.
  rewrite install_crs_other by set_solver. by rewrite (install_other (BlacklistPlugin lists)) by set_solver.
Qed.

(** They take none of the names the converter writes. *)
#[export] Instance startup_builtins fs cfg lists :
  Builtins (engine_registry (initial_engine yaml_value pest_parse fs cfg lists)).
Proof.
  split.
  - intros n Hn. rewrite startup_registry_keeps; [by apply builtin_free|].
    unfold builtin_names, plugin_functions in *. set_solver.
  - rewrite startup_registry_keeps; [apply default_has_header|]. unfold plugin_functions. set_solver.
Qed.
End Startup.

Section Started.
Context `{UnicodeTables, RegexLib, AhoCorasickLib, IpNetLib, HashOrder, !RegexReplaceLib, ModSecLib, GeoDbLib, YamlLib, HttpLib}.
Variable yaml_rules : string -> option (list Matcher.Rule).
Variable yaml_value : string -> option yaml.
Variable pest_parse : string -> option (list Pair).
Hypothesis grammar : forall src, pest_parse src = grammar_parse src.

(** The routing rules of a directory. *)
Definition dir_routes (fs : FileSystem) (dir : string) : list Matcher.Rule :=
  match load_from_dir yaml_rules fs dir with Ok rules => rules | Err _ => [] end.

Lemma started_enforces fs cfg st ms :
  AppState_init yaml_rules yaml_value pest_parse true fs cfg = Ok st ->
  describes yaml_value (engine_registry (store_engine (app_rules st))) fs (rules_dir (cfg_rules cfg)) ms ->
  enforces (store_engine (app_rules st)) ms.
Proof.
  unfold AppState_init. cbn [negb]. intros Hst Hd. injection Hst as <-. cbn [app_rules store_engine reload_engine] in *.
  destruct (described_rules yaml_value pest_parse grammar _ fs _ ms Hd) as (rules & Hload & Hs).
  destruct Hd as (_ & _ & _ & _ & Hnd). apply (standing_enforces _ rules ms); [done|done| |done].
  rewrite initial_network. unfold initial_grl. by rewrite Hload.
Qed.


Lemma described_routes reg fs dir ms :
  describes yaml_value reg fs dir ms -> load_from_dir yaml_rules fs dir = Ok (dir_routes fs dir).
Proof.
  intros (_ & paths & Hdir & _). unfold dir_routes. by destruct (load_from_dir_sorted yaml_rules fs dir paths Hdir) as (rules & -> & _).
Qed.


(** * Reloads *)

Variable app : AppState.
Variable schedule : nat -> Access.
Variable start : System.
Notation at_time := (state_at yaml_rules yaml_value pest_parse app schedule start).

Notation rules_path := (rules_dir (cfg_rules (config app))).

(** The engine that the application was started with, or one of rules that the watcher
    has loaded from the rules directory, as it was at one of the first [n] accesses. *)
Definition engine_before (n : nat) (eng : Engine) : Prop :=
  eng = store_engine (app_rules app) \/
  exists k fs event rules, (k < n)%nat /\ schedule k = Watch fs event /\
    load_grl_from_dir yaml_value pest_parse fs rules_path = Ok rules /\ eng = Engine_new (compile rules).

Lemma engine_before_le m n eng : (m <= n)%nat -> engine_before m eng -> engine_before n eng.
Proof.
  intros Hmn [Heng|(k & fs & event & rules & Hk & Hrest)]; [by left|right]. exists k, fs, event, rules. split; [lia|done].
Qed.

(** The engine in the store, and the one that the watcher is about to store. *)
Definition holds_engines (n : nat) (s : System) : Prop :=
  engine_before n (store_engine (store s)) /\
  match watcher s with StoringEngine eng => engine_before n eng | _ => True end.

Lemma access_holds_engines n s :
  holds_engines n s -> holds_engines (S n) (access yaml_rules yaml_value pest_parse app (schedule n) s).
Proof.
  intros [Hs Hw]. assert (Hle : forall eng, engine_before n eng -> engine_before (S n) eng) by (intros eng; apply engine_before_le; lia).
  destruct (schedule n) as [i id now raw|i client|fs event] eqn:Ha; cbn [access].
  - destruct (tasks s !! i); (split; [by apply Hle|]); cbn [watcher]; destruct (watcher s); auto.
  - destruct (tasks s !! i); (split; [by apply Hle|]); cbn [watcher]; destruct (watcher s); auto.
  - destruct s as [st [| |rules| |eng] k ts]; cbn [watcher store watcher_step] in *.
    + destruct event as [e|]; [destruct (is_rules_change e)|]; (split; [by apply Hle|done]).
    + destruct (load_from_dir _ _ _); (split; [by apply Hle|done]).
    + split; [by apply Hle|done].
    + destruct (load_grl_from_dir yaml_value pest_parse fs rules_path) as [rules|e] eqn:Hl; (split; [by apply Hle|]); [|done].
      right. exists n, fs, event, rules. split; [lia|done].
    + split; [by apply Hle|done].
Qed.

Lemma holds_engines_at n : holds_engines 0 start -> holds_engines n (at_time n).
Proof. intros Hs. induction n as [|n IH]; [done|]. cbn [state_at]. by apply access_holds_engines. Qed.

(** What a decision comes from: the engine of the start, or the rules that the watcher
    loaded at an access; it is what the documents of that directory say when they have
    a reading, and lets the request through when there was no directory. *)
Definition decided_by_version (fs0 : FileSystem) (n : nat) (ctx : RequestContext) (d : Decision) : Prop :=
  (d = outcome_to_decision (fire (store_engine (app_rules app)) ctx) /\
   forall ms, describes yaml_value (engine_registry (store_engine (app_rules app))) fs0 rules_path ms -> d = decision_of ms ctx) \/
  (exists k fs event rules, (k < n)%nat /\ schedule k = Watch fs event /\
     load_grl_from_dir yaml_value pest_parse fs rules_path = Ok rules /\
     d = outcome_to_decision (fire (Engine_new (compile rules)) ctx) /\
     (fs_exists fs rules_path = false -> d = Allow) /\
     forall ms, describes yaml_value (register_context_defaults ∅) fs rules_path ms -> d = decision_of ms ctx).

Lemma engine_decides_version fs0 n eng ctx :
  AppState_init yaml_rules yaml_value pest_parse true fs0 (config app) = Ok app ->
  engine_before n eng -> decided_by_version fs0 n ctx (outcome_to_decision (fire eng ctx)).
Proof.
  intros Happ [->|(k & fs & event & rules & Hk & Hs & Hl & ->)].
  - left. split; [done|]. intros ms Hd. by apply (started_enforces fs0 (config app) app ms Happ Hd).
  - right. exists k, fs, event, rules. do 4 (split; [done|]). split.
    + intros Hmiss. unfold load_grl_from_dir in Hl. rewrite Hmiss in Hl. injection Hl as <-.
      by apply (standing_enforces (register_context_defaults ∅) [] []); [constructor|constructor|..].
    + intros ms Hd. destruct (described_rules yaml_value pest_parse grammar _ fs _ ms Hd) as (rules' & Hl' & Hst).
      rewrite Hl in Hl'. injection Hl' as <-. destruct Hd as (_ & _ & _ & _ & Hnd).
      by apply (standing_enforces (register_context_defaults ∅) rules).
Qed.

(** C3: reloads leave no gap: whatever the order of the accesses, whatever the file
    system is at each of them and however many reloads there are, from the start of the
    application on a request whose body is read is answered by one decision, which is
    that of the engine started, or of an engine built from rules that the watcher loaded
    without an error at an access before the answer; a load that fails changes nothing.
    Where the directory of the start, or of that access, can be listed and its documents
    have a reading, it is the decision of these documents (for a reload with the
    functions of the plugins null); a load that found no directory is one of no rules,
    and its decision is to let the request through. *)
Theorem answered_by_some_version fs0 a n i id now raw body sent resp :
  AppState_init yaml_rules yaml_value pest_parse true fs0 (config app) = Ok app ->
  start = mkSystem (app_rules app) Waiting 0 ∅ ->
  (a <= n)%nat ->
  tasks (at_time a) !! i = Some (Received id now raw) -> raw_body raw = Some body ->
  tasks (at_time n) !! i = Some (Answered sent resp) ->
  exists d t client, decided_by_version fs0 n (build_context id now raw body) d /\ (a <= t <= n)%nat /\
    (sent, resp) = answer client raw body (resolve_upstream (raw_path raw) (shared app (at_time t))) d.
Proof.
  intros Happ Hstart Han Ha Hb Hn.
  assert (Hall : forall k, holds_engines k (at_time k)) by (intros k; apply holds_engines_at; rewrite Hstart; by split; [left|]).
  destruct (task_seen yaml_rules yaml_value pest_parse app schedule start a n i id now raw Han Ha) as (task & Ht & Hs).
  rewrite Hn in Ht. injection Ht as <-. destruct Hs as (t1 & t2 & client & Ht1 & Ht2 & Hh).
  destruct (Hall t1) as [Heng%(engine_before_le t1 n) _]; [|lia]. eexists _, t2, client. split; [|split; [lia|]].
  - exact (engine_decides_version fs0 n _ (build_context id now raw body) Happ Heng).
  - by rewrite <- Hh, (handled_answer _ _ _ _ _ body Hb).
Qed.

End Started.

(** * A sample directory *)

Section Sample.
Local Existing Instances plain_unicode literal_regex phrase_automaton pair_ipnet sorted_hash_order literal_replace
  sample_modsec_lib no_geo_db tree_yaml sample_http.

Definition path_rule (id action part : string) (priority : Z) : ytree :=
  YtMap [("id", YtStr id); ("action", YtStr action); ("priority", YtInt priority);
         ("condition", leaf_doc "path" "regex" part)].
(** Two files with documents, and one that does not parse. *)
Definition open_doc : ytree := YtSeq [path_rule "health" "allow" "/health" 10].
Definition closed_doc : ytree := YtSeq [path_rule "slow" "rate_limit" "/" 900; path_rule "no-api" "block" "/api" 500].
Definition locked_doc : ytree := YtSeq [path_rule "no-users" "block" "/users" 100; path_rule "no-login" "challenge" "/login" 200].
Definition doc_of (txt : string) : option ytree :=
  if String.eqb txt "open" then Some open_doc else if String.eqb txt "closed" then Some closed_doc
  else if String.eqb txt "locked" then Some locked_doc else None.
Definition doc_dir (second : string) : FileSystem :=
  mkFs (fun _ => true) (fun _ => true) (fun _ => Some (map Some ["rules/a.yaml"; "rules/bad.grl"; "rules/b.yml"]))
    (fun p => if String.eqb p "rules/a.yaml" then Some "open" else if String.eqb p "rules/b.yml" then Some second else Some "rule").

Definition doc_app : AppState :=
  match AppState_init (fun _ => None) doc_of grammar_parse true (doc_dir "closed") sample_config with
  | Ok st => st
  | Err _ => open_app
  end.
Definition meanings (reg : FunctionRegistry) (second : string) : list RuleMeaning :=
  default [] (dir_meaning doc_of reg (doc_dir second) ["rules/a.yaml"; "rules/bad.grl"; "rules/b.yml"]).
Definition startup_registry : FunctionRegistry := engine_registry (store_engine (app_rules doc_app)).

Lemma some_default {A} (o : option (list A)) : match o with Some _ => true | None => false end = true -> o = Some (default [] o).
Proof. by destruct o. Qed.

Lemma doc_dir_described :
  describes doc_of startup_registry (doc_dir "closed") "rules" (meanings startup_registry "closed") /\
  describes doc_of (register_context_defaults ∅) (doc_dir "locked") "rules" (meanings (register_context_defaults ∅) "locked").
Proof.
  split; (split; [reflexivity|]; eexists; split; [reflexivity|]; split; [apply some_default; vm_compute; reflexivity|]);
    apply (bool_decide_unpack _); vm_compute; exact I.
Qed.



(** The request comes in before the directory is locked, and is answered after. *)
Definition locked_in : list Access :=
  [Accept 0 "r" 0 sample_raw; Work 0 no_upstream] ++ repeat (Watch (doc_dir "locked") rules_event) 5 ++
  [Work 0 no_upstream; Work 0 no_upstream].
Definition locking (k : nat) : Access := nth k locked_in (Watch (doc_dir "locked") None).
Definition doc_start : System := mkSystem (app_rules doc_app) Waiting 0 ∅.

(** Both versions of the directory block the request. *)
Lemma answered_by_some_version_witness :
  exists d t client,
    decided_by_version doc_of grammar_parse doc_app locking (doc_dir "closed") 9 (build_context "r" 0 sample_raw "") d /\
    (1 <= t <= 9)%nat /\
    ([], json_error 403 "blocked: no-users") =
    answer client sample_raw ""
      (resolve_upstream "/api/users" (shared doc_app (state_at (fun _ => None) doc_of grammar_parse doc_app locking doc_start t))) d.
Proof.
  apply (@answered_by_some_version plain_unicode literal_regex phrase_automaton pair_ipnet sorted_hash_order
           literal_replace sample_modsec_lib no_geo_db tree_yaml sample_http (fun _ => None) doc_of grammar_parse
           (fun _ => eq_refl) doc_app locking doc_start (doc_dir "closed") 1 9 0 "r" 0 sample_raw "").
  - reflexivity.
  - reflexivity.
  - lia.
  - reflexivity.
  - reflexivity.
  - vm_compute. reflexivity.
Defined.
End Sample.
