(* ===== verification/Detection.v ===== *)
(** The shipped rules at work: what the application answers when it is started on
    [config/rules2/detection.grl] with the core rule set, check by check. *)
From S2P Require Import Prelude Utf8 RustStd Net Extern Float64 WafTypes Ast Functions Printer Rete WorkingMemory Engine EngineSpec.
From S2P Require Import CrsTypes CrsTx CrsTransform CrsTarget CrsOperator CrsParser CrsEval Lists Geo GrlParser Pest Converter GrlText ConvSpec ConvEngine.
From S2P Require Import Matcher Loader App Proxy Concurrent Shipped Enforce.
Local Open Scope Z_scope.

(** * The checks of the rules *)

(** What the rules look at. *)
Record View := mkView {
  crs_points : Z; listed : bool; trusted : bool; geo_listed : bool; country : string; tier_name : string;
  view_path : string; view_query : string; view_body : string
}.

(** The rules as they fire. *)
Definition detection_sorted : list RuleAst := Eval vm_compute in sort_rules detection_rules.
Lemma detection_sorted_eq : sort_rules detection_rules = detection_sorted.
Proof. vm_compute. reflexivity. Qed.

Section Checks.
Context `{UnicodeTables, RegexLib, HashOrder}.

(** A reason to block, and whether it applies, in the order of the saliences. *)
Definition detections (v : View) : list (string * bool) :=
  let p := view_path v in let q := view_query v in let b := view_body v in
  [("crs", 5 <=? crs_points v);
   ("ip blacklisted", listed v);
   ("geo-block", geo_listed v);
   ("geo-block-vn", String.eqb (country v) "VN");
   ("sqli detected", detect_sqli q || detect_sqli b);
   ("xss detected", detect_xss q || detect_xss b);
   ("path traversal detected", detect_path_traversal p || detect_path_traversal q);
   ("sensitive path access",
     starts_with p "/etc/" || starts_with p "/proc/" || starts_with p "/.git/" || String.eqb p "/.env" ||
     ends_with p "/passwd" || ends_with p "/shadow");
   ("ssrf detected",
     contains b "169.254.169.254" || contains q "169.254.169.254" || contains b "file://" || contains q "file://");
   ("header injection detected", detect_header_injection p || detect_header_injection q);
   ("canary endpoint hit", String.eqb p "/admin-test" || String.eqb p "/api-debug")].

(** The first that applies. *)
Definition detected (v : View) : Decision :=
  match List.find snd (detections v) with
  | Some (reason, _) => Block reason
  | None => Allow
  end.

(** The functions the rules call, and what they see of a request. *)
Record sees (reg : FunctionRegistry) (ctx : RequestContext) (v : View) : Prop := {
  sees_builtins : forall n, In n ["matches"; "contains"; "starts_with"; "ends_with"; "contains_sqli"; "contains_xss";
                            "contains_path_traversal"; "contains_header_injection"] -> reg !! n = None;
  sees_crs : call reg "crs_score" ctx [] = VInt (crs_points v);
  sees_lists : call reg "ip_in_blacklist" ctx [VStr (client_ip ctx)] = VBool (listed v);
  sees_trusted : call reg "ip_in_whitelist" ctx [VStr (client_ip ctx)] = VBool (trusted v);
  sees_geo : call reg "geo_blocked" ctx [] = VBool (geo_listed v);
  sees_country : call reg "GetCountry" ctx [] = VStr (country v);
  sees_tier : to_lowercase (tier_debug (tier ctx)) = tier_name v;
  sees_path : url_decode (path ctx) = view_path v;
  sees_query : form_decode (default "" (query ctx)) = view_query v;
  sees_body : default "" (from_utf8_lossy <$> body ctx) = view_body v
}.

Section Seen.
Context reg ctx v (Hv : sees reg ctx v).

Lemma seen_path : read_path (WorkingMemory_new ctx reg) [SegField "Request"; SegField "Path"] = VStr (view_path v).
Proof. by rewrite <- (sees_path _ _ _ Hv). Qed.
Lemma seen_query : read_path (WorkingMemory_new ctx reg) [SegField "Request"; SegField "Query"] = VStr (view_query v).
Proof. by rewrite <- (sees_query _ _ _ Hv). Qed.
Lemma seen_body : read_path (WorkingMemory_new ctx reg) [SegField "Request"; SegField "Body"] = VStr (view_body v).
Proof. by rewrite <- (sees_body _ _ _ Hv). Qed.
Lemma seen_tier : read_path (WorkingMemory_new ctx reg) [SegField "Request"; SegField "Tier"] = VStr (tier_name v).
Proof. by rewrite <- (sees_tier _ _ _ Hv). Qed.
Lemma seen_client : read_path (WorkingMemory_new ctx reg) [SegField "Request"; SegField "ClientIp"] = VStr (client_ip ctx).
Proof. done. Qed.
Lemma seen_call n args :
  In n ["matches"; "contains"; "starts_with"; "ends_with"; "contains_sqli"; "contains_xss";
        "contains_path_traversal"; "contains_header_injection"] -> call reg n ctx args = dispatch n args.
Proof. intros Hn. by apply call_unregistered, (sees_builtins _ _ _ Hv). Qed.
End Seen.
End Checks.

(** Whether a given rule holds, from what is seen of the request. *)
Ltac rule_sees Hv :=
  unfold holds; cbn [ra_when eval_expr eval_binary map as_bool fst snd];
  rewrite ?(seen_path _ _ _ Hv), ?(seen_query _ _ _ Hv), ?(seen_body _ _ _ Hv), ?(seen_tier _ _ _ Hv), ?seen_client;
  cbn [registry fact WorkingMemory_new];
  first [ rewrite (sees_crs _ _ _ Hv) | rewrite (sees_lists _ _ _ Hv) | rewrite (sees_trusted _ _ _ Hv)
        | rewrite (sees_geo _ _ _ Hv) | rewrite (sees_country _ _ _ Hv) | rewrite ?(seen_call _ _ _ Hv) by (cbn; tauto) ];
  reflexivity.

Section Deciding.
Context `{UnicodeTables, RegexLib, HashOrder}.

Lemma checks_hold reg ctx v :
  sees reg ctx v ->
  Forall2 (fun r d => deciding r = Some (Block (fst d)) /\ holds (WorkingMemory_new ctx reg) r = snd d) detection_sorted (detections v).
Proof.
  intros Hv. unfold detection_sorted, detections.
  repeat (apply Forall2_cons; split; [split; [reflexivity|rule_sees Hv]|]). constructor.
Qed.

(** The first rule that holds has the first reason that applies. *)
Lemma find_related {A B} (f : A -> bool) (g : B -> bool) (R : A -> B -> Prop) l m :
  Forall2 R l m -> (forall x y, R x y -> f x = g y) ->
  match List.find f l, List.find g m with
  | Some x, Some y => R x y
  | None, None => True
  | _, _ => False
  end.
Proof.
  intros Hlm Hfg. induction Hlm as [|x y l m Hxy _ IH]; [done|]. cbn. rewrite (Hfg x y Hxy). by destruct (g y).
Qed.

(** An engine built from the rules decides as the checks say. *)
Lemma detection_decides eng ctx v :
  network eng = compile detection_rules -> sees (engine_registry eng) ctx v ->
  outcome_to_decision (fire eng ctx) = detected v.
Proof.
  intros Hnet Hv. destruct detection_reads as (_ & Hblock & Hwf).
  rewrite (deciding_rules_decide detection_rules eng ctx Hwf Hnet); [|by apply (sees_builtins _ _ _ Hv); left|].
  - rewrite detection_sorted_eq. unfold detected. set (wm := WorkingMemory_new ctx (engine_registry eng)).
    assert (Hf : match List.find (holds wm) detection_sorted, List.find snd (detections v) with
                 | Some r, Some d => deciding r = Some (Block (fst d)) /\ holds wm r = snd d
                 | None, None => True
                 | _, _ => False
                 end) by (apply find_related; [by apply checks_hold|by intros r d [_ ?]]).
    revert Hf. generalize (List.find (holds wm) detection_sorted) as found.
    intros [r|]; destruct (List.find snd (detections v)) as [[reason b]|]; [|intros []..|done]. by intros [-> _].
  - intros r Hr _. rewrite List.forallb_forall in Hblock.
    specialize (Hblock r Hr). by apply bool_decide_eq_true in Hblock.
Qed.
End Deciding.

(** * The application started on them *)

Section Started.
Context `{UnicodeTables, RegexLib, AhoCorasickLib, IpNetLib, HashOrder, !RegexReplaceLib, ModSecLib, GeoDbLib, YamlLib, HttpLib}.
Variable yaml_rules : string -> option (list Matcher.Rule).
Variable yaml_value : string -> option yaml.
Variable pest_parse : string -> option (list Pair).

(** The start loads no whitelist. *)
Lemma startup_trusts_none fs file ip : is_whitelisted (initial_lists fs file) ip = false.
Proof.
  assert (Hw : whitelist (initial_lists fs file) = IpSet_default).
  { unfold initial_lists. destruct file as [path|]; [|done]. by destruct (fs_read fs path). }
  unfold is_whitelisted. destruct (parse_ip ip) as [addr|]; [|done]. by rewrite Hw.
Qed.

(** What the rules see of a request that the proxy hands them: no client address, an
    empty whitelist, and no country. *)
Definition proxy_view (lists : IpListStore) (ruleset : CrsRuleset) (ctx : RequestContext) (raw : RawRequest) (body : string) : View :=
  mkView (inbound_score (crs_evaluate ruleset ctx)) (is_blacklisted lists "0.0.0.0") false false ""
    "catchall"
    (url_decode (raw_path raw)) (form_decode (default "" (raw_query raw))) (from_utf8_lossy body).

Lemma startup_sees fs cfg st crs ruleset id now raw body :
  AppState_init yaml_rules yaml_value pest_parse true fs cfg = Ok st ->
  crs_dir (cfg_rules cfg) = Some crs -> load_crs fs crs (path_join (rules_dir (cfg_rules cfg)) "data") = Ok ruleset ->
  let ctx := build_context id now raw body in
  sees (engine_registry (store_engine (app_rules st))) ctx (proxy_view (ip_lists st) ruleset ctx raw body).
Proof.
  intros Hst Hcrs Hload ctx.
  destruct (startup_registers_plugins yaml_rules yaml_value pest_parse fs cfg st Hst) as (Hlist & Hgeo & Hscore).
  unfold AppState_init in Hst. cbn [negb] in Hst. injection Hst as <-. cbn [app_rules store_engine reload_engine ip_lists] in *.
  split.
  - intros n Hn.
    assert (Hfree : n ∉ plugin_functions /\ (register_context_defaults ∅ : FunctionRegistry) !! n = None).
    { revert n Hn. apply List.Forall_forall. repeat (apply Forall_cons; split); [..|by apply Forall_nil].
      all: split; [unfold plugin_functions; set_solver|reflexivity]. }
    destruct Hfree as [Hp Hfree]. by rewrite startup_registry_keeps.
  - by rewrite (Hscore crs ruleset Hcrs Hload).
  - rewrite Hlist. done.
  - set (lists := initial_lists fs (blacklist_file (cfg_rules cfg))).
    eapply (call_is _ _ (fun ctx args => VBool (is_whitelisted lists (ip_argument ctx args))));
      [|cbn beta; by rewrite (startup_trusts_none fs (blacklist_file (cfg_rules cfg)))].
    unfold initial_engine. rewrite (install_other (GeoPlugin (configured_geo cfg))) by set_solver.
    rewrite install_crs_other by set_solver. rewrite (install_provided (BlacklistPlugin _)) by set_solver.
    apply lookup_register_eq.
  - by rewrite Hgeo.
  - eapply (call_is _ _ (get_country (configured_geo cfg))); [|reflexivity]. unfold initial_engine.
    rewrite (install_provided (GeoPlugin (configured_geo cfg))) by set_solver.
    cbn. rewrite lookup_register_ne by done. apply lookup_register_eq.
  - done.
  - done.
  - done.
  - unfold ctx, build_context. cbn. by destruct body.
Qed.

(** The shipped detection rules, end to end: an application started on them and on
    the core rule set keeps back a request exactly when one of their checks applies,
    answers 403 with the reason of the first in order of salience, and sends every
    other request to its backend.  The rules see no client address and no country, so
    the country rules never apply and the blacklist is asked for 0.0.0.0. *)
Theorem shipped_rules_answer fs cfg st crs ruleset client id now raw body :
  AppState_init yaml_rules yaml_value pest_parse true fs cfg = Ok st ->
  initial_grl yaml_value pest_parse fs (rules_dir (cfg_rules cfg)) = detection_rules ->
  crs_dir (cfg_rules cfg) = Some crs -> load_crs fs crs (path_join (rules_dir (cfg_rules cfg)) "data") = Ok ruleset ->
  raw_body raw = Some body ->
  handle_request client id now raw st =
  answer client raw body (resolve_upstream (raw_path raw) st)
    (detected (proxy_view (ip_lists st) ruleset (build_context id now raw body) raw body)).
Proof.
  intros Hst Hrules Hcrs Hload Hbody. rewrite (handled_answer _ _ _ _ _ body Hbody). f_equal.
  apply detection_decides; [|by apply (startup_sees fs cfg st crs)].
  unfold AppState_init in Hst. cbn [negb] in Hst. injection Hst as <-. cbn [app_rules store_engine reload_engine].
  by rewrite initial_network, Hrules.
Qed.
End Started.

(** * A sample start *)

Section Sample.
Local Existing Instances plain_unicode literal_regex phrase_automaton pair_ipnet sorted_hash_order literal_replace
  sample_modsec_lib no_geo_db tree_yaml sample_http.

(** A directory with the rules and one core rule, for a phrase in the arguments. *)
Definition one_core_rule : string := double_quoted
"SecRule ARGS '@contains evil' 'id:1,phase:2,block,setvar:tx.inbound_anomaly_score_pl1=+5'
".
Definition detection_fs : FileSystem :=
  mkFs (fun _ => true) (fun _ => true)
    (fun d => if String.eqb d "rules" then Some [Some "rules/detection.grl"] else Some [Some "crs/one.conf"])
    (fun p => if String.eqb p "rules/detection.grl" then Some detection_grl
              else if String.eqb p "crs/one.conf" then Some one_core_rule else None).
Definition detection_app : AppState :=
  match AppState_init (fun _ => None) (fun _ => None) grammar_parse true detection_fs sample_config with
  | Ok st => st
  | Err _ => open_app
  end.
Definition detection_crs : CrsRuleset :=
  match load_crs detection_fs "crs" "rules/data" with Ok rs => rs | Err _ => mkRuleset "" ∅ "crs" 0 end.

Definition request_to (p q : string) : RawRequest := mkRaw "GET" p (Some q) [] (Some "").

Lemma shipped_rules_answer_witness :
  map (fun raw => (handle_request no_upstream "r" 0 raw detection_app).2)
    [request_to "/union" ""; request_to "/%65tc/hosts" ""; request_to "/fetch" "u=file://x"; request_to "/" "q=1"] =
  [json_error 403 "blocked: crs"; json_error 403 "blocked: sensitive path access"; json_error 403 "blocked: ssrf detected";
   json_error 502 "upstream unavailable"].
Proof.
  assert (Hrules : initial_grl (fun _ => None) grammar_parse detection_fs "rules" = detection_rules) by (vm_compute; reflexivity).
  assert (Hd : forall raw, raw_body raw = Some "" -> handle_request no_upstream "r" 0 raw detection_app = _)
    by (intros raw Hb; exact (shipped_rules_answer (fun _ => None) (fun _ => None) grammar_parse detection_fs sample_config
          detection_app "crs" detection_crs no_upstream "r" 0 raw "" eq_refl Hrules eq_refl eq_refl Hb)).
  cbn [map]. rewrite !Hd by reflexivity. vm_compute. reflexivity.
Defined.
End Sample.
