(* ===== verification/Rules2.v ===== *)
(** The shipped rules directory, [config/rules2], as a whole: its GRL file and its five
    YAML files, as the loader, the converter and the proxy take them. *)
From S2P Require Import Prelude Utf8 RustStd Net Extern Float64 WafTypes Ast Functions Printer Rete WorkingMemory Engine EngineSpec.
From S2P Require Import CrsTypes CrsTx CrsTransform CrsTarget CrsOperator CrsParser CrsEval Lists Geo GrlParser Pest Converter GrlText ConvSpec ConvEngine.
From S2P Require Import Serde TreeModel Matcher Loader WafSchema App Proxy Concurrent Shipped Enforce Detection.
Local Open Scope Z_scope.

(** * The documents *)

Definition tier_scope (tier : string) : ytree := YtMap [("type", YtStr "tier"); ("tier", YtStr tier)].
Definition of_type (kind : string) (fields : list (string * ytree)) : ytree := YtMap (("type", YtStr kind) :: fields).
Definition shipped_rule (id : string) (priority : Z) (scope condition : ytree) (action : string) (delta : Z) : ytree :=
  YtMap [("id", YtStr id); ("priority", YtInt priority); ("scope", scope); ("condition", condition);
         ("action", YtStr action); ("risk_score_delta", YtInt delta)].
Definition global_rule (id : string) (priority : Z) (condition : ytree) (action : string) (delta : Z) : ytree :=
  shipped_rule id priority (YtStr "global") condition action delta.
Definition route_rule (id : string) (priority : Z) (condition : ytree) (backend : string) : ytree :=
  YtMap [("id", YtStr id); ("priority", YtInt priority); ("scope", YtStr "global"); ("condition", condition);
         ("action", YtStr "allow"); ("upstream_backend", YtStr backend); ("risk_score_delta", YtInt 0)].
Definition path_exact (value : string) : ytree := of_type "path_exact" [("value", YtStr value)].
Definition path_wildcard (pattern : string) : ytree := of_type "path_wildcard" [("pattern", YtStr pattern)].
Definition payload_regex (pattern : string) : ytree := of_type "payload_regex" [("pattern", YtStr pattern)].

Definition global_yaml : ytree := YtSeq
  [global_rule "global-block-blacklisted-ip" 100 (of_type "ip_in_blacklist" []) "block" 100;
   global_rule "global-allow-whitelisted-ip" 99 (of_type "ip_in_whitelist" []) "allow" (-10);
   global_rule "global-sqli-detect" 90 (of_type "sqli_pattern" []) "block" 80;
   global_rule "global-xss-detect" 89 (of_type "xss_pattern" []) "block" 70;
   global_rule "global-path-traversal" 88 (of_type "path_traversal_pattern" []) "block" 70;
   global_rule "global-ssrf-detect" 87 (of_type "ssrf_pattern" []) "block" 80;
   global_rule "global-header-injection" 86 (of_type "header_injection_pattern" []) "block" 60;
   global_rule "global-canary-admin-test" 200 (path_exact "/admin-test") "block" 100;
   global_rule "global-canary-api-debug" 200 (path_exact "/api-debug") "block" 100].
Definition critical_yaml : ytree := YtSeq
  [shipped_rule "critical-rate-limit-ip" 100 (tier_scope "critical") (of_type "rate_limit_exceeded" []) "rate_limit" 30;
   shipped_rule "critical-brute-force-detect" 90 (tier_scope "critical") (of_type "sqli_pattern" []) "block" 50;
   shipped_rule "critical-zero-depth-session" 85 (tier_scope "critical") (payload_regex "^$") "challenge" 40;
   shipped_rule "critical-transaction-velocity" 80 (tier_scope "critical") (payload_regex ".*") "block" 60].
Definition high_yaml : ytree := YtSeq
  [shipped_rule "high-rate-limit-ip" 100 (tier_scope "high") (of_type "rate_limit_exceeded" []) "rate_limit" 20;
   shipped_rule "high-bot-challenge" 80 (tier_scope "high") (payload_regex ".*") "challenge" 30;
   shipped_rule "high-sqli-body" 90 (tier_scope "high") (of_type "sqli_pattern" []) "block" 80].
Definition medium_yaml : ytree := YtSeq
  [shipped_rule "medium-rate-limit-ip" 100 (tier_scope "medium") (of_type "rate_limit_exceeded" []) "rate_limit" 10;
   shipped_rule "medium-path-traversal" 90 (tier_scope "medium") (of_type "path_traversal_pattern" []) "block" 50].
Definition backends_yaml : ytree := YtSeq
  [route_rule "route-login-java" 50 (path_exact "/login") "java";
   route_rule "route-otp-java" 50 (path_exact "/otp") "java";
   route_rule "route-deposit-java" 50 (path_exact "/deposit") "java";
   route_rule "route-withdrawal-java" 50 (path_exact "/withdrawal") "java";
   route_rule "route-api-python" 60 (path_wildcard "/api/*") "python";
   route_rule "route-user-python" 60 (path_wildcard "/user/*") "python";
   route_rule "route-game-python" 60 (path_wildcard "/game/*") "python";
   route_rule "route-default-go" 999 (path_wildcard "/**") "go"].

(** * The rules they are converted to *)

Section Converted.
Context `{UnicodeTables}.
Local Existing Instance tree_yaml.

Definition converted (doc : ytree) : list RuleAst :=
  match yaml_to_grl doc with
  | Ok text => match grl_parse grammar_parse text with Ok rules => rules | Err _ => [] end
  | Err _ => []
  end.

Definition global_rules : list RuleAst := Eval vm_compute in converted global_yaml.
Definition critical_rules : list RuleAst := Eval vm_compute in converted critical_yaml.
Definition high_rules : list RuleAst := Eval vm_compute in converted high_yaml.
Definition medium_rules : list RuleAst := Eval vm_compute in converted medium_yaml.
Definition backend_rules : list RuleAst := Eval vm_compute in converted backends_yaml.
Definition tier_rules : list RuleAst := critical_rules ++ high_rules ++ medium_rules.

Lemma documents_converted :
  converted global_yaml = global_rules /\ converted critical_yaml = critical_rules /\ converted high_yaml = high_rules /\
  converted medium_yaml = medium_rules /\ converted backends_yaml = backend_rules.
Proof. repeat split; vm_compute; reflexivity. Qed.
End Converted.

(** All rules of the directory, in some order. *)
Definition all_rules : list RuleAst :=
  detection_sorted ++ global_rules ++ tier_rules ++ backend_rules.

Lemma all_rules_wf : forallb wf_rule all_rules = true.
Proof. vm_compute. reflexivity. Qed.

(** * Deciding by a table *)

(** A table of saliences, tests and decisions stands for a set of rules when the rule of
    highest salience that holds has the decision of the first entry that applies. *)
Section Table.
Variable hold : RuleAst -> bool.
Definition Entry : Type := Z * bool * WafTypes.Decision.
Definition entry_salience (c : Entry) : Z := c.1.1.
Definition applies (c : Entry) : bool := c.1.2.

(** A rule that holds is below an entry that applies, or decides as the entry of its
    salience does, or comes after the table and allows. *)
Definition covered (table : list Entry) (r : RuleAst) : Prop :=
  is_Some (deciding r) /\
  ((exists c, In c table /\ applies c = true /\ ra_salience r < entry_salience c) \/
   (exists c, In c table /\ applies c = true /\ ra_salience r = entry_salience c /\ deciding r = Some c.2) \/
   ((forall c, In c table -> ra_salience r < entry_salience c) /\ deciding r = Some Allow)).
Record stands_table (rules : list RuleAst) (table : list Entry) : Prop := {
  table_sorted : StronglySorted (fun c c' => entry_salience c' < entry_salience c) table;
  table_backed : forall c, In c table -> applies c = true -> exists r, In r rules /\ hold r = true /\ ra_salience r = entry_salience c;
  table_covers : forall r, In r rules -> hold r = true -> covered table r
}.

Lemma find_sorted_entry table c :
  StronglySorted (fun c c' => entry_salience c' < entry_salience c) table -> In c table -> applies c = true ->
  exists c0, List.find applies table = Some c0 /\ (c0 = c \/ entry_salience c < entry_salience c0).
Proof.
  induction 1 as [|d table Hs IH Hd]; [done|]. intros [->|Hin] Hc; cbn.
  - rewrite Hc. exists c. auto.
  - destruct (applies d); [exists d; split; [done|]; right; rewrite List.Forall_forall in Hd; by apply Hd|by apply IH].
Qed.

Lemma table_decides rules table loaded :
  stands_table rules table -> loaded ≡ₚ rules ->
  match List.find hold (sort_rules loaded) with Some r => default Allow (deciding r) | None => Allow end =
  match List.find applies table with Some c => c.2 | None => Allow end.
Proof.
  intros [Hsorted Hbacked Hcovers] Hperm.
  assert (Hin : forall r, In r loaded <-> In r rules).
  { intros r. by rewrite <- !list_elem_of_In, Hperm. }
  destruct (List.find hold (sort_rules loaded)) as [r|] eqn:Hf.
  - pose proof (List.find_some _ _ Hf) as [Hr Hh]. apply In_sorted, Hin in Hr. pose proof (Hcovers r Hr Hh) as [_ Hcov].
    assert (Hmax : forall r', In r' rules -> hold r' = true -> ra_salience r' <= ra_salience r).
    { intros r' Hr' Hh'. apply Hin in Hr'. apply find_sort_by_key in Hf as (pre & post & Heq & _ & Hpre & Hpost).
      rewrite Heq in Hr'. apply in_app_or in Hr' as [Hr'|[<-|Hr']]; [specialize (Hpre r' Hr' Hh')| |specialize (Hpost r' Hr' Hh')]; lia. }
    assert (Hbound : forall c, In c table -> applies c = true -> entry_salience c <= ra_salience r).
    { intros c Hc Ha. destruct (Hbacked c Hc Ha) as (r' & Hr' & Hh' & <-). by apply Hmax. }
    destruct Hcov as [(c & Hc & Ha & Hlt)|[(c & Hc & Ha & Heq & Hd)|[Hlow Hd]]].
    + specialize (Hbound c Hc Ha). lia.
    + destruct (find_sorted_entry table c Hsorted Hc Ha) as (c0 & Hc0 & [->|Hlt]); [by rewrite Hc0, Hd|].
      pose proof (List.find_some _ _ Hc0) as [Hin0 Ha0]. specialize (Hbound c0 Hin0 Ha0). lia.
    + rewrite Hd. destruct (List.find applies table) as [c|] eqn:Hc; [|done].
      apply List.find_some in Hc as [Hc Ha]. specialize (Hbound c Hc Ha). specialize (Hlow c Hc). lia.
  - destruct (List.find applies table) as [c|] eqn:Hc; [|done]. apply List.find_some in Hc as [Hc Ha].
    destruct (Hbacked c Hc Ha) as (r & Hr & Hh & _). apply Hin in Hr.
    rewrite (List.find_none _ _ Hf r) in Hh; [done|]. by apply In_sorted.
Qed.
End Table.

(** * The table of the shipped rules *)

Section Checks.
Context `{UnicodeTables, RegexLib, HashOrder}.

Definition sensitive_path (p : string) : bool :=
  starts_with p "/etc/" || starts_with p "/proc/" || starts_with p "/.git/" || String.eqb p "/.env" ||
  ends_with p "/passwd" || ends_with p "/shadow".
Definition internal_request (q b : string) : bool :=
  contains b "169.254.169.254" || contains q "169.254.169.254" || contains b "file://" || contains q "file://".

(** The tests in the order of the saliences; the other rules with conditions on the
    request never hold or can never be the first to hold. *)
Definition rules2_table (v : View) : list Entry :=
  let p := view_path v in let q := view_query v in let b := view_body v in
  [(1000, 5 <=? crs_points v, Block "crs");
   (970, listed v, Block "ip blacklisted");
   (914, detect_header_injection p || detect_header_injection q, Block "global-header-injection");
   (913, contains q "http://" || contains q "file://" || contains q "169.254.169.254", Block "global-ssrf-detect");
   (912, detect_path_traversal p, Block "global-path-traversal");
   (911, detect_xss q || detect_xss b, Block "global-xss-detect");
   (910, detect_sqli q || detect_sqli b, Block "global-sqli-detect");
   (880, detect_path_traversal p || detect_path_traversal q, Block "path traversal detected");
   (875, sensitive_path p, Block "sensitive path access");
   (870, internal_request q b, Block "ssrf detected");
   (850, String.eqb p "/admin-test" || String.eqb p "/api-debug", Block "canary endpoint hit")].
Definition rules2_decision (v : View) : WafTypes.Decision :=
  match List.find applies (rules2_table v) with Some c => c.2 | None => Allow end.

(** Whether each rule of the YAML files holds; those for a tier do not. *)
Definition global_holds (v : View) : list bool :=
  let p := view_path v in let q := view_query v in let b := view_body v in
  [listed v; trusted v; detect_sqli q || detect_sqli b; detect_xss q || detect_xss b; detect_path_traversal p;
   contains q "http://" || contains q "file://" || contains q "169.254.169.254";
   detect_header_injection p || detect_header_injection q; String.eqb p "/admin-test"; String.eqb p "/api-debug"].

Lemma global_hold reg ctx v :
  sees reg ctx v -> Forall2 (fun r b => holds (WorkingMemory_new ctx reg) r = b) global_rules (global_holds v).
Proof.
  intros Hv. unfold global_rules, global_holds. repeat (apply Forall2_cons; split; [rule_sees Hv|]). constructor.
Qed.

(** The proxy puts every request in the catch-all tier. *)
Lemma tier_idle reg ctx v :
  sees reg ctx v -> tier_name v = "catchall" -> Forall (fun r => holds (WorkingMemory_new ctx reg) r = false) tier_rules.
Proof.
  intros Hv Ht. unfold tier_rules, critical_rules, high_rules, medium_rules. cbn [app].
  repeat (apply Forall_cons; split; [unfold holds; cbn [ra_when eval_expr eval_binary as_bool]; rewrite (seen_tier _ _ _ Hv), Ht; reflexivity|]).
  constructor.
Qed.
End Checks.

(** * The table stands for the rules *)

(** Which entry keeps the n-th of the rules with conditions from being the first; any
    for the country rules and the whitelist rule, which do not apply. *)
Definition covering : list nat :=
  [0; 1; 0; 0; 6; 5; 7; 8; 9; 2; 10; 1; 0; 6; 5; 4; 3; 2; 10; 10]%nat.

Section Standing.
Context `{UnicodeTables, RegexLib, HashOrder}.
Context reg ctx v (Hv : sees reg ctx v).
Context (Hgeo : geo_listed v = false) (Htrusted : trusted v = false) (Hcountry : country v = "") (Htier : tier_name v = "catchall").
Notation holding := (holds (WorkingMemory_new ctx reg)).

Definition held_bits : list bool := map snd (detections v) ++ global_holds v.

Lemma rules_held : Forall2 (fun r b => holding r = b) (detection_sorted ++ global_rules) held_bits.
Proof.
  apply Forall2_app; [|by apply global_hold].
  apply Forall2_fmap_r. eapply Forall2_impl; [by apply checks_hold|]. by intros r d [_ ?].
Qed.

Lemma held_rule i r b : (detection_sorted ++ global_rules) !! i = Some r -> held_bits !! i = Some b -> b = true ->
  In r all_rules /\ holding r = true.
Proof.
  intros Hr Hb ->. split; [|by apply (Forall2_lookup_lr _ _ _ _ _ _ rules_held Hr Hb)].
  unfold all_rules. rewrite app_assoc. apply in_or_app. left. apply list_elem_of_In. by eapply list_elem_of_lookup_2.
Qed.

(** The rules behind the entries, by their place in the list. *)
Definition backing : list nat := [0; 1; 17; 16; 15; 14; 13; 6; 7; 8; 10]%nat.
Lemma entries_backed c :
  In c (rules2_table v) -> applies c = true -> exists r, In r all_rules /\ holding r = true /\ ra_salience r = entry_salience c.
Proof.
  assert (Hall : Forall2 (fun c i => exists r, (detection_sorted ++ global_rules) !! i = Some r /\ ra_salience r = entry_salience c /\
                                     held_bits !! i = Some (applies c)) (rules2_table v) backing).
  { unfold rules2_table, backing. repeat (apply Forall2_cons; split; [eexists; repeat split|]). constructor. }
  intros Hc Ha. apply list_elem_of_In, list_elem_of_lookup in Hc as [k Hc].
  destruct (Forall2_lookup_l _ _ _ _ _ Hall Hc) as (i & _ & r & Hr & Hs & Hb).
  destruct (held_rule i r _ Hr Hb Ha). by exists r.
Qed.

Definition below (c : Entry) (r : RuleAst) : bool :=
  bool_decide (is_Some (deciding r)) &&
  ((ra_salience r <? entry_salience c) || (ra_salience r =? entry_salience c) && bool_decide (deciding r = Some c.2)).
Lemma below_covered table c r : In c table -> applies c = true -> below c r = true -> covered table r.
Proof.
  unfold below. intros Hc Ha [Hd Hr]%andb_prop. apply bool_decide_eq_true in Hd. split; [done|].
  apply orb_prop in Hr as [Hr|[Hr Hd']%andb_prop]; [left; exists c; split; [done|split; [done|lia]]|right; left; exists c; split; [done|split; [done|split; [lia|by apply bool_decide_eq_true in Hd']]]].
Qed.

Lemma conditions_covered i r :
  (detection_sorted ++ global_rules) !! i = Some r -> holding r = true -> covered (rules2_table v) r.
Proof.
  assert (Hall : Forall2 (fun rb n => rb.2 = true -> exists c, rules2_table v !! n = Some c /\ applies c = true /\ below c rb.1 = true)
                   (zip (detection_sorted ++ global_rules) held_bits) covering).
  { unfold covering, held_bits, detections, global_holds, detection_sorted, global_rules. cbn [map snd app zip_with].
    repeat (apply Forall2_cons; split; [cbn [fst snd]; rewrite ?Hgeo, ?Htrusted, ?Hcountry; intros Hb;
      first [discriminate Hb | eexists; split; [reflexivity|split; [|reflexivity]]; unfold applies; cbn [fst snd];
             first [exact Hb | by rewrite Hb, ?orb_true_r]]|]).
    constructor. }
  intros Hr Hh. destruct (Forall2_lookup_l _ _ _ _ _ rules_held Hr) as (b & Hb & <-). rewrite Hh in Hb.
  assert (Hz : zip (detection_sorted ++ global_rules) held_bits !! i = Some (r, true)) by (apply lookup_zip_Some; by split).
  destruct (Forall2_lookup_l _ _ _ _ _ Hall Hz) as (n & _ & Hc). destruct (Hc eq_refl) as (c & Hn & Ha & Hbelow).
  eapply below_covered; [|exact Ha|exact Hbelow]. apply list_elem_of_In. by eapply list_elem_of_lookup_2.
Qed.

(** The routing rules come last and allow. *)
Lemma routes_covered r : In r backend_rules -> covered (rules2_table v) r.
Proof.
  intros Hr. assert (Hlow : deciding r = Some Allow /\ ra_salience r < 850).
  { revert r Hr. apply List.Forall_forall. unfold backend_rules. repeat (apply Forall_cons; split; [done|]). constructor. }
  split; [by exists Allow; apply Hlow|]. right. right. split; [|by apply Hlow].
  destruct Hlow as [_ Hlow]. apply List.Forall_forall. unfold rules2_table, entry_salience.
  repeat (apply Forall_cons; split; [cbn [fst]; lia|]). constructor.
Qed.

Lemma table_stands : stands_table holding all_rules (rules2_table v).
Proof.
  split; [|exact entries_backed|].
  - unfold rules2_table, entry_salience. repeat (apply SSorted_cons; [|repeat (apply Forall_cons; split; [cbn [fst]; lia|]); constructor]).
    constructor.
  - unfold all_rules. rewrite app_assoc. intros r Hr Hh.
    apply in_app_or in Hr as [Hr|[Hr|Hr]%in_app_or]; [| |by apply routes_covered].
    + apply list_elem_of_In, list_elem_of_lookup in Hr as [i Hi]. by eapply conditions_covered.
    + pose proof (tier_idle _ _ _ Hv Htier) as Hidle. rewrite List.Forall_forall in Hidle. by rewrite (Hidle r Hr) in Hh.
Qed.

(** An engine built from the rules of the directory, in whatever order they were
    loaded, decides by the table. *)
Lemma rules2_decides eng loaded :
  network eng = compile loaded -> engine_registry eng = reg -> loaded ≡ₚ all_rules ->
  outcome_to_decision (fire eng ctx) = rules2_decision v.
Proof.
  intros Hnet Hreg Hperm. rewrite (deciding_rules_decide loaded eng ctx).
  - rewrite Hreg. unfold rules2_decision. exact (table_decides holding _ _ _ table_stands Hperm).
  - apply List.forallb_forall. intros r Hr. pose proof all_rules_wf as Hall. rewrite List.forallb_forall in Hall. apply Hall.
    by rewrite <- list_elem_of_In, <- Hperm, list_elem_of_In.
  - done.
  - rewrite Hreg. apply (sees_builtins _ _ _ Hv). by left.
  - rewrite Hreg. intros r Hr Hh. apply (table_covers _ _ _ table_stands); [|done].
    by rewrite <- list_elem_of_In, <- Hperm, list_elem_of_In.
Qed.
End Standing.

(** * The directory *)

Definition rules2_documents : list (string * ytree) :=
  [("config/rules2/backends.yaml", backends_yaml); ("config/rules2/critical.yaml", critical_yaml);
   ("config/rules2/global.yaml", global_yaml); ("config/rules2/high.yaml", high_yaml); ("config/rules2/medium.yaml", medium_yaml)].
Definition rules2_paths : list string :=
  ["config/rules2/crs"; "config/rules2/data"; "config/rules2/detection.grl"] ++ map fst rules2_documents.

(** A file system that shows the directory, its entries in any order. *)
Definition rules2_dir : string := "config/rules2".
Record shows_rules2 (yaml_value : string -> option ytree) (fs : FileSystem) : Prop := {
  rules2_exists : fs_exists fs rules2_dir = true;
  rules2_listed : exists paths, fs_read_dir fs rules2_dir = Some (map Some paths) /\ paths ≡ₚ rules2_paths;
  rules2_dirs : fs_is_file fs "config/rules2/crs" = false /\ fs_is_file fs "config/rules2/data" = false;
  rules2_grl : fs_is_file fs "config/rules2/detection.grl" = true /\ fs_read fs "config/rules2/detection.grl" = Some detection_grl;
  rules2_yaml : forall p doc, In (p, doc) rules2_documents ->
    fs_is_file fs p = true /\ exists txt, fs_read fs p = Some txt /\ yaml_value txt = Some doc
}.

(** [server.backends] of [config/waf.toml]. *)
Definition java_backend : string := "http://127.0.0.1:33335".
Definition python_backend : string := "http://127.0.0.1:33334".
Definition go_backend : string := "http://127.0.0.1:33333".
Lemma shipped_server :
  upstream (server shipped_config) = go_backend /\
  backends (server shipped_config) = {["java" := java_backend; "python" := python_backend; "go" := go_backend]}.
Proof. vm_compute. done. Qed.

(** The route map in the head of [backends.yaml]. *)
Definition java_names : list string := ["login"; "otp"; "deposit"; "withdrawal"].
Definition python_names : list string := ["api"; "user"; "game"].
Definition java_path (p : string) : bool := existsb (fun n => String.eqb ("/" +:+ n) p) java_names.
Definition python_path (p : string) : bool :=
  existsb (fun n => String.eqb p ("/" +:+ n) || starts_with p ("/" +:+ n +:+ "/")) python_names.
Definition shipped_route (p : string) : string :=
  if java_path p then java_backend else if python_path p then python_backend else go_backend.

(** What each entry of the directory contributes. *)
Definition file_rules : list (list RuleAst) :=
  [[]; []; detection_rules; backend_rules; critical_rules; global_rules; high_rules; medium_rules].
Lemma all_rules_files : mjoin file_rules ≡ₚ all_rules.
Proof.
  assert (Hd : detection_rules ≡ₚ detection_sorted) by (rewrite <- detection_sorted_eq; symmetry; apply sort_by_key_perm).
  unfold all_rules, tier_rules, file_rules. revert Hd.
  generalize critical_rules high_rules medium_rules global_rules backend_rules detection_rules detection_sorted.
  clear. intros c h m g b d d' Hd. cbn [mjoin list_join app]. rewrite <- Hd, app_nil_r. solve_Permutation.
Qed.

Lemma flat_map_parts {A B} (f : A -> list B) l ls : Forall2 (fun x r => f x = r) l ls -> flat_map f l = mjoin ls.
Proof. induction 1 as [|x r l ls Hx _ IH]; [done|]. cbn. by rewrite Hx, IH. Qed.

Section Directory.
Context `{UnicodeTables}.
Local Existing Instance tree_yaml.
Variable yaml_value : string -> option ytree.
Variable pest_parse : string -> option (list Pair).
Hypothesis grammar : forall src, pest_parse src = grammar_parse src.
Variable fs : FileSystem.
Hypothesis shown : shows_rules2 yaml_value fs.

Lemma yaml_file_converted i p doc rules :
  rules2_documents !! i = Some (p, doc) -> path_extension p = Some "yaml" -> converted doc = rules ->
  grl_file_rules yaml_value pest_parse fs p = rules.
Proof.
  intros Hin%list_elem_of_lookup_2%list_elem_of_In Hext <-. destruct (rules2_yaml _ _ shown p doc Hin) as (Hf & txt & Hr & Hy).
  unfold grl_file_rules. rewrite Hf, Hr. cbn [mbind option_bind]. rewrite Hext. unfold grl_source. cbn [default id from_option String.eqb Ascii.eqb Bool.eqb orb].
  rewrite Hy. cbn [mbind option_bind]. unfold converted. destruct (@yaml_to_grl _ tree_yaml doc) as [text|]; [|done]. cbn [mbind option_bind].
  rewrite (grl_parse_ext pest_parse grammar_parse) by done. by destruct (grl_parse _ text).
Qed.

Lemma detection_file_rules : grl_file_rules yaml_value pest_parse fs "config/rules2/detection.grl" = detection_rules.
Proof.
  destruct (rules2_grl _ _ shown) as [Hf Hr]. unfold grl_file_rules. rewrite Hf, Hr. cbn [mbind option_bind].
  assert (Hsrc : forall txt, grl_source yaml_value (default "" (path_extension "config/rules2/detection.grl")) txt = Some txt) by done.
  rewrite Hsrc. cbn [mbind option_bind].
  rewrite (grl_parse_ext pest_parse grammar_parse) by done. unfold detection_rules. by destruct (grl_parse _ _).
Qed.

Lemma rules2_files : flat_map (grl_file_rules yaml_value pest_parse fs) rules2_paths = mjoin file_rules.
Proof.
  assert (Hnone : forall p, fs_is_file fs p = false -> grl_file_rules yaml_value pest_parse fs p = []).
  { intros p Hp. unfold grl_file_rules. by rewrite Hp. }
  destruct (rules2_dirs _ _ shown) as [Hcrs Hdata]. destruct documents_converted as (Hg & Hc & Hh & Hm & Hb).
  apply flat_map_parts.
  apply List.Forall2_cons; [exact (Hnone _ Hcrs)|]. apply List.Forall2_cons; [exact (Hnone _ Hdata)|].
  apply List.Forall2_cons; [exact detection_file_rules|].
  apply List.Forall2_cons; [exact (yaml_file_converted 0 _ _ _ eq_refl eq_refl Hb)|].
  apply List.Forall2_cons; [exact (yaml_file_converted 1 _ _ _ eq_refl eq_refl Hc)|].
  apply List.Forall2_cons; [exact (yaml_file_converted 2 _ _ _ eq_refl eq_refl Hg)|].
  apply List.Forall2_cons; [exact (yaml_file_converted 3 _ _ _ eq_refl eq_refl Hh)|].
  apply List.Forall2_cons; [exact (yaml_file_converted 4 _ _ _ eq_refl eq_refl Hm)|]. constructor.
Qed.

Lemma rules2_loaded : exists rules, load_grl_from_dir yaml_value pest_parse fs rules2_dir = Ok rules /\ rules ≡ₚ all_rules.
Proof.
  destruct (rules2_listed _ _ shown) as (paths & Hdir & Hperm).
  unfold load_grl_from_dir. rewrite (rules2_exists _ _ shown), Hdir. cbn [negb ok_or mbind result_mbind].
  rewrite load_grl_entries_spec, listed_entries. eexists. split; [done|].
  rewrite <- all_rules_files, <- rules2_files. by rewrite app_nil_l, (Permutation_flat_map _ Hperm).
Qed.
End Directory.

(** * Routing *)

Section Routes.
Local Existing Instances tree_document tree_content tree_format.
Variable yaml_value : string -> option ytree.
(** [serde_yaml::from_str] at [Vec<Rule>]: the document, read by the derived code. *)
Definition rules_of (txt : string) : option (list Matcher.Rule) := yaml_value txt ≫= read_rules (C := ytree).

(** The rules that are read: the scopes of the tier files are maps, which loses them. *)
Definition global_read : list Matcher.Rule := Eval vm_compute in default [] (read_rules (C := ytree) global_yaml).
Definition backends_read : list Matcher.Rule := Eval vm_compute in default [] (read_rules (C := ytree) backends_yaml).
Lemma documents_read :
  read_rules (C := ytree) global_yaml = Some global_read /\ read_rules (C := ytree) backends_yaml = Some backends_read /\
  read_rules (C := ytree) critical_yaml = None /\ read_rules (C := ytree) high_yaml = None /\
  read_rules (C := ytree) medium_yaml = None.
Proof. repeat split; vm_compute; reflexivity. Qed.

Variable fs : FileSystem.
Hypothesis shown : shows_rules2 yaml_value fs.

Lemma yaml_file_read i p doc rules :
  rules2_documents !! i = Some (p, doc) -> path_extension p = Some "yaml" -> default [] (read_rules (C := ytree) doc) = rules ->
  yaml_file_rules rules_of fs p = rules.
Proof.
  intros Hin%list_elem_of_lookup_2%list_elem_of_In Hext <-. destruct (rules2_yaml _ _ shown p doc Hin) as (_ & txt & Hr & Hy).
  unfold yaml_file_rules, load_from_file, rules_of. rewrite bool_decide_eq_true_2 by done. rewrite Hr. cbn [ok_or mbind result_mbind].
  rewrite Hy. cbn [mbind option_bind]. by destruct (read_rules doc).
Qed.

Lemma routes_read : exists rules, load_from_dir rules_of fs rules2_dir = Ok (sort_by_key wr_priority rules) /\ rules ≡ₚ backends_read ++ global_read.
Proof.
  destruct (rules2_listed _ _ shown) as (paths & Hdir & Hperm). unfold load_from_dir. rewrite Hdir. cbn [ok_or mbind result_mbind].
  rewrite load_yaml_entries_spec, listed_entries. eexists. split; [done|]. rewrite app_nil_l, (Permutation_flat_map _ Hperm).
  destruct documents_read as (Hg & Hb & Hc & Hh & Hm).
  rewrite (flat_map_parts _ _ [[]; []; []; backends_read; []; global_read; []; []]).
  - cbn [mjoin list_join app]. by rewrite ?app_nil_r.
  - do 3 (apply List.Forall2_cons; [done|]).
    apply List.Forall2_cons; [apply (yaml_file_read 0 _ backends_yaml); [done|done|by rewrite Hb]|].
    apply List.Forall2_cons; [apply (yaml_file_read 1 _ critical_yaml); [done|done|by rewrite Hc]|].
    apply List.Forall2_cons; [apply (yaml_file_read 2 _ global_yaml); [done|done|by rewrite Hg]|].
    apply List.Forall2_cons; [apply (yaml_file_read 3 _ high_yaml); [done|done|by rewrite Hh]|].
    apply List.Forall2_cons; [apply (yaml_file_read 4 _ medium_yaml); [done|done|by rewrite Hm]|]. constructor.
Qed.

Notation routing := (routes (backends (server shipped_config))).

(** The routing rules, and when they match. *)
Definition route_to (name backend : string) (priority : Z) (c : Condition) : Matcher.Rule :=
  mkWafRule ("route-" +:+ name +:+ "-" +:+ backend) priority ScopeGlobal c RaAllow 0 (Some backend).
Definition java_route (n : string) : Matcher.Rule := route_to n "java" 50 (PathExact ("/" +:+ n)).
Definition python_route (n : string) : Matcher.Rule := route_to n "python" 60 (PathWildcard ("/" +:+ n +:+ "/*")).
Definition go_route : Matcher.Rule := route_to "default" "go" 999 (PathWildcard "/**").
Lemma backends_read_eq : backends_read = map java_route java_names ++ map python_route python_names ++ [go_route].
Proof. reflexivity. Qed.

Lemma route_matches name backend priority c p :
  In backend ["java"; "python"; "go"] -> routing p (route_to name backend priority c) = path_condition_matches c p.
Proof.
  destruct shipped_server as [_ ->]. intros Hb. unfold routes. cbn [wr_upstream_backend wr_condition route_to].
  rewrite bool_decide_eq_true_2; [done|]. repeat (destruct Hb as [<-|Hb]; [by eexists|]). done.
Qed.
Lemma java_matches p n : routing p (java_route n) = String.eqb ("/" +:+ n) p.
Proof. unfold java_route. by rewrite route_matches by (cbn; tauto). Qed.
Lemma python_matches p n :
  In n python_names -> routing p (python_route n) = String.eqb p ("/" +:+ n) || starts_with p ("/" +:+ n +:+ "/").
Proof.
  intros Hn. unfold python_route. rewrite route_matches by (cbn; tauto). cbn [path_condition_matches].
  repeat (destruct Hn as [<-|Hn]; [reflexivity|]). done.
Qed.
Lemma go_matches p : routing p go_route = true.
Proof. unfold go_route. by rewrite route_matches by (cbn; tauto). Qed.
Lemma global_routes p r : In r global_read -> routing p r = false.
Proof. revert r. apply List.Forall_forall. unfold global_read. repeat (apply Forall_cons; split; [done|]). constructor. Qed.

(** The rule of least priority number that matches is one for the backend of the path. *)
Lemma least_route p rules r :
  rules ≡ₚ backends_read ++ global_read -> List.find (routing p) (sort_by_key wr_priority rules) = Some r ->
  route_url (backends (server shipped_config)) r = Some (shipped_route p).
Proof.
  intros Hperm Hf. pose proof (List.find_some _ _ Hf) as [Hr Hm]. apply find_sort_by_key in Hf as Hleast.
  assert (Hin : forall r', In r' rules <-> In r' (map java_route java_names ++ map python_route python_names ++ [go_route]) \/ In r' global_read).
  { intros r'. rewrite <- backends_read_eq. by rewrite <- (List.in_app_iff backends_read), <- !list_elem_of_In, Hperm. }
  assert (Hmin : forall r', In r' rules -> routing p r' = true -> wr_priority r <= wr_priority r').
  { intros r' Hr' Hm'. destruct Hleast as (pre & post & Heq & _ & Hpre & Hpost). rewrite Heq in Hr'.
    apply in_app_or in Hr' as [Hr'|[<-|Hr']]; [specialize (Hpre r' Hr' Hm')| |specialize (Hpost r' Hr' Hm')]; lia. }
  apply In_sorted, Hin in Hr as [Hr|Hr]; [|by rewrite (global_routes p r Hr) in Hm].
  unfold shipped_route, route_url. destruct shipped_server as [_ ->].
  assert (Hjava : java_path p = true -> wr_priority r <= 50).
  { intros (n & Hn & Heq)%existsb_exists. apply (Hmin (java_route n)); [|by rewrite java_matches].
    apply Hin. left. apply in_or_app. left. by apply in_map. }
  assert (Hpython : python_path p = true -> wr_priority r <= 60).
  { intros (n & Hn & Heq)%existsb_exists. apply (Hmin (python_route n)); [|by rewrite python_matches].
    apply Hin. left. apply in_or_app. right. apply in_or_app. left. by apply in_map. }
  apply in_app_or in Hr as [(n & <- & Hn)%in_map_iff|[(n & <- & Hn)%in_map_iff|[<-|[]]]%in_app_or].
  - rewrite java_matches in Hm. assert (Hj : java_path p = true) by (apply existsb_exists; by exists n). by rewrite Hj.
  - rewrite python_matches in Hm by done. assert (Hp : python_path p = true) by (apply existsb_exists; by exists n). rewrite Hp.
    destruct (java_path p); [specialize (Hjava eq_refl); cbn in Hjava; lia|done].
  - destruct (java_path p); [specialize (Hjava eq_refl); cbn in Hjava; lia|].
    destruct (python_path p); [specialize (Hpython eq_refl); cbn in Hpython; lia|done].
Qed.

Lemma routed p rules :
  rules ≡ₚ backends_read ++ global_read ->
  find_backend (backends (server shipped_config)) p (sort_by_key wr_priority rules) = Some (shipped_route p).
Proof.
  intros Hperm. rewrite find_backend_find. destruct (List.find _ _) as [r|] eqn:Hf; [exact (least_route p rules r Hperm Hf)|].
  rewrite find_sort_by_key_None in Hf. specialize (Hf go_route). rewrite go_matches in Hf. discriminate Hf.
  rewrite <- list_elem_of_In, Hperm, list_elem_of_In, backends_read_eq. cbn. tauto.
Qed.
End Routes.

(** * The application started on the directory *)

Section Started.
Context `{UnicodeTables, RegexLib, AhoCorasickLib, IpNetLib, HashOrder, !RegexReplaceLib, ModSecLib, GeoDbLib, HttpLib}.
Local Existing Instances tree_yaml tree_document tree_content tree_format.
Variable yaml_value : string -> option ytree.
Variable pest_parse : string -> option (list Pair).
Hypothesis grammar : forall src, pest_parse src = grammar_parse src.

(** C4: the shipped rules directory, end to end: an application started on it, on the
    shipped backends and on a core rule set that loads answers every request whose body
    is read by the table of its rules, eleven checks in the order of their saliences,
    which the order of the directory entries does not change, and sends the requests
    it allows to the backend of the route map.  The request is seen as the proxy hands
    it on: the blacklist is asked for 0.0.0.0 only, and the rules for a tier, for a
    country and for the whitelist, which the start leaves empty, never hold. *)
Theorem rules2_answers fs cfg st crs ruleset client id now raw body :
  AppState_init (rules_of yaml_value) yaml_value pest_parse true fs cfg = Ok st ->
  shows_rules2 yaml_value fs -> rules_dir (cfg_rules cfg) = rules2_dir -> server cfg = server shipped_config ->
  crs_dir (cfg_rules cfg) = Some crs -> load_crs fs crs (path_join rules2_dir "data") = Ok ruleset ->
  raw_body raw = Some body ->
  handle_request client id now raw st =
  answer client raw body (shipped_route (raw_path raw))
    (rules2_decision (proxy_view (ip_lists st) ruleset (build_context id now raw body) raw body)).
Proof.
  intros Hst Hshown Hdir Hserver Hcrs Hload Hbody. rewrite (handled_answer _ _ _ _ _ body Hbody).
  rewrite <- Hdir in Hload. pose proof (startup_sees _ _ _ fs cfg st crs ruleset id now raw body Hst Hcrs Hload) as Hsees.
  destruct (rules2_loaded yaml_value pest_parse grammar fs Hshown) as (rules & Hrules & Hperm).
  destruct (routes_read yaml_value fs Hshown) as (route_list & Hroutes & Hrperm).
  unfold AppState_init in Hst. cbn [negb] in Hst. injection Hst as <-. cbn [app_rules store_engine reload_engine ip_lists] in *.
  f_equal.
  - unfold resolve_upstream, snapshot. cbn [config app_rules store_rules reload_engine RuleStore_new].
    unfold initial_rules. rewrite Hdir, (rules2_exists _ _ Hshown), Hroutes, Hserver. by rewrite (routed _ route_list Hrperm).
  - eapply rules2_decides; [exact Hsees|done|done|done|done| |done|exact Hperm].
    rewrite initial_network. unfold initial_grl. by rewrite Hdir, Hrules.
Qed.
End Started.

(** * A sample start *)

Section Sample.
Local Existing Instances plain_unicode literal_regex phrase_automaton pair_ipnet sorted_hash_order literal_replace
  sample_modsec_lib no_geo_db sample_http.
Local Existing Instance tree_yaml.

(** Each file of documents holds its own name here. *)
Definition rules2_value (txt : string) : option ytree := assoc txt rules2_documents.
Definition rules2_fs : FileSystem :=
  mkFs (fun _ => true) (fun p => negb (String.eqb p "config/rules2/crs" || String.eqb p "config/rules2/data"))
    (fun d => if String.eqb d rules2_dir then Some (map Some (rev rules2_paths)) else Some [Some "config/rules2/crs/one.conf"])
    (fun p => if String.eqb p "config/rules2/detection.grl" then Some detection_grl
              else if String.eqb p "config/rules2/crs/one.conf" then Some one_core_rule else Some p).
Definition rules2_config : Config :=
  mkConfig (server shipped_config) (dashboard_api shipped_config) (mkRulesConfig rules2_dir (Some "config/rules2/crs") None)
    (tiers shipped_config) (risk shipped_config) (rate_limit shipped_config) (cache shipped_config)
    (circuit_breaker shipped_config) (audit shipped_config) (geo shipped_config).
Definition rules2_crs : CrsRuleset :=
  match load_crs rules2_fs "config/rules2/crs" "config/rules2/data" with Ok rs => rs | Err _ => mkRuleset "" ∅ "crs" 0 end.

Lemma rules2_shown : shows_rules2 rules2_value rules2_fs.
Proof.
  split; [done| |done|done|].
  - exists (rev rules2_paths). split; [done|]. symmetry. apply Permutation_rev.
  - intros p doc Hin. cbn [rules2_fs fs_is_file fs_read].
    repeat (destruct Hin as [[= <- <-]|Hin]; [split; [done|]; eexists; split; reflexivity|]). done.
Qed.

(** The requests the application sends on, and its answers. *)
Lemma rules2_answers_witness :
  match AppState_init (rules_of rules2_value) rules2_value grammar_parse true rules2_fs rules2_config with
  | Ok st =>
    map (fun raw => let '(sent, resp) := handle_request no_upstream "r" 0 raw st in (map up_uri sent, resp))
      [request_to "/otp" ""; request_to "/api/x" "q=1"; request_to "/etc/hosts" ""; request_to "/" "u=http://x"]
    = [(["http://127.0.0.1:33335/otp?"], json_error 502 "upstream unavailable");
       (["http://127.0.0.1:33334/api/x?q=1"], json_error 502 "upstream unavailable");
       ([], json_error 403 "blocked: sensitive path access");
       ([], json_error 403 "blocked: global-ssrf-detect")]
  | Err _ => False
  end.
Proof.
  destruct (AppState_init _ _ _ _ _ _) as [st|] eqn:Hst; [|discriminate Hst].
  assert (Hlists : ip_lists st = IpListStore_new) by (unfold AppState_init in Hst; cbn [negb] in Hst; injection Hst as <-; reflexivity).
  assert (Hd : forall raw, raw_body raw = Some "" -> handle_request no_upstream "r" 0 raw st = _)
    by (intros raw Hb; exact (rules2_answers rules2_value grammar_parse (fun _ => eq_refl) rules2_fs rules2_config st
          "config/rules2/crs" rules2_crs no_upstream "r" 0 raw "" Hst rules2_shown eq_refl eq_refl eq_refl eq_refl Hb)).
  cbn [map]. rewrite !Hd by reflexivity. rewrite Hlists. clear. vm_compute. reflexivity.
Defined.
End Sample.
