(* ===== verification/OptRule.v ===== *)
(** The optimized rule crate ([crates/optimized_rule]): conditions whose regex
    leaves carry a key into a cache of regexes compiled once per pattern, the
    loader that fills the cache and the keys, and the evaluator. *)
From S2P Require Import Prelude Utf8 RustStd Net Extern Float64 WafTypes Ast RuleTypes GrlParser Converter.
Local Open Scope Z_scope.

(** * Types *)

(** [ConditionLeaf] of the crate: the schema's leaf and [compiled_regex_key]. *)
Record OptLeaf := mkOptLeaf { opt_leaf : ConditionLeaf; compiled_regex_key : option string }.
Definition OptNode : Type := Cond OptLeaf.

(** The context of a request. *)
Record OptContext := mkOptContext {
  oc_ip : string; oc_path : string; oc_method : string;
  oc_headers : gmap string string; oc_payload : string; oc_cookies : gmap string string;
  oc_tier : Tier; oc_session_id : string; oc_device_fp : string; oc_content_type : option string
}.

Record MatchResult := mkMatchResult { mr_rule_id : string; mr_description : string }.

(** * Globs *)

(** The loop over the parts after the first. *)
Fixpoint glob_parts (parts : list string) (remaining : string) : bool :=
  match parts with
  | [] => true
  | part :: parts =>
    match find_str part remaining with
    | Some (_, rest) => glob_parts parts rest
    | None => false
    end
  end.
Definition glob_match (pattern text : string) : bool :=
  match split_char "*" pattern with
  | [] => is_empty text
  | first :: parts =>
    match strip_prefix first text with
    | Some remaining => glob_parts parts remaining
    | None => false
    end
  end.

Notation RegexCache := (gmap string regex).

Section Eval.
Context `{RegexLib, IpNetLib}.

Record OptRuleSet := mkOptRuleSet { opt_rules : list (Rule OptNode); compiled_regexes : RegexCache }.

Definition cidr_match (cidr ip : string) : bool :=
  match parse_ip ip with
  | Some ip_addr => match ipnet_parse cidr with Some net => ipnet_contains net ip_addr | None => false end
  | None => false
  end.

Definition match_value (cache : RegexCache) (leaf : OptLeaf) (subject : string) : bool :=
  let pattern := value (opt_leaf leaf) in
  match match_type (opt_leaf leaf) with
  | MExact => String.eqb subject pattern
  | MWildcard => glob_match pattern subject
  | MRegex =>
    match compiled_regex_key leaf with
    | Some key => match cache !! key with Some re => is_match re subject | None => false end
    | None => false
    end
  | MCidr => cidr_match pattern subject
  | MPresence => negb (is_empty subject)
  | MAbsence => is_empty subject
  end.

(** The text a leaf is tested on; [None] when the request has none. *)
Definition leaf_subject (leaf : ConditionLeaf) (ctx : OptContext) : option string :=
  match field leaf with
  | FIp => Some (oc_ip ctx)
  | FPath => Some (oc_path ctx)
  | FMethod => Some (oc_method ctx)
  | FHeader => name ← header_name leaf; oc_headers ctx !! name
  | FPayload => Some (from_utf8_lossy (oc_payload ctx))
  | FCookie => name ← cookie_name leaf; oc_cookies ctx !! name
  | FContentType => oc_content_type ctx
  | FSessionId => Some (oc_session_id ctx)
  | FDeviceFp => Some (oc_device_fp ctx)
  end.

Definition eval_leaf (cache : RegexCache) (ctx : OptContext) (leaf : OptLeaf) : bool :=
  let matches := match leaf_subject (opt_leaf leaf) ctx with
                 | Some subject => match_value cache leaf subject
                 | None => false
                 end in
  if negate (opt_leaf leaf) then negb matches else matches.

(** [ConditionEvaluator::eval] *)
Definition eval (cache : RegexCache) (ctx : OptContext) (node : OptNode) : bool :=
  cond_eval (eval_leaf cache ctx) node.

Fixpoint evaluate_rules (cache : RegexCache) (ctx : OptContext) (rules : list (Rule OptNode)) : option MatchResult :=
  match rules with
  | [] => None
  | rule :: rules =>
    if negb (enabled rule) then evaluate_rules cache ctx rules
    else if eval cache ctx (condition rule) then Some (mkMatchResult (id rule) (description rule))
    else evaluate_rules cache ctx rules
  end.
Definition evaluate (rs : OptRuleSet) (ctx : OptContext) (_skip_rules : list string) : option MatchResult :=
  evaluate_rules (compiled_regexes rs) ctx (opt_rules rs).
End Eval.

(** * Loading *)

Inductive OptError : Type :=
| OptReadDir | OptBadEntry | OptRead (path : string) | OptYaml (path : string) | OptRule
| OptNoId | OptZeroPriority | OptRegex (pattern : string).

Section Load.
Context `{RegexLib, YamlLib, HashOrder}.
(** [serde_yaml::from_str] and [from_value] at the types used. *)
Variable yaml_value : string -> option yaml.
Variable from_value : yaml -> option (RuleRaw OptNode).
Variable read : string -> option string.
(** [path.extension() == "yaml"] *)
Variable is_yaml : string -> bool.

Definition file_rules (path : string) : result OptError (list (RuleRaw OptNode * string)) :=
  content ← ok_or (read path) (OptRead path);
  doc ← ok_or (yaml_value content) (OptYaml path);
  match y_get "rules" doc ≫= y_sequence with
  | Some rules_seq => collect_result (fun v => raw ← ok_or (from_value v) OptRule; Ok (raw, path)) rules_seq
  | None => Ok []
  end.

Fixpoint read_rules (entries : list (option string)) (all_rules : list (RuleRaw OptNode * string))
  : result OptError (list (RuleRaw OptNode * string)) :=
  match entries with
  | [] => Ok all_rules
  | entry :: entries =>
    path ← ok_or entry OptBadEntry;
    if is_yaml path then rs ← file_rules path; read_rules entries (all_rules ++ rs)
    else read_rules entries all_rules
  end.

Definition validate_rule_structure (raw : RuleRaw OptNode) : result OptError unit :=
  if is_empty (raw_id raw) then Err OptNoId
  else if raw_priority raw =? 0 then Err OptZeroPriority
  else Ok tt.

Definition collect_leaf (acc : gmap string string) (leaf : OptLeaf) : gmap string string :=
  if bool_decide (match_type (opt_leaf leaf) = MRegex)
  then <[value (opt_leaf leaf) := value (opt_leaf leaf)]> acc else acc.
Definition collect_regex_patterns (acc : gmap string string) (node : OptNode) : gmap string string :=
  foldl collect_leaf acc (leaves node).

Definition populate_leaf (pattern_to_key : gmap string string) (leaf : OptLeaf) : OptLeaf :=
  if bool_decide (match_type (opt_leaf leaf) = MRegex) then
    match pattern_to_key !! value (opt_leaf leaf) with
    | Some key => mkOptLeaf (opt_leaf leaf) (Some key)
    | None => leaf
    end
  else leaf.
Definition populate_regex_keys (pattern_to_key : gmap string string) (node : OptNode) : OptNode :=
  cond_map (populate_leaf pattern_to_key) node.

(** The loop that compiles each pattern that has no regex yet. *)
Fixpoint compile_cache (l : list (string * string)) (cache : RegexCache) : result OptError RegexCache :=
  match l with
  | [] => Ok cache
  | (pattern, key) :: l =>
    match cache !! key with
    | Some _ => compile_cache l cache
    | None => re ← ok_or (regex_new pattern) (OptRegex pattern); compile_cache l (<[key := re]> cache)
    end
  end.

Definition build_rule (pattern_to_key : gmap string string) (r : RuleRaw OptNode * string) : Rule OptNode :=
  let '(raw, source) := r in
  mkRule (raw_id raw) source (raw_description raw) (raw_enabled raw) (raw_priority raw)
    (populate_regex_keys pattern_to_key (raw_condition raw)) (raw_action raw) (raw_risk_score_delta raw)
    (raw_response raw) (raw_rate_limit raw) (raw_challenge raw) (raw_tier raw).

Definition load_from_path (entries : option (list (option string))) : result OptError OptRuleSet :=
  entries ← ok_or entries OptReadDir;
  all_rules ← read_rules entries [];
  _ ← collect_result (fun r => validate_rule_structure (fst r)) all_rules;
  let pattern_to_key := foldl (fun acc r => collect_regex_patterns acc (raw_condition (fst r))) ∅ all_rules in
  cache ← compile_cache (hash_iter pattern_to_key) ∅;
  Ok (mkOptRuleSet (sort_by_key priority (map (build_rule pattern_to_key) all_rules)) cache).
End Load.

(** * The cache is transparent *)

Section Direct.
Context `{RegexLib, IpNetLib}.

(** The reference: a regex leaf compiles its pattern each time. *)
Definition direct_value (leaf : OptLeaf) (subject : string) : bool :=
  match match_type (opt_leaf leaf) with
  | MRegex => regex_match (value (opt_leaf leaf)) subject
  | _ => match_value ∅ leaf subject
  end.
Definition direct_leaf (ctx : OptContext) (leaf : OptLeaf) : bool :=
  let matches := match leaf_subject (opt_leaf leaf) ctx with
                 | Some subject => direct_value leaf subject
                 | None => false
                 end in
  if negate (opt_leaf leaf) then negb matches else matches.
Definition eval_direct (ctx : OptContext) (node : OptNode) : bool := cond_eval (direct_leaf ctx) node.

(** A cache that holds the regex of the pattern of a leaf, under the leaf's key. *)
Definition leaf_cached (cache : RegexCache) (leaf : OptLeaf) : Prop :=
  match_type (opt_leaf leaf) = MRegex ->
  exists re, compiled_regex_key leaf = Some (value (opt_leaf leaf)) /\
    cache !! value (opt_leaf leaf) = Some re /\ regex_new (value (opt_leaf leaf)) = Some re.

Lemma eval_leaf_cached cache ctx leaf : leaf_cached cache leaf -> eval_leaf cache ctx leaf = direct_leaf ctx leaf.
Proof.
  intros Hc. unfold eval_leaf, direct_leaf, direct_value, match_value, leaf_cached in *.
  destruct (leaf_subject (opt_leaf leaf) ctx) as [s|]; [|done].
  destruct (match_type (opt_leaf leaf)); try done.
  destruct (Hc eq_refl) as (re & Hk & Hl & Hre). unfold regex_match. by rewrite Hk, Hl, Hre.
Qed.

Lemma eval_cached cache ctx node :
  Forall (leaf_cached cache) (leaves node) -> eval cache ctx node = eval_direct ctx node.
Proof.
  intros Hl. unfold eval, eval_direct. rewrite <-(cond_map_id node) at 1. apply cond_eval_map.
  eapply List.Forall_impl; [|exact Hl]. intros leaf. apply eval_leaf_cached.
Qed.

Lemma evaluate_rules_find cache ctx rules :
  evaluate_rules cache ctx rules =
  (fun r => mkMatchResult (id r) (description r)) <$>
    List.find (fun r => enabled r && eval cache ctx (condition r)) rules.
Proof.
  induction rules as [|r rules IH]; [done|]. cbn. destruct (enabled r); cbn; [|done].
  by destruct (eval cache ctx (condition r)).
Qed.
End Direct.

Section Cache.
Context `{RegexLib, YamlLib, HashOrder}.

Lemma compile_cache_spec l cache cache' :
  compile_cache l cache = Ok cache' ->
  (forall k re, cache !! k = Some re -> cache' !! k = Some re) /\
  (forall k re, cache' !! k = Some re -> cache !! k = Some re \/ exists p, In (p, k) l /\ regex_new p = Some re) /\
  (forall p k, In (p, k) l -> is_Some (cache' !! k)).
Proof.
  revert cache. induction l as [|[p k] l IH]; intros cache; cbn [compile_cache].
  - intros [= ->]. split; [done|]. split; [by left|by intros ? ? []].
  - destruct (cache !! k) as [re|] eqn:Hk.
    + intros (Q1 & Q2 & Q3)%IH. split; [done|]. split.
      * intros k' re' [?|(p' & Hin & ?)]%Q2; [by left|]. right. exists p'. split; [by right|done].
      * intros p' k' [[= <- <-]|Hin]; [by eauto|by eapply Q3].
    + destruct (regex_new p) as [re|] eqn:Hre; [|done]. cbn [ok_or mbind result_mbind]. intros (Q1 & Q2 & Q3)%IH. split; [|split].
      * intros k' re' Hl. apply Q1. rewrite lookup_insert_ne; [done|]. intros ->. congruence.
      * intros k' re' [Hl|(p' & Hin & ?)]%Q2.
        { destruct (decide (k = k')) as [->|Hne].
          - rewrite lookup_insert_eq in Hl. injection Hl as <-. right. exists p. split; [by left|done].
          - rewrite lookup_insert_ne in Hl by done. by left. }
        right. exists p'. split; [by right|done].
      * intros p' k' [[= <- <-]|Hin]; [|by eapply Q3].
        exists re. apply Q1. apply lookup_insert_eq.
Qed.

(** The keys are the patterns themselves, and every pattern has one. *)
Definition self_keyed (m : gmap string string) : Prop := forall p k, m !! p = Some k -> k = p.

Lemma collect_leaf_spec acc leaf :
  self_keyed acc ->
  self_keyed (collect_leaf acc leaf) /\ dom acc ⊆ dom (collect_leaf acc leaf) /\
  (match_type (opt_leaf leaf) = MRegex -> value (opt_leaf leaf) ∈ dom (collect_leaf acc leaf)).
Proof.
  intros Hs. unfold collect_leaf. case_bool_decide as Hm; [|done].
  split; [|split; [rewrite dom_insert_L; set_solver|intros _; rewrite dom_insert_L; set_solver]].
  intros p k. destruct (decide (value (opt_leaf leaf) = p)) as [<-|Hne].
  - rewrite lookup_insert_eq. by intros [= ->].
  - rewrite lookup_insert_ne by done. apply Hs.
Qed.

Lemma collect_leaves_spec l acc :
  self_keyed acc ->
  self_keyed (foldl collect_leaf acc l) /\ dom acc ⊆ dom (foldl collect_leaf acc l) /\
  forall leaf, In leaf l -> match_type (opt_leaf leaf) = MRegex ->
    value (opt_leaf leaf) ∈ dom (foldl collect_leaf acc l).
Proof.
  revert acc. induction l as [|x l IH]; intros acc Hs; [done|]. cbn [foldl].
  destruct (collect_leaf_spec acc x Hs) as (Q1 & Q2 & Q3). destruct (IH _ Q1) as (Q4 & Q5 & Q6).
  split; [done|]. split; [set_solver|]. intros leaf [<-|Hin] Hm; [apply Q5; by apply Q3|by apply Q6].
Qed.

Lemma collect_rules_spec (rules : list (RuleRaw OptNode * string)) acc :
  self_keyed acc ->
  let m := foldl (fun acc r => collect_regex_patterns acc (raw_condition (fst r))) acc rules in
  self_keyed m /\ dom acc ⊆ dom m /\
  forall r leaf, In r rules -> In leaf (leaves (raw_condition (fst r))) ->
    match_type (opt_leaf leaf) = MRegex -> value (opt_leaf leaf) ∈ dom m.
Proof.
  revert acc. induction rules as [|x rules IH]; intros acc Hs; [by split|]. cbn [foldl].
  destruct (collect_leaves_spec (leaves (raw_condition (fst x))) acc Hs) as (Q1 & Q2 & Q3).
  destruct (IH _ Q1) as (Q4 & Q5 & Q6). unfold collect_regex_patterns in *.
  split; [done|]. split; [set_solver|]. intros r leaf [<-|Hin] Hl Hm; [apply Q5; by apply Q3|by eapply Q6].
Qed.
End Cache.

(** The rules of a set that loads, and the regexes its leaves find. *)
Lemma loaded_set `{RegexLib, IpNetLib, YamlLib, HashOrder} yv fv read is_yaml entries rs :
  load_from_path yv fv read is_yaml entries = Ok rs ->
  exists es rules m, entries = Some es /\ read_rules yv fv read is_yaml es [] = Ok rules /\
    opt_rules rs = sort_by_key priority (map (build_rule m) rules) /\
    forall rule ctx, In rule (opt_rules rs) ->
      eval (compiled_regexes rs) ctx (condition rule) = eval_direct ctx (condition rule).
Proof.
  unfold load_from_path. destruct entries as [entries|]; [|done]. cbn [ok_or mbind result_mbind].
  destruct (read_rules _ _ _ _ _ _) as [rules|] eqn:Hrules; [|done]. cbn [mbind result_mbind].
  destruct (collect_result _ rules); [|done]. cbn [mbind result_mbind].
  set (m := foldl _ ∅ rules). destruct (compile_cache (hash_iter m) ∅) as [cache|] eqn:Hcache; [|done].
  intros [= <-]. cbn [opt_rules compiled_regexes]. exists entries, rules, m.
  destruct (collect_rules_spec rules ∅ ltac:(by intros p k; rewrite lookup_empty)) as (Hself & _ & Hdom). fold m in Hself, Hdom.
  destruct (compile_cache_spec _ _ _ Hcache) as (_ & Hfrom & Hto).
  assert (Hentry : forall p k, In (p, k) (hash_iter m) <-> m !! p = Some k).
  { intros p k. by rewrite <-list_elem_of_In, hash_iter_perm, elem_of_map_to_list. }
  assert (Heval : forall rule ctx, In rule (sort_by_key priority (map (build_rule m) rules)) ->
            eval cache ctx (condition rule) = eval_direct ctx (condition rule)).
  { intros rule ctx Hin. apply eval_cached.
    rewrite <-list_elem_of_In, sort_by_key_perm, list_elem_of_In in Hin.
    apply List.in_map_iff in Hin as ([raw src] & <- & Hraw). cbn [build_rule condition]. unfold populate_regex_keys.
    rewrite leaves_map. apply List.Forall_map, List.Forall_forall. intros leaf Hleaf Hm.
    assert (Hm' : match_type (opt_leaf leaf) = MRegex).
    { unfold populate_leaf in Hm. case_bool_decide; [done|done]. }
    pose proof (Hdom _ leaf Hraw Hleaf Hm') as [k Hk]%elem_of_dom. pose proof (Hself _ _ Hk) as ->.
    unfold populate_leaf. rewrite bool_decide_eq_true_2, Hk by done. cbn [opt_leaf compiled_regex_key].
    apply Hentry in Hk as Hin. destruct (Hto _ _ Hin) as [re Hre]. exists re. split; [done|]. split; [done|].
    destruct (Hfrom _ _ Hre) as [Hn|(p & Hp & Hnew)]; [by rewrite lookup_empty in Hn|].
    apply Hentry, Hself in Hp. by subst. }
  done.
Qed.
Lemma evaluate_direct `{RegexLib, IpNetLib} rs ctx skip :
  (forall rule, In rule (opt_rules rs) -> eval (compiled_regexes rs) ctx (condition rule) = eval_direct ctx (condition rule)) ->
  evaluate rs ctx skip = (fun r => mkMatchResult (id r) (description r)) <$>
    List.find (fun r => enabled r && eval_direct ctx (condition r)) (opt_rules rs).
Proof.
  intros Heval. unfold evaluate. rewrite evaluate_rules_find. f_equal.
  apply find_ext_in. intros r Hr. by rewrite Heval.
Qed.

(** C28: the regex cache is transparent: in a rule set that loads, every regex leaf
    finds the regex of its own pattern, so that a request gets the first enabled rule
    whose condition holds when each pattern is compiled on the spot, in order of
    priority. *)
Theorem cache_is_transparent `{RegexLib, IpNetLib, YamlLib, HashOrder} yv fv read is_yaml entries rs :
  load_from_path yv fv read is_yaml entries = Ok rs ->
  StronglySorted (key_le priority) (opt_rules rs) /\
  (forall rule ctx, In rule (opt_rules rs) ->
     eval (compiled_regexes rs) ctx (condition rule) = eval_direct ctx (condition rule)) /\
  forall ctx skip, evaluate rs ctx skip =
    (fun r => mkMatchResult (id r) (description r)) <$>
      List.find (fun r => enabled r && eval_direct ctx (condition r)) (opt_rules rs).
Proof.
  intros (es & rules & m & _ & _ & Hrules & Heval)%loaded_set. split; [rewrite Hrules; apply sort_by_key_sorted|].
  split; [exact Heval|]. intros ctx skip. apply evaluate_direct. intros r. apply Heval.
Qed.

(** * Globs *)

(** The parts occur one after the other, without overlap. *)
Inductive in_order : list string -> string -> Prop :=
| in_order_nil s : in_order [] s
| in_order_cons part parts gap s : in_order parts s -> in_order (part :: parts) (gap +:+ part +:+ s).

Lemma in_order_prepend parts x s : in_order parts s -> in_order parts (x +:+ s).
Proof. destruct 1 as [s|p ps gap s Hs]; [constructor|]. rewrite <-app_assoc_str. by constructor. Qed.
Lemma in_order_append parts s x : in_order parts s -> in_order parts (s +:+ x).
Proof. induction 1 as [s|p ps gap s Hs IH]; [constructor|]. rewrite !app_assoc_str. by constructor. Qed.

Lemma find_str_sound t s pre post : find_str t s = Some (pre, post) -> s = pre +:+ t +:+ post.
Proof.
  revert pre. induction s as [|a s IH]; intros pre; cbn [find_str].
  - destruct (strip_prefix t "") as [r|] eqn:Hp; [|done]. intros [= <- <-]. by apply strip_prefix_Some in Hp.
  - destruct (strip_prefix t (String a s)) as [r|] eqn:Hp.
    + intros [= <- <-]. by apply strip_prefix_Some in Hp.
    + destruct (find_str t s) as [[p q]|] eqn:Hf; [|done]. cbn. intros [= <- <-].
      rewrite app_cons_str. by rewrite <-(IH p).
Qed.

Lemma suffix_shared u v w z : u +:+ v = w +:+ z -> (str_len z <= str_len v)%nat -> exists y, v = y +:+ z.
Proof.
  revert w. induction u as [|a u IH]; intros w Heq Hl; [by exists w|]. destruct w as [|b w].
  - exfalso. apply (f_equal str_len) in Heq. rewrite !str_len_app in Heq. cbn [str_len] in Heq. lia.
  - rewrite !app_cons_str in Heq. injection Heq as _ Heq. by apply (IH w).
Qed.

(** The first occurrence leaves at least the text that any occurrence leaves. *)
Lemma find_str_leftmost t x s :
  exists pre y, find_str t (x +:+ t +:+ s) = Some (pre, y +:+ s).
Proof.
  induction x as [|a x IH].
  - rewrite app_nil_l_str. exists "", "". rewrite app_nil_l_str. pose proof (strip_prefix_app t s) as Hp.
    destruct (t +:+ s) as [|b r]; cbn [find_str]; by rewrite Hp.
  - rewrite app_cons_str. cbn [find_str].
    destruct (strip_prefix t (String a (x +:+ t +:+ s))) as [rest|] eqn:Hp.
    + apply strip_prefix_Some in Hp. exists "".
      destruct (suffix_shared t rest (String a (x +:+ t)) s) as [y ->]; [|..|by exists y].
      * rewrite <-Hp. by rewrite !app_cons_str, !app_assoc_str.
      * apply (f_equal str_len) in Hp. cbn [str_len] in Hp. rewrite !str_len_app in Hp. lia.
    + destruct IH as (pre & y & ->). by exists (String a pre), y.
Qed.

Lemma glob_parts_spec parts s : glob_parts parts s = true <-> in_order parts s.
Proof.
  split.
  - revert s. induction parts as [|p ps IH]; intros s; cbn [glob_parts]; [constructor|].
    destruct (find_str p s) as [[pre post]|] eqn:Hf; [|done]. intros Hg.
    apply find_str_sound in Hf as ->. constructor. by apply IH.
  - revert s. induction parts as [|p ps IH]; intros s Hs; [done|]. inversion Hs as [|? ? gap r Hr]; subst.
    cbn [glob_parts]. destruct (find_str_leftmost p gap r) as (pre & y & ->). by apply IH, in_order_prepend.
Qed.

(** A pattern matches the texts that start with its first part and then hold the
    other parts in order; nothing anchors the last one, so that a text keeps matching
    when more text follows, as [*.php] does on [/a.php.txt]. *)
Theorem glob_match_is_prefix pattern first parts text extra :
  split_char "*" pattern = first :: parts ->
  (glob_match pattern text = true <-> exists rest, text = first +:+ rest /\ in_order parts rest) /\
  (glob_match pattern text = true -> glob_match pattern (text +:+ extra) = true).
Proof.
  intros Hs.
  assert (Hspec : forall text, glob_match pattern text = true <-> exists rest, text = first +:+ rest /\ in_order parts rest).
  { intros t. unfold glob_match. rewrite Hs. destruct (strip_prefix first t) as [r|] eqn:Hp.
    - apply strip_prefix_Some in Hp as ->. rewrite glob_parts_spec. split; [by exists r|].
      intros (r' & Heq%app_inv_head_str & Hr). by subst.
    - split; [done|]. intros (r & -> & _). by rewrite strip_prefix_app in Hp. }
  split; [apply Hspec|]. rewrite !Hspec. intros (rest & -> & Hr). exists (rest +:+ extra).
  split; [by rewrite app_assoc_str|by apply in_order_append].
Qed.
Lemma glob_match_is_prefix_witness : glob_match "/*.php" "/a.php.txt" = true.
Proof.
  assert (Hp : glob_match "/*.php" "/a.php" = true) by reflexivity.
  exact (proj2 (glob_match_is_prefix "/*.php" "/" [".php"] "/a.php" ".txt" eq_refl) Hp).
Defined.

(** * A sample rule set *)

Section Sample.
Local Existing Instances literal_regex pair_ipnet tree_yaml sorted_hash_order.

Definition sample_leaf (pattern : string) : OptNode :=
  CLeaf (mkOptLeaf (mkLeaf FPath MRegex pattern None None false false) None).
Definition sample_raw (v : ytree) : option (RuleRaw OptNode) :=
  match v with
  | YtMap [("id", YtStr i); ("priority", YtInt p); ("path", YtStr pattern)] =>
    Some (mkRuleRaw i "" true p (sample_leaf pattern) ActBlock 0 None None None None None)
  | _ => None
  end.
Definition sample_doc : ytree :=
  let rule i p pattern := YtMap [("id", YtStr i); ("priority", YtInt p); ("path", YtStr pattern)] in
  YtMap [("rules", YtSeq [rule "late" 20 "/admin"; rule "early" 10 "/admin"; rule "other" 5 "/other"])].
Definition sample_loaded : result OptError OptRuleSet :=
  @load_from_path literal_regex tree_yaml sorted_hash_order (fun _ => Some sample_doc) sample_raw (fun _ => Some "doc") (fun _ => true) (Some [Some "r.yaml"]).
Definition sample_set : OptRuleSet :=
  match sample_loaded with Ok rs => rs | Err _ => mkOptRuleSet [] ∅ end.
Definition sample_opt_ctx : OptContext :=
  mkOptContext "10.0.0.1" "/admin/x" "GET" ∅ "" ∅ CatchAll "" "" None.

Lemma cache_is_transparent_witness :
  evaluate sample_set sample_opt_ctx [] = Some (mkMatchResult "early" "") /\
  size (compiled_regexes sample_set) = 2%nat.
Proof.
  destruct (@cache_is_transparent literal_regex pair_ipnet tree_yaml sorted_hash_order (fun _ => Some sample_doc) sample_raw (fun _ => Some "doc") (fun _ => true)
              (Some [Some "r.yaml"]) sample_set eq_refl) as (_ & _ & Heq).
  split; [rewrite Heq; reflexivity|reflexivity].
Defined.
End Sample.
