(* ===== verification/OptSchema.v ===== *)
(** The schema of [crates/optimized_rule] ([types.rs]): the text of
    [crates/rule/src/types.rs], a leaf with the key of its compiled regex, and the
    writers of conditions, written by hand. *)
From S2P Require Import Prelude Utf8 Extern WafTypes RuleTypes Converter Serde Schema TreeModel OptRule.
Local Open Scope Z_scope.

(** * Reading *)

(** A rule as it is read, and compiled. *)
Definition RuleRaw : Type := RuleTypes.RuleRaw OptNode.
Definition Rule : Type := RuleTypes.Rule OptNode.

Section Read.
Context {D C : Type} `{Format D C}.

Definition read_action : D -> option Action := Schema.read_action.
Definition read_field : C -> option Field := Schema.read_field.
Definition read_match_type : C -> option MatchType := Schema.read_match_type.
Definition read_response_config : D -> option ResponseConfig := Schema.read_response_config.
Definition read_rate_limit_scope : D -> option RateLimitScope := Schema.read_rate_limit_scope.
Definition read_rate_limit_rule : D -> option RateLimitRule := Schema.read_rate_limit_rule dm_str.
Definition read_challenge_type : D -> option ChallengeType := Schema.read_challenge_type.
Definition read_challenge_rule : D -> option ChallengeRule := Schema.read_challenge_rule.

(** [compiled_regex_key] is skipped, so it is [None] after reading. *)
Definition read_leaf (v : C) : option OptLeaf := (fun leaf => mkOptLeaf leaf None) <$> Schema.read_leaf v.
Definition read_condition : D -> option OptNode := read_buffered read_leaf.
Definition read_raw : D -> option RuleRaw := read_rule_raw read_condition dm_str.
End Read.

(** The rules of [crates/rule], with leaves that have no key. *)
Definition no_key (leaf : ConditionLeaf) : OptLeaf := mkOptLeaf leaf None.
Lemma read_raw_no_keys {D C} `{Format D C} (v : D) :
  read_raw v = change_condition (cond_map no_key) <$> Schema.read_raw v.
Proof.
  apply read_rule_change. intros w. unfold read_condition, Schema.read_condition, read_buffered.
  destruct (buffered w); cbn; [by apply read_node_map|done].
Qed.

(** * Writing *)

Section Write.
Context {O : Type} `{Serializer O}.

Definition write_field (f : Field) : O :=
  s_str match f with
        | FIp => "ip" | FPath => "path" | FHeader => "header" | FPayload => "payload" | FCookie => "cookie"
        | FMethod => "method" | FContentType => "content_type" | FSessionId => "session_id" | FDeviceFp => "device_fp"
        end.
Definition write_match_type (m : MatchType) : O :=
  s_str match m with
        | MExact => "exact" | MWildcard => "wildcard" | MRegex => "regex" | MCidr => "cidr"
        | MPresence => "presence" | MAbsence => "absence"
        end.

(** The optional entries are written only when they are set.  The code declares five
    fields to [serialize_struct] and writes three to seven; the formats in use, JSON and
    YAML, write the fields they are given and not that number, so that a struct is a
    map here. *)
Definition serialize_leaf (leaf : OptLeaf) : O :=
  let self := opt_leaf leaf in
  s_map ([("field", write_field (field self)); ("match", write_match_type (match_type self));
          ("value", s_str (value self))]
         ++ match header_name self with Some hn => [("header_name", s_str hn)] | None => [] end
         ++ match cookie_name self with Some cn => [("cookie_name", s_str cn)] | None => [] end
         ++ (if case_sensitive self then [("case_sensitive", s_bool (case_sensitive self))] else [])
         ++ (if negate self then [("negate", s_bool (negate self))] else [])).

Fixpoint serialize_node (self : OptNode) : O :=
  match self with
  | CAnd nodes => s_map [("and", s_seq (map serialize_node nodes))]
  | COr nodes => s_map [("or", s_seq (map serialize_node nodes))]
  | CLeaf leaf => serialize_leaf leaf
  end.
End Write.

(** * Round trip *)

(** A condition as it is after writing and reading: without regex keys. *)
Definition forget_key (leaf : OptLeaf) : OptLeaf := mkOptLeaf (opt_leaf leaf) None.

Section RoundTrip.
Context {C : Type} `{ReadsBack C}.

Lemma read_written_field f : Schema.read_field (write_field f : C) = Some f.
Proof. unfold Schema.read_field, unit_variant, write_field. rewrite rb_enum. by destruct f. Qed.
Lemma read_written_match_type m : Schema.read_match_type (write_match_type m : C) = Some m.
Proof. unfold Schema.read_match_type, unit_variant, write_match_type. rewrite rb_enum. by destruct m. Qed.

Lemma opt_serialized_leaf_reads leaf : read_leaf (serialize_leaf leaf : C) = Some (forget_key leaf).
Proof.
  destruct leaf as [[f m v hn cn cs ng] key].
  unfold read_leaf, Schema.read_leaf, parts_of, serialize_leaf, forget_key.
  cbn [opt_leaf RuleTypes.field RuleTypes.match_type RuleTypes.value RuleTypes.header_name
       RuleTypes.cookie_name RuleTypes.case_sensitive RuleTypes.negate].
  rewrite rb_map. cbn [mbind option_bind].
  destruct hn as [hn|], cn as [cn|], cs, ng; cbn -[Schema.read_field Schema.read_match_type];
    unfold required, optional, defaulted; cbn -[Schema.read_field Schema.read_match_type];
    rewrite ?read_written_field, ?read_written_match_type, ?rb_str, ?rb_not_null, ?rb_bool; cbn;
    rewrite ?read_written_match_type, ?rb_str, ?rb_not_null, ?rb_bool; done.
Qed.

Lemma serialized_not_branch leaf (read : C -> option OptNode) : read_branch read (serialize_leaf leaf) = None.
Proof. unfold read_branch, serialize_leaf. rewrite rb_map_enum. cbn. done. Qed.

(** C18: the writers written by hand and the derived reader fit: a condition that is
    written, in any format that reads back what it writes, is read as the same
    condition without its regex keys. *)
Theorem condition_round_trip (node : OptNode) :
  read_node read_leaf (serialize_node node : C) = Some (cond_map forget_key node).
Proof.
  induction node as [l IH|l IH|leaf] using Cond_ind'; rewrite read_node_unfold; cbn [serialize_node cond_map].
  3: { by rewrite serialized_not_branch, opt_serialized_leaf_reads. }
  all: unfold read_branch; rewrite rb_map_enum; cbn [mbind option_bind String.eqb]; unfold seq_of; rewrite rb_seq;
    cbn [mbind option_bind]; rewrite mapM_map; cbn.
  all: by rewrite (mapM_total _ (cond_map forget_key)).
Qed.
End RoundTrip.

Definition written_condition : OptNode :=
  CAnd [CLeaf (mkOptLeaf (mkLeaf FPath MRegex "^/admin" None None false false) (Some "^/admin"));
        COr [CLeaf (mkOptLeaf (mkLeaf FHeader MExact "curl" (Some "user-agent") None true true) None)]].
Lemma condition_round_trip_witness :
  @read_node ytree tree_content OptLeaf (@read_leaf ytree tree_content)
    (@serialize_node ytree tree_writer written_condition)
  = Some (CAnd [CLeaf (mkOptLeaf (mkLeaf FPath MRegex "^/admin" None None false false) None);
                COr [CLeaf (mkOptLeaf (mkLeaf FHeader MExact "curl" (Some "user-agent") None true true) None)]]).
Proof.
  rewrite (@condition_round_trip ytree tree_content tree_writer tree_reads_back written_condition). reflexivity.
Defined.
