(* ===== verification/Compare.v ===== *)
(** The program that compares the three rule engines on one directory of rules
    ([bin/compare_engines_yaml_vs_rete.rs]): it loads the directory into each of
    them, runs scenarios, and counts how often they report the same rule.  The
    texts it prints and the times it measures are left out. *)
From S2P Require Import Prelude Utf8 RustStd Net Extern Float64 WafTypes RuleTypes RuleEngine OptRule Ast Functions Printer WorkingMemory Rete Engine EngineSpec GrlParser Pest Converter GrlText ConvSpec ConvEngine Agree.
Local Open Scope Z_scope.

(** A scenario: [(name, ip, method, path, payload)]. *)
Record Scenario := mkScenario {
  sc_name : string; sc_ip : string; sc_method : string; sc_path : string; sc_payload : option string
}.

(** The scenarios of [main]. *)
Definition test_scenarios : list Scenario :=
  [mkScenario "clean-request" "192.168.1.1" "GET" "/api/users" None;
   mkScenario "sqli-attack" "10.0.0.1" "POST" "/api/search" (Some "q=admin' UNION SELECT password FROM users--");
   mkScenario "xss-attack" "10.0.0.2" "POST" "/comment" (Some "text=<script>alert('xss')</script>");
   mkScenario "path-traversal" "10.0.0.3" "GET" "/../../../etc/passwd" None;
   mkScenario "command-injection" "10.0.0.4" "POST" "/api/execute" (Some "cmd=cat /etc/passwd | grep root")].

(** * Loading the network engine *)

(** A document made of a list ([serde_yaml::Value::Sequence]). *)
Class YamlBuild `{YamlLib} := {
  y_of_list : list yaml -> yaml;
  y_of_list_sequence : forall l, y_sequence (y_of_list l) = Some l
}.

(** Why loading ends without an engine; slicing a text inside a character panics. *)
Inductive LoadError : Type :=
| LoadReadDir | LoadEntry | LoadRead (path : string) | LoadYaml (path : string) | LoadConvert (msg : string)
| LoadGrl (e : GrlError) | LoadPanic.

Section Load.
Context `{UnicodeTables, RegexLib, HashOrder, YamlLib, !YamlBuild}.
Variable yaml_value : string -> option yaml.
Variable pest_parse : string -> option (list Pair).
Variable fs : FileSystem.

(** The loop over the directory: the members of the [rules] of each file. *)
Fixpoint merge_entries (entries : list (option string)) (all_rules : list yaml) : result LoadError (list yaml) :=
  match entries with
  | [] => Ok all_rules
  | entry :: entries =>
    path ← ok_or entry LoadEntry;
    if bool_decide (path_extension path = Some "yaml") then
      content ← ok_or (fs_read fs path) (LoadRead path);
      doc ← ok_or (yaml_value content) (LoadYaml path);
      match y_get "rules" doc ≫= y_sequence with
      | Some rules_seq => merge_entries entries (all_rules ++ rules_seq)
      | None => merge_entries entries all_rules
      end
    else merge_entries entries all_rules
  end.
Definition merged_rules (rules_dir : string) : result LoadError (list yaml) :=
  entries ← ok_or (fs_read_dir fs rules_dir) LoadReadDir;
  merge_entries entries [].

(** [&s[..n]], when [s] is longer: in range at a character boundary only. *)
Definition sliceable (s : string) (n : Z) : bool :=
  match str_bytes s !! Z.to_nat n with Some b => negb (cont_byte (byte_val b)) | None => true end.
Definition preview (s : string) (n : Z) : result LoadError unit :=
  if n <? Z.of_nat (str_len s) then if sliceable s n then Ok tt else Err LoadPanic else Ok tt.

Definition load_rete_engine (rules_dir : string) : result LoadError Engine :=
  all_rules ← merged_rules rules_dir;
  let merged_doc := y_of_list all_rules in
  grl_source ← match yaml_to_grl merged_doc with Ok s => Ok s | Err m => Err (LoadConvert m) end;
  _ ← preview grl_source 2000;
  match grl_parse pest_parse grl_source with
  | Ok rule_asts => Ok (Engine_new (compile rule_asts))
  | Err e => _ ← preview grl_source 5000; Err (LoadGrl e)
  end.
End Load.

(** * Running a scenario *)

Section Run.
Context `{UnicodeTables, RegexLib, HashOrder, IpNetLib}.

Definition build_salience_map (engine : Engine) : gmap string Z :=
  foldl (fun map t => <[rule_name t := salience t]> map) ∅ (terminals (network engine)).

Definition yaml_headers : gmap string string :=
  <["Content-Type" := "application/json"]> (<["User-Agent" := "Mozilla/5.0"]> ∅).
Definition yaml_context (sc : Scenario) : RuleEngine.RequestContext :=
  mkRequestContext (sc_ip sc) (sc_path sc) (sc_method sc) yaml_headers (default "" (sc_payload sc)) ∅ CatchAll "" ""
    (Some "application/json").
Definition opt_context (sc : Scenario) : OptContext :=
  mkOptContext (sc_ip sc) (sc_path sc) (sc_method sc) yaml_headers (default "" (sc_payload sc)) ∅ CatchAll "" ""
    (Some "application/json").
Definition rete_headers : gmap string string :=
  <["content-type" := "application/json"]> (<["user-agent" := "Mozilla/5.0"]> ∅).
Definition rete_context (prefix : string) (now : Z) (sc : Scenario) : Ast.RequestContext :=
  mkContext (prefix +:+ sc_name sc) now (sc_method sc) (sc_path sc) None CatchAll (sc_ip sc) None rete_headers
    (sc_payload sc) None None RiskScore_ZERO None ∅.

(** The rule each engine reports; the empty text when there is none. *)
Definition yaml_matched (evaluator : RuleEngine.RuleSet) (sc : Scenario) : string :=
  default "" (rule_id <$> RuleEngine.evaluate evaluator (yaml_context sc) []).
Definition opt_matched (evaluator : OptRuleSet) (sc : Scenario) : string :=
  default "" (mr_rule_id <$> OptRule.evaluate evaluator (opt_context sc) []).
Definition rete_outcome (engine : Engine) (prefix : string) (now : Z) (sc : Scenario) : Outcome :=
  fire engine (enrich engine (rete_context prefix now sc)).
(** The first of the rules that fired, by descending salience. *)
Definition rete_matched (engine : Engine) (salience_map : gmap string Z) (now : Z) (sc : Scenario) : string :=
  default "" (head (sort_by_key (fun a => - default 0 (salience_map !! a))
                      (matched_rules (rete_outcome engine "accuracy-" now sc)))).

(** * Counting agreements *)

Record Agreement := mkAgreement {
  yaml_opt_agree : nat; yaml_rete_agree : nat; opt_rete_agree : nat; all_three_agree : nat; scenario_count : nat
}.

Section Compare.
Context (yaml_evaluator : RuleEngine.RuleSet) (opt_evaluator : OptRuleSet) (rete_engine : Engine).
Context (salience_map : gmap string Z) (now : Z).

Definition compare_scenario (acc : Agreement) (sc : Scenario) : Agreement :=
  let yaml_matched := yaml_matched yaml_evaluator sc in
  let opt_matched := opt_matched opt_evaluator sc in
  let rete_matched := rete_matched rete_engine salience_map now sc in
  let yaml_opt_match := String.eqb yaml_matched opt_matched in
  let yaml_rete_match := String.eqb yaml_matched rete_matched in
  let opt_rete_match := String.eqb opt_matched rete_matched in
  mkAgreement
    (if yaml_opt_match then S (yaml_opt_agree acc) else yaml_opt_agree acc)
    (if yaml_rete_match then S (yaml_rete_agree acc) else yaml_rete_agree acc)
    (if opt_rete_match then S (opt_rete_agree acc) else opt_rete_agree acc)
    (if yaml_opt_match && yaml_rete_match && opt_rete_match then S (all_three_agree acc) else all_three_agree acc)
    (S (scenario_count acc)).
Definition compare_rule_accuracy (scenarios : list Scenario) : Agreement :=
  foldl compare_scenario (mkAgreement 0 0 0 0 0) scenarios.
End Compare.

(** * Benchmarks: the rule last seen for each scenario *)

(** [for _ in 0..iterations { for sc in scenarios { .. } }] *)
Definition repeated {S : Type} (iterations : nat) (f : S -> Scenario -> S) (scenarios : list Scenario) (s : S) : S :=
  Nat.iter iterations (fun s => foldl f s scenarios) s.

Definition benchmark_yaml_engine (evaluator : RuleEngine.RuleSet) (iterations : nat) (scenarios : list Scenario)
  : gmap string string :=
  repeated iterations (fun matches sc =>
    match RuleEngine.evaluate evaluator (yaml_context sc) [] with
    | Some matched => <[sc_name sc := rule_id matched]> matches
    | None => matches
    end) scenarios ∅.
Definition benchmark_optimized_yaml_engine (evaluator : OptRuleSet) (iterations : nat) (scenarios : list Scenario)
  : gmap string string :=
  repeated iterations (fun matches sc =>
    match OptRule.evaluate evaluator (opt_context sc) [] with
    | Some matched => <[sc_name sc := mr_rule_id matched]> matches
    | None => matches
    end) scenarios ∅.
Definition benchmark_rete_engine (engine : Engine) (now : Z) (iterations : nat) (scenarios : list Scenario)
  : gmap string string :=
  repeated iterations (fun matches sc =>
    match head (matched_rules (rete_outcome engine "bench-" now sc)) with
    | Some first_match => <[sc_name sc := first_match]> matches
    | None => matches
    end) scenarios ∅.
End Run.

Lemma iter_ext {A} (f g : A -> A) n x : (forall y, f y = g y) -> Nat.iter n f x = Nat.iter n g x.
Proof. intros Hfg. induction n as [|n IH]; [done|]. simpl. by rewrite IH, Hfg. Qed.

(** After at least one iteration, a scenario has the rule its engine reports. *)
Lemma repeated_matches {A} (g : A -> option string) (name : A -> string) iterations (l : list A) sc :
  (0 < iterations)%nat -> NoDup (map name l) -> In sc l ->
  Nat.iter iterations (fun m => foldl (fun (m : gmap string string) sc =>
    match g sc with Some x => <[name sc := x]> m | None => m end) m l) ∅ !! name sc = g sc.
Proof.
  set (step := fun (m : gmap string string) sc => match g sc with Some x => <[name sc := x]> m | None => m end).
  assert (Hother : forall l m k, k ∉ map name l -> foldl step m l !! k = m !! k).
  { clear. induction l as [|x l IH]; intros m k Hk; [done|]. cbn in *. apply not_elem_of_cons in Hk as [Hx Hk].
    rewrite IH by done. unfold step. destruct (g x); [by rewrite lookup_insert_ne|done]. }
  assert (Hround : forall l m, NoDup (map name l) -> In sc l ->
            foldl step m l !! name sc = match g sc with Some x => Some x | None => m !! name sc end).
  { clear -Hother. induction l as [|x l IH]; intros m; [by intros _ []|]. cbn. intros [Hx Hnd]%NoDup_cons [->|Hin].
    - rewrite Hother by done. unfold step. destruct (g sc); [apply lookup_insert_eq|done].
    - rewrite IH by done. destruct (g sc); [done|]. unfold step. destruct (g x); [|done].
      rewrite lookup_insert_ne; [done|]. intros Heq. apply Hx. rewrite Heq. by apply list_elem_of_In, in_map. }
  intros Hi Hnd Hin. destruct iterations as [|n]; [lia|]. clear Hi. induction n as [|n IH].
  - change (foldl step ∅ l !! name sc = g sc). rewrite Hround by done. by destruct (g sc).
  - change (foldl step (Nat.iter (S n) (fun m => foldl step m l) ∅) l !! name sc = g sc).
    rewrite Hround by done. destruct (g sc); [done|exact IH].
Qed.

Lemma benchmark_reports `{UnicodeTables, RegexLib} evaluator iterations scenarios sc :
  (0 < iterations)%nat -> NoDup (map sc_name scenarios) -> In sc scenarios ->
  benchmark_yaml_engine evaluator iterations scenarios !! sc_name sc =
  rule_id <$> RuleEngine.evaluate evaluator (yaml_context sc) [].
Proof.
  intros Hi Hnd Hin.
  pose (g := fun sc => rule_id <$> RuleEngine.evaluate evaluator (yaml_context sc) []).
  change (rule_id <$> _) with (g sc). rewrite <-(repeated_matches g sc_name iterations scenarios sc) by done.
  unfold benchmark_yaml_engine, repeated. f_equal.
  assert (Hstep : forall l m, foldl (fun (matches : gmap string string) sc =>
      match RuleEngine.evaluate evaluator (yaml_context sc) [] with
      | Some matched => <[sc_name sc := rule_id matched]> matches | None => matches end) m l =
    foldl (fun m sc => match g sc with Some x => <[sc_name sc := x]> m | None => m end) m l).
  { induction l as [|x l IH]; intros m; [done|]. cbn. rewrite IH. f_equal. unfold g. by destruct (RuleEngine.evaluate _ _ _). }
  apply iter_ext. intros m. apply Hstep.
Qed.

(** * The summary of a rule set *)

Definition tier_names : list string := ["global"; "critical"; "high"; "medium"; "catch-all"].
Definition tier_of_priority (priority : Z) : string :=
  if priority <? 20 then "global" else if priority <? 40 then "critical" else if priority <? 50 then "high"
  else if priority <? 100 then "medium" else "catch-all".
Definition tier_counts {C} (rules : list (Rule C)) : gmap string nat :=
  foldl (fun counts rule => let tier := tier_of_priority (priority rule) in
           <[tier := S (default 0%nat (counts !! tier))]> counts) ∅ rules.
Definition print_rule_summary {C} (rules : list (Rule C)) : list (string * nat) :=
  omap (fun tier => (fun count => (tier, count)) <$> tier_counts rules !! tier) tier_names.

(** * The engines report the same rule *)

Lemma find_map {A B} (p : B -> bool) (f : A -> B) l : List.find p (map f l) = f <$> List.find (fun x => p (f x)) l.
Proof. induction l as [|x l IH]; [done|]. cbn. by destruct (p (f x)). Qed.

Lemma find_alike {A B} (R : A -> B -> Prop) (p : A -> bool) (q : B -> bool) l m :
  (forall x y, R x y -> p x = q y) -> Forall2 R l m ->
  match List.find p l, List.find q m with
  | Some x, Some y => R x y
  | None, None => True
  | _, _ => False
  end.
Proof.
  intros Hpq. induction 1 as [|x y l m Hxy _ IH]; [done|]. cbn. rewrite (Hpq x y Hxy). by destruct (q y).
Qed.

Lemma sort_by_key_id {A} (key : A -> Z) l : StronglySorted (key_le key) l -> sort_by_key key l = l.
Proof.
  induction 1 as [|x l _ IH Hx]; [done|]. change (insert_by key x (sort_by_key key l) = x :: l).
  rewrite IH. destruct Hx as [|y l Hy _]; [done|]. cbn.
  unfold key_le in Hy. by rewrite (proj2 (Z.leb_le _ _)).
Qed.

Lemma sorted_prefix {A} (R : A -> A -> Prop) l l' : l `prefix_of` l' -> StronglySorted R l' -> StronglySorted R l.
Proof.
  intros [r ->]. induction l as [|x l IH]; [constructor|]. cbn. intros Hs. inversion Hs as [|? ? Hl Hx]. subst.
  apply List.Forall_app in Hx as [Hx _]. constructor; auto.
Qed.
Lemma sorted_filter {A} (R : A -> A -> Prop) f l : StronglySorted R l -> StronglySorted R (List.filter f l).
Proof.
  induction 1 as [|x l _ IH Hx]; [constructor|]. cbn. destruct (f x); [|done]. constructor; [done|].
  rewrite !List.Forall_forall in *. intros y [Hy _]%List.filter_In. auto.
Qed.

Lemma sorted_map {A B} (kA : A -> Z) (kB : B -> Z) (f : A -> B) l :
  (forall x, In x l -> kB (f x) = kA x) -> StronglySorted (key_le kA) l -> StronglySorted (key_le kB) (map f l).
Proof.
  intros Hk Hs. induction Hs as [|x l _ IH Hx]; [constructor|]. cbn. constructor.
  - apply IH. intros y Hy. apply Hk. by right.
  - apply List.Forall_map. rewrite List.Forall_forall in *. intros y Hy. specialize (Hx y Hy).
    unfold key_le in *. rewrite !Hk by (by (left + right)). done.
Qed.
Lemma head_map {A B} (f : A -> B) l : head (map f l) = f <$> head l.
Proof. by destruct l. Qed.

Section Agreement.
Context `{UnicodeTables, RegexLib, HashOrder, IpNetLib, YamlLib, !YamlBuild, UnstableSort}.

(** The first rule, by priority, whose condition holds. *)
Definition first_rule (raw : list (RuleRaw ConditionNode)) (yctx : RuleEngine.RequestContext) : option (RuleRaw ConditionNode) :=
  List.find (fun r => RuleEngine.eval_node (raw_condition r) yctx) (sort_by_key raw_priority raw).
Definition reported (r : option (RuleRaw ConditionNode)) : string := default "" (raw_id <$> r).

Lemma priorities_order {C} (raw raw' : list (RuleRaw C)) :
  raw' ≡ₚ raw -> NoDup (map raw_priority raw) -> sort_by_key raw_priority raw' = sort_by_key raw_priority raw.
Proof.
  intros Hp Hnd. apply sort_by_key_unique; [apply sort_by_key_sorted| |done]. by rewrite sort_by_key_perm.
Qed.

(** A file of shared rules none of which only logs. *)
Record shared_file (l : list yaml) (raw : list (RuleRaw ConditionNode)) : Prop := {
  file_common : Forall2 common_rule l raw;
  file_priorities : NoDup (map raw_priority raw);
  file_no_log : Forall (fun r => raw_action r <> ActLog) raw
}.

Lemma yaml_reports l raw raw' set sc :
  shared_file l raw -> raw' ≡ₚ raw -> RuleEngine.compile raw' = Ok set ->
  yaml_matched set sc = reported (first_rule raw (yaml_context sc)).
Proof.
  intros [Hc Hp Hlog] Hperm Hset. unfold yaml_matched, reported, first_rule.
  rewrite (compiled_in_order raw' set Hset) by (by rewrite Hperm).
  rewrite (priorities_order raw raw' Hperm Hp), evaluate_find, find_map.
  rewrite (find_ext_in _ (fun r => RuleEngine.eval_node (raw_condition r) (yaml_context sc))).
  - by destruct (List.find _ _).
  - intros r Hr%In_sorted. pose proof (rules_in_force l raw Hc) as Hf. rewrite List.Forall_forall in Hf, Hlog.
    rewrite decides_common by auto. rewrite bool_decide_eq_false_2 by auto. by rewrite andb_true_r.
Qed.

(** ** The optimized engine *)

(** A rule as the optimized crate reads it: no regex has a key yet. *)
Definition opt_rule (r : RuleRaw ConditionNode) : RuleRaw OptNode :=
  with_condition r (cond_map (fun x => mkOptLeaf x None) (raw_condition r)).

Lemma direct_alike sc x k :
  common_leaf x = true -> valid_utf8 (default "" (sc_payload sc)) = true ->
  direct_leaf (opt_context sc) (mkOptLeaf x k) = RuleEngine.eval_leaf x (yaml_context sc).
Proof.
  unfold common_leaf, direct_leaf, RuleEngine.eval_leaf, leaf_subject, direct_value, OptRule.match_value.
  intros Hx Hv. reflect_bools. rename select (negate x = false) into Hn. cbn [opt_leaf compiled_regex_key]. rewrite Hn.
  destruct (field x) eqn:Hf, (match_type x) eqn:Hm; try done; cbn -[from_utf8_lossy];
    rewrite ?lossy_valid by done; unfold from_utf8; rewrite ?Hv; first [by apply exact_alike | by apply regex_alike].
Qed.

Lemma cond_direct c sc :
  common_cond c = true -> valid_utf8 (default "" (sc_payload sc)) = true ->
  cond_eval (direct_leaf (opt_context sc)) (cond_map (fun x => mkOptLeaf x None) c) =
  RuleEngine.eval_node c (yaml_context sc).
Proof.
  intros Hc Hv. unfold RuleEngine.eval_node. apply cond_eval_map.
  induction c as [cs IH|cs IH|x] using Cond_ind'; cbn [leaves].
  3: { constructor; [by apply direct_alike|constructor]. }
  all: assert (Hcs : forallb common_cond cs = true) by (by destruct cs); clear Hc;
    induction IH as [|c cs Hh _ IHcs]; cbn in *; [done|]; reflect_bools; apply List.Forall_app; auto.
Qed.

Lemma common_of l raw r :
  Forall2 common_rule l raw -> In r raw -> common_cond (raw_condition r) = true /\ raw_enabled r = true.
Proof.
  induction 1 as [|v x l raw [_ Hc He _ _ _ _] _ IH]; [by intros []|]. intros [->|Hr]; auto.
Qed.

(** A key does not change what a leaf tests. *)
Lemma populated_direct ctx m x : direct_leaf ctx (populate_leaf m x) = direct_leaf ctx x.
Proof.
  unfold populate_leaf. case_bool_decide; [|done]. destruct (m !! _); [|done].
  unfold direct_leaf, direct_value, OptRule.match_value. cbn [opt_leaf]. by destruct (match_type (opt_leaf x)).
Qed.

(** The rules of the loaded set, in order, test the same conditions. *)
Lemma opt_reports l raw yv fv read is_yaml es orules set sc :
  shared_file l raw -> valid_utf8 (default "" (sc_payload sc)) = true ->
  read_rules yv fv read is_yaml es [] = Ok orules -> map fst orules ≡ₚ map opt_rule raw ->
  OptRule.load_from_path yv fv read is_yaml (Some es) = Ok set ->
  opt_matched set sc = reported (first_rule raw (yaml_context sc)).
Proof.
  intros [Hc Hp _] Hv Hread Hperm (es' & orules' & m & [= <-] & Hread' & Hrules & Heval)%loaded_set.
  rewrite Hread in Hread'. injection Hread' as <-.
  unfold opt_matched. rewrite evaluate_direct by (intros; by apply Heval).
  set (test := fun r : RuleRaw OptNode => raw_enabled r && cond_eval (direct_leaf (opt_context sc)) (raw_condition r)).
  assert (Hfind : List.find (fun r => enabled r && eval_direct (opt_context sc) (condition r)) (opt_rules set) =
            OptRule.build_rule m <$> List.find (fun x => test (fst x)) (sort_by_key (fun x => raw_priority (fst x)) orules)).
  { rewrite Hrules, (sort_by_key_map (fun x => raw_priority (fst x)) priority) by (by intros []). rewrite find_map. f_equal.
    apply find_ext_in. intros [r src] _. unfold test, eval_direct. cbn. f_equal. apply cond_eval_map.
    apply List.Forall_forall. intros x _. apply populated_direct. }
  assert (Hsorted : map fst (sort_by_key (fun x => raw_priority (fst x)) orules) = map opt_rule (sort_by_key raw_priority raw)).
  { rewrite <-(sort_by_key_map (fun x => raw_priority (fst x)) raw_priority fst), <-(sort_by_key_map raw_priority raw_priority opt_rule) by done.
    apply priorities_order; [done|]. by rewrite List.map_map. }
  rewrite Hfind. unfold reported, first_rule.
  pose proof (find_map test fst (sort_by_key (fun x => raw_priority (fst x)) orules)) as Hfst.
  rewrite Hsorted, find_map in Hfst.
  rewrite (find_ext_in (fun r => test (opt_rule r)) (fun r => RuleEngine.eval_node (raw_condition r) (yaml_context sc))) in Hfst.
  - destruct (List.find _ (sort_by_key raw_priority raw)), (List.find _ (sort_by_key _ orules)) as [[]|]; cbn in *;
      try (injection Hfst as <-); done.
  - intros r Hr%In_sorted. unfold test, opt_rule. cbn.
    destruct (common_of l raw r Hc Hr) as (Hcond & ->). cbn. by apply cond_direct.
Qed.

(** ** The network engine *)

Lemma salience_map_lookup ts (acc : gmap string Z) t :
  NoDup (map rule_name ts) -> In t ts ->
  foldl (fun map t => <[rule_name t := salience t]> map) acc ts !! rule_name t = Some (salience t).
Proof.
  assert (Hkeep : forall ts (acc : gmap string Z) t0, rule_name t0 ∉ map rule_name ts ->
            foldl (fun map t => <[rule_name t := salience t]> map) acc ts !! rule_name t0 = acc !! rule_name t0).
  { clear. induction ts as [|x ts IH]; intros acc t0 Hn; [done|]. cbn in *. apply not_elem_of_cons in Hn as [Hx Hn].
    rewrite IH by done. by rewrite lookup_insert_ne. }
  revert acc. induction ts as [|x ts IH]; intros acc; [by intros _ []|]. cbn. intros [Hx Hnd]%NoDup_cons [->|Ht].
  - rewrite Hkeep by done. apply lookup_insert_eq.
  - by apply IH.
Qed.

(** The salience map gives each rule its own salience. *)
Lemma salience_map_spec reg rules ms eng m :
  network_stands reg rules (network eng) ms -> In m (sort_meanings ms) ->
  build_salience_map eng !! m_name m = Some (m_salience m).
Proof.
  intros [_ Hterm Hstand Hnd] Hm.
  assert (Hts : Forall2 (fun t m => rule_name t = m_name m /\ salience t = m_salience m) (terminals (network eng)) (sort_meanings ms)).
  { clear Hnd Hm. revert Hstand. generalize (sort_meanings ms). induction Hterm as [|t r ts rs (Hn & Hs & _) _ IH];
      intros l Hl; inversion Hl as [|? x ? ? (Hrn & Hrs & _)]; subst; constructor; [split; congruence|by apply IH]. }
  assert (Hnames : map rule_name (terminals (network eng)) = map m_name (sort_meanings ms)).
  { clear -Hts. induction Hts as [|t x ts l [Hn _] _ IH]; [done|]. cbn. by rewrite Hn, IH. }
  assert (Hin : exists t, In t (terminals (network eng)) /\ rule_name t = m_name m /\ salience t = m_salience m).
  { clear -Hts Hm. induction Hts as [|t x ts l Ht _ IH]; [done|]. destruct Hm as [->|Hm]; [exists t; split; [by left|done]|].
    destruct (IH Hm) as (u & ? & ?). exists u. split; [by right|done]. }
  destruct Hin as (t & Ht & <- & <-). apply salience_map_lookup; [by rewrite Hnames|done].
Qed.

(** Sorting the fired rules by salience changes nothing: they fired in that order. *)
Lemma rete_reports reg rules ms eng now sc :
  network eng = compile rules -> engine_registry eng = reg -> plugins eng = [] -> Builtins reg ->
  Forall2 (stands_for reg) rules ms -> NoDup (map m_name ms) ->
  rete_matched eng (build_salience_map eng) now sc =
  default "" (m_name <$> List.find (fun m => m_when m (rete_context "accuracy-" now sc)) (sort_meanings ms)).
Proof.
  intros Hnet Heng Hplug Hreg Hs Hnd. set (ctx := rete_context "accuracy-" now sc).
  destruct (standing_fires reg rules ms eng ctx Hs Hnd Hnet Heng) as (_ & l & Hl & Hpre & Hhead).
  assert (Hstands : network_stands reg rules (network eng) ms).
  { rewrite Hnet. destruct (compile_spec rules (stands_wf reg _ _ Hs)) as [Hwf Hterm].
    split; [done|done|by apply stands_sorted|]. unfold sort_meanings. by rewrite sort_by_key_perm. }
  unfold rete_matched, rete_outcome, enrich. rewrite Hplug. cbn [foldl]. fold ctx. rewrite Hl.
  assert (Hsub : forall m, In m l -> In m (sort_meanings ms)).
  { intros m Hm. destruct Hpre as [r Hr]. assert (Hm' : In m (take MAX_CYCLES (matching ctx ms))) by (rewrite Hr; apply in_app_iff; by left).
    apply list_elem_of_In, elem_of_take in Hm' as (i & Hi & _). apply list_elem_of_lookup_2, list_elem_of_In, List.filter_In in Hi. apply Hi. }
  assert (Hsorted : StronglySorted (key_le (fun m => - m_salience m)) l).
  { eapply sorted_prefix; [exact Hpre|]. eapply sorted_prefix; [apply prefix_take|].
    apply sorted_filter, sort_by_key_sorted. }
  rewrite sort_by_key_id.
  - rewrite head_map, Hhead. unfold matching. rewrite find_filter. by destruct (List.filter _ _).
  - eapply sorted_map; [|exact Hsorted]. intros m Hm. by rewrite (salience_map_spec reg rules ms) by auto.
Qed.

Lemma find_meaning ctx yctx raw ms :
  same_request ctx yctx -> Forall2 stands_alike raw ms ->
  default "" (m_name <$> List.find (fun m => m_when m ctx) (sort_meanings ms)) = reported (first_rule raw yctx).
Proof.
  intros Hs Ha%stands_in_order. unfold reported, first_rule.
  pose proof (find_alike stands_alike (fun r => RuleEngine.eval_node (raw_condition r) yctx) (fun m => m_when m ctx)
    _ _ (fun r m Hr => eq_sym (alike_when r m Hr ctx yctx Hs)) Ha) as Hf.
  destruct (List.find _ (sort_by_key _ raw)), (List.find _ (sort_meanings ms)); try done. cbn. by apply alike_name.
Qed.

(** What the scenarios ask of a request: nothing to decode in its path, and a body
    that is text. *)
Definition plain_scenario (sc : Scenario) : Prop :=
  url_decode (sc_path sc) = sc_path sc /\ valid_utf8 (default "" (sc_payload sc)) = true.

Lemma scenario_same now sc : plain_scenario sc -> same_request (rete_context "accuracy-" now sc) (yaml_context sc).
Proof.
  intros [Hp Hv]. split; [done|done|done|]. unfold req_body, from_utf8. cbn [body payload rete_context yaml_context].
  cbn. rewrite Hv. cbn. destruct (sc_payload sc) as [p|]; [|done]. cbn -[from_utf8_lossy] in *. by apply lossy_valid.
Qed.

(** The engine that loads from a directory of shared rules. *)
Lemma loaded_engine yaml_value pest_parse fs dir l raw eng :
  (forall src, pest_parse src = grammar_parse src) ->
  merged_rules yaml_value fs dir = Ok l -> shared_file l raw -> Forall rule_ok raw -> NoDup (map raw_id raw) ->
  load_rete_engine yaml_value pest_parse fs dir = Ok eng ->
  plugins eng = [] /\ engine_registry eng = register_context_defaults ∅ /\
  exists rules ms, network eng = compile rules /\ Forall2 (stands_for (register_context_defaults ∅)) rules ms /\
    NoDup (map m_name ms) /\ Forall2 stands_alike raw ms.
Proof.
  intros Hpest Hl [Hc _ _] Hok Hids. unfold load_rete_engine, yaml_to_grl. rewrite Hl. cbn [mbind result_mbind].
  rewrite y_of_list_sequence. cbn [ok_or mbind result_mbind].
  destruct (rules_alike (register_context_defaults ∅) l raw Hc Hok) as (ms & Hms & Ha).
  destruct (rules_mean (register_context_defaults ∅) l ms Hms) as (texts & rules & -> & Ht & Hs).
  destruct (preview _ 2000) as [[]|e]; cbn [mbind result_mbind]; [|intros Hbad; discriminate Hbad].
  rewrite (grl_parse_ext _ grammar_parse), (file_reads texts rules) by done. intros [= <-]. split; [done|]. split; [done|].
  exists rules, ms. split; [done|]. split; [done|]. split; [|done]. by rewrite (stands_names raw ms Ha).
Qed.

Lemma full_agreement yset oset eng salience_map now scenarios acc :
  Forall (fun sc => yaml_matched yset sc = opt_matched oset sc /\
                    yaml_matched yset sc = rete_matched eng salience_map now sc) scenarios ->
  let n := length scenarios in
  foldl (compare_scenario yset oset eng salience_map now) acc scenarios =
  mkAgreement (n + yaml_opt_agree acc) (n + yaml_rete_agree acc) (n + opt_rete_agree acc)
    (n + all_three_agree acc) (n + scenario_count acc).
Proof.
  intros Hall. revert acc. induction Hall as [|sc scs [Ho Hr] _ IH]; intros acc; [by destruct acc|].
  cbn [foldl length]. cbn zeta in IH. rewrite IH. unfold compare_scenario. cbn zeta. rewrite <-Ho, <-Hr, !String.eqb_refl. cbn.
  f_equal; lia.
Qed.
End Agreement.

(** The accuracy comparison on the rules that the formats share: when the three engines
    are loaded with a directory of such rules, of distinct priorities and none of them
    only logging, every scenario gets the same rule from all three, in whatever order
    the directory lists its files. *)
Lemma accuracy_is_full `{UnicodeTables, RegexLib, HashOrder, IpNetLib, YamlLib, !YamlBuild, UnstableSort}
  yaml_value pest_parse fs dir l raw eng raw' yset yv fv read is_yaml es orules oset now scenarios :
  (forall src, pest_parse src = grammar_parse src) ->
  merged_rules yaml_value fs dir = Ok l -> shared_file l raw ->
  load_rete_engine yaml_value pest_parse fs dir = Ok eng ->
  raw' ≡ₚ raw -> RuleEngine.compile raw' = Ok yset ->
  read_rules yv fv read is_yaml es [] = Ok orules -> map fst orules ≡ₚ map opt_rule raw ->
  OptRule.load_from_path yv fv read is_yaml (Some es) = Ok oset ->
  Forall plain_scenario scenarios ->
  let n := length scenarios in
  compare_rule_accuracy yset oset eng (build_salience_map eng) now scenarios = mkAgreement n n n n n.
Proof.
  intros Hpest Hl Hfile Heng Hperm Hy Hread Hoperm Ho Hscs n.
  pose proof Hy as (_ & Hids & Hok)%compile_ok. rewrite Hperm in Hids, Hok.
  destruct (loaded_engine _ _ _ _ _ _ _ Hpest Hl Hfile Hok Hids Heng) as (Hplug & Hreg & rules & ms & Hnet & Hs & Hnd & Ha).
  unfold compare_rule_accuracy. rewrite full_agreement; [cbn; f_equal; lia|].
  eapply List.Forall_impl; [|exact Hscs]. intros sc Hsc. rewrite (yaml_reports l raw raw' yset sc Hfile Hperm Hy). split.
  - symmetry. by apply (opt_reports l raw yv fv read is_yaml es orules); [|apply Hsc|..].
  - rewrite (rete_reports _ rules ms eng now sc Hnet Hreg Hplug _ Hs Hnd). symmetry.
    apply find_meaning; [by apply scenario_same|done].
Qed.

(** * A directory *)

Definition tree_build : @YamlBuild tree_yaml := @Build_YamlBuild tree_yaml YtSeq (fun _ => eq_refl).

Definition deciding_rules : list (RuleRaw ConditionNode) := tail shared_rules.
Definition rules_doc : ytree := YtMap [("rules", YtSeq (map rule_tree deciding_rules))].
Definition sample_value (text : string) : option ytree := if String.eqb text "rules: ..." then Some rules_doc else None.
Definition sample_from_value (v : ytree) : option (RuleRaw OptNode) :=
  opt_rule <$> List.find (fun r => bool_decide (@y_get tree_yaml "id" v ≫= @y_str tree_yaml = Some (raw_id r))) deciding_rules.
Definition sample_fs : FileSystem :=
  mkFs (fun _ => true) (fun _ => true) (fun _ => Some [Some "rules/README.md"; Some "rules/high.yaml"])
    (fun _ => Some "rules: ...").
Definition is_ok {E A} (r : result E A) : bool := match r with Ok _ => true | Err _ => false end.
Lemma is_ok_ok {E A} (r : result E A) : is_ok r = true -> exists x, r = Ok x.
Proof. destruct r as [x|]; [by exists x|done]. Qed.

Lemma deciding_file : @shared_file tree_yaml (map rule_tree deciding_rules) deciding_rules.
Proof.
  split.
  - pose proof shared_common as Hs. cbn in Hs. by inversion Hs.
  - apply (bool_decide_unpack _). vm_compute. done.
  - repeat constructor; done.
Qed.

Definition sample_load : result LoadError Engine :=
  @load_rete_engine plain_unicode literal_regex tree_yaml tree_build sample_value grammar_parse sample_fs "rules".
Definition sample_opt_load : result OptError (@OptRuleSet literal_regex) :=
  @OptRule.load_from_path literal_regex tree_yaml sorted_hash_order sample_value sample_from_value (fun _ => Some "rules: ...")
    (fun path => ends_with path ".yaml") (Some [Some "rules/README.md"; Some "rules/high.yaml"]).

Lemma accuracy_is_full_witness :
  exists eng oset, sample_load = Ok eng /\ sample_opt_load = Ok oset /\
    @compare_rule_accuracy plain_unicode literal_regex sorted_hash_order pair_ipnet
      (map RuleEngine.build_rule (sort_by_key raw_priority deciding_rules)) oset eng (build_salience_map eng) 0 test_scenarios =
    mkAgreement 5 5 5 5 5.
Proof.
  destruct (is_ok_ok sample_load) as [eng Heng]; [vm_compute; reflexivity|].
  destruct (is_ok_ok sample_opt_load) as [oset Hoset]; [vm_compute; reflexivity|].
  exists eng, oset. split; [exact Heng|]. split; [exact Hoset|].
  apply (@accuracy_is_full plain_unicode literal_regex sorted_hash_order pair_ipnet tree_yaml tree_build insertion_sort
    sample_value grammar_parse sample_fs "rules" (map rule_tree deciding_rules) deciding_rules eng deciding_rules
    (map RuleEngine.build_rule (sort_by_key raw_priority deciding_rules)) sample_value sample_from_value (fun _ => Some "rules: ...")
    (fun path => ends_with path ".yaml") [Some "rules/README.md"; Some "rules/high.yaml"]
    (map (fun r => (opt_rule r, "rules/high.yaml")) deciding_rules) oset 0 test_scenarios
    (fun _ => eq_refl) eq_refl deciding_file Heng (Permutation_refl _) eq_refl eq_refl (Permutation_refl _) Hoset).
  repeat constructor.
Defined.
