(* ===== verification/Program.v ===== *)
(** The comparison programs from their start: [main] of
    [bin/compare_engines_yaml_vs_rete.rs], which loads one directory into the three
    engines through their schemas, and [bin/compare_rule_engines.rs].  Of the report,
    the times and the fixed texts are left out. *)
From S2P Require Import Prelude Utf8 RustStd Net Extern Float64 WafTypes OptSchema RuleTypes RuleEngine Serde Schema OptRule Ast Functions Printer WorkingMemory Rete Engine EngineSpec GrlParser Pest Converter TreeModel GrlText ConvSpec ConvEngine Agree Documents Compare.
Local Open Scope Z_scope.

(** * [bin/compare_rule_engines.rs] *)

Section RuleBench.
Context `{UnicodeTables, RegexLib}.

(** The request of a scenario. *)
Definition bench_context (sc : Scenario) : RuleEngine.RequestContext :=
  mkRequestContext (sc_ip sc) (sc_path sc) (sc_method sc) {["User-Agent" := "Mozilla/5.0"]}
    (default "" (sc_payload sc)) ∅ CatchAll "" "" None.

Definition benchmark_engine (evaluator : RuleEngine.RuleSet) (iterations : nat) (scenarios : list Scenario)
  : gmap string string :=
  repeated iterations (fun scenario_matches sc =>
    match RuleEngine.evaluate evaluator (bench_context sc) [] with
    | Some matched => <[sc_name sc := rule_id matched]> scenario_matches
    | None => scenario_matches
    end) scenarios ∅.

(** One line per scenario: its name and the rule that matched. *)
Definition scenario_lines (matches : gmap string string) (scenarios : list Scenario) : list (string * string) :=
  map (fun sc => (sc_name sc, default "(no match)" (matches !! sc_name sc))) scenarios.
End RuleBench.

(** What [main] leaves on the screen, or why it exits with 1. *)
Inductive Exit : Type := NoRulesDirectory | YamlLoad (e : RuleError) | OptLoad (e : OptError) | ReteLoad (e : LoadError).

Section RuleMain.
Context `{UnicodeTables, RegexLib, UnstableSort}.
Variable fs : FileSystem.
Variable join : string -> string -> string.
Variable parse_rule_file : string -> option (list (RuleRaw ConditionNode)).

Definition load_yaml_rules (rules_dir : string) : result Exit RuleEngine.RuleSet :=
  if negb (fs_exists fs rules_dir) then Err NoRulesDirectory
  else match RuleEngine.load_from_path (fs_read fs) join parse_rule_file rules_dir with
       | Ok rs => Ok rs
       | Err e => Err (YamlLoad e)
       end.

Record RuleReport := mkRuleReport { rr_loaded : nat; rr_summary : list (string * nat); rr_lines : list (string * string) }.

Definition rule_main : result Exit RuleReport :=
  let iterations := 1000%nat in
  ruleset ← load_yaml_rules "rules";
  Ok (mkRuleReport (length ruleset) (print_rule_summary ruleset)
        (scenario_lines (benchmark_engine ruleset iterations test_scenarios) test_scenarios)).
End RuleMain.

(** * [bin/compare_engines_yaml_vs_rete.rs] *)

Record Report := mkReport {
  rp_summary : list (string * nat);
  rp_yaml : list (string * string);
  rp_optimized : list (string * string);
  rp_rete : list (string * string);
  rp_accuracy : Agreement
}.

Section Main.
Context `{UnicodeTables, RegexLib, HashOrder, IpNetLib, YamlLib, !YamlBuild, UnstableSort}.
Variable fs : FileSystem.
Variable join : string -> string -> string.
Variable parse_rule_file : string -> option (list (RuleRaw ConditionNode)).
Variable yaml_value : string -> option yaml.
Variable from_value : yaml -> option (RuleRaw OptNode).
Variable pest_parse : string -> option (list Pair).

Definition is_yaml (path : string) : bool := bool_decide (path_extension path = Some "yaml").

Definition load_optimized_rules (rules_dir : string) : result Exit OptRuleSet :=
  match OptRule.load_from_path yaml_value from_value (fs_read fs) is_yaml (fs_read_dir fs rules_dir) with
  | Ok rs => Ok rs
  | Err e => Err (OptLoad e)
  end.
Definition load_rete (rules_dir : string) : result Exit Engine :=
  match load_rete_engine yaml_value pest_parse fs rules_dir with Ok eng => Ok eng | Err e => Err (ReteLoad e) end.

(** The three engines are loaded before any runs; [now] stands for the clock. *)
Definition main (now : Z) : result Exit Report :=
  let iterations := 1000%nat in
  yaml_ruleset ← load_yaml_rules fs join parse_rule_file "rules";
  optimized_ruleset ← load_optimized_rules "rules";
  rete_engine ← load_rete "rules";
  let lines matches := scenario_lines matches test_scenarios in
  Ok (mkReport (print_rule_summary yaml_ruleset)
        (lines (benchmark_yaml_engine yaml_ruleset iterations test_scenarios))
        (lines (benchmark_optimized_yaml_engine optimized_ruleset iterations test_scenarios))
        (lines (benchmark_rete_engine rete_engine now iterations test_scenarios))
        (compare_rule_accuracy yaml_ruleset optimized_ruleset rete_engine (build_salience_map rete_engine) now test_scenarios)).
End Main.

(** The summary counts every rule once. *)
Lemma summary_counts_rules {C} (rules : list (Rule C)) :
  list_sum (map snd (print_rule_summary rules)) = length rules.
Proof.
  set (total := fun m : gmap string nat => list_sum (map (fun t => default 0%nat (m !! t)) tier_names)).
  assert (Hsum : forall m : gmap string nat,
    list_sum (map snd (omap (fun tier => (fun count => (tier, count)) <$> m !! tier) tier_names)) = total m).
  { intros m. unfold total. generalize tier_names. induction l as [|t l IH]; [done|]. cbn [omap list_omap map].
    unfold list_sum in *. destruct (m !! t); cbn; by rewrite <-IH. }
  unfold print_rule_summary. rewrite Hsum. unfold tier_counts.
  assert (Hfold : forall (l : list (Rule C)) m, total (foldl (fun counts rule => let tier := tier_of_priority (priority rule) in
           <[tier := S (default 0%nat (counts !! tier))]> counts) m l) = (length l + total m)%nat).
  { induction l as [|r l IH]; intros m; [done|]. cbn [foldl length]. rewrite IH. cbn zeta.
    assert (Hone : forall t, t ∈ tier_names -> total (<[t := S (default 0%nat (m !! t))]> m) = S (total m)); [|rewrite Hone; [lia|]].
    - intros t Ht. unfold total. unfold tier_names in *. cbn [map].
      repeat (apply elem_of_cons in Ht as [->|Ht];
        [rewrite lookup_insert_eq, !lookup_insert_ne by done; unfold list_sum; cbn [foldr from_option Datatypes.id]; lia|]). by apply elem_of_nil in Ht.
    - unfold tier_of_priority. repeat split_if; by apply (bool_decide_unpack _). }
  rewrite Hfold. replace (total ∅) with 0%nat by (vm_compute; reflexivity). lia.
Qed.

(** Each line of the report is the rule that the engine reports. *)
Lemma rule_lines `{UnicodeTables, RegexLib} evaluator iterations scenarios :
  (0 < iterations)%nat -> NoDup (map sc_name scenarios) ->
  scenario_lines (benchmark_engine evaluator iterations scenarios) scenarios =
  map (fun sc => (sc_name sc, default "(no match)" (rule_id <$> RuleEngine.evaluate evaluator (bench_context sc) []))) scenarios.
Proof.
  intros Hi Hnd. apply List.map_ext_in. intros sc Hsc. f_equal. f_equal.
  set (g := fun sc => rule_id <$> RuleEngine.evaluate evaluator (bench_context sc) []).
  change (rule_id <$> _) with (g sc). rewrite <-(repeated_matches g sc_name iterations scenarios sc) by done.
  unfold benchmark_engine, repeated. f_equal. apply iter_ext. intros m. revert m.
  generalize scenarios. induction scenarios0 as [|x l IH]; intros m; [done|]. cbn. rewrite IH. f_equal.
  unfold g. by destruct (RuleEngine.evaluate _ _ _).
Qed.

(** * The files of the directory *)

Section Files.
Context `{UnicodeTables, RegexLib, HashOrder, IpNetLib, YamlLib, !YamlBuild, UnstableSort} {C : Type}.
Context `{Format yaml C, !ContentLaws C, !DocumentViews, !ContentViews C}.
Context (fs : FileSystem) (join : string -> string -> string) (parse_rule_file : string -> option (list (RuleRaw ConditionNode)))
  (yaml_value : string -> option yaml).
Context (members : string -> list yaml) (raw : string -> list (RuleRaw ConditionNode)).

(** A file of the rules directory: its text is a document whose [rules] are shared
    rules of the system, which [crates/rule] reads from the text. *)
Record shared_rule_file (name : string) : Prop := {
  file_is_yaml : path_extension (join "rules" name) = Some "yaml";
  file_text : exists text doc, fs_read fs (join "rules" name) = Some text /\ yaml_value text = Some doc /\
    y_get "rules" doc ≫= y_sequence = Some (members name) /\ parse_rule_file text = Some (raw name);
  file_shared : Forall2 shared_rule (members name) (raw name);
  file_system : Forall (fun r => raw_source r = Some "system") (raw name)
}.

Lemma set_system_id (r : RuleRaw ConditionNode) : raw_source r = Some "system" -> set_system r = r.
Proof. destruct r; cbn. by intros ->. Qed.

Lemma system_files_read :
  Forall shared_rule_file file_names ->
  load_system_files (fs_read fs) join parse_rule_file "rules" = Ok (concat (map raw file_names)).
Proof.
  intros Hall. unfold load_system_files.
  match goal with |- (files ← collect_result ?load _; _) = _ => set (f := load) end.
  assert (Hf : forall name, shared_rule_file name -> f name = Ok (raw name)).
  { intros name [_ (text & doc & Hr & _ & _ & Hp) _ Hs]. unfold f. rewrite Hr. cbn. rewrite Hp. cbn. f_equal.
    clear -Hs. induction Hs as [|r l Hr _ IH]; [done|]. cbn. by rewrite set_system_id, IH. }
  assert (Hc : forall names, Forall shared_rule_file names -> collect_result f names = Ok (map raw names)).
  { induction 1 as [|name names Hn _ IH]; [done|]. cbn. rewrite (Hf name Hn). cbn. by rewrite IH. }
  by rewrite Hc.
Qed.

Lemma files_merged names acc :
  Forall shared_rule_file names ->
  merge_entries yaml_value fs (map (fun name => Some (join "rules" name)) names) acc = Ok (acc ++ concat (map members names)).
Proof.
  intros Hall. revert acc. induction Hall as [|name names [He (text & doc & Hr & Hd & Hm & _) _ _] _ IH]; intros acc; cbn.
  { by rewrite app_nil_r. }
  rewrite bool_decide_eq_true_2 by done. rewrite Hr. cbn. rewrite Hd. cbn. rewrite Hm, IH. by rewrite app_assoc.
Qed.

(** What the optimized crate reads from a member. *)
Lemma opt_member v r : read_raw v = Some r -> OptSchema.read_raw v = Some (opt_rule r).
Proof. intros Hr. rewrite read_raw_no_keys, Hr. done. Qed.

Lemma files_read_optimized names acc :
  Forall shared_rule_file names ->
  exists rs, read_rules yaml_value OptSchema.read_raw (fs_read fs) is_yaml
               (map (fun name => Some (join "rules" name)) names) acc = Ok (acc ++ rs) /\
    map fst rs = map opt_rule (concat (map raw names)).
Proof.
  intros Hall. revert acc. induction Hall as [|name names [He (text & doc & Hr & Hd & Hm & _) Hs _] _ IH]; intros acc; cbn.
  { exists []. by rewrite app_nil_r. }
  unfold is_yaml at 1. rewrite bool_decide_eq_true_2 by done. unfold file_rules. rewrite Hr. cbn. rewrite Hd. cbn. rewrite Hm.
  set (path := join "rules" name).
  match goal with |- context [collect_result ?f (members name)] =>
    assert (Hrs : collect_result f (members name) = Ok (map (fun r => (opt_rule r, path)) (raw name))) end.
  { clear -Hs. induction Hs as [|v r l m [_ Hv _ _ _ _ _ _] _ IH]; [done|]. cbn. rewrite (opt_member v r Hv). cbn. by rewrite IH. }
  rewrite Hrs. cbn. destruct (IH (acc ++ map (fun r => (opt_rule r, path)) (raw name))) as (rs & Hread & Hfst).
  exists (map (fun r => (opt_rule r, path)) (raw name) ++ rs). split; [by rewrite Hread, app_assoc|].
  rewrite !List.map_app, Hfst, List.map_map. done.
Qed.

Lemma files_shared names :
  Forall shared_rule_file names -> Forall2 common_rule (concat (map members names)) (concat (map raw names)).
Proof.
  induction 1 as [|name names [_ _ Hs _] _ IH]; [constructor|]. cbn. apply Forall2_app; [|exact IH].
  eapply Forall2_impl; [exact Hs|]. apply shared_is_common.
Qed.
End Files.

Lemma Ok_inj {E A} (x y : A) : @Ok E A x = Ok y -> x = y.
Proof. by intros [= ->]. Qed.

Lemma test_scenarios_plain : Forall plain_scenario test_scenarios.
Proof. repeat constructor; vm_compute; reflexivity. Qed.

(** C13: run on the rules that the formats share, the comparison program reports full
    agreement: when the directory holds the five rule files, in whatever order it is
    listed, each a document of shared system rules, with distinct priorities and none
    of them only logging, and the three engines load, then the accuracy summary counts
    every scenario for every pair and for all three. *)
Theorem comparison_reports_full_agreement `{UnicodeTables, RegexLib, HashOrder, IpNetLib, YamlLib, !YamlBuild, UnstableSort}
  {C} `{Format yaml C, !ContentLaws C, !DocumentViews, !ContentViews C}
  fs join parse_rule_file yaml_value pest_parse members raw entries now report :
  (forall src, pest_parse src = grammar_parse src) ->
  fs_read_dir fs "rules" = Some entries ->
  entries ≡ₚ map (fun name => Some (join "rules" name)) file_names ->
  Forall (shared_rule_file fs join parse_rule_file yaml_value members raw) file_names ->
  NoDup (map raw_priority (concat (map raw file_names))) ->
  Forall (fun r => raw_action r <> ActLog) (concat (map raw file_names)) ->
  main fs join parse_rule_file yaml_value OptSchema.read_raw pest_parse now = Ok report ->
  rp_accuracy report = mkAgreement 5 5 5 5 5.
Proof.
  intros Hpest Hdir Hentries Hall Hprio Hlog. unfold main, load_yaml_rules, RuleEngine.load_from_path.
  destruct (fs_exists fs "rules"); [|done]. cbn [negb].
  rewrite (system_files_read fs join parse_rule_file yaml_value members raw Hall). cbn [mbind result_mbind].
  destruct (RuleEngine.compile _) as [yset|] eqn:Hy; [|done].
  unfold load_optimized_rules, load_rete. rewrite Hdir. cbn [mbind result_mbind].
  destruct (OptRule.load_from_path _ _ _ _ _) as [oset|] eqn:Ho; [|done].
  destruct (load_rete_engine _ _ _ _) as [eng|] eqn:Heng; [|done].
  intros Hreport%Ok_inj. rewrite <-Hreport. cbn [rp_accuracy].
  apply Permutation_map_inv in Hentries as (names & -> & Hnames).
  assert (Hall' : Forall (shared_rule_file fs join parse_rule_file yaml_value members raw) names) by (by rewrite <-Hnames).
  destruct (files_read_optimized fs join parse_rule_file yaml_value members raw names [] Hall') as (orules & Hread & Hfst).
  assert (Hperm : concat (map raw file_names) ≡ₚ concat (map raw names)) by (by rewrite Hnames).
  assert (Hmerged : merged_rules yaml_value fs "rules" = Ok (concat (map members names))).
  { unfold merged_rules. rewrite Hdir. cbn [ok_or mbind result_mbind].
    by rewrite (files_merged fs join parse_rule_file yaml_value members raw). }
  assert (Hfile : shared_file (concat (map members names)) (concat (map raw names))).
  { split; [by eapply files_shared|by rewrite <-Hperm|by rewrite <-Hperm]. }
  pose proof (accuracy_is_full yaml_value pest_parse fs "rules" _ _ eng _ yset yaml_value OptSchema.read_raw (fs_read fs)
    is_yaml _ orules oset now test_scenarios Hpest Hmerged Hfile Heng Hperm Hy Hread
    ltac:(rewrite Hfst; reflexivity) Ho test_scenarios_plain) as Hacc.
  cbn zeta in Hacc. rewrite Hacc. reflexivity.
Qed.

(** * A directory of shared rules *)

Definition system_tree (r : RuleRaw ConditionNode) : ytree :=
  match rule_tree r with YtMap m => YtMap (m ++ [("source", YtStr "system")]) | v => v end.
Definition file_rules_of (name : string) : list (RuleRaw ConditionNode) :=
  map set_system
    (if String.eqb name "global.yaml" then take 1 deciding_rules
     else if String.eqb name "high.yaml" then drop 1 deciding_rules else []).
Definition slash (dir name : string) : string := dir +:+ "/" +:+ name.
(** The text of a file is its path, and stands for its document. *)
Definition directory_value (text : string) : option ytree :=
  name ← strip_prefix "rules/" text;
  Some (YtMap [("rules", YtSeq (map system_tree (file_rules_of name)))]).
Definition directory_parse (text : string) : option (list (RuleRaw ConditionNode)) :=
  directory_value text ≫= @read_file ytree ytree tree_document tree_content tree_format.
Definition directory_fs : FileSystem :=
  mkFs (fun _ => true) (fun _ => true)
    (fun _ => Some (map (fun name => Some (slash "rules" name)) (rev file_names))) Some.

Lemma directory_shared :
  Forall (@shared_rule_file tree_yaml ytree tree_document tree_content tree_format directory_fs slash directory_parse
            directory_value (fun name => map system_tree (file_rules_of name)) file_rules_of) file_names.
Proof.
  assert (Hrule : forall r, In r deciding_rules ->
    @shared_rule ytree tree_yaml tree_document tree_content tree_format (system_tree (set_system r)) (set_system r)).
  { intros r Hr. unfold deciding_rules, shared_rules in Hr. cbn [tail In] in Hr.
    repeat (destruct Hr as [<-|Hr];
      [split; [split; do 4 eexists; (split; [reflexivity|]); (split; [reflexivity|]); (split; [reflexivity|]);
                 split; [apply plain_cond_tree|reflexivity]
              |vm_compute; reflexivity|reflexivity|reflexivity|by split|reflexivity|reflexivity|cbn; lia]|]).
    done. }
  assert (Hall : forall l, (forall r, In r l -> In r deciding_rules) ->
    Forall2 (@shared_rule ytree tree_yaml tree_document tree_content tree_format)
      (map system_tree (map set_system l)) (map set_system l)).
  { induction l as [|r l IH]; intros Hl; [constructor|]. cbn. constructor; [apply Hrule, Hl; by left|].
    apply IH. intros x Hx. apply Hl. by right. }
  assert (Hin : forall name, Forall2 (@shared_rule ytree tree_yaml tree_document tree_content tree_format)
                  (map system_tree (file_rules_of name)) (file_rules_of name)).
  { intros name. unfold file_rules_of. apply Hall. intros r. destruct (String.eqb name "global.yaml");
      [|destruct (String.eqb name "high.yaml")]; cbn; intuition. }
  assert (Hsys : forall name, Forall (fun r => raw_source r = Some "system") (file_rules_of name)).
  { intros name. unfold file_rules_of. apply List.Forall_map, List.Forall_forall. by intros []. }
  unfold file_names.
  repeat (constructor; [split; [vm_compute; reflexivity| |apply Hin|apply Hsys];
    eexists _, _; (split; [reflexivity|]); (split; [reflexivity|]); split; vm_compute; reflexivity|]).
  constructor.
Qed.

Definition directory_main (now : Z) : result Exit Report :=
  @main plain_unicode literal_regex sorted_hash_order pair_ipnet tree_yaml tree_build insertion_sort
    directory_fs slash directory_parse directory_value
    (@OptSchema.read_raw ytree ytree tree_document tree_content tree_format) grammar_parse now.

(** The program ends with a report when its three loads succeed. *)
Lemma main_reports `{UnicodeTables, RegexLib, HashOrder, IpNetLib, YamlLib, !YamlBuild, UnstableSort}
  fs join parse_rule_file yaml_value from_value pest_parse now :
  is_ok (load_yaml_rules fs join parse_rule_file "rules") = true ->
  is_ok (load_optimized_rules fs yaml_value from_value "rules") = true ->
  is_ok (load_rete fs yaml_value pest_parse "rules") = true ->
  exists report, main fs join parse_rule_file yaml_value from_value pest_parse now = Ok report.
Proof.
  intros [y Hy]%is_ok_ok [o Ho]%is_ok_ok [e He]%is_ok_ok. unfold main. rewrite Hy, Ho, He. cbn [mbind result_mbind].
  by eexists.
Qed.

Lemma comparison_reports_full_agreement_witness :
  exists report, directory_main 0 = Ok report /\ rp_accuracy report = mkAgreement 5 5 5 5 5.
Proof.
  destruct (@main_reports plain_unicode literal_regex sorted_hash_order pair_ipnet tree_yaml tree_build insertion_sort
    directory_fs slash directory_parse directory_value
    (@OptSchema.read_raw ytree ytree tree_document tree_content tree_format) grammar_parse 0) as [report Hreport];
    [vm_compute; reflexivity..|].
  exists report. split; [exact Hreport|].
  apply (@comparison_reports_full_agreement plain_unicode literal_regex sorted_hash_order pair_ipnet tree_yaml tree_build
    insertion_sort ytree tree_document tree_content tree_format tree_content_laws tree_views tree_content_views
    directory_fs slash directory_parse directory_value grammar_parse (fun name => map system_tree (file_rules_of name))
    file_rules_of (map (fun name => Some (slash "rules" name)) (rev file_names)) 0 report (fun _ => eq_refl) eq_refl).
  - apply Permutation_map. symmetry. apply Permutation_rev.
  - exact directory_shared.
  - apply (bool_decide_unpack _). vm_compute. done.
  - repeat constructor; vm_compute; discriminate.
  - exact Hreport.
Defined.
