(* ===== verification/Bench.v ===== *)
(** The benchmark programs that imitate the engines: [bin/compare_engines_real.rs]
    reads the ids and priorities of the rule files with a line scanner and tests
    hard-wired conditions per id ([Real]); [bin/compare_engines.rs] tests fixed
    phrases ([Phrases]).  Times and printed texts are left out. *)
From S2P Require Import Prelude Utf8 RustStd Extern.
Local Open Scope Z_scope.

Module Real.

(** * Reading the rule files *)

Record Rule := mkRule {
  id : string; description : string; priority : Z; condition_type : string; action : string
}.

(** The rule that starts at a line [- id: ...]. *)
Definition id_mark : string := "- id:".
Definition new_rule (line : string) : Rule :=
  mkRule (trim_matches dquote (trim (default "" (strip_prefix id_mark line)))) "" 100 "" "".

Section Parse.
Context `{UnicodeTables}.

(** One line of the fields of a rule. *)
Definition read_field (r : Rule) (line : string) : Rule :=
  match strip_prefix "description:" line with
  | Some desc =>
    mkRule (id r) (trim_matches "'" (trim_matches dquote (trim desc))) (priority r) (condition_type r) (action r)
  | None =>
    match strip_prefix "priority:" line with
    | Some pri =>
      match parse_signed 32 (trim pri) with
      | Some p => mkRule (id r) (description r) p (condition_type r) (action r)
      | None => r
      end
    | None =>
      if contains line "condition:" then mkRule (id r) (description r) (priority r) "condition_tree" (action r)
      else match strip_prefix "action:" line with
      | Some act => mkRule (id r) (description r) (priority r) (condition_type r) (trim act)
      | None => r
      end
    end
  end.

(** Both loops, at the rule being read, if any. *)
Fixpoint parse_lines (current : option Rule) (l : list string) : list Rule :=
  match l with
  | [] => match current with Some r => [r] | None => [] end
  | raw :: l =>
    let line := trim raw in
    match current with
    | None => if starts_with line id_mark then parse_lines (Some (new_rule line)) l else parse_lines None l
    | Some r =>
      if is_empty line then parse_lines (Some r) l
      else if starts_with line id_mark then r :: parse_lines (Some (new_rule line)) l
      else parse_lines (Some (read_field r line)) l
    end
  end.
Definition parse_yaml_rules (yaml : string) : list Rule := parse_lines None (lines yaml).

Definition file_order : list string :=
  ["global.yaml"; "critical.yaml"; "high.yaml"; "medium.yaml"; "catch-all.yaml"].
(** A file that cannot be read is skipped. *)
Definition load_rules_from_directory (read_to_string : string -> option string) (join : string -> string -> string)
  (dir : string) : list Rule :=
  sort_by_key priority
    (flat_map (fun filename => match read_to_string (join dir filename) with
                               | Some content => parse_yaml_rules content
                               | None => []
                               end) file_order).

(** The counts of [print_rule_summary]. *)
Record Summary := mkSummary { global_count : nat; critical_count : nat; high_count : nat; medium_count : nat; catchall_count : nat }.
Definition count_rule (s : Summary) (rule : Rule) : Summary :=
  let '(mkSummary g c h m a) := s in
  if priority rule <? 10 then mkSummary (S g) c h m a
  else if priority rule <? 30 then mkSummary g (S c) h m a
  else if priority rule <? 40 then mkSummary g c (S h) m a
  else if priority rule <? 50 then mkSummary g c h (S m) a
  else mkSummary g c h m (S a).
Definition print_rule_summary (rules : list Rule) : Summary := foldl count_rule (mkSummary 0 0 0 0 0) rules.

(** * The two matchers *)

Definition naive_matches_rule (ip method path payload _ua : string) (rule : Rule) : bool :=
  let lower_has s := contains (to_lowercase payload) s in
  if String.eqb (id rule) "whitelist-monitoring" then String.eqb ip "10.0.1.0/24" || starts_with ip "10.0.1."
  else if String.eqb (id rule) "honeypot-admin-test" then String.eqb path "/admin-test"
  else if String.eqb (id rule) "sqli-global-001" then
    lower_has "union" && lower_has "select" || contains (to_lowercase path) "union"
  else if String.eqb (id rule) "xss-global-001" then contains payload "<script>" || contains payload "javascript:"
  else if String.eqb (id rule) "rate-login-ip" then String.eqb method "POST" && String.eqb path "/login"
  else if String.eqb (id rule) "rate-otp-ip" then String.eqb method "POST" && String.eqb path "/otp"
  else if String.eqb (id rule) "rate-deposit-ip" then String.eqb method "POST" && String.eqb path "/deposit"
  else if String.eqb (id rule) "sqli-high-001" then lower_has "union" || lower_has "sleep(" || lower_has "benchmark("
  else if String.eqb (id rule) "ssrf-high-001" then
    contains payload "localhost" || contains payload "127.0.0.1" || contains payload "169.254.169.254"
    || contains payload "metadata.google.internal"
  else if String.eqb (id rule) "rce-high-001" then lower_has "eval(" || lower_has "exec(" || lower_has "system("
  else false.

Definition rule_patterns (id : string) : list string :=
  if String.eqb id "sqli-global-001" then ["union"; "select"; "drop"; "insert"]
  else if String.eqb id "xss-global-001" then ["<script>"; "javascript:"]
  else if String.eqb id "sqli-high-001" then ["union"; "sleep("; "benchmark("]
  else if String.eqb id "ssrf-high-001" then ["localhost"; "127.0.0.1"; "169.254.169.254"; "metadata.google.internal"]
  else if String.eqb id "rce-high-001" then ["eval("; "exec("; "system("]
  else [].
Definition precompile_patterns (rules : list Rule) : gmap string (list string) :=
  foldl (fun cache rule => <[id rule := rule_patterns (id rule)]> cache) ∅ rules.

Definition optimized_matches_rule (ip method path payload _ua : string) (rule : Rule)
  (pattern_cache : gmap string (list string)) : bool :=
  match pattern_cache !! id rule with
  | Some patterns =>
    if existsb (contains (to_lowercase payload)) patterns then true
    else if String.eqb (id rule) "whitelist-monitoring" then starts_with ip "10.0.1."
    else if String.eqb (id rule) "honeypot-admin-test" then String.eqb path "/admin-test"
    else if String.eqb (id rule) "rate-login-ip" then String.eqb method "POST" && String.eqb path "/login"
    else if String.eqb (id rule) "rate-otp-ip" then String.eqb method "POST" && String.eqb path "/otp"
    else if String.eqb (id rule) "rate-deposit-ip" then String.eqb method "POST" && String.eqb path "/deposit"
    else false
  | None => false
  end.

(** * The rule reported for a scenario *)

Record Scenario := mkScenario {
  sc_name : string; sc_ip : string; sc_method : string; sc_path : string; sc_payload : string; sc_ua : string
}.
(** The scenarios of [main]. *)
Definition scenarios : list Scenario :=
  [mkScenario "clean-request" "192.168.1.1" "GET" "/api/users" "" "Mozilla/5.0";
   mkScenario "sqli-attack" "10.0.0.1" "POST" "/api/search" "q=admin' UNION SELECT password FROM users--" "Mozilla/5.0";
   mkScenario "xss-attack" "10.0.0.2" "POST" "/comment" "<script>alert('xss')</script>" "Mozilla/5.0";
   mkScenario "scanner-ua" "10.0.0.3" "GET" "/" "" "Nikto/2.1.6";
   mkScenario "path-traversal" "10.0.0.4" "GET" "/../../../etc/passwd" "" "Mozilla/5.0"].
Definition no_match : string := "(no match)".

(** Each iteration finds the same rule; without iterations there is none. *)
Definition report (iterations : nat) (matches : Rule -> bool) (rules : list Rule) : string :=
  default no_match (Nat.iter iterations (fun matched => match List.find matches rules with
                                                        | Some rule => Some (id rule)
                                                        | None => matched
                                                        end) None).
Definition benchmark_naive_engine (iterations : nat) (rules : list Rule) (scenarios : list Scenario) : gmap string string :=
  foldl (fun m '(mkScenario name ip method path payload ua) =>
           <[name := report iterations (naive_matches_rule ip method path payload ua) rules]> m) ∅ scenarios.
Definition benchmark_optimized_engine (iterations : nat) (rules : list Rule) (scenarios : list Scenario) : gmap string string :=
  let pattern_cache := precompile_patterns rules in
  foldl (fun m '(mkScenario name ip method path payload ua) =>
           <[name := report iterations (fun rule => optimized_matches_rule ip method path payload ua rule pattern_cache) rules]> m)
    ∅ scenarios.

(** ** Properties *)

Lemma precompiled rules rule : In rule rules -> precompile_patterns rules !! id rule = Some (rule_patterns (id rule)).
Proof.
  unfold precompile_patterns. assert (Hkeep : forall rules (acc : gmap string (list string)) i,
    acc !! i = Some (rule_patterns i) ->
    foldl (fun cache rule => <[id rule := rule_patterns (id rule)]> cache) acc rules !! i = Some (rule_patterns i)).
  { clear. induction rules as [|r rules IH]; intros acc i Hi; [done|]. cbn. apply IH.
    destruct (decide (id r = i)) as [->|Hne]; [apply lookup_insert_eq|by rewrite lookup_insert_ne]. }
  generalize (∅ : gmap string (list string)). induction rules as [|r rules IH]; intros acc; [by intros []|].
  cbn. intros [->|Hin]; [apply Hkeep, lookup_insert_eq|by apply IH].
Qed.

Lemma lower_contains payload s :
  is_ascii payload = true -> str_map to_ascii_lowercase s = s -> contains payload s = true ->
  contains (to_lowercase payload) s = true.
Proof. intros Ha Hs Hc. unfold to_lowercase. rewrite Ha, <-Hs. by apply contains_map. Qed.

(** On ASCII payloads the optimized matcher misses no rule that the naive one
    matches, but for a keyword in the path; it matches more, such as any payload with
    one of the words drop, insert and select. *)
Theorem optimized_covers_naive rules ip method path payload ua rule :
  In rule rules -> is_ascii payload = true -> naive_matches_rule ip method path payload ua rule = true ->
  optimized_matches_rule ip method path payload ua rule (precompile_patterns rules) = true \/
  id rule = "sqli-global-001" /\ contains (to_lowercase path) "union" = true.
Proof.
  intros Hin Ha Hn. unfold optimized_matches_rule. rewrite (precompiled rules rule Hin).
  destruct rule as [i desc prio cond act]. unfold naive_matches_rule, rule_patterns in *. cbn [id] in *. clear Hin.
  destruct (String.eqb_spec i "sqli-global-001") as [->|_].
  { apply orb_true_iff in Hn as [[Hu _]%andb_true_iff|Hp]; [left|by right]. cbn [existsb]. by rewrite Hu. }
  left. assert (Hany : forall s l, In s l -> contains (to_lowercase payload) s = true ->
          existsb (contains (to_lowercase payload)) l = true) by (intros s l Hs Hc; apply existsb_exists; by exists s).
  repeat match type of Hn with
  | (if (i =? ?name)%string then _ else _) = true => destruct (String.eqb_spec i name) as [->|_]; [idtac|]
  end; [..|done]; try exact Hn;
    [by apply orb_true_iff in Hn as [->%String.eqb_eq|Hn]|..];
    match goal with |- (if ?b then _ else _) = true => assert (b = true) as ->; [|done] end;
    repeat match goal with Hc : _ || _ = true |- _ => apply orb_true_iff in Hc as [Hc|Hc] end;
    match type of Hn with
    | contains payload ?s = true => apply (Hany s); [cbn; tauto|by apply lower_contains]
    | contains _ ?s = true => apply (Hany s); [cbn; tauto|exact Hn]
    end.
Qed.
End Parse.
End Real.

Module Phrases.

Section Evaluate.
Context `{UnicodeTables}.

Record NaiveContext := mkNaive { n_path : string; n_method : string; n_payload : string; n_ua : string }.

Definition scanner_uas : list string := ["Nikto"; "Sqlmap"; "Nmap"; "Burp"; "ZAP"].
Definition sqli_patterns : list string :=
  ["UNION"; "SELECT"; "INSERT"; "UPDATE"; "DELETE"; "DROP"; "CREATE"; "ALTER"; "EXEC"; "EXECUTE"; "SCRIPT"; "EVAL"].
Definition naive_evaluate (ctx : NaiveContext) : bool :=
  if String.eqb (n_method ctx) "POST" && String.eqb (n_path ctx) "/api/search"
     && contains (to_uppercase (n_payload ctx)) "UNION SELECT" then true
  else if contains (n_payload ctx) "<script>" || contains (n_payload ctx) "javascript:" then true
  else if existsb (fun scanner => contains (to_lowercase (n_ua ctx)) (to_lowercase scanner)) scanner_uas then true
  else if contains (n_path ctx) "../" || contains (n_path ctx) "..\" then true
  else existsb (contains (to_uppercase (n_payload ctx))) sqli_patterns.

Record ReteContext := mkRete { r_path : string; r_method : string; r_payload : string; r_ua : string }.

Definition sqli_automata : list string :=
  ["UNION SELECT"; "INSERT INTO"; "UPDATE SET"; "DELETE FROM"; "DROP TABLE"; "EXEC "; "EXECUTE "; "SCRIPT"].
Definition xss_automata : list string := ["<SCRIPT>"; "JAVASCRIPT:"; "ONERROR="; "ONLOAD="].
Definition scanner_set : list string := ["NIKTO"; "SQLMAP"; "NMAP"; "BURP"; "ZAP"].
Definition rete_evaluate (ctx : ReteContext) : bool :=
  let payload_upper := to_uppercase (from_utf8_lossy (r_payload ctx)) in
  if existsb (contains payload_upper) sqli_automata then true
  else if existsb (contains payload_upper) xss_automata then true
  else if existsb (contains (to_uppercase (r_ua ctx))) scanner_set then true
  else contains (r_path ctx) "../" || contains (r_path ctx) "..\".

(** The requests of the two benchmarks. *)
Definition naive_contexts : list (string * NaiveContext) :=
  [("clean-request", mkNaive "/api/users" "GET" "" "Mozilla/5.0");
   ("sqli-attack", mkNaive "/api/search" "POST" "q=1' UNION SELECT * FROM users--" "Mozilla/5.0");
   ("xss-attack", mkNaive "/comment" "POST" "<script>alert(document.cookie)</script>" "Mozilla/5.0");
   ("scanner-ua", mkNaive "/" "GET" "" "Nikto/2.1.6");
   ("path-traversal", mkNaive "/../../../etc/passwd" "GET" "" "Mozilla/5.0")].
Definition rete_contexts : list (string * ReteContext) :=
  [("clean-request", mkRete "/api/users" "GET" "" "Mozilla/5.0");
   ("sqli-attack", mkRete "/api/search" "POST" "q=1' UNION SELECT * FROM users--" "Mozilla/5.0");
   ("xss-attack", mkRete "/comment" "POST" "<script>alert(document.cookie)</script>" "Mozilla/5.0");
   ("scanner-ua", mkRete "/" "GET" "" "Nikto/2.1.6");
   ("path-traversal", mkRete "/../../../etc/passwd" "GET" "" "Mozilla/5.0")].

Lemma lower_upper a : to_ascii_lowercase (to_ascii_uppercase a) = to_ascii_lowercase a.
Proof.
  unfold to_ascii_lowercase, to_ascii_uppercase, is_ascii_uppercase, is_ascii_lowercase.
  pose proof (byte_val_range a). apply byte_val_inj.
  destruct ((97 <=? byte_val a) && (byte_val a <=? 122)) eqn:Hl; [|done]. rewrite !byte_val_of by lia.
  repeat split_if; rewrite ?byte_val_of by lia; lia.
Qed.
Lemma str_lower_upper s : str_map to_ascii_lowercase (str_map to_ascii_uppercase s) = str_map to_ascii_lowercase s.
Proof. induction s as [|a s IH]; [done|]. cbn. by rewrite lower_upper, IH. Qed.

(** On an ASCII request, what the imitation of the network engine reports is reported
    by the naive evaluation too, but for two event handlers it does not know. *)
Theorem naive_covers_rete p m payload ua :
  is_ascii payload = true -> is_ascii ua = true ->
  rete_evaluate (mkRete p m payload ua) = true ->
  naive_evaluate (mkNaive p m payload ua) = true \/
  contains (to_uppercase payload) "ONERROR=" = true \/ contains (to_uppercase payload) "ONLOAD=" = true.
Proof.
  intros Hp Hua. unfold rete_evaluate, naive_evaluate. cbn [r_path r_payload r_ua n_path n_method n_payload n_ua].
  rewrite lossy_ascii by done. set (upper := to_uppercase payload).
  assert (Hword : forall s w, contains upper s = true -> contains s w = true -> In w sqli_patterns ->
            existsb (contains upper) sqli_patterns = true).
  { intros s w Hs Hw Hin. apply existsb_exists. exists w. split; [done|]. by eapply contains_trans. }
  assert (Hscan : existsb (contains (to_uppercase ua)) scanner_set = true ->
            existsb (fun scanner => contains (to_lowercase ua) (to_lowercase scanner)) scanner_uas = true).
  { assert (Hup : forall s, contains (to_uppercase ua) s = true -> contains (to_lowercase ua) (str_map to_ascii_lowercase s) = true).
    { intros s Hs. unfold to_lowercase, to_uppercase in *. rewrite Hua in *. rewrite <-str_lower_upper. by apply contains_map. }
    intros (s & Hs & Hc%Hup)%existsb_exists. apply existsb_exists.
    destruct Hs as [<-|[<-|[<-|[<-|[<-|[]]]]]];
      [exists "Nikto"|exists "Sqlmap"|exists "Nmap"|exists "Burp"|exists "ZAP"]; split; try exact Hc; cbn; tauto. }
  destruct (_ && _); [intros; by left|].
  destruct (contains payload "<script>" || contains payload "javascript:"); [intros; by left|].
  destruct (existsb _ scanner_uas); [intros; by left|].
  destruct (contains p "../" || contains p "..\"); [intros; by left|].
  destruct (existsb _ sqli_automata) eqn:Hsql.
  { intros _. left. apply existsb_exists in Hsql as (s & Hs & Hc).
    destruct Hs as [<-|[<-|[<-|[<-|[<-|[<-|[<-|[<-|[]]]]]]]]];
      [apply (Hword _ "UNION" Hc)|apply (Hword _ "INSERT" Hc)|apply (Hword _ "UPDATE" Hc)|apply (Hword _ "DELETE" Hc)
      |apply (Hword _ "DROP" Hc)|apply (Hword _ "EXEC" Hc)|apply (Hword _ "EXECUTE" Hc)|apply (Hword _ "SCRIPT" Hc)];
      try reflexivity; cbn; tauto. }
  destruct (existsb _ xss_automata) eqn:Hxss.
  { intros _. apply existsb_exists in Hxss as (s & Hs & Hc). destruct Hs as [<-|[<-|[<-|[<-|[]]]]]; [left..|by right; left|by right; right].
    - by apply (Hword _ "SCRIPT" Hc); [|cbn; tauto].
    - by apply (Hword _ "SCRIPT" Hc); [|cbn; tauto]. }
  destruct (existsb _ scanner_set); [by discriminate Hscan|done].
Qed.
End Evaluate.

(** Both evaluations report every attack of the benchmark and pass the clean request. *)
Example benchmark_requests_classified :
  map (fun c => @naive_evaluate plain_unicode (snd c)) naive_contexts = [false; true; true; true; true] /\
  map (fun c => @rete_evaluate plain_unicode (snd c)) rete_contexts = [false; true; true; true; true].
Proof. split; vm_compute; reflexivity. Qed.
End Phrases.
