(* ===== verification/Demo.v ===== *)
(** The demonstration of the engine ([bin/engine_demo.rs]): it loads the GRL rules,
    installs the plugins, fires the engine on one request, and again after the
    network is swapped for an empty one. *)
From S2P Require Import Prelude Utf8 RustStd Net Extern Float64 WafTypes Ast Functions Printer WorkingMemory Rete Engine CrsTypes CrsTx CrsTransform CrsTarget CrsOperator CrsParser CrsEval Lists Geo.
From S2P Require Import GrlParser Converter Matcher Loader App.
Local Open Scope Z_scope.

Section Demo.
Context `{UnicodeTables, RegexLib, AhoCorasickLib, IpNetLib, HashOrder, !RegexReplaceLib, ModSecLib, GeoDbLib, YamlLib}.
Variable yaml_value : string -> option yaml.
Variable pest_parse : string -> option (list Pair).

Definition demo_rules_dir : string := "config/rules".
Definition demo_crs_dir : option string := Some "config/rules/crs".

(** The engine of the demonstration. *)
Definition demo_engine (fs : FileSystem) : result RulesError Engine :=
  grl_rules ← load_grl_from_dir yaml_value pest_parse fs demo_rules_dir;
  let net := compile grl_rules in
  let engine := Engine_new net in
  let engine := install (BlacklistPlugin IpListStore_new) engine in
  let engine := match demo_crs_dir with
                | Some dir =>
                  match load_crs fs dir (path_join demo_rules_dir "data") with
                  | Ok rs => install (CrsPlugin rs) engine
                  | Err _ => engine
                  end
                | None => engine
                end in
  Ok (install (GeoPlugin (GeoPlugin_new None [] [])) engine).

(** The request of the demonstration; names of headers are lowercased. *)
Definition raw_headers : list (string * string) :=
  [("host", "127.0.0.1:8111");
   ("user-agent", "Mozilla/5.0 (Macintosh; Intel Mac OS X 10_15_7) AppleWebKit/537.36");
   ("accept", "text/html,application/xhtml+xml,application/xml;q=0.9,*/*;q=0.8");
   ("accept-language", "en-US,en;q=0.5");
   ("connection", "keep-alive")].
Definition demo_context (request_id : string) (now : Z) : RequestContext :=
  let headers := foldl (fun h '(name, value) => <[to_lowercase name := value]> h) (∅ : gmap string string) raw_headers in
  mkContext request_id now (to_uppercase "GET") "/health" None CatchAll "127.0.0.1" (headers !! "x-forwarded-for")
    headers None None None (mkRiskScore 0) None ∅.

(** [engine.network = Network::default()] *)
Definition with_network (net : Network) (eng : Engine) : Engine := mkEngine net (engine_registry eng) (plugins eng).
Definition run_demo (hot_reload : bool) (engine : Engine) (ctx : RequestContext) : list (string * Outcome) :=
  let ctx := enrich engine ctx in
  if hot_reload then
    [("Pass 1 — full rule set  (before reload)", fire engine ctx);
     ("Pass 2 — empty rule set (after  reload)", fire (with_network Network_new engine) ctx)]
  else [("(single fire)", fire engine ctx)].

(** The decision that is printed. *)
Inductive Shown : Type := ShownBlock (reason : string) | ShownAllow | ShownChallenge | ShownRateLimit (secs : Z) | ShownPass.
Definition shown (outcome : Outcome) : Shown :=
  match block_reason outcome with
  | Some reason => ShownBlock reason
  | None =>
    if allow outcome then ShownAllow
    else match challenge outcome with
    | Some _ => ShownChallenge
    | None => match rate_limit_secs outcome with Some secs => ShownRateLimit secs | None => ShownPass end
    end
  end.

(** * What the demonstration shows *)

Definition shows (s : Shown) (d : Decision) : Prop :=
  match s with
  | ShownBlock reason => d = Block reason
  | ShownAllow | ShownPass => d = Allow
  | ShownChallenge => exists c, d = Challenge c
  | ShownRateLimit secs => d = RateLimit secs
  end.

(** The printed decision is the one the pipeline takes, unless a rule allows the
    request after another has asked for a challenge or a rate limit: then ALLOW is
    printed, and the pipeline still challenges or limits. *)
Theorem shown_is_decision o :
  shows (shown o) (outcome_to_decision o) <->
  ~ (block_reason o = None /\ allow o = true /\ (is_Some (challenge o) \/ is_Some (rate_limit_secs o))).
Proof.
  unfold shown, outcome_to_decision. destruct (block_reason o) as [r|]; [split; [by intros _ []|done]|].
  destruct (allow o).
  - destruct (challenge o) as [c|]; [split; [by destruct c|]|].
    + intros Hn. exfalso. apply Hn. split; [done|]. split; [done|]. left. by exists c.
    + destruct (rate_limit_secs o) as [s|]; split; [done| |intros _ (_ & _ & [[? ?]|[? ?]]); done|done].
      intros Hn. exfalso. apply Hn. split; [done|]. split; [done|]. right. by exists s.
  - split; [by intros _ (_ & ? & _)|]. intros _. destruct (challenge o) as [[]|]; cbn; [by eexists..|].
    by destruct (rate_limit_secs o).
Qed.

(** The second pass fires nothing, on the same functions and plugins. *)
Theorem second_pass_is_empty engine ctx label o :
  nth_error (run_demo true engine ctx) 1 = Some (label, o) -> o = Outcome_default /\ shown o = ShownPass.
Proof. intros [= _ <-]. done. Qed.
End Demo.
