(* ===== verification/LegacyRule.v ===== *)
(** The rule engine at the top level of the repository ([src/rule]): the schema and
    the compiler of [crates/rule], with header maps and globs of third-party crates
    in the conditions and an evaluator whose rule set can be replaced. *)
From S2P Require Import Prelude Utf8 RustStd Net Extern WafTypes RuleTypes RuleEngine.
Local Open Scope Z_scope.

(** The crates [http] and [globset], and the tier names of a module that is not in
    the repository. *)
Class LegacyLib := {
  HeaderMap : Type;
  HeaderValue : Type;
  (** [headers.get(name)], the value's [to_str().ok()] *)
  header_get : HeaderMap -> string -> option HeaderValue;
  header_to_str : HeaderValue -> option string;
  GlobMatcher : Type;
  (** [GlobBuilder::new(p).case_insensitive(ci).build()] and its matcher *)
  glob_build : string -> bool -> option GlobMatcher;
  glob_is_match : GlobMatcher -> string -> bool;
  (** [Glob::new(p)] is a builder with the default options. *)
  glob_new : string -> option GlobMatcher;
  glob_new_build : forall p, glob_new p = glob_build p false;
  TierName : Type;
  config_key : TierName -> string
}.

Section Types.
Context `{LegacyLib}.

Record RequestContext := mkRequestContext {
  ip : string;
  path : string;
  method : string;
  headers : HeaderMap;
  payload : string;
  cookies : gmap string string;
  ctx_tier : TierName;
  session_id : string;
  device_fp : string;
  content_type : option string
}.
End Types.

(** What [mod.rs] repeats of [crates/rule/src/lib.rs]: errors, the result of an
    evaluation, and the test of an address. *)
Definition RuleError : Type := RuleEngine.RuleError.
Definition RuleMatch : Type := RuleTypes.RuleMatch.
Definition cidr_contains : string -> string -> bool := RuleEngine.cidr_contains.

(** * The evaluation loop *)

(** The loop of [RuleEvaluator::evaluate], over the test of a rule's tier and the
    evaluation of its condition. *)
Section Loop.
Context {C : Type} (tier_ok : Rule C -> bool) (holds : C -> bool) (skip_rules : list string).

Fixpoint evaluate_loop (rules : list (Rule C)) : option RuleMatch :=
  match rules with
  | [] => None
  | rule :: rules =>
    if negb (enabled rule) then evaluate_loop rules
    else if bool_decide (id rule ∈ skip_rules) then evaluate_loop rules
    else if negb (tier_ok rule) then evaluate_loop rules
    else if holds (condition rule) then
      if bool_decide (action rule = ActLog) then evaluate_loop rules
      else Some (rule_match rule)
    else evaluate_loop rules
  end.

(** The rules that end the loop. *)
Definition decides (r : Rule C) : bool :=
  enabled r && negb (bool_decide (id r ∈ skip_rules)) && tier_ok r
  && holds (condition r) && negb (bool_decide (action r = ActLog)).

Lemma evaluate_loop_find rules : evaluate_loop rules = rule_match <$> List.find decides rules.
Proof.
  induction rules as [|r rules IH]; [done|]. cbn [evaluate_loop List.find]. unfold decides at 1.
  destruct (enabled r), (bool_decide (id r ∈ skip_rules)), (tier_ok r), (holds (condition r)),
    (bool_decide (action r = ActLog)); done.
Qed.
End Loop.

(** * Conditions *)

Section Evaluator.
Context `{UnicodeTables, RegexLib, LegacyLib}.

(** [glob_match] of [mod.rs]. *)
Definition glob_match (pattern path : string) : bool :=
  match glob_new pattern with Some g => glob_is_match g path | None => false end.

Definition match_value (subject : string) (leaf : ConditionLeaf) : bool :=
  match match_type leaf with
  | MExact =>
    if case_sensitive leaf then bool_decide (subject = value leaf)
    else eq_ignore_ascii_case subject (value leaf)
  | MWildcard =>
    match glob_build (value leaf) (negb (case_sensitive leaf)) with
    | Some g => glob_is_match g subject
    | None => false
    end
  | MRegex =>
    let pattern :=
      if negb (case_sensitive leaf) && negb (starts_with (value leaf) "(?i)")
      then "(?i)" +:+ value leaf else value leaf in
    regex_match pattern subject
  | MCidr => cidr_contains (value leaf) subject
  | MPresence => negb (is_empty subject)
  | MAbsence => is_empty subject
  end.

(** The text that [header_name] and [cookie_name] leaves are tested on. *)
Definition header_text (leaf : ConditionLeaf) (ctx : RequestContext) : string :=
  default "" (header_get (headers ctx) (default "" (header_name leaf)) ≫= header_to_str).
Definition cookie_text (leaf : ConditionLeaf) (ctx : RequestContext) : string :=
  default "" (cookies ctx !! default "" (cookie_name leaf)).

(** The leaf, over the test of a text. *)
Definition eval_leaf_with (match_value : string -> bool) (leaf : ConditionLeaf) (ctx : RequestContext) : bool :=
  let result :=
    match field leaf with
    | FIp => match_value (ip ctx)
    | FPath => match_value (path ctx)
    | FMethod => match_value (method ctx)
    | FSessionId => match_value (session_id ctx)
    | FDeviceFp => match_value (device_fp ctx)
    | FContentType => match_value (default "" (content_type ctx))
    | FHeader =>
      match match_type leaf with
      | MPresence => negb (is_empty (header_text leaf ctx))
      | MAbsence => is_empty (header_text leaf ctx)
      | _ => match_value (header_text leaf ctx)
      end
    | FCookie =>
      match match_type leaf with
      | MPresence => negb (is_empty (cookie_text leaf ctx))
      | MAbsence => is_empty (cookie_text leaf ctx)
      | _ => match_value (cookie_text leaf ctx)
      end
    | FPayload =>
      let body_str := default "" (from_utf8 (payload ctx)) in
      match match_type leaf with
      | MPresence => negb (is_empty (payload ctx))
      | MAbsence => is_empty (payload ctx)
      | _ => match_value body_str
      end
    end in
  if negate leaf then negb result else result.

Definition eval_leaf (leaf : ConditionLeaf) (ctx : RequestContext) : bool :=
  eval_leaf_with (fun subject => match_value subject leaf) leaf ctx.

Definition eval_node (node : ConditionNode) (ctx : RequestContext) : bool :=
  cond_eval (fun leaf => eval_leaf leaf ctx) node.

(** * The evaluator *)

Definition tier_applies {C} (ctx : RequestContext) (r : Rule C) : bool :=
  match tier r with
  | None => true
  | Some t =>
    let tier_lower := to_lowercase t in
    negb (negb (bool_decide (tier_lower = "global")) &&
          negb (bool_decide (tier_lower = to_lowercase (config_key (ctx_tier ctx)))))
  end.

Definition RuleSet : Type := list (Rule ConditionNode).

(** Every rule: the evaluator filters. *)
Definition rules_for_context (ruleset : RuleSet) (_ctx : RequestContext) : list (Rule ConditionNode) := ruleset.

(** [RuleEvaluator]: the rule set in its [ArcSwap]. *)
Record RuleEvaluator := mkEvaluator { ruleset : RuleSet }.

Definition update_ruleset (new_ruleset : RuleSet) (_ : RuleEvaluator) : RuleEvaluator :=
  mkEvaluator new_ruleset.

Definition evaluate (ev : RuleEvaluator) (ctx : RequestContext) (skip_rules : list string) : option RuleMatch :=
  evaluate_loop (tier_applies ctx) (fun node => eval_node node ctx) skip_rules (rules_for_context (ruleset ev) ctx).
End Evaluator.

(** * Loading *)

Section Loader.
Context `{RegexLib, UnstableSort}.

Definition check_leaf_regex (rule_id : string) (leaf : ConditionLeaf) : result RuleError unit :=
  if bool_decide (match_type leaf = MRegex) then
    match regex_new (value leaf) with Some _ => Ok tt | None => Err (RegexError rule_id) end
  else Ok tt.
Definition validate_condition_regexes (rule_id : string) (node : ConditionNode) : result RuleError unit :=
  cond_check (check_leaf_regex rule_id) node.

(** The loop of [compile]: the ids seen and the rules built so far. *)
Fixpoint compile_rules (seen_ids : gset string) (rules : list (Rule ConditionNode))
  (raw : list (RuleRaw ConditionNode)) : result RuleError (list (Rule ConditionNode)) :=
  match raw with
  | [] => Ok rules
  | r :: raw =>
    if bool_decide (raw_id r ∈ seen_ids) then Err (DuplicateId (raw_id r))
    else
      let seen_ids := {[raw_id r]} ∪ seen_ids in
      if (raw_risk_score_delta r <? -100) || (100 <? raw_risk_score_delta r) then
        Err (ValidationError (raw_id r)
               ("risk_score_delta " +:+ print_int (raw_risk_score_delta r) +:+ " out of range [-100, 100]"))
      else if raw_priority r =? 0 then Err (ValidationError (raw_id r) "priority must be >= 1")
      else
        _ ← validate_condition_regexes (raw_id r) (raw_condition r);
        compile_rules seen_ids
          (rules ++ [mkRule (raw_id r) (default "system" (raw_source r)) (raw_description r) (raw_enabled r)
                       (raw_priority r) (raw_condition r) (raw_action r) (raw_risk_score_delta r) (raw_response r)
                       (raw_rate_limit r) (raw_challenge r) (raw_tier r)]) raw
  end.
Definition compile (raw : list (RuleRaw ConditionNode)) : result RuleError RuleSet :=
  rules ← compile_rules ∅ [] raw;
  Ok (sort_unstable priority rules).

(** The text of these two is that of [crates/rule]. *)
Definition load_from_path (read_to_string : string -> option string)
  (join : string -> string -> string)
  (parse_rule_file : string -> option (list (RuleRaw ConditionNode)))
  (base : string) : result RuleError RuleSet :=
  raw ← load_system_files read_to_string join parse_rule_file base;
  compile raw.

Definition load_from_dir (fs : FileSystem)
  (parse_rule_file : string -> option (list (RuleRaw ConditionNode))) (dir : string)
  : result RuleError (list (RuleRaw ConditionNode)) :=
  RuleEngine.load_from_dir fs parse_rule_file dir.

(** The loop makes the checks of [crates/rule] in the same order. *)
Lemma compile_rules_checks seen rules raw :
  compile_rules seen rules raw =
  (_ ← validate_rules RuleEngine.validate_condition_regexes seen raw; Ok (rules ++ map build_rule raw)).
Proof.
  revert seen rules. induction raw as [|r raw IH]; intros seen rules; cbn [compile_rules validate_rules map].
  { by rewrite app_nil_r. }
  unfold check_rule. destruct (bool_decide _); [done|]. destruct (_ || _); [done|]. destruct (_ =? 0); [done|].
  change (validate_condition_regexes (raw_id r) (raw_condition r))
    with (RuleEngine.validate_condition_regexes (raw_id r) (raw_condition r)).
  destruct (RuleEngine.validate_condition_regexes _ _); [|done]. cbn [mbind result_mbind].
  rewrite IH. destruct (validate_rules _ _ raw); [|done]. cbn [mbind result_mbind]. by rewrite <- app_assoc.
Qed.

Lemma legacy_compile_ok raw rs :
  compile raw = Ok rs <->
  rs = sort_unstable priority (map build_rule raw) /\ NoDup (map raw_id raw) /\ Forall rule_ok raw.
Proof.
  rewrite <- RuleEngine.compile_ok. unfold compile, RuleEngine.compile. by rewrite compile_rules_checks, compile_loop_validate.
Qed.
End Loader.

(** * Agreement with [crates/rule] *)

Section Port.
Context `{UnicodeTables, RegexLib, LegacyLib}.

(** A request as the two engines see it.  The header maps answer alike for the
    names that the rules ask for. *)
Record same_request (names : list string) (c : RequestContext) (c' : RuleEngine.RequestContext) : Prop := {
  same_ip : ip c = RuleEngine.ip c';
  same_path : path c = RuleEngine.path c';
  same_method : method c = RuleEngine.method c';
  same_payload : payload c = RuleEngine.payload c';
  same_cookies : cookies c = RuleEngine.cookies c';
  same_session : session_id c = RuleEngine.session_id c';
  same_device : device_fp c = RuleEngine.device_fp c';
  same_content : content_type c = RuleEngine.content_type c';
  same_tier : to_lowercase (config_key (ctx_tier c)) = to_lowercase (tier_debug (RuleEngine.ctx_tier c'));
  same_headers : forall name, In name names ->
    default "" (header_get (headers c) name ≫= header_to_str) = default "" (RuleEngine.headers c' !! name)
}.

(** The names that the leaves of a rule ask for. *)
Definition header_names (node : ConditionNode) : list string :=
  map (fun leaf => default "" (header_name leaf)) (leaves node).
Definition no_wildcard (node : ConditionNode) : Prop :=
  Forall (fun leaf => match_type leaf <> MWildcard) (leaves node).

Lemma eval_leaf_port names c c' leaf :
  same_request names c c' -> match_type leaf <> MWildcard -> In (default "" (header_name leaf)) names ->
  eval_leaf leaf c = RuleEngine.eval_leaf leaf c'.
Proof.
  intros [] Hw Hn.
  assert (Hv : forall s, match_value s leaf = RuleEngine.match_value s leaf).
  { intros s. unfold match_value, RuleEngine.match_value, regex_pattern.
    by destruct (match_type leaf). }
  unfold eval_leaf, eval_leaf_with, RuleEngine.eval_leaf, header_text, cookie_text.
  rewrite same_headers0, same_cookies0, same_payload0, same_ip0, same_path0, same_method0, same_session0,
    same_device0, same_content0 by done.
  by rewrite !Hv.
Qed.

Lemma eval_node_port c c' node :
  same_request (header_names node) c c' -> no_wildcard node -> eval_node node c = RuleEngine.eval_node node c'.
Proof.
  intros Hc Hw. unfold eval_node, RuleEngine.eval_node.
  rewrite <-(cond_map_id node) at 1. apply cond_eval_map, List.Forall_forall. intros leaf Hl.
  eapply eval_leaf_port; [exact Hc| |by apply (List.in_map (fun leaf => default "" (header_name leaf)))].
  unfold no_wildcard in Hw. rewrite List.Forall_forall in Hw. by apply Hw.
Qed.

Lemma decides_port names c c' skip r :
  same_request names c c' -> incl (header_names (condition r)) names -> no_wildcard (condition r) ->
  decides (tier_applies c) (fun node => eval_node node c) skip r = RuleEngine.decides c' skip r.
Proof.
  intros Hc Hn Hw. unfold decides, RuleEngine.decides, tier_applies, RuleEngine.tier_applies.
  rewrite (same_tier _ _ _ Hc), (eval_node_port c c') by (done || (destruct Hc; split; auto)). done.
Qed.
End Port.

(** * The decisive rule *)

(** The outcome names a rule of least priority among those that decide. *)
Definition least_decider (D : RuleRaw ConditionNode -> bool) (raw : list (RuleRaw ConditionNode))
  (o : option RuleMatch) : Prop :=
  match o with
  | Some m => exists r, In r raw /\ D r = true /\ m = rule_match (build_rule r) /\
                forall r', In r' raw -> D r' = true -> raw_priority r <= raw_priority r'
  | None => forall r, In r raw -> D r = false
  end.

Lemma find_least_decider `{UnstableSort} (D : Rule ConditionNode -> bool) raw :
  least_decider (fun r => D (build_rule r)) raw (rule_match <$> List.find D (sort_unstable priority (map build_rule raw))).
Proof.
  pose proof (find_least priority D _ (map build_rule raw)
    (sort_unstable_sorted priority _) (sort_unstable_perm priority _)) as Hf.
  destruct (List.find D _) as [x|]; cbn.
  - destruct Hf as ((r & <- & Hr)%in_map_iff & Hd & Hmin). exists r. repeat (split; [done|]).
    intros r' Hr' Hd'. apply (Hmin (build_rule r')); [by apply in_map|done].
  - intros r Hr. by apply Hf, in_map.
Qed.

(** Two such outcomes name rules of one priority. *)
Definition equally_decided (raw : list (RuleRaw ConditionNode)) (o o' : option RuleMatch) : Prop :=
  match o, o' with
  | None, None => True
  | Some m, Some m' => exists r r', In r raw /\ In r' raw /\ raw_priority r = raw_priority r' /\
                         m = rule_match (build_rule r) /\ m' = rule_match (build_rule r')
  | _, _ => False
  end.

Lemma least_deciders_agree D raw o o' :
  least_decider D raw o -> least_decider D raw o' ->
  equally_decided raw o o' /\ (NoDup (map raw_priority raw) -> o = o').
Proof.
  destruct o as [m|], o' as [m'|]; cbn; [|intros (r & Hr & Hd & _) Hn; by rewrite Hn in Hd
    |intros Hn (r & Hr & Hd & _); by rewrite Hn in Hd|done].
  intros (r & Hr & Hd & -> & Hm) (r' & Hr' & Hd' & -> & Hm').
  assert (Heq : raw_priority r = raw_priority r') by (pose proof (Hm r' Hr' Hd'); pose proof (Hm' r Hr Hd); lia).
  split; [by exists r, r'|]. intros Hnd. do 2 f_equal.
  apply list_elem_of_In, list_elem_of_lookup in Hr as [i Hi]. apply list_elem_of_In, list_elem_of_lookup in Hr' as [j Hj].
  assert (i = j) as ->; [|congruence].
  apply (NoDup_lookup (map raw_priority raw) i j (raw_priority r) Hnd); rewrite list_lookup_fmap.
  - by rewrite Hi.
  - by rewrite Hj, Heq.
Qed.

Definition raw_decides `{UnicodeTables, RegexLib, LegacyLib} (ctx : RequestContext) (skip : list string)
  (r : RuleRaw ConditionNode) : bool :=
  decides (tier_applies ctx) (fun node => eval_node node ctx) skip (build_rule r).

Lemma legacy_least `{UnicodeTables, RegexLib, UnstableSort, LegacyLib} raw rs ctx skip :
  compile raw = Ok rs -> least_decider (raw_decides ctx skip) raw (evaluate (mkEvaluator rs) ctx skip).
Proof. intros (-> & _)%legacy_compile_ok. unfold evaluate. rewrite evaluate_loop_find. apply find_least_decider. Qed.


(** * A sample *)

(** Headers as association lists with lowercase names, globs as literal texts. *)
Definition sample_legacy : LegacyLib := {|
  HeaderMap := list (string * string);
  HeaderValue := string;
  header_get h name := snd <$> List.find (fun kv => eq_ignore_ascii_case kv.1 name) h;
  header_to_str v := if is_ascii v then Some v else None;
  GlobMatcher := string * bool;
  glob_build p ci := Some (p, ci);
  glob_is_match g s := if g.2 then eq_ignore_ascii_case g.1 s else String.eqb g.1 s;
  glob_new p := Some (p, false);
  glob_new_build p := eq_refl;
  TierName := Tier;
  config_key := tier_debug
|}.

Section Sample.
Local Existing Instances plain_unicode literal_regex sample_legacy.
Local Instance legacy_sort : UnstableSort := insertion_sort.

Definition sample_header_leaf (name pattern : string) : ConditionLeaf :=
  mkLeaf FHeader MRegex pattern (Some name) None true false.
Definition legacy_rules : list (RuleRaw ConditionNode) :=
  [sample_raw "agent" 20 (CLeaf (sample_header_leaf "User-Agent" "sqlmap")) ActBlock;
   sample_raw "probe" 10 (CAnd [CLeaf (sample_leaf FMethod MExact "trace");
                                CLeaf (sample_header_leaf "User-Agent" "curl")]) ActChallenge].
Definition legacy_ctx : RequestContext :=
  mkRequestContext "10.0.0.1" "/" "GET" [("user-agent", "sqlmap/1.7")] "" ∅ CatchAll "" "" None.
Definition crate_ctx : RuleEngine.RequestContext :=
  RuleEngine.mkRequestContext "10.0.0.1" "/" "GET" {["User-Agent" := "sqlmap/1.7"]} "" ∅ CatchAll "" "" None.

(** Two sorts that put rules of one priority in different orders. *)
Program Definition other_sort : UnstableSort := {| sort_unstable A key l := sort_by_key key (rev l) |}.
Next Obligation. intros A key l. rewrite sort_by_key_perm. symmetry. apply Permutation_rev. Qed.
Next Obligation. intros A key l. apply sort_by_key_sorted. Qed.

End Sample.
