(* ===== verification/LegacyOpt.v ===== *)
(** The optimized rule engine at the top level of the repository
    ([src/optimized_rule]): the engine of [src/rule] with a cache of compiled regexes.
    The loader numbers the patterns in the order it meets them and writes the number
    into the leaves; the evaluator looks the regex up by that key. *)
From S2P Require Import Prelude Utf8 RustStd Net Extern WafTypes RuleTypes RuleEngine LegacyRule.
Local Open Scope Z_scope.

(** [ConditionLeaf]: the schema's leaf and the key, which YAML does not set. *)
Record CachedLeaf := mkCached { base : ConditionLeaf; compiled_regex_key : option string }.
Definition CachedNode : Type := Cond CachedLeaf.

(** A condition as it is read. *)
Definition uncached (node : ConditionNode) : CachedNode := cond_map (fun leaf => mkCached leaf None) node.
Definition read_rule (r : RuleRaw ConditionNode) : RuleRaw CachedNode :=
  with_condition r (uncached (raw_condition r)).

Notation RegexCache := (gmap string regex).
Notation PatternKeys := (gmap string string).

(** What [mod.rs] repeats of [src/rule/mod.rs]. *)
Definition RuleError : Type := RuleEngine.RuleError.
Definition RuleMatch : Type := RuleTypes.RuleMatch.
Definition RequestContext `{LegacyLib} : Type := LegacyRule.RequestContext.
Definition glob_match `{LegacyLib} : string -> string -> bool := LegacyRule.glob_match.
Definition cidr_contains : string -> string -> bool := LegacyRule.cidr_contains.

(** * Evaluation *)

Section Evaluator.
Context `{UnicodeTables, RegexLib, LegacyLib}.

Record RuleSet := mkRuleSet { rules : list (Rule CachedNode); compiled_regexes : RegexCache }.

Definition match_value (cache : RegexCache) (subject : string) (leaf : CachedLeaf) : bool :=
  match match_type (base leaf) with
  | MExact =>
    if case_sensitive (base leaf) then bool_decide (subject = value (base leaf))
    else eq_ignore_ascii_case subject (value (base leaf))
  | MWildcard =>
    match glob_build (value (base leaf)) (negb (case_sensitive (base leaf))) with
    | Some g => glob_is_match g subject
    | None => false
    end
  | MRegex =>
    match compiled_regex_key leaf with
    | Some cache_key => match cache !! cache_key with Some re => is_match re subject | None => false end
    | None => false
    end
  | MCidr => cidr_contains (value (base leaf)) subject
  | MPresence => negb (is_empty subject)
  | MAbsence => is_empty subject
  end.

Definition eval_leaf (cache : RegexCache) (leaf : CachedLeaf) (ctx : RequestContext) : bool :=
  eval_leaf_with (fun subject => match_value cache subject leaf) (base leaf) ctx.

Definition eval_node (cache : RegexCache) (node : CachedNode) (ctx : RequestContext) : bool :=
  cond_eval (fun leaf => eval_leaf cache leaf ctx) node.

(** Every rule: the evaluator filters. *)
Definition rules_for_context (ruleset : RuleSet) (_ctx : RequestContext) : list (Rule CachedNode) := rules ruleset.

(** [RuleEvaluator]: the rule set in its [ArcSwap]. *)
Record RuleEvaluator := mkEvaluator { ruleset : RuleSet }.
Definition update_ruleset (new_ruleset : RuleSet) (_ : RuleEvaluator) : RuleEvaluator :=
  mkEvaluator new_ruleset.

Definition evaluate (ev : RuleEvaluator) (ctx : RequestContext) (skip_rules : list string) : option RuleMatch :=
  evaluate_loop (tier_applies ctx) (fun node => eval_node (compiled_regexes (ruleset ev)) node ctx)
    skip_rules (rules_for_context (ruleset ev) ctx).
End Evaluator.

(** * Compilation *)

Section Loader.
Context `{RegexLib, UnstableSort}.

(** The case prefix, as in the evaluator of [src/rule]. *)
Definition normalized (leaf : CachedLeaf) : string :=
  if negb (case_sensitive (base leaf)) && negb (starts_with (value (base leaf)) "(?i)")
  then "(?i)" +:+ value (base leaf) else value (base leaf).

(** [format!("regex_{}", n)] *)
Definition cache_key_of (n : nat) : string := "regex_" +:+ print_int (Z.of_nat n).

Definition collect_leaf (rule_id : string) (st : PatternKeys * RegexCache) (leaf : CachedLeaf)
  : result RuleError (PatternKeys * RegexCache) :=
  let '(regex_cache, compiled_regexes) := st in
  if bool_decide (match_type (base leaf) = MRegex) then
    let pattern := normalized leaf in
    match regex_cache !! pattern with
    | Some _ => Ok st
    | None =>
      compiled ← ok_or (regex_new pattern) (RegexError rule_id);
      let cache_key := cache_key_of (size compiled_regexes) in
      Ok (<[pattern := cache_key]> regex_cache, <[cache_key := compiled]> compiled_regexes)
    end
  else Ok st.

(** The first pass over one condition. *)
Definition collect_regex_patterns (rule_id : string) (node : CachedNode)
  (st : PatternKeys * RegexCache) : result RuleError (PatternKeys * RegexCache) :=
  fold_result (collect_leaf rule_id) st (leaves node).

Definition populate_leaf (rule_id : string) (regex_cache : PatternKeys) (leaf : CachedLeaf)
  : result RuleError CachedLeaf :=
  if bool_decide (match_type (base leaf) = MRegex) then
    let pattern := normalized leaf in
    match regex_cache !! pattern with
    | Some cache_key => Ok (mkCached (base leaf) (Some cache_key))
    | None => Err (ValidationError rule_id ("Regex pattern not found in cache: " +:+ pattern))
    end
  else Ok leaf.

(** The second pass. *)
Definition populate_regex_keys (rule_id : string) (node : CachedNode) (regex_cache : PatternKeys)
  : result RuleError CachedNode :=
  cond_traverse (populate_leaf rule_id regex_cache) node.

Definition compile (raw : list (RuleRaw CachedNode)) : result RuleError RuleSet :=
  st ← fold_result (fun st r => collect_regex_patterns (raw_id r) (raw_condition r) st) (∅, ∅) raw;
  let '(regex_cache, compiled_regexes) := st in
  _ ← validate_rules (fun _ _ => Ok tt) ∅ raw;
  raw ← collect_result (fun r =>
          node ← populate_regex_keys (raw_id r) (raw_condition r) regex_cache;
          Ok (with_condition r node)) raw;
  Ok (mkRuleSet (sort_unstable priority (map build_rule raw)) compiled_regexes).

Definition load_from_path (read_to_string : string -> option string)
  (join : string -> string -> string)
  (parse_rule_file : string -> option (list (RuleRaw CachedNode)))
  (base : string) : result RuleError RuleSet :=
  raw ← load_system_files read_to_string join parse_rule_file base;
  compile raw.

Definition load_from_dir (fs : FileSystem)
  (parse_rule_file : string -> option (list (RuleRaw CachedNode))) (dir : string)
  : result RuleError (list (RuleRaw CachedNode)) :=
  RuleEngine.load_from_dir fs parse_rule_file dir.

(** * The state of the first pass *)

Lemma cache_key_of_inj n m : cache_key_of n = cache_key_of m -> n = m.
Proof. intros Hk%app_inv_head_str%print_int_inj. lia. Qed.

(** Each pattern has a key, and the key leads to the pattern's regex; the keys in use
    are the numbers below the size of the cache. *)
Definition cache_ok (st : PatternKeys * RegexCache) : Prop :=
  (forall p k, st.1 !! p = Some k -> exists re, st.2 !! k = Some re /\ regex_new p = Some re) /\
  (forall k, is_Some (st.2 !! k) <-> exists i, (i < size st.2)%nat /\ k = cache_key_of i) /\
  size st.1 = size st.2.

Definition cached_in (leaf : CachedLeaf) (st : PatternKeys * RegexCache) : Prop :=
  match_type (base leaf) = MRegex -> is_Some (st.1 !! normalized leaf).

Lemma cache_ok_empty : cache_ok (∅, ∅).
Proof.
  split; [|split]; cbn [fst snd]; [intros p k Hp; by rewrite lookup_empty in Hp| |done].
  intros k. rewrite lookup_empty. change (size (∅ : RegexCache)) with 0%nat.
  split; [by intros [? ?]|intros (i & ? & _); lia].
Qed.

Lemma cache_ok_insert keys cache pattern re :
  cache_ok (keys, cache) -> keys !! pattern = None -> regex_new pattern = Some re ->
  cache_ok (<[pattern := cache_key_of (size cache)]> keys, <[cache_key_of (size cache) := re]> cache).
Proof.
  intros (Hk & Hc & Hs) Hp Hre. cbn [fst snd] in *.
  assert (Hnew : cache !! cache_key_of (size cache) = None).
  { apply eq_None_not_Some. rewrite Hc. intros (i & Hi & He%cache_key_of_inj). lia. }
  split; [|split]; cbn [fst snd].
  - intros p k. destruct (decide (pattern = p)) as [<-|Hne].
    + rewrite lookup_insert_eq. intros [= <-]. exists re. by rewrite lookup_insert_eq.
    + rewrite lookup_insert_ne by done. intros (re' & Hl & Hn)%Hk. exists re'. split; [|done].
      rewrite lookup_insert_ne; [done|]. intros <-. congruence.
  - intros k. rewrite map_size_insert_None, lookup_insert_is_Some', Hc by done. split.
    + intros [<-|(i & Hi & ->)]; [exists (size cache)|exists i]; split; (lia || done).
    + intros (i & Hi & ->). destruct (decide (i = size cache)) as [->|]; [by left|]. right. exists i. split; [lia|done].
  - rewrite !map_size_insert_None by done. by f_equal.
Qed.

Lemma collect_leaf_ok rid st leaf st' :
  cache_ok st -> collect_leaf rid st leaf = Ok st' ->
  cache_ok st' /\ cached_in leaf st' /\ forall l, cached_in l st -> cached_in l st'.
Proof.
  intros Hok. destruct st as [keys cache]. unfold collect_leaf, cached_in. case_bool_decide as Hm; [|by intros [= <-]].
  destruct (keys !! normalized leaf) as [k|] eqn:Hk; [by intros [= <-]; cbn [fst]; rewrite Hk|].
  destruct (regex_new (normalized leaf)) as [re|] eqn:Hre; [|done]. cbn [ok_or mbind result_mbind fst].
  intros [= <-]. split; [by apply cache_ok_insert|]. cbn [fst]. split; [intros _; by rewrite lookup_insert_eq|].
  intros l Hl Hr. apply lookup_insert_is_Some'. right. by apply Hl.
Qed.

Definition rule_cached (r : RuleRaw CachedNode) (st : PatternKeys * RegexCache) : Prop :=
  Forall (fun leaf => cached_in leaf st) (leaves (raw_condition r)).

Lemma collect_rule_ok st (r : RuleRaw CachedNode) st' :
  cache_ok st -> collect_regex_patterns (raw_id r) (raw_condition r) st = Ok st' ->
  cache_ok st' /\ rule_cached r st' /\ forall x, rule_cached x st -> rule_cached x st'.
Proof.
  intros Hok Hc. unfold collect_regex_patterns in Hc.
  destruct (fold_result_ok _ cache_ok cached_in _ _ _ (collect_leaf_ok (raw_id r)) Hok Hc) as (Hok' & Hin & Hk).
  split; [done|]. split; [by apply List.Forall_forall|].
  intros x. unfold rule_cached. apply List.Forall_impl. apply Hk.
Qed.

(** The leaf with the key of its pattern. *)
Definition keyed (keys : PatternKeys) (leaf : CachedLeaf) : CachedLeaf :=
  if bool_decide (match_type (base leaf) = MRegex) then mkCached (base leaf) (keys !! normalized leaf) else leaf.
Definition keyed_rule (keys : PatternKeys) (r : RuleRaw CachedNode) : RuleRaw CachedNode :=
  with_condition r (cond_map (keyed keys) (raw_condition r)).

Lemma populate_ok st (raw : list (RuleRaw CachedNode)) :
  (forall r, In r raw -> rule_cached r st) ->
  collect_result (fun r => node ← populate_regex_keys (raw_id r) (raw_condition r) st.1;
                           Ok (with_condition r node)) raw = Ok (map (keyed_rule st.1) raw).
Proof.
  induction raw as [|r raw IH]; intros Hc; [done|]. cbn [collect_result map].
  assert (Hr : populate_regex_keys (raw_id r) (raw_condition r) st.1 = Ok (cond_map (keyed st.1) (raw_condition r))).
  { apply cond_traverse_ok. intros leaf Hl. pose proof (Hc r ltac:(by left)) as Hr. unfold rule_cached in Hr.
    rewrite List.Forall_forall in Hr. specialize (Hr leaf Hl). unfold populate_leaf, keyed, cached_in in *.
    case_bool_decide as Hm; [|done]. by destruct (Hr Hm) as [k ->]. }
  rewrite Hr. cbn [mbind result_mbind]. rewrite IH; [done|]. intros x Hx. apply Hc. by right.
Qed.

Definition pattern_ok (leaf : CachedLeaf) : Prop :=
  match_type (base leaf) = MRegex -> is_Some (regex_new (normalized leaf)).

Lemma compile_Ok raw rs :
  compile raw = Ok rs ->
  exists st, cache_ok st /\ compiled_regexes rs = st.2 /\ (forall r, In r raw -> rule_cached r st) /\
    rules rs = sort_unstable priority (map build_rule (map (keyed_rule st.1) raw)) /\
    NoDup (map raw_id raw) /\ Forall fields_ok raw.
Proof.
  unfold compile. destruct (fold_result _ _ raw) as [st|] eqn:Hst; [|done]. cbn [mbind result_mbind].
  destruct (fold_result_ok _ cache_ok rule_cached _ _ _ collect_rule_ok cache_ok_empty Hst) as (Hok & Hin & _).
  pose proof (populate_ok st raw Hin) as Hpop. destruct st as [keys cache]. cbn [fst] in Hpop.
  destruct (validate_rules _ ∅ raw) as [[]|] eqn:Hv; [|done]. cbn [mbind result_mbind].
  rewrite Hpop. cbn [mbind result_mbind]. intros [= <-]. apply validate_rules_start in Hv as [Hnd Hf].
  exists (keys, cache). repeat (split; [done|]). eapply List.Forall_impl; [|exact Hf]. by intros r [? _].
Qed.
End Loader.

(** * What the compiler accepts and reports *)

Section Errors.
Context `{RegexLib, UnstableSort}.

(** The error of a leaf and of a rule whose pattern does not compile. *)
Definition bad_leaf (rule_id : string) (leaf : CachedLeaf) : option RuleError :=
  if bool_decide (match_type (base leaf) = MRegex) then
    match regex_new (normalized leaf) with Some _ => None | None => Some (RegexError rule_id) end
  else None.
Definition bad_pattern (r : RuleRaw CachedNode) : option RuleError :=
  head (omap (bad_leaf (raw_id r)) (leaves (raw_condition r))).

Lemma collect_leaf_err rid st leaf :
  cache_ok st ->
  match bad_leaf rid leaf with
  | Some e => collect_leaf rid st leaf = Err e
  | None => exists st', collect_leaf rid st leaf = Ok st' /\ cache_ok st'
  end.
Proof.
  intros Hok. unfold bad_leaf. destruct (collect_leaf rid st leaf) as [st'|e] eqn:Hc.
  - pose proof (collect_leaf_ok _ _ _ _ Hok Hc) as (Hok' & Hin & _). unfold cached_in in Hin.
    case_bool_decide as Hm; [|eauto]. destruct (Hin Hm) as [k Hk]. apply Hok' in Hk as (re & _ & ->). eauto.
  - unfold collect_leaf in Hc. destruct st as [keys cache]. case_bool_decide as Hm; [|done].
    destruct (keys !! normalized leaf); [done|]. by destruct (regex_new (normalized leaf)).
Qed.

Lemma collect_rules_err (raw : list (RuleRaw CachedNode)) st :
  cache_ok st ->
  match head (omap bad_pattern raw) with
  | Some e => fold_result (fun st r => collect_regex_patterns (raw_id r) (raw_condition r) st) st raw = Err e
  | None => exists st', fold_result (fun st r => collect_regex_patterns (raw_id r) (raw_condition r) st) st raw = Ok st' /\ cache_ok st'
  end.
Proof.
  apply fold_result_err. intros s r Hs. unfold bad_pattern, collect_regex_patterns.
  apply fold_result_err; [|done]. intros s' leaf. apply collect_leaf_err.
Qed.

Lemma compile_by_passes raw :
  compile raw =
  match head (omap bad_pattern raw) with
  | Some e => Err e
  | None =>
    _ ← validate_rules (fun _ _ => Ok tt) ∅ raw;
    compile raw
  end.
Proof.
  unfold compile at 1 2. pose proof (collect_rules_err raw _ cache_ok_empty) as Hc.
  destruct (head (omap bad_pattern raw)) as [e|]; [by rewrite Hc|]. destruct Hc as (st & Hst & Hok). rewrite Hst.
  cbn [mbind result_mbind]. destruct st as [keys cache]. by destruct (validate_rules _ ∅ raw).
Qed.

Lemma head_omap_None {A B} (f : A -> option B) l : head (omap f l) = None <-> Forall (fun x => f x = None) l.
Proof.
  induction l as [|x l IH]; [split; [constructor|done]|]. rewrite List.Forall_cons_iff, <-IH. cbn.
  destruct (f x); cbn; intuition congruence.
Qed.

Lemma bad_pattern_None r : bad_pattern r = None <-> Forall pattern_ok (leaves (raw_condition r)).
Proof.
  unfold bad_pattern. rewrite head_omap_None. apply Forall_iff. intros leaf. unfold bad_leaf, pattern_ok.
  case_bool_decide as Hm; [|tauto]. destruct (regex_new (normalized leaf)) as [re|]; [by split; eauto|].
  split; [done|]. intros Hp. by destruct (Hp Hm).
Qed.

Lemma validate_fields_ok (raw : list (RuleRaw CachedNode)) :
  validate_rules (fun _ _ => Ok tt) ∅ raw = Ok tt <-> NoDup (map raw_id raw) /\ Forall fields_ok raw.
Proof.
  rewrite validate_rules_start, !List.Forall_forall. split; intros [? Hf]; (split; [done|]); intros x Hx; pose proof (Hf x Hx); tauto.
Qed.

Lemma compile_total raw :
  Forall (fun r => Forall pattern_ok (leaves (raw_condition r))) raw -> NoDup (map raw_id raw) -> Forall fields_ok raw ->
  exists rs, compile raw = Ok rs.
Proof.
  intros Hp Hnd Hf. unfold compile.
  assert (Hb : head (omap bad_pattern raw) = None).
  { apply head_omap_None. eapply List.Forall_impl; [|exact Hp]. intros r. apply bad_pattern_None. }
  pose proof (collect_rules_err raw _ cache_ok_empty) as Hc. rewrite Hb in Hc. destruct Hc as (st & Hst & Hok).
  destruct (fold_result_ok _ cache_ok rule_cached _ _ _ collect_rule_ok cache_ok_empty Hst) as (_ & Hin & _).
  pose proof (populate_ok st raw Hin) as Hpop. rewrite Hst. cbn [mbind result_mbind]. destruct st as [keys cache].
  rewrite (proj2 (validate_fields_ok raw)) by done. cbn [mbind result_mbind fst] in *. rewrite Hpop. by eexists.
Qed.
End Errors.

(** The passes of the compiler decide in their order: a list is accepted exactly when
    all normalized patterns compile, the ids are distinct and the fields of every rule
    are in range; a bad pattern anywhere is reported, for the first rule that has one,
    before any duplicate id or bad field of an earlier rule; without one the error is
    the first of the field checks. *)
Theorem opt_compile_by_passes `{RegexLib, UnstableSort} raw :
  ((exists rs, compile raw = Ok rs) <->
     Forall (fun r => Forall pattern_ok (leaves (raw_condition r))) raw /\
     NoDup (map raw_id raw) /\ Forall fields_ok raw) /\
  (forall e, head (omap bad_pattern raw) = Some e -> compile raw = Err e) /\
  (forall e, head (omap bad_pattern raw) = None ->
     (compile raw = Err e <-> validate_rules (fun _ _ => Ok tt) ∅ raw = Err e)).
Proof.
  split; [|split].
  - split; [|intros (? & ? & ?); by apply compile_total]. intros [rs Hrs]. apply compile_Ok in Hrs as Hok.
    destruct Hok as (st & _ & _ & _ & _ & Hnd & Hf). split; [|done].
    rewrite compile_by_passes in Hrs. destruct (head (omap bad_pattern raw)) eqn:Hb; [done|].
    apply head_omap_None in Hb. eapply List.Forall_impl; [|exact Hb]. intros r. apply bad_pattern_None.
  - intros e Hb. by rewrite compile_by_passes, Hb.
  - intros e Hb. rewrite compile_by_passes, Hb. destruct (validate_rules _ ∅ raw) as [[]|e'] eqn:Hv; [|cbn [mbind result_mbind]; split; intros [= ->]; done].
    cbn [mbind result_mbind]. split; [|done]. intros He. exfalso.
    apply validate_fields_ok in Hv as [Hnd Hf]. apply head_omap_None in Hb.
    assert (Hp : Forall (fun r => Forall pattern_ok (leaves (raw_condition r))) raw)
      by (eapply List.Forall_impl; [|exact Hb]; intros r; apply bad_pattern_None).
    destruct (compile_total raw Hp Hnd Hf) as [rs Hrs]. congruence.
Qed.

(** C29: a compiled rule set is well formed: the cache keys are [regex_0] to
    [regex_(n-1)] for the [n] regexes of the cache, every regex leaf carries a key and the
    regex under it is the regex of the leaf's own normalized pattern, the ids are
    distinct and the rules sorted by priority. *)
Theorem opt_rule_set_well_formed `{RegexLib, UnstableSort} raw rs :
  compile raw = Ok rs ->
  (forall k, is_Some (compiled_regexes rs !! k) <->
     exists i, (i < size (compiled_regexes rs))%nat /\ k = cache_key_of i) /\
  (forall rule leaf, In rule (rules rs) -> In leaf (leaves (condition rule)) ->
     match_type (base leaf) = MRegex ->
     exists k re, compiled_regex_key leaf = Some k /\ compiled_regexes rs !! k = Some re /\
       regex_new (normalized leaf) = Some re) /\
  NoDup (map id (rules rs)) /\ StronglySorted (key_le priority) (rules rs).
Proof.
  intros (st & Hok & -> & Hin & -> & Hnd & _)%compile_Ok. split; [apply Hok|]. split; [|split].
  - intros rule leaf. rewrite <-list_elem_of_In, sort_unstable_perm, list_elem_of_In, map_map.
    intros (r & <- & Hr)%in_map_iff. cbn. rewrite leaves_map. intros (l & <- & Hl)%in_map_iff.
    specialize (Hin r Hr). unfold rule_cached in Hin. rewrite List.Forall_forall in Hin. specialize (Hin l Hl).
    unfold keyed, cached_in in *. case_bool_decide as Hm; [|done]. cbn [base compiled_regex_key].
    intros _. destruct (Hin Hm) as [k Hk]. destruct (proj1 Hok _ _ Hk) as (re & Hl1 & Hl2). by exists k, re.
  - rewrite (sort_unstable_perm priority). by rewrite !map_map.
  - apply sort_unstable_sorted.
Qed.

(** * Caching changes no answer *)

Section Agree.
Context `{UnicodeTables, RegexLib, UnstableSort, LegacyLib}.

Lemma eval_leaf_keyed st leaf ctx :
  cache_ok st -> cached_in leaf st ->
  eval_leaf st.2 (keyed st.1 leaf) ctx = LegacyRule.eval_leaf (base leaf) ctx.
Proof.
  intros Hok Hin. unfold eval_leaf, LegacyRule.eval_leaf.
  assert (Hb : base (keyed st.1 leaf) = base leaf) by (unfold keyed; by case_bool_decide).
  assert (Hv : forall s, match_value st.2 s (keyed st.1 leaf) = LegacyRule.match_value s (base leaf)).
  { intros s. unfold match_value, LegacyRule.match_value. rewrite Hb. destruct (match_type (base leaf)) eqn:Hm; try done.
    destruct (Hin Hm) as [k Hk]. destruct (proj1 Hok _ _ Hk) as (re & Hl & Hn). unfold keyed.
    rewrite bool_decide_eq_true_2 by done. cbn [compiled_regex_key]. rewrite Hk, Hl.
    unfold regex_match. fold (normalized leaf). by rewrite Hn. }
  rewrite Hb. unfold eval_leaf_with. by rewrite !Hv.
Qed.

Lemma eval_node_keyed st (r : RuleRaw ConditionNode) ctx :
  cache_ok st -> rule_cached (read_rule r) st ->
  eval_node st.2 (cond_map (keyed st.1) (uncached (raw_condition r))) ctx = LegacyRule.eval_node (raw_condition r) ctx.
Proof.
  intros Hok Hr. unfold eval_node, uncached, LegacyRule.eval_node. rewrite cond_map_map.
  rewrite <-(cond_map_id (raw_condition r)) at 2. rewrite cond_map_id. apply cond_eval_map.
  unfold rule_cached, read_rule, uncached in Hr. cbn [raw_condition with_condition] in Hr.
  rewrite leaves_map, List.Forall_map in Hr. eapply List.Forall_impl; [|exact Hr].
  intros leaf Hl. by rewrite eval_leaf_keyed.
Qed.

Lemma opt_least raw rs ctx skip :
  compile (map read_rule raw) = Ok rs ->
  least_decider (raw_decides ctx skip) raw (evaluate (mkEvaluator rs) ctx skip).
Proof.
  intros (st & Hok & Hcache & Hin & Hrules & _)%compile_Ok. unfold evaluate. rewrite evaluate_loop_find.
  cbn [ruleset]. unfold rules_for_context. rewrite Hrules, Hcache. set (D := decides _ _ _).
  set (build := fun r => build_rule (keyed_rule st.1 (read_rule r))).
  assert (Hrs : map build_rule (map (keyed_rule st.1) (map read_rule raw)) = map build raw) by by rewrite !map_map.
  assert (HD : forall r, In r raw -> D (build r) = raw_decides ctx skip r).
  { intros r Hr. unfold D, build, decides, raw_decides, decides. cbn [condition build_rule keyed_rule with_condition raw_condition read_rule].
    rewrite eval_node_keyed; [done..|]. by apply Hin, in_map. }
  rewrite Hrs. pose proof (find_least priority D _ (map build raw)
    (sort_unstable_sorted priority _) (sort_unstable_perm priority _)) as Hf.
  destruct (List.find D _) as [x|]; cbn.
  - destruct Hf as ((r & <- & Hr)%in_map_iff & Hd & Hmin). exists r. split; [done|]. split; [by rewrite <-HD|].
    split; [done|]. intros r' Hr' Hd'. apply (Hmin (build r')); [by apply in_map|by rewrite HD].
  - intros r Hr. rewrite <-HD by done. by apply Hf, in_map.
Qed.
End Agree.

(** C24: caching changes no answer: compiled from the same file, the optimized engine finds a
    match exactly when [src/rule] does, both report a deciding rule of the same, least
    priority, and they report the same rule unless two rules of that priority decide,
    between which the sort of neither is specified. *)
Theorem opt_agrees_with_legacy `{UnicodeTables, RegexLib, UnstableSort, LegacyLib} raw rs ors ctx skip :
  LegacyRule.compile raw = Ok rs -> compile (map read_rule raw) = Ok ors ->
  let legacy := LegacyRule.evaluate (LegacyRule.mkEvaluator rs) ctx skip in
  let opt := evaluate (mkEvaluator ors) ctx skip in
  (legacy = None <-> opt = None) /\
  (forall m m', legacy = Some m -> opt = Some m' ->
     exists r r', In r raw /\ In r' raw /\ raw_decides ctx skip r = true /\ raw_decides ctx skip r' = true /\
       raw_priority r = raw_priority r' /\ m = rule_match (build_rule r) /\ m' = rule_match (build_rule r')) /\
  ((forall r r', In r raw -> In r' raw -> raw_decides ctx skip r = true -> raw_decides ctx skip r' = true ->
      raw_priority r = raw_priority r' -> r = r') ->
   legacy = opt).
Proof.
  intros Hrs Hors legacy opt.
  assert (Hl : least_decider (raw_decides ctx skip) raw legacy) by by apply legacy_least.
  assert (Ho : least_decider (raw_decides ctx skip) raw opt) by by apply opt_least.
  destruct legacy as [m|], opt as [m'|]; cbn in Hl, Ho.
  - destruct Hl as (r & Hr & Hd & -> & Hm), Ho as (r' & Hr' & Hd' & -> & Hm').
    assert (Heq : raw_priority r = raw_priority r').
    { pose proof (Hm r' Hr' Hd'). pose proof (Hm' r Hr Hd). lia. }
    split; [done|]. split; [|intros Hu; by rewrite (Hu r r')].
    intros ? ? [= <-] [= <-]. by exists r, r'.
  - destruct Hl as (r & Hr & Hd & _). by rewrite Ho in Hd.
  - destruct Ho as (r & Hr & Hd & _). by rewrite Hl in Hd.
  - done.
Qed.

(** * A sample *)

Section Sample.
Local Existing Instances plain_unicode literal_regex sample_legacy.
Local Instance opt_sort : UnstableSort := insertion_sort.

Definition opt_rules : RuleSet :=
  match compile (map read_rule legacy_rules) with Ok rs => rs | Err _ => mkRuleSet [] ∅ end.

Lemma opt_agrees_with_legacy_witness :
  evaluate (mkEvaluator opt_rules) legacy_ctx [] = Some (mkRuleMatch "agent" "" ActBlock 5 "system").
Proof.
  destruct (opt_agrees_with_legacy legacy_rules (sort_unstable priority (map build_rule legacy_rules)) opt_rules
              legacy_ctx [] eq_refl eq_refl) as (_ & _ & Heq).
  rewrite <-Heq; [reflexivity|]. cbn [In legacy_rules].
  intros r r' [<-|[<-|[]]] [<-|[<-|[]]]; vm_compute; congruence.
Defined.

Lemma opt_rule_set_well_formed_witness :
  size (compiled_regexes opt_rules) = 2%nat /\ is_Some (compiled_regexes opt_rules !! "regex_1").
Proof.
  destruct (opt_rule_set_well_formed (map read_rule legacy_rules) opt_rules eq_refl) as (Hk & _).
  split; [reflexivity|]. apply Hk. exists 1%nat. split; [vm_compute; lia|reflexivity].
Defined.

(** The bad pattern of the last rule is reported before the duplicate id. *)
Definition bad_rules : list (RuleRaw ConditionNode) :=
  legacy_rules ++ [sample_raw "agent" 0 (CLeaf (sample_leaf FPath MExact "/")) ActBlock;
                   sample_raw "broken" 5 (CLeaf (mkLeaf FPath MRegex "[" None None true false)) ActBlock].
Lemma opt_compile_by_passes_witness :
  compile (map read_rule bad_rules) = Err (RegexError "broken") /\
  LegacyRule.compile bad_rules = Err (DuplicateId "agent").
Proof.
  split; [|reflexivity]. refine (proj1 (proj2 (opt_compile_by_passes (map read_rule bad_rules))) _ _). reflexivity.
Defined.
End Sample.
