(* ===== verification/LegacySchema.v ===== *)
(** The schema of the engine of [src/rule] ([types.rs]): the text of
    [crates/rule/src/types.rs], but for the type of [on_breach], which is in a module
    that the repository does not hold. *)
From S2P Require Import Prelude Utf8 WafTypes RuleTypes Serde Schema.
Local Open Scope Z_scope.

(** A rule as it is read, and compiled. *)
Definition RuleRaw : Type := RuleTypes.RuleRaw ConditionNode.
Definition Rule : Type := RuleTypes.Rule ConditionNode.

Section Read.
Context {D C : Type} `{Format D C}.
(** [BreachAction], as the text that stands for it. *)
Context (read_breach_action : D -> option string).

Definition read_action : D -> option Action := Schema.read_action.
Definition read_field : C -> option Field := Schema.read_field.
Definition read_match_type : C -> option MatchType := Schema.read_match_type.
Definition read_response_config : D -> option ResponseConfig := Schema.read_response_config.
Definition read_rate_limit_scope : D -> option RateLimitScope := Schema.read_rate_limit_scope.
Definition read_rate_limit_rule : D -> option RateLimitRule := Schema.read_rate_limit_rule read_breach_action.
Definition read_challenge_type : D -> option ChallengeType := Schema.read_challenge_type.
Definition read_challenge_rule : D -> option ChallengeRule := Schema.read_challenge_rule.
Definition read_leaf : C -> option ConditionLeaf := Schema.read_leaf.
Definition read_condition : D -> option ConditionNode := read_buffered read_leaf.
Definition read_raw : D -> option RuleRaw := read_rule_raw read_condition read_breach_action.
Definition read_file : D -> option (list RuleRaw) :=
  read_rule_file read_condition read_breach_action.
Definition read_list : D -> option (list RuleRaw) :=
  read_rule_list read_condition read_breach_action.
End Read.
