(* ===== verification/LegacyOptSchema.v ===== *)
(** The schema of the engine of [src/optimized_rule] ([types.rs]): that of [src/rule],
    a leaf with a regex key, and a writer of leaves written by hand, beside the derived
    writer of conditions. *)
From S2P Require Import Prelude Utf8 Net Extern WafTypes RuleTypes RuleEngine LegacyRule LegacyOpt Serde Schema Converter TreeModel OptSchema LegacySchema.
Local Open Scope Z_scope.

(** * Reading *)

(** A rule as it is read, and compiled. *)
Definition RuleRaw : Type := RuleTypes.RuleRaw CachedNode.
Definition Rule : Type := RuleTypes.Rule CachedNode.

Section Read.
Context {D C : Type} `{Format D C}.
Context (read_breach_action : D -> option string).

Definition read_action : D -> option Action := Schema.read_action.
Definition read_field : C -> option Field := Schema.read_field.
Definition read_match_type : C -> option MatchType := Schema.read_match_type.
Definition read_response_config : D -> option ResponseConfig := Schema.read_response_config.
Definition read_rate_limit_scope : D -> option RateLimitScope := Schema.read_rate_limit_scope.
Definition read_rate_limit_rule : D -> option RateLimitRule := Schema.read_rate_limit_rule read_breach_action.
Definition read_challenge_type : D -> option ChallengeType := Schema.read_challenge_type.
Definition read_challenge_rule : D -> option ChallengeRule := Schema.read_challenge_rule.

(** [#[serde(skip)] compiled_regex_key] *)
Definition read_leaf (v : C) : option CachedLeaf := (fun leaf => mkCached leaf None) <$> Schema.read_leaf v.
Definition read_condition : D -> option CachedNode := read_buffered read_leaf.
Definition read_raw : D -> option RuleRaw := read_rule_raw read_condition read_breach_action.
Definition read_file : D -> option (list RuleRaw) := read_rule_file read_condition read_breach_action.
Definition read_list : D -> option (list RuleRaw) := read_rule_list read_condition read_breach_action.
End Read.

(** * Writing *)

Section Write.
Context {O : Type} `{Serializer O}.

Definition write_option (o : option string) : O := match o with Some s => s_str s | None => s_null end.

(** Every field, [None] as a null. *)
Definition serialize_leaf (leaf : CachedLeaf) : O :=
  let self := base leaf in
  s_map [("field", write_field (field self)); ("match", write_match_type (match_type self));
         ("value", s_str (value self)); ("header_name", write_option (header_name self));
         ("cookie_name", write_option (cookie_name self));
         ("case_sensitive", s_bool (case_sensitive self)); ("negate", s_bool (negate self))].

(** The derived writer: [And] and [Or] are variants with data, a leaf is itself. *)
Fixpoint serialize_node (self : CachedNode) : O :=
  match self with
  | CAnd nodes => s_variant "and" (s_seq (map serialize_node nodes))
  | COr nodes => s_variant "or" (s_seq (map serialize_node nodes))
  | CLeaf leaf => serialize_leaf leaf
  end.
End Write.

(** * Reading is that of [src/rule] *)

Section Uncached.
Context {D C : Type} `{Format D C}.
Context (read_breach_action : D -> option string).

(** The conditions that [LegacyOpt.read_rule] takes as given. *)
Lemma read_node_uncached (v : C) : read_node read_leaf v = uncached <$> read_node Schema.read_leaf v.
Proof. by apply read_node_map. Qed.
End Uncached.

Section ReadsAlike.
Context {D C : Type} `{Format D C}.
Context (read_breach_action : D -> option string).

Lemma read_condition_uncached (v : D) : read_condition v = uncached <$> LegacySchema.read_condition v.
Proof.
  unfold read_condition, LegacySchema.read_condition, read_buffered.
  destruct (buffered v); cbn; [apply read_node_uncached|done].
Qed.

(** The two engines read the same rules: what [LegacyOpt.read_rule] makes of a rule is
    what this schema reads. *)
Lemma read_file_uncached (v : D) :
  read_file read_breach_action v = map read_rule <$> LegacySchema.read_file read_breach_action v.
Proof. exact (read_file_change _ _ uncached read_breach_action read_condition_uncached v). Qed.
Lemma read_list_uncached (v : D) :
  read_list read_breach_action v = map read_rule <$> LegacySchema.read_list read_breach_action v.
Proof. exact (read_list_change _ _ uncached read_breach_action read_condition_uncached v). Qed.
End ReadsAlike.

(** * Round trip *)

(** In a format that writes a variant with data as a map of one entry (JSON), what is
    written is read back.  YAML writes it as a tagged value, which the reader of
    contents refuses. *)
Section RoundTrip.
Context {C : Type} `{ReadsBack C}.
Hypothesis variant_entry : forall k (v : C), s_variant k v = s_map [(k, v)].

Lemma write_option_read (s : fields C) i o :
  value_at s i = Some (write_option o) -> optional dm_str s i = Some o.
Proof using Type*.
  unfold optional. intros ->. destruct o; cbn; [by rewrite rb_not_null, rb_str|by rewrite rb_null].
Qed.

Lemma read_serialized_leaf leaf : read_leaf (serialize_leaf leaf : C) = Some (mkCached (base leaf) None).
Proof using Type*.
  destruct leaf as [[f m v hn cn cs ng] key].
  unfold read_leaf, Schema.read_leaf, parts_of, serialize_leaf.
  cbn [base field match_type value header_name cookie_name case_sensitive negate].
  rewrite rb_map. cbn [mbind option_bind].
  cbn -[Schema.read_field Schema.read_match_type optional].
  unfold required, defaulted. cbn -[Schema.read_field Schema.read_match_type optional write_option].
  rewrite read_written_field. cbn -[Schema.read_match_type optional write_option].
  rewrite read_written_match_type. cbn -[optional write_option]. rewrite rb_str. cbn -[optional write_option].
  rewrite (write_option_read _ 3 hn) by done. cbn -[optional write_option].
  rewrite (write_option_read _ 4 cn) by done. cbn. by rewrite !rb_bool.
Qed.

Lemma cached_round_trip (node : CachedNode) :
  read_node read_leaf (serialize_node node : C) = Some (cond_map (fun leaf => mkCached (base leaf) None) node).
Proof using Type*.
  induction node as [l IH|l IH|leaf] using Cond_ind'; rewrite read_node_unfold; cbn [serialize_node cond_map].
  3: { unfold read_branch. unfold serialize_leaf at 1. rewrite rb_map_enum. cbn. by rewrite read_serialized_leaf. }
  all: unfold read_branch; rewrite variant_entry, rb_map_enum; cbn [mbind option_bind String.eqb]; unfold seq_of;
    rewrite rb_seq; cbn [mbind option_bind]; rewrite mapM_map; cbn.
  all: by rewrite (@mapM_total (Cond CachedLeaf) (Cond CachedLeaf) _ (cond_map (fun leaf => mkCached (base leaf) None))).
Qed.
End RoundTrip.
