(* ===== verification/Consul.v ===== *)
(** Rules kept in Consul ([loader.rs] of [src/rule] and [src/optimized_rule], the same
    text in both): loading all rules of the key-value store and the watcher that
    reloads on a change.  The condition type and the compiler are those of the engine
    that uses it. *)
From S2P Require Import Prelude Utf8 RustStd Net Extern WafTypes RuleTypes RuleEngine.
Local Open Scope Z_scope.

(** * Third-party interfaces *)

(** [reqwest]: a response as the program reads it. *)
Record HttpResponse := mkHttpResponse {
  resp_success : bool;
  resp_header : string -> option string;
  resp_body : string
}.

(** The outside world: each request and each pause may change it.  A request without
    a response gives [None], a failed one [false]. *)
Class NetLib := {
  net : Type;
  http_get : string -> net -> option HttpResponse * net;
  http_put : string -> string -> net -> bool * net;
  http_delete : string -> net -> bool * net;
  sleep : Z -> net -> net
}.

(** [serde_json], the YAML of JSON values and base64.  Printed texts are only
    compared, so their type is left open. *)
Class JsonLib := {
  json : Type;
  json_get : string -> json -> option json;
  json_as_str : json -> option string;
  json_as_bool : json -> option bool;
  json_as_array : json -> option (list json);
  json_as_object : json -> option (gmap string json);
  json_object : gmap string json -> json;
  json_bool : bool -> json;
  json_string : string -> json;
  json_number : Z -> json;
  json_text : Type;
  json_text_dec : EqDecision json_text;
  json_to_string : json -> json_text;
  (** [resp.json()] at [Vec<ConsulKV>], with the key and without. *)
  json_key_values : string -> option (list (string * option string));
  json_values : string -> option (list (option string));
  (** [serde_yaml::from_str] at [Value] and [Vec<Value>], and [to_string]. *)
  yaml_json : string -> option json;
  yaml_json_list : string -> option (list json);
  yaml_of_json_list : list json -> option string;
  b64_decode : string -> option string;
  (** laws *)
  json_get_object : forall k j, json_get k j = json_as_object j ≫= (fun m => m !! k);
  json_as_object_object : forall m, json_as_object (json_object m) = Some m;
  json_as_bool_bool : forall b, json_as_bool (json_bool b) = Some b;
  json_number_inj : forall n m, json_number n = json_number m -> n = m;
  (** an object prints like the object of its members, and the text gives them *)
  json_to_string_object : forall j m, json_as_object j = Some m -> json_to_string (json_object m) = json_to_string j;
  json_to_string_inj : forall a b, json_to_string a = json_to_string b -> json_as_object a = json_as_object b
}.
#[export] Existing Instance json_text_dec.

(** * Loading *)

Section Load.
Context `{NetLib, JsonLib}.
Context {C RS : Type}.
(** [serde_yaml::from_str] at [RuleFile] and [Vec<RuleRaw>]; [RuleLoader::compile]. *)
Variable parse_rule_file : string -> option (list (RuleRaw C)).
Variable parse_rule_list : string -> option (list (RuleRaw C)).
Variable compile : list (RuleRaw C) -> result RuleError RS.

(** One entry of the store. *)
Definition load_kv (raw_rules : list (RuleRaw C)) (kv : string * option string)
  : result RuleError (list (RuleRaw C)) :=
  let '(key, value) := kv in
  if negb (ends_with key ".yaml") then Ok raw_rules
  else
    match value with
    | None => Ok raw_rules
    | Some encoded_val =>
      decoded ← ok_or (b64_decode encoded_val) (IoError key);
      content ← ok_or (from_utf8 decoded) (IoError key);
      match parse_rule_file content with
      | Some rules => Ok (raw_rules ++ rules)
      | None =>
        match parse_rule_list content with
        | Some rules => Ok (raw_rules ++ rules)
        | None => Ok raw_rules
        end
      end
    end.

Definition load_from_consul (consul_addr : string) (n : net) : result RuleError RS * net :=
  let '(resp, n) := http_get (consul_addr +:+ "/v1/kv/waf/rules/?recurse&raw") n in
  match resp with
  | None => (Err (IoError "consul:waf/rules/"), n)
  | Some resp =>
    if negb (resp_success resp) then (Err (IoError "consul:waf/rules/"), n)
    else
      let '(resp, n) := http_get (consul_addr +:+ "/v1/kv/waf/rules/?recurse") n in
      match resp with
      | None => (Err (IoError "consul:waf/rules/"), n)
      | Some resp =>
        (kvs ← ok_or (json_key_values (resp_body resp)) (IoError "consul:waf/rules/");
         raw_rules ← fold_result load_kv [] kvs;
         compile raw_rules, n)
      end
  end.

(** * The watcher *)

(** [RuleWatcher] with the variables of its loop and the evaluator's rule set. *)
Record Watcher := mkWatcher { last_index : Z; current : RS; world : net }.

Definition poll_url (consul_addr : string) (last_index : Z) : string :=
  consul_addr +:+ "/v1/kv/waf/rules/?recurse&index=" +:+ print_int last_index +:+ "&wait=60s".

(** The index a response gives, the old one when it gives none. *)
Definition new_index (resp : HttpResponse) (last_index : Z) : Z :=
  default last_index (resp_header resp "X-Consul-Index" ≫= parse_unsigned 64).

(** One turn of the loop of [spawn_watcher]. *)
Definition watch_step (consul_addr : string) (w : Watcher) : Watcher :=
  let '(resp, n) := http_get (poll_url consul_addr (last_index w)) (world w) in
  match resp with
  | Some resp =>
    let new_index := new_index resp (last_index w) in
    if new_index =? last_index w then mkWatcher (last_index w) (current w) n
    else
      let '(loaded, n) := load_from_consul consul_addr n in
      match loaded with
      | Ok new_ruleset => mkWatcher new_index new_ruleset n
      | Err _ => mkWatcher new_index (current w) n
      end
  | None => mkWatcher (last_index w) (current w) (sleep 5 n)
  end.

Definition watch (consul_addr : string) (turns : nat) (w : Watcher) : Watcher :=
  Nat.iter turns (watch_step consul_addr) w.
End Load.

(** * What loading accepts *)

Section LoadSpec.
Context `{NetLib, JsonLib}.
Context {C RS : Type}.
Variable parse_rule_file : string -> option (list (RuleRaw C)).
Variable parse_rule_list : string -> option (list (RuleRaw C)).
Variable compile : list (RuleRaw C) -> result RuleError RS.

(** The text of an entry that loading reads: a value under a key in [.yaml]. *)
Definition kv_encoded (kv : string * option string) : option string :=
  if ends_with kv.1 ".yaml" then kv.2 else None.
Definition kv_text (kv : string * option string) : option string :=
  encoded ← kv_encoded kv; decoded ← b64_decode encoded; from_utf8 decoded.
(** The rules of an entry, none when its text is neither form. *)
Definition kv_rules (kv : string * option string) : list (RuleRaw C) :=
  default [] (text ← kv_text kv;
              match parse_rule_file text with Some rules => Some rules | None => parse_rule_list text end).
(** An entry that stops the loading: its value does not decode to text. *)
Definition kv_broken (kv : string * option string) : option RuleError :=
  match kv_encoded kv, kv_text kv with
  | Some _, None => Some (IoError kv.1)
  | _, _ => None
  end.

Lemma load_kv_spec raw kv :
  load_kv parse_rule_file parse_rule_list raw kv =
  match kv_broken kv with Some e => Err e | None => Ok (raw ++ kv_rules kv) end.
Proof.
  destruct kv as [key [enc|]]; unfold load_kv, kv_broken, kv_rules, kv_text, kv_encoded; cbn [fst snd];
    destruct (ends_with key ".yaml"); cbn; rewrite ?app_nil_r; try done.
  destruct (b64_decode enc) as [d|]; cbn; [|done]. destruct (from_utf8 d) as [text|]; cbn; [|done].
  destruct (parse_rule_file text) as [r|]; cbn; [done|]. destruct (parse_rule_list text); cbn; by rewrite ?app_nil_r.
Qed.

Lemma load_kvs_spec kvs raw :
  fold_result (load_kv parse_rule_file parse_rule_list) raw kvs =
  match head (omap kv_broken kvs) with Some e => Err e | None => Ok (raw ++ flat_map kv_rules kvs) end.
Proof.
  revert raw. induction kvs as [|kv kvs IH]; intros raw; cbn [fold_result omap list_omap flat_map].
  { by rewrite app_nil_r. }
  rewrite load_kv_spec. destruct (kv_broken kv) as [e|]; cbn [mbind result_mbind head]; [done|].
  rewrite IH. by rewrite app_assoc.
Qed.
End LoadSpec.

(** Loading compiles the rules of all entries under keys ending in [.yaml], in the order
    of the store: an entry whose text is neither a rule file nor a list of rules adds
    nothing and is not reported, but one whose value is not base64 or not UTF-8 fails
    the whole load with an error naming its key, as does a response that is missing or
    has an error status. *)
Theorem load_from_consul_rules `{NetLib, JsonLib} {C RS} pf pl (compile : list (RuleRaw C) -> result RuleError RS) addr n :
  let '(probe, n1) := http_get (addr +:+ "/v1/kv/waf/rules/?recurse&raw") n in
  let '(entries, n2) := http_get (addr +:+ "/v1/kv/waf/rules/?recurse") n1 in
  (forall p, probe = Some p -> resp_success p = true ->
     (forall e kvs, entries = Some e -> json_key_values (resp_body e) = Some kvs ->
        load_from_consul pf pl compile addr n =
        (match head (omap kv_broken kvs) with
         | Some err => Err err
         | None => compile (flat_map (kv_rules pf pl) kvs)
         end, n2)) /\
     ((forall e, entries = Some e -> json_key_values (resp_body e) = None) ->
        load_from_consul pf pl compile addr n = (Err (IoError "consul:waf/rules/"), n2))) /\
  ((forall p, probe = Some p -> resp_success p = false) ->
     load_from_consul pf pl compile addr n = (Err (IoError "consul:waf/rules/"), n1)).
Proof.
  unfold load_from_consul.
  destruct (http_get (addr +:+ "/v1/kv/waf/rules/?recurse&raw") n) as [probe n1].
  destruct (http_get (addr +:+ "/v1/kv/waf/rules/?recurse") n1) as [entries n2]. split.
  - intros p -> ->. cbn [negb]. split.
    + intros e kvs -> ->. cbn [ok_or mbind result_mbind]. rewrite load_kvs_spec. by destruct (head _).
    + intros He. destruct entries as [e|]; [|done]. by rewrite (He e eq_refl).
  - intros Hp. destruct probe as [p|]; [|done]. by rewrite (Hp p eq_refl).
Qed.

(** * The watcher *)

Section Watch.
Context `{NetLib, JsonLib}.
Context {C RS : Type}.
Variable parse_rule_file : string -> option (list (RuleRaw C)).
Variable parse_rule_list : string -> option (list (RuleRaw C)).
Variable compile : list (RuleRaw C) -> result RuleError RS.
Variable addr : string.

Notation step := (watch_step parse_rule_file parse_rule_list compile addr).
Notation run := (watch parse_rule_file parse_rule_list compile addr).

(** What the next turn sees: the index of its poll, if there is a response, and the
    outcome of the load it starts when that index is a new one. *)
Definition polled (w : Watcher (RS := RS)) : option Z :=
  (fun resp => new_index resp (last_index w)) <$> (http_get (poll_url addr (last_index w)) (world w)).1.
Definition loaded (w : Watcher (RS := RS)) : result RuleError RS :=
  (load_from_consul parse_rule_file parse_rule_list compile addr
     (http_get (poll_url addr (last_index w)) (world w)).2).1.

Lemma step_spec (w : Watcher (RS := RS)) :
  match polled w with
  | Some i =>
    if i =? last_index w then last_index (step w) = last_index w /\ current (step w) = current w
    else last_index (step w) = i /\
         current (step w) = match loaded w with Ok rs => rs | Err _ => current w end
  | None => last_index (step w) = last_index w /\ current (step w) = current w
  end.
Proof.
  unfold watch_step, polled, loaded. destruct (http_get _ (world w)) as [[resp|] n]; cbn; [|done].
  destruct (Z.eqb_spec (new_index resp (last_index w)) (last_index w)); [done|].
  by destruct (load_from_consul _ _ _ _ n) as [[rs|e] n'].
Qed.

Lemma run_S k w : run (S k) w = step (run k w).
Proof. done. Qed.

(** A turn that has seen the index of its poll changes nothing. *)
Lemma step_idle (w : Watcher (RS := RS)) :
  (forall i, polled w = Some i -> i = last_index w) ->
  last_index (step w) = last_index w /\ current (step w) = current w.
Proof.
  intros Hp. pose proof (step_spec w) as Hs. destruct (polled w) as [i|]; [|done].
  rewrite (Hp i eq_refl), Z.eqb_refl in Hs. done.
Qed.

Lemma run_idle w N I :
  last_index (run N w) = I ->
  (forall m i, (N <= m)%nat -> polled (run m w) = Some i -> i = I) ->
  forall m, (N <= m)%nat -> last_index (run m w) = I /\ current (run m w) = current (run N w).
Proof.
  intros HI Hp m Hm. induction Hm as [|m Hm [IHi IHc]]; [done|]. rewrite run_S.
  destruct (step_idle (run m w)) as [Hi Hc]; [|by rewrite Hi, Hc].
  intros i Hi. rewrite IHi. by eapply Hp.
Qed.

(** Before the first poll that answers nothing changes, and there is one. *)
Lemma run_until_poll w N k :
  (N <= k)%nat -> polled (run k w) <> None ->
  exists m, (N <= m)%nat /\ polled (run m w) <> None /\
    last_index (run m w) = last_index (run N w) /\ current (run m w) = current (run N w).
Proof.
  intros Hk. remember (k - N)%nat as d eqn:Hd. revert N Hk Hd. induction d as [|d IH]; intros N Hk Hd Hp.
  - assert (k = N) as -> by lia. eauto.
  - destruct (polled (run N w)) as [i|] eqn:HN; [exists N; rewrite HN; eauto|].
    destruct (IH (S N) ltac:(lia) ltac:(lia) Hp) as (m & Hm & Hpm & Hi & Hc).
    destruct (step_idle (run N w)) as [Hi' Hc']; [by rewrite HN|].
    exists m. rewrite Hi, Hc, run_S. split; [lia|done].
Qed.
End Watch.

(** The watcher is live: once the store stays at an index the watcher has not seen, every
    load of it gives the rule set [rs], and polls keep being answered now and then, the
    evaluator gets [rs] after finitely many turns and keeps it for ever. *)
Theorem watcher_delivers `{NetLib, JsonLib} {C RS} pf pl (compile : list (RuleRaw C) -> result RuleError RS) addr w N I rs :
  last_index (watch pf pl compile addr N w) <> I ->
  (forall m i, (N <= m)%nat -> polled addr (watch pf pl compile addr m w) = Some i -> i = I) ->
  (forall m, (N <= m)%nat -> polled addr (watch pf pl compile addr m w) = Some I ->
     loaded pf pl compile addr (watch pf pl compile addr m w) = Ok rs) ->
  (forall m, exists k, (m <= k)%nat /\ polled addr (watch pf pl compile addr k w) <> None) ->
  exists M, (N <= M)%nat /\ forall m, (M <= m)%nat ->
    current (watch pf pl compile addr m w) = rs /\ last_index (watch pf pl compile addr m w) = I.
Proof.
  intros Hnew Hidx Hload Hfair. destruct (Hfair N) as (k & Hk & Hp).
  destruct (run_until_poll pf pl compile addr w N k Hk Hp) as (m & Hm & Hpm & Hi & _).
  set (v := watch pf pl compile addr m w) in *.
  destruct (polled addr v) as [i|] eqn:Hpi; [|done]. assert (i = I) as -> by (by eapply Hidx).
  pose proof (step_spec pf pl compile addr v) as Hs. rewrite Hpi, Hi in Hs.
  rewrite (proj2 (Z.eqb_neq I (last_index (watch pf pl compile addr N w)))) in Hs by congruence.
  unfold v in Hs. rewrite (Hload m Hm Hpi) in Hs. destruct Hs as [HI Hc]. exists (S m). split; [lia|].
  intros m' Hm'. destruct (run_idle pf pl compile addr w (S m) I HI) with (m := m') as [Hi' Hc']; [|done|].
  - intros q j Hq. apply Hidx. lia.
  - rewrite Hc'. by split.
Qed.

(** A reload that fails is not retried: if a turn sees a new index and the load fails, the
    old rules stay for as long as the store stays at that index, whatever a load would
    give by then. *)
Theorem failed_reload_not_retried `{NetLib, JsonLib} {C RS} pf pl (compile : list (RuleRaw C) -> result RuleError RS) addr w N I e :
  polled addr (watch pf pl compile addr N w) = Some I ->
  loaded pf pl compile addr (watch pf pl compile addr N w) = Err e ->
  (forall m i, (N < m)%nat -> polled addr (watch pf pl compile addr m w) = Some i -> i = I) ->
  forall m, (N <= m)%nat -> current (watch pf pl compile addr m w) = current (watch pf pl compile addr N w).
Proof.
  intros Hp Hl Hidx m Hm. pose proof (step_spec pf pl compile addr (watch pf pl compile addr N w)) as Hs.
  rewrite Hp, Hl in Hs.
  assert (HS : last_index (watch pf pl compile addr (S N) w) = I /\
               current (watch pf pl compile addr (S N) w) = current (watch pf pl compile addr N w)).
  { rewrite run_S. destruct (Z.eqb_spec I (last_index (watch pf pl compile addr N w))) as [->|]; exact Hs. }
  destruct HS as [HI Hc]. apply Nat.lt_eq_cases in Hm as [Hm| ->]; [|done].
  destruct (run_idle pf pl compile addr w (S N) I HI) with (m := m) as [_ Hc']; [|lia|congruence].
  intros q j Hq. apply Hidx. lia.
Qed.

(** The watcher is safe: at every time the rules in force are those it started with or the
    result of the last load that succeeded; no failure of a request, of the store's
    contents or of the compiler changes them. *)
Theorem watcher_keeps_last_good `{NetLib, JsonLib} {C RS} pf pl (compile : list (RuleRaw C) -> result RuleError RS) addr w n :
  let reloads k := exists i rs, polled addr (watch pf pl compile addr k w) = Some i /\
                     i <> last_index (watch pf pl compile addr k w) /\
                     loaded pf pl compile addr (watch pf pl compile addr k w) = Ok rs in
  ((forall k, (k < n)%nat -> ~ reloads k) /\ current (watch pf pl compile addr n w) = current w) \/
  exists k, (k < n)%nat /\ reloads k /\ (forall j, (k < j < n)%nat -> ~ reloads j) /\
    Ok (current (watch pf pl compile addr n w)) = loaded pf pl compile addr (watch pf pl compile addr k w).
Proof.
  intros reloads.
  assert (Hstep : forall m, (exists rs, loaded pf pl compile addr (watch pf pl compile addr m w) = Ok rs /\ reloads m /\
                               current (watch pf pl compile addr (S m) w) = rs) \/
                            (~ reloads m /\ current (watch pf pl compile addr (S m) w) = current (watch pf pl compile addr m w))).
  { intros m. rewrite run_S. set (v := watch pf pl compile addr m w).
    pose proof (step_spec pf pl compile addr v) as Hs. unfold reloads. fold v.
    destruct (polled addr v) as [i|] eqn:Hp; [|right; split; [intros (?&?&?&_); congruence|apply Hs]].
    destruct (Z.eqb_spec i (last_index v)) as [Heq|Hne].
    - right. split; [intros (?&?&?&?&_); congruence|apply Hs].
    - destruct (loaded pf pl compile addr v) as [rs|e] eqn:Hl.
      + left. exists rs. split; [done|]. split; [by exists i, rs|apply Hs].
      + right. split; [intros (?&?&?&?&?); congruence|apply Hs]. }
  induction n as [|n IH]; [left; split; [lia|done]|].
  destruct (Hstep n) as [(rs & Hl & Hr & Hc)|[Hn Hc]].
  - right. exists n. split; [lia|]. split; [done|]. split; [lia|by rewrite Hc].
  - rewrite Hc. destruct IH as [[Hall Heq]|(k & Hk & Hr & Hlast & Heq)].
    + left. split; [|done]. intros k Hk. destruct (decide (k = n)) as [->|]; [done|apply Hall; lia].
    + right. exists k. split; [lia|]. split; [done|]. split; [|done].
      intros j Hj. destruct (decide (j = n)) as [->|]; [done|apply Hlast; lia].
Qed.

(** * A sample store *)

Inductive jtree : Type :=
| JBool (b : bool) | JNum (n : Z) | JStr (s : string)
| JArr (l : list jtree) | JObj (m : list (string * jtree)).

Fixpoint jtree_dec (a b : jtree) {struct a} : {a = b} + {a <> b}.
Proof.
  destruct a as [x|x|x|l|m], b as [y|y|y|l'|m']; try (right; congruence).
  - destruct (decide (x = y)) as [->|]; [by left|right; congruence].
  - destruct (decide (x = y)) as [->|]; [by left|right; congruence].
  - destruct (decide (x = y)) as [->|]; [by left|right; congruence].
  - destruct (List.list_eq_dec jtree_dec l l') as [->|]; [by left|right; congruence].
  - assert (Hp : forall p q : string * jtree, {p = q} + {p <> q}).
    { intros [k v] [k' v']. destruct (decide (k = k')) as [->|]; [|right; congruence].
      destruct (jtree_dec v v') as [->|]; [by left|right; congruence]. }
    destruct (List.list_eq_dec Hp m m') as [->|]; [by left|right; congruence].
Defined.
#[export] Instance jtree_eq_dec : EqDecision jtree := jtree_dec.

Definition jtree_object (j : jtree) : option (gmap string jtree) :=
  match j with JObj m => Some (list_to_map m) | _ => None end.
(** The text of a value: its members in the order of the map. *)
Definition jtree_text (j : jtree) : jtree :=
  match jtree_object j with Some m => JObj (map_to_list m) | None => j end.

Lemma jtree_text_inj a b : jtree_text a = jtree_text b -> jtree_object a = jtree_object b.
Proof.
  unfold jtree_text. destruct a as [?|?|?|?|m], b as [?|?|?|?|m']; cbn [jtree_object]; try (intros [=]; done).
  intros [= Hm]. apply (f_equal (list_to_map (M := gmap string jtree))) in Hm.
  rewrite !list_to_map_to_list in Hm. by rewrite Hm.
Qed.

Lemma jtree_text_object j m : jtree_object j = Some m -> jtree_text (JObj (map_to_list m)) = jtree_text j.
Proof. unfold jtree_text. intros ->. cbn [jtree_object]. by rewrite list_to_map_to_list. Qed.

(** Documents of the sample: two files, and the texts of the store. *)
Definition sample_default (id : string) (priority : Z) : jtree :=
  JObj [("id", JStr id); ("priority", JNum priority)].
Definition sample_document (text : string) : option jtree :=
  if String.eqb text "global" then Some (JObj [("rules", JArr [sample_default "sqli" 10; sample_default "xss" 20])])
  else if String.eqb text "high" then Some (JArr [sample_default "ssrf" 30])
  else None.

(** An operator's rule and a default one. *)
Definition sample_store : list jtree :=
  [JObj [("id", JStr "custom"); ("enabled", JBool false)];
   JObj [("id", JStr "xss"); ("is_default", JBool true); ("enabled", JBool false); ("updated_ms", JNum 5)]].

Definition sample_json_with (entries : list (string * option string)) : JsonLib := {|
  json := jtree;
  json_get k j := m ← jtree_object j; m !! k;
  json_as_str j := match j with JStr s => Some s | _ => None end;
  json_as_bool j := match j with JBool b => Some b | _ => None end;
  json_as_array j := match j with JArr l => Some l | _ => None end;
  json_as_object := jtree_object;
  json_object m := JObj (map_to_list m);
  json_bool := JBool;
  json_string := JStr;
  json_number := JNum;
  json_text := jtree;
  json_text_dec := jtree_eq_dec;
  json_to_string := jtree_text;
  json_key_values text := if String.eqb text "entries" then Some entries else None;
  json_values text := if String.eqb text "entries" then Some (map snd entries) else None;
  yaml_json := sample_document;
  yaml_json_list text := if String.eqb text "rules" then Some sample_store else None;
  yaml_of_json_list _ := Some "rules";
  b64_decode text := if String.eqb text "cnVsZXM=" then Some "rules" else None;
  json_get_object k j := eq_refl;
  json_as_object_object m := f_equal Some (list_to_map_to_list m);
  json_as_bool_bool b := eq_refl;
  json_number_inj n m := ltac:(intros [=]; assumption);
  json_to_string_object j m := jtree_text_object j m;
  json_to_string_inj a b := jtree_text_inj a b
|}.

Definition sample_entries : list (string * option string) :=
  [("waf/rules/rules.yaml", Some "cnVsZXM="); ("waf/rules/notes.txt", Some "!")].
Definition sample_json : JsonLib := sample_json_with sample_entries.

Definition sample_response (body : string) (index : string) : HttpResponse :=
  mkHttpResponse true (fun name => if String.eqb name "X-Consul-Index" then Some index else None) body.
(** The world counts the requests: the first is lost, the store is at index 7 from then
    on. *)
Definition sample_net : NetLib := {|
  net := nat;
  http_get url t :=
    (match t with
     | O => None
     | _ => Some (sample_response "entries" "7")
     end, S t);
  http_put url body t := (true, S t);
  http_delete url t := (true, S t);
  sleep _ t := t
|}.

Section Sample.
Local Existing Instances plain_unicode sample_json sample_net.

Definition sample_rules_of (text : string) : option (list (RuleRaw ConditionNode)) :=
  if String.eqb text "rules" then Some [sample_raw "blocked" 10 (CLeaf (sample_leaf FPath MExact "/admin")) ActBlock] else None.
Definition sample_compile (raw : list (RuleRaw ConditionNode)) : result RuleError (list string) := Ok (map raw_id raw).
Definition sample_watcher (last : Z) (t : nat) : Watcher := mkWatcher last ["old"] t.

Lemma sample_polled {RS} (v : Watcher (RS := RS)) :
  polled "http://consul" v = match world v with O => None | S _ => Some 7 end.
Proof. unfold polled. cbn [http_get sample_net fst]. by destruct (world v). Qed.

Lemma sample_loaded (v : Watcher (RS := list string)) compile :
  loaded sample_rules_of sample_rules_of compile "http://consul" v =
  compile [sample_raw "blocked" 10 (CLeaf (sample_leaf FPath MExact "/admin")) ActBlock].
Proof. unfold loaded. cbn [http_get sample_net snd]. cbv -[sample_raw sample_leaf]. by destruct (compile _). Qed.

Lemma sample_step_world {J : JsonLib} {C RS} pf pl (compile : list (RuleRaw C) -> result RuleError RS) v :
  exists t, world (watch_step (H0 := J) pf pl compile "http://consul" v) = S t.
Proof.
  unfold watch_step. cbn [http_get sample_net]. destruct (world v) as [|t]; [by exists 0%nat|].
  destruct (_ =? _); [by eexists|]. destruct (load_from_consul _ _ _ _ _) as [r n] eqn:Hl.
  assert (Hn : exists t, n = S t :> nat) by (inversion Hl; by eexists). destruct Hn as [t1 ->], r; by eexists.
Qed.

Lemma sample_run_polled {J : JsonLib} {C RS} pf pl (compile : list (RuleRaw C) -> result RuleError RS) m w :
  polled "http://consul" (watch (H0 := J) pf pl compile "http://consul" (S m) w) = Some 7.
Proof.
  rewrite sample_polled, run_S. by destruct (sample_step_world pf pl compile (watch (H0 := J) pf pl compile "http://consul" m w)) as [t ->].
Qed.

(** The first poll is lost, the second gets the new rules. *)
Lemma watcher_delivers_witness :
  exists M, (0 <= M)%nat /\ forall m, (M <= m)%nat ->
    let w := watch sample_rules_of sample_rules_of sample_compile "http://consul" m (sample_watcher 0 0%nat) in
    current w = ["blocked"] /\ last_index w = 7.
Proof.
  apply (watcher_delivers sample_rules_of sample_rules_of sample_compile "http://consul" (sample_watcher 0 0%nat) 0 7 ["blocked"]).
  - discriminate.
  - intros [|m] i _; [discriminate|]. rewrite sample_run_polled. congruence.
  - intros m _ _. by rewrite sample_loaded.
  - intros m. exists (S m). rewrite sample_run_polled. split; [lia|discriminate].
Defined.

Definition sample_reject (_ : list (RuleRaw ConditionNode)) : result RuleError (list string) := Err (DuplicateId "blocked").
Lemma failed_reload_not_retried_witness :
  current (watch sample_rules_of sample_rules_of sample_reject "http://consul" 1000 (sample_watcher 0 0%nat)) = ["old"].
Proof.
  rewrite (failed_reload_not_retried sample_rules_of sample_rules_of sample_reject "http://consul" (sample_watcher 0 0%nat) 1 7 (DuplicateId "blocked")
             (sample_run_polled sample_rules_of sample_rules_of sample_reject 0 (sample_watcher 0 0%nat))
             (sample_loaded (watch sample_rules_of sample_rules_of sample_reject "http://consul" 1 (sample_watcher 0 0%nat)) sample_reject)
             ltac:(intros [|k] i Hk; [lia|rewrite sample_run_polled; congruence]) 1000 ltac:(lia)).
  reflexivity.
Defined.

End Sample.
