(* ===== verification/Seed.v ===== *)
(** Seeding the Consul store with the default rules of the YAML files
    ([seed_rules_to_consul] of [src/rule/loader.rs] and [src/optimized_rule/loader.rs],
    the same text in both). *)
From S2P Require Import Prelude Utf8 RustStd Net Extern WafTypes RuleTypes RuleEngine Consul.
Local Open Scope Z_scope.

Section Seed.
Context `{UnicodeTables, NetLib, JsonLib}.
Variable fs : FileSystem.
Variable join : string -> string -> string.
Variable consul_addr : string.

(** The rules of [waf/rules/rules.yaml]; none when any step fails. *)
Definition fetch_existing (n : net) : list json * net :=
  let '(resp, n) := http_get (consul_addr +:+ "/v1/kv/waf/rules/rules.yaml") n in
  (default [] (r ← resp;
               if resp_success r then
                 kvs ← json_values (resp_body r);
                 kv ← head kvs;
                 encoded_val ← kv;
                 decoded ← b64_decode encoded_val;
                 content ← from_utf8 decoded;
                 yaml_json_list content
               else None), n).

(** [r.get("id").and_then(|v| v.as_str())], [r.get("is_default")...] *)
Definition json_id (r : json) : option string := json_get "id" r ≫= json_as_str.
Definition is_default (r : json) : bool := bool_decide ((json_get "is_default" r ≫= json_as_bool) = Some true).

Definition stamp (now_ms : Z) (tier_name : string) (obj : gmap string json) : gmap string json :=
  let obj := if bool_decide (is_Some (obj !! "enabled")) then obj else <["enabled" := json_bool true]> obj in
  <["updated_ms" := json_number now_ms]>
    (<["source" := json_string "system"]>
       (<["tier" := json_string tier_name]>
          (<["is_default" := json_bool true]> obj))).

(** [rule_data]: a default rule with the fields the seeding sets. *)
Definition rule_data (now_ms : Z) (tier_name : string) (dr : json) : json :=
  match json_as_object dr with
  | Some obj => json_object (stamp now_ms tier_name obj)
  | None => dr
  end.

Definition new_rule (now_ms : Z) (data : json) : json :=
  match json_as_object data with
  | Some obj =>
    json_object (<["created_by" := json_string "system"]> (<["created_ms" := json_number now_ms]> obj))
  | None => data
  end.

(** Every entry of [data] inserted into the existing rule. *)
Definition merge_into (existing_rule data : json) : json :=
  match json_as_object existing_rule, json_as_object data with
  | Some m_obj, Some r_obj => json_object (r_obj ∪ m_obj)
  | _, _ => existing_rule
  end.

(** The merge of one default rule into the list. *)
Definition merge_rule (now_ms : Z) (st : list json * bool) (rule : string * json) : list json * bool :=
  let '(existing_rules, changed) := st in
  let '(id, data) := rule in
  match list_find (fun r => json_id r = Some id) existing_rules with
  | None => (existing_rules ++ [new_rule now_ms data], true)
  | Some (idx, existing_rule) =>
    if is_default existing_rule then
      let merged := merge_into existing_rule data in
      if bool_decide (json_to_string merged = json_to_string existing_rule) then (existing_rules, changed)
      else (<[idx := merged]> existing_rules, true)
    else (existing_rules, changed)
  end.

Definition merge_default (now_ms : Z) (tier_name : string) (st : list json * bool) (dr : json) : list json * bool :=
  match json_id dr with
  | Some id => merge_rule now_ms st (id, rule_data now_ms tier_name dr)
  | None => st
  end.

(** [name.split('.').next().unwrap_or("").to_uppercase().replace('-', "_")] *)
Definition tier_of_file (name : string) : string :=
  str_replace (to_uppercase (default "" (head (split_char "." name)))) "-" "_".

(** The rules of one default file; [None] when it is skipped. *)
Definition default_rules (rules_dir name : string) : option (list json) :=
  let file_path := join rules_dir name in
  if negb (fs_exists fs file_path) then None
  else
    content ← fs_read fs file_path;
    parsed ← yaml_json content;
    match json_get "rules" parsed ≫= json_as_array with
    | Some arr => Some arr
    | None => json_as_array parsed
    end.

Definition merge_file (now_ms : Z) (rules_dir : string) (st : list json * bool) (name : string) : list json * bool :=
  match default_rules rules_dir name with
  | Some rules => foldl (merge_default now_ms (tier_of_file name)) st rules
  | None => st
  end.

Definition old_files : list string := ["all.yaml"; "critical.yaml"; "high.yaml"; "medium.yaml"; "catch-all.yaml"].

(** The cleanup of one deprecated key. *)
Definition cleanup_key (n : net) (file : string) : net :=
  let url := consul_addr +:+ "/v1/kv/" +:+ ("waf/rules/" +:+ file) in
  let '(check_resp, n) := http_get url n in
  match check_resp with
  | Some r => if resp_success r then (http_delete url n).2 else n
  | None => n
  end.
Definition cleanup (n : net) : net := foldl cleanup_key n old_files.

Definition seed_rules_to_consul (now_ms : Z) (rules_dir : string) (n : net) : result RuleError unit * net :=
  if negb (fs_exists fs rules_dir) then (Ok tt, n)
  else
    let '(existing_rules, n) := fetch_existing n in
    let '(existing_rules, changed) := foldl (merge_file now_ms rules_dir) (existing_rules, false) file_names in
    if changed then
      match yaml_of_json_list existing_rules with
      | None => (Err (IoError "serialize rules"), n)
      | Some body =>
        let '(sent, n) := http_put (consul_addr +:+ "/v1/kv/waf/rules/rules.yaml") body n in
        if sent then (Ok tt, cleanup n) else (Err (IoError "consul:waf/rules/rules.yaml"), n)
      end
    else (Ok tt, cleanup n).
End Seed.

(** * One default rule after the other *)

Section SeedSpec.
Context `{UnicodeTables, NetLib, JsonLib}.

(** A default rule as the merge gets it: its id, and an object that holds it, without
    the members that the creation of a rule sets. *)
Definition stamped (now : Z) (rule : string * json) : Prop :=
  exists d, json_as_object rule.2 = Some d /\ json_id rule.2 = Some rule.1 /\
    is_default rule.2 = true /\ d !! "updated_ms" = Some (json_number now) /\
    d !! "created_ms" = None /\ d !! "created_by" = None.

(** The members of [data] are members of [r]. *)
Definition holds_fields (data r : json) : Prop :=
  exists d m, json_as_object data = Some d /\ json_as_object r = Some m /\ d ⊆ m.

(** The first rule of the list with an id. *)
Definition first_rule (id : string) (l : list json) : option (nat * json) :=
  list_find (fun r => json_id r = Some id) l.

(** The list has the rule: an operator's rule of that id, or one with all members of
    the default. *)
Definition settled (l : list json) (rule : string * json) : Prop :=
  exists i r, first_rule rule.1 l = Some (i, r) /\ (is_default r = true -> holds_fields rule.2 r).

Lemma json_get_Some k j v m : json_as_object j = Some m -> json_get k j = Some v <-> m !! k = Some v.
Proof. intros Hm. rewrite json_get_object, Hm. done. Qed.

Lemma holds_fields_get data r k v : holds_fields data r -> json_get k data = Some v -> json_get k r = Some v.
Proof.
  intros (d & m & Hd & Hm & Hs). rewrite (json_get_Some k data v d), (json_get_Some k r v m) by done.
  intros Hk. by eapply lookup_weaken.
Qed.

Lemma holds_fields_id data r id : holds_fields data r -> json_id data = Some id -> json_id r = Some id.
Proof.
  intros Hf. unfold json_id. destruct (json_get "id" data) as [v|] eqn:Hg; [|done]. by rewrite (holds_fields_get _ _ _ _ Hf Hg).
Qed.

Lemma holds_fields_default data r : holds_fields data r -> is_default data = true -> is_default r = true.
Proof.
  intros Hf. unfold is_default. rewrite !bool_decide_eq_true.
  destruct (json_get "is_default" data) as [v|] eqn:Hg; [|done]. by rewrite (holds_fields_get _ _ _ _ Hf Hg).
Qed.

Lemma merge_into_holds now rule r :
  stamped now rule -> is_default r = true -> holds_fields rule.2 (merge_into r rule.2).
Proof.
  intros (d & Hd & _) Hr. unfold merge_into. rewrite Hd. destruct (json_as_object r) as [m|] eqn:Hm.
  - exists d, (d ∪ m). rewrite json_as_object_object. split; [done|]. split; [done|]. apply map_union_subseteq_l.
  - unfold is_default in Hr. rewrite json_get_object, Hm in Hr. by apply bool_decide_eq_true in Hr.
Qed.

Lemma merge_into_same data r :
  holds_fields data r -> json_to_string (merge_into r data) = json_to_string r.
Proof.
  intros (d & m & Hd & Hm & Hs). unfold merge_into. rewrite Hd, Hm. rewrite (map_subseteq_union _ _ Hs).
  by apply json_to_string_object.
Qed.

Lemma new_rule_holds now rule now' : stamped now rule -> holds_fields rule.2 (new_rule now' rule.2).
Proof.
  intros (d & Hd & _ & _ & _ & Hc1 & Hc2). unfold new_rule. rewrite Hd. eexists d, _.
  rewrite json_as_object_object. split; [done|]. split; [done|].
  apply insert_subseteq_r; [done|]. by apply insert_subseteq_r.
Qed.

(** A change of the first rule of an id to one of the same id leaves the first rules of
    the other ids where they are. *)
Lemma first_rule_insert id0 id l i r r' x :
  id0 <> id -> first_rule id l = Some (i, r) -> json_id r' = Some id ->
  first_rule id0 l = Some x -> first_rule id0 (<[i := r']> l) = Some x.
Proof.
  intros Hne (Hl & Hr & _)%list_find_Some Hr' Hx. destruct x as [j y].
  apply list_find_Some in Hx as (Hj & Hy & Hbefore). apply list_find_Some.
  assert (i <> j) by (intros ->; congruence).
  rewrite list_lookup_insert_ne by done. repeat (split; [done|]).
  intros k z Hk Hkj. destruct (decide (i = k)) as [<-|Hik].
  - rewrite list_lookup_insert_eq in Hk by (by eapply lookup_lt_Some). injection Hk as <-. congruence.
  - rewrite list_lookup_insert_ne in Hk by done. by eapply Hbefore.
Qed.

Lemma first_rule_replaced id l i r r' :
  first_rule id l = Some (i, r) -> json_id r' = Some id -> first_rule id (<[i := r']> l) = Some (i, r').
Proof.
  intros (Hl & Hr & Hbefore)%list_find_Some Hr'. apply list_find_Some.
  rewrite list_lookup_insert_eq by (by eapply lookup_lt_Some). repeat (split; [done|]).
  intros k z Hk Hki. rewrite list_lookup_insert_ne in Hk by lia. by eapply Hbefore.
Qed.

Lemma first_rule_app id l t x : first_rule id l = Some x -> first_rule id (l ++ t) = Some x.
Proof. destruct x as [i r]. apply list_find_app_l. Qed.

Lemma first_rule_pushed id l r :
  first_rule id l = None -> json_id r = Some id -> first_rule id (l ++ [r]) = Some (length l, r).
Proof.
  intros Hn Hr. unfold first_rule in *. rewrite list_find_app_r by done. cbn. by rewrite decide_True by done.
Qed.

(** One merge. *)
Lemma merge_rule_settles now l ch rule l' ch' :
  stamped now rule -> merge_rule now (l, ch) rule = (l', ch') ->
  settled l' rule /\
  (forall id0 x, id0 <> rule.1 -> first_rule id0 l = Some x -> first_rule id0 l' = Some x) /\
  (ch = true -> ch' = true) /\
  (settled l rule -> l' = l /\ ch' = ch).
Proof.
  intros Hst. destruct rule as [id data]. unfold merge_rule. fold (first_rule id l).
  assert (Hid : json_id data = Some id) by (by destruct Hst as (? & _ & ? & _)).
  destruct (first_rule id l) as [[i r]|] eqn:Hf; cbn [fst snd].
  - assert (Hidr : json_id r = Some id) by by apply list_find_Some in Hf as (_ & ? & _).
    destruct (is_default r) eqn:Hdef.
    + pose proof (merge_into_holds now (id, data) r Hst Hdef) as Hm. cbn [snd] in Hm.
      case_bool_decide as Heq; intros [= <- <-].
      * apply json_to_string_inj in Heq. split; [|done]. exists i, r. split; [done|]. intros _.
        destruct Hm as (d & m & ? & ? & ?). exists d, m. by rewrite <-Heq.
      * assert (Hidm : json_id (merge_into r data) = Some id) by by eapply holds_fields_id.
        split; [exists i, (merge_into r data); split; [by eapply first_rule_replaced|done]|].
        split; [intros id0 x Hne; by eapply first_rule_insert|]. split; [done|].
        intros (j & r' & Hf' & Hh). cbn [fst snd] in *. rewrite Hf in Hf'. injection Hf' as <- <-.
        destruct Heq. by apply merge_into_same, Hh.
    + intros [= <- <-]. split; [exists i, r; split; [done|congruence]|done].
  - intros [= <- <-]. pose proof (new_rule_holds now (id, data) now Hst) as Hm. cbn [snd] in Hm.
    assert (Hidm : json_id (new_rule now data) = Some id) by by eapply holds_fields_id.
    split; [eexists _, _; split; [by apply first_rule_pushed|done]|].
    split; [intros id0 x _; apply first_rule_app|]. split; [done|].
    intros (j & r' & Hf' & _). cbn [fst] in Hf'. congruence.
Qed.

(** All the merges, when no two defaults have one id. *)
Lemma merge_rules_settle now defs l ch l' ch' :
  Forall (stamped now) defs -> NoDup (map fst defs) -> foldl (merge_rule now) (l, ch) defs = (l', ch') ->
  Forall (settled l') defs /\
  (forall id0 x, (id0 ∉ map fst defs) -> first_rule id0 l = Some x -> first_rule id0 l' = Some x) /\
  (ch = true -> ch' = true) /\
  (Forall (settled l) defs -> l' = l /\ ch' = ch).
Proof.
  intros Hst. revert l ch. induction Hst as [|rule defs Hrule _ IH]; intros l ch Hnd; cbn [foldl map].
  { intros [= <- <-]. split; [constructor|done]. }
  apply NoDup_cons in Hnd as [Hni Hnd]. destruct (merge_rule now (l, ch) rule) as [l1 ch1] eqn:Hm.
  intros Hf. destruct (merge_rule_settles _ _ _ _ _ _ Hrule Hm) as (Hs & Hother & Hch & Hsame).
  destruct (IH _ _ Hnd Hf) as (Hs' & Hother' & Hch' & Hsame'). split; [|split; [|split]].
  - constructor; [|done]. destruct Hs as (i & r & Hfr & Hd). exists i, r. split; [|done].
    by apply Hother'.
  - intros id0 x Hid Hx. apply not_elem_of_cons in Hid as [Hne Hid].
    apply Hother'; [exact Hid|]. by apply (Hother id0 x Hne).
  - auto.
  - intros [Hr Hall]%List.Forall_cons_iff. destruct (Hsame Hr) as [-> ->]. by apply Hsame'.
Qed.

(** A default rule with the stamp of another time is rewritten. *)
Lemma merge_rules_restamp now defs l ch l' ch' rule i r :
  Forall (stamped now) defs -> NoDup (map fst defs) -> foldl (merge_rule now) (l, ch) defs = (l', ch') ->
  In rule defs -> first_rule rule.1 l = Some (i, r) -> is_default r = true ->
  json_get "updated_ms" r <> Some (json_number now) -> ch' = true.
Proof.
  intros Hst. revert l ch. induction Hst as [|x defs Hx Hst IH]; intros l ch Hnd; cbn [foldl map]; [by intros _ []|].
  apply NoDup_cons in Hnd as [Hni Hnd]. destruct (merge_rule now (l, ch) x) as [l1 ch1] eqn:Hm.
  intros Hf Hin Hfr Hdef Hold. destruct (merge_rule_settles _ _ _ _ _ _ Hx Hm) as (_ & Hother & _).
  destruct Hin as [->|Hin].
  - destruct (merge_rules_settle _ _ _ _ _ _ Hst Hnd Hf) as (_ & _ & Hch & _). apply Hch.
    destruct rule as [id data]. unfold merge_rule in Hm. unfold first_rule in Hfr. cbn [fst] in Hfr.
    rewrite Hfr, Hdef in Hm. case_bool_decide as Heq; [|by injection Hm as _ <-]. exfalso. apply Hold.
    pose proof (merge_into_holds now (id, data) r Hx Hdef) as Hh. cbn [snd] in Hh.
    destruct Hx as (d & Hd & _ & _ & Hu & _). cbn [snd] in Hd.
    apply json_to_string_inj in Heq. rewrite json_get_object, <-Heq, <-json_get_object.
    eapply holds_fields_get; [exact Hh|]. by apply (json_get_Some _ _ _ _ Hd).
  - apply (IH l1 ch1 Hnd Hf Hin); [|done..]. apply Hother; [|done].
    intros Heq. apply Hni. rewrite <-Heq, list_elem_of_In. by apply in_map.
Qed.

(** Merged rules are marked as default. *)
Lemma merge_rules_default now defs l ch l' ch' :
  Forall (stamped now) defs -> foldl (merge_rule now) (l, ch) defs = (l', ch') ->
  Forall (fun r => is_default r = true) l -> Forall (fun r => is_default r = true) l'.
Proof.
  intros Hst. revert l ch. induction Hst as [|[id data] defs Hd _ IH]; intros l ch; cbn [foldl]; [by intros [= <- _]|].
  destruct (merge_rule now (l, ch) (id, data)) as [l1 ch1] eqn:Hm. intros Hf Hl. apply (IH l1 ch1 Hf). clear Hf IH.
  assert (Hdef : is_default data = true) by (by destruct Hd as (? & _ & _ & ? & _)).
  unfold merge_rule in Hm. destruct (list_find _ l) as [[j x]|] eqn:Hx.
  - apply list_find_Some in Hx as (Hj & _ & _). destruct (is_default x) eqn:Hxd; [|by injection Hm as <- _].
    case_bool_decide; injection Hm as <- _; [done|]. apply Forall_insert; [done|].
    eapply holds_fields_default; [|exact Hdef]. by apply (merge_into_holds now (id, data)).
  - injection Hm as <- _. apply Forall_app_2; [done|]. constructor; [|constructor].
    eapply holds_fields_default; [|exact Hdef]. by apply (new_rule_holds now (id, data)).
Qed.

(** The merge never touches a rule that is not marked as default. *)
Lemma merge_rules_keep now defs l ch l' ch' i r :
  foldl (merge_rule now) (l, ch) defs = (l', ch') -> l !! i = Some r -> is_default r = false -> l' !! i = Some r.
Proof.
  revert l ch. induction defs as [|[id data] defs IH]; intros l ch; cbn [foldl]; [by intros [= -> _]|].
  destruct (merge_rule now (l, ch) (id, data)) as [l1 ch1] eqn:Hm. intros Hf Hl Hr. apply (IH l1 ch1 Hf); [|done].
  unfold merge_rule in Hm. destruct (list_find _ l) as [[j x]|] eqn:Hx.
  - apply list_find_Some in Hx as (Hj & _ & _). destruct (is_default x) eqn:Hd; [|by injection Hm as <- _].
    case_bool_decide; injection Hm as <- _; [done|].
    assert (i <> j) by (intros ->; congruence). by rewrite list_lookup_insert_ne.
  - injection Hm as <- _. by apply lookup_app_l_Some.
Qed.
End SeedSpec.

(** * The default files *)

Section SeedFiles.
Context `{UnicodeTables, JsonLib}.
Variable fs : FileSystem.
Variable join : string -> string -> string.
Variable rules_dir : string.

(** The default rules of one file, none when it is skipped. *)
Definition file_rules (name : string) : list json := default [] (default_rules fs join rules_dir name).

(** All default rules that have an id, as the merge gets them. *)
Definition file_defaults (now_ms : Z) : list (string * json) :=
  flat_map (fun name =>
    omap (fun dr => id ← json_id dr; Some (id, rule_data now_ms (tier_of_file name) dr)) (file_rules name)) file_names.

(** The list that seeding writes back, and whether it writes it. *)
Definition seeded (now_ms : Z) (existing : list json) : list json * bool :=
  foldl (merge_file fs join now_ms rules_dir) (existing, false) file_names.

(** Default files that are in order: no two rules have one id, and no rule has the
    members that only seeding writes. *)
Definition well_kept : Prop :=
  NoDup (map fst (file_defaults 0)) /\
  forall name dr, In name file_names -> In dr (file_rules name) ->
    json_get "created_ms" dr = None /\ json_get "created_by" dr = None.

Lemma foldl_merge_default now tier st drs :
  foldl (merge_default now tier) st drs =
  foldl (merge_rule now) st (omap (fun dr => id ← json_id dr; Some (id, rule_data now tier dr)) drs).
Proof.
  revert st. induction drs as [|dr drs IH]; intros st; [done|]. cbn [foldl omap list_omap].
  rewrite IH. unfold merge_default at 1. by destruct (json_id dr).
Qed.

Lemma seeded_defaults now existing : seeded now existing = foldl (merge_rule now) (existing, false) (file_defaults now).
Proof.
  unfold seeded, file_defaults. generalize file_names (existing, false). intros names.
  induction names as [|name names IH]; intros st; [done|]. cbn [foldl flat_map]. rewrite foldl_app, IH. f_equal.
  unfold merge_file, file_rules. destruct (default_rules fs join rules_dir name); [apply foldl_merge_default|done].
Qed.

Lemma file_defaults_ids now : map fst (file_defaults now) = map fst (file_defaults 0).
Proof.
  unfold file_defaults. induction file_names as [|name names IH]; [done|]. cbn [flat_map]. rewrite !List.map_app, IH. f_equal.
  induction (file_rules name) as [|dr drs IHd]; [done|]. cbn [omap list_omap].
  destruct (json_id dr); cbn; by rewrite IHd.
Qed.

Lemma stamp_lookup now tier obj k :
  k <> "enabled" -> k <> "updated_ms" -> k <> "source" -> k <> "tier" -> k <> "is_default" ->
  stamp now tier obj !! k = obj !! k.
Proof. intros. unfold stamp. rewrite !lookup_insert_ne by done. case_bool_decide; [done|]. by rewrite lookup_insert_ne. Qed.

Lemma rule_data_stamped now tier dr id :
  json_id dr = Some id -> json_get "created_ms" dr = None -> json_get "created_by" dr = None ->
  stamped now (id, rule_data now tier dr).
Proof.
  intros Hid. unfold rule_data. rewrite !json_get_object. unfold json_id in Hid. rewrite json_get_object in Hid.
  destruct (json_as_object dr) as [obj|] eqn:Hobj; [|done]. cbn in *. intros Hc1 Hc2.
  exists (stamp now tier obj). cbn [fst snd]. unfold json_id, is_default.
  rewrite !json_get_object, json_as_object_object. cbn [mbind option_bind]. split; [done|].
  rewrite (stamp_lookup now tier obj "id"), (stamp_lookup now tier obj "created_ms"),
    (stamp_lookup now tier obj "created_by") by done.
  split; [done|]. split; [|split; [|by split]].
  - apply bool_decide_eq_true. unfold stamp. rewrite !lookup_insert_ne, lookup_insert_eq by done. cbn. apply json_as_bool_bool.
  - unfold stamp. apply lookup_insert_eq.
Qed.

Lemma In_file_defaults now id data :
  In (id, data) (file_defaults now) <->
  exists name dr, In name file_names /\ In dr (file_rules name) /\ json_id dr = Some id /\
    data = rule_data now (tier_of_file name) dr.
Proof.
  unfold file_defaults. rewrite in_flat_map. split.
  - intros (name & Hn & Hin). rewrite <-list_elem_of_In, list_elem_of_omap in Hin. destruct Hin as (dr & Hdr & He).
    destruct (json_id dr) as [i|] eqn:Hi; [|done]. cbn in He. injection He as <- <-.
    apply list_elem_of_In in Hdr. by exists name, dr.
  - intros (name & dr & Hn & Hdr & Hid & ->). exists name. split; [done|].
    apply list_elem_of_In, list_elem_of_omap. exists dr. split; [by apply list_elem_of_In|]. by rewrite Hid.
Qed.

Lemma file_defaults_stamped now : well_kept -> Forall (stamped now) (file_defaults now).
Proof.
  intros [_ Hp]. apply List.Forall_forall. intros [id data] (name & dr & Hn & Hdr & Hid & ->)%In_file_defaults.
  destruct (Hp name dr Hn Hdr). by apply rule_data_stamped.
Qed.

Lemma seeded_settles now existing :
  well_kept ->
  Forall (settled (seeded now existing).1) (file_defaults now) /\
  (Forall (settled existing) (file_defaults now) -> seeded now existing = (existing, false)).
Proof.
  intros Hw. rewrite seeded_defaults. destruct (foldl _ _ _) as [l' ch'] eqn:Hf.
  destruct (merge_rules_settle now _ _ _ _ _ (file_defaults_stamped now Hw) ltac:(rewrite file_defaults_ids; apply Hw) Hf)
    as (Hs & _ & _ & Hsame). split; [exact Hs|]. intros Hall. by destruct (Hsame Hall) as [-> ->].
Qed.
End SeedFiles.

(** * What is written *)

Section Writes.
Context `{UnicodeTables, NetLib, JsonLib}.
Variable fs : FileSystem.
Variable join : string -> string -> string.
Variable dir : string.
Variable addr : string.
Definition rules_key : string := addr +:+ "/v1/kv/waf/rules/rules.yaml".

(** The store answers with a value that decodes to a list of rules. *)
Definition store_read (n : net) (existing : list json) (n1 : net) : Prop :=
  exists r encoded rest decoded content,
    http_get rules_key n = (Some r, n1) /\ resp_success r = true /\ json_values (resp_body r) = Some (Some encoded :: rest) /\
    b64_decode encoded = Some decoded /\ from_utf8 decoded = Some content /\ yaml_json_list content = Some existing.
Lemma store_read_fetched n existing n1 : store_read n existing n1 -> fetch_existing addr n = (existing, n1).
Proof.
  intros (r & enc & rest & dec & content & Hg & Hs & Hv & Hd & Hu & Hl). unfold fetch_existing. fold rules_key. rewrite Hg.
  cbn [mbind option_bind]. rewrite Hs, Hv. cbn [mbind option_bind head]. rewrite Hd. cbn [mbind option_bind]. rewrite Hu.
  cbn [mbind option_bind]. by rewrite Hl.
Qed.

(** How seeding ends: it skips a missing directory, has nothing to change, cannot write
    its list as YAML, or puts a list for which [P] holds. *)
Definition ends_writing (n n1 : net) (P : list json -> Prop) (out : result RuleError unit * net) : Prop :=
  (fs_exists fs dir = false /\ out = (Ok tt, n)) \/
  out = (Ok tt, cleanup addr n1) \/
  out = (Err (IoError "serialize rules"), n1) \/
  exists l body, yaml_of_json_list l = Some body /\ P l /\
    out = (let '(sent, n2) := http_put rules_key body n1 in
           if sent then (Ok tt, cleanup addr n2) else (Err (IoError "consul:waf/rules/rules.yaml"), n2)).

Lemma seeding_ends now n existing n1 (P : list json -> Prop) :
  fetch_existing addr n = (existing, n1) -> P (seeded fs join dir now existing).1 ->
  ends_writing n n1 P (seed_rules_to_consul fs join addr now dir n).
Proof.
  intros Hf HP. unfold seed_rules_to_consul, ends_writing. destruct (fs_exists fs dir); cbn [negb]; [|by left]. right.
  rewrite Hf. fold (seeded fs join dir now existing). destruct (seeded fs join dir now existing) as [l changed].
  destruct changed; [|by left]. right. destruct (yaml_of_json_list l) as [body|] eqn:Hy; [|by left]. right.
  exists l, body. split; [done|]. split; [done|]. fold rules_key. by destruct (http_put rules_key body n1).
Qed.
End Writes.

(** C30: seeding keeps what operators added: when the store answers the request for
    [rules.yaml] with a value that decodes to a list of rules, the list that seeding puts
    under this key, if it puts one, has every rule that is not marked as default unchanged
    and in its place.  After that, or when nothing changed, it only deletes the five keys
    of the older layout. *)
Theorem seeding_keeps_operator_rules `{UnicodeTables, NetLib, JsonLib} fs join dir addr now n existing n1 :
  store_read addr n existing n1 ->
  ends_writing fs dir addr n n1
    (fun l => forall i r, existing !! i = Some r -> is_default r = false -> l !! i = Some r)
    (seed_rules_to_consul fs join addr now dir n).
Proof.
  intros Hread. apply (seeding_ends fs join dir addr now n existing n1); [by apply store_read_fetched|].
  intros i r Hi Hr. rewrite seeded_defaults. destruct (foldl _ _ _) as [l' ch'] eqn:Hf. by eapply merge_rules_keep.
Qed.

(** Seeding takes a store that it cannot read for an empty one: when the request fails,
    or its value is in the form [{rules: [...]}] that loading accepts, the list it puts
    has default rules only, whatever operators have in the store. *)
Theorem unread_store_is_overwritten `{UnicodeTables, NetLib, JsonLib} fs join dir addr now n resp n1 :
  well_kept fs join dir ->
  http_get (rules_key addr) n = (resp, n1) ->
  (forall r encoded rest decoded content, resp = Some r -> json_values (resp_body r) = Some (Some encoded :: rest) ->
     b64_decode encoded = Some decoded -> from_utf8 decoded = Some content -> yaml_json_list content = None) ->
  ends_writing fs dir addr n n1 (fun l => Forall (fun r => is_default r = true) l) (seed_rules_to_consul fs join addr now dir n).
Proof.
  intros Hw Hget Hbad.
  assert (Hf : fetch_existing addr n = ([], n1)).
  { unfold fetch_existing. fold (rules_key addr). rewrite Hget. destruct resp as [r|]; [|done]. cbn [mbind option_bind].
    destruct (resp_success r); [|done]. destruct (json_values (resp_body r)) as [[|[encoded|] rest]|] eqn:Hv; try done.
    cbn [mbind option_bind head]. destruct (b64_decode encoded) as [decoded|] eqn:Hd; [|done]. cbn [mbind option_bind].
    destruct (from_utf8 decoded) as [content|] eqn:Hu; [|done]. cbn [mbind option_bind].
    by rewrite (Hbad r encoded rest decoded content). }
  apply (seeding_ends fs join dir addr now n [] n1); [done|]. rewrite seeded_defaults.
  destruct (foldl _ _ _) as [l' ch'] eqn:Hl. by eapply merge_rules_default; [apply file_defaults_stamped|exact Hl|].
Qed.

(** C31: seeding restores the defaults: when the default files are in order (no two of
    their rules have one id, and none has a member [created_ms] or [created_by]), every
    rule of them with an id is in the list that seeding makes of the one it has read.
    Unless an operator's rule is the first with the id, that rule has every member that
    the file gives it, but for the four that seeding sets itself ([updated_ms], [source],
    [tier], from the name of the file, and [is_default]); so a default rule that an
    operator has disabled is enabled again when the file enables it or does not say. *)
Theorem seeding_restores_defaults `{UnicodeTables, JsonLib} fs join dir now existing name dr id :
  well_kept fs join dir -> In name file_names -> In dr (file_rules fs join dir name) -> json_id dr = Some id ->
  exists i r, first_rule id (seeded fs join dir now existing).1 = Some (i, r) /\
    (is_default r = true ->
       (forall k v, ~ In k ["updated_ms"; "source"; "tier"; "is_default"] ->
          json_get k dr = Some v -> json_get k r = Some v) /\
       json_get "tier" r = Some (json_string (tier_of_file name)) /\
       json_get "updated_ms" r = Some (json_number now) /\
       (json_get "enabled" dr = None -> json_get "enabled" r = Some (json_bool true))).
Proof.
  intros Hw Hn Hdr Hid. destruct (seeded_settles fs join dir now existing Hw) as [Hs _].
  rewrite List.Forall_forall in Hs.
  assert (Hin : In (id, rule_data now (tier_of_file name) dr) (file_defaults fs join dir now))
    by (apply In_file_defaults; by exists name, dr).
  destruct (Hs _ Hin) as (i & r & Hf & Hh).
  exists i, r. split; [exact Hf|]. intros Hd. specialize (Hh Hd). cbn [snd] in Hh.
  pose proof (fun k v => holds_fields_get _ _ k v Hh) as Hget. unfold rule_data in Hget.
  unfold json_id in Hid. rewrite json_get_object in Hid. destruct (json_as_object dr) as [obj|] eqn:Hobj; [|done].
  assert (Hst : forall k v, stamp now (tier_of_file name) obj !! k = Some v -> json_get k r = Some v).
  { intros k v Hk. apply Hget. by rewrite json_get_object, json_as_object_object. }
  split; [|split; [|split]].
  - intros k v Hk. rewrite json_get_object, Hobj. cbn [mbind option_bind]. intros Ho. apply Hst. unfold stamp.
    rewrite !lookup_insert_ne by (intros <-; apply Hk; cbn; tauto).
    case_bool_decide as He; [done|]. rewrite lookup_insert_ne; [done|]. intros <-. destruct He. eauto.
  - apply Hst. unfold stamp. by rewrite !lookup_insert_ne, lookup_insert_eq by done.
  - apply Hst. unfold stamp. by rewrite lookup_insert_eq.
  - rewrite json_get_object, Hobj. cbn [mbind option_bind]. intros He. apply Hst. unfold stamp.
    rewrite !lookup_insert_ne by done. rewrite bool_decide_eq_false_2 by (rewrite He; by intros [? ?]).
    by rewrite lookup_insert_eq.
Qed.

(** Seeding again in the same millisecond changes nothing, but at any other time it
    rewrites the list as soon as one default rule is in it: the time stamp it sets on
    every default rule makes each start of the program a change of the store. *)
Theorem seeding_repeats_writes `{UnicodeTables, JsonLib} fs join dir now existing :
  well_kept fs join dir ->
  let first := (seeded fs join dir now existing).1 in
  seeded fs join dir now first = (first, false) /\
  forall later id data i r, later <> now -> In (id, data) (file_defaults fs join dir now) ->
    first_rule id first = Some (i, r) -> is_default r = true ->
    (seeded fs join dir later first).2 = true.
Proof.
  intros Hw first. destruct (seeded_settles fs join dir now existing Hw) as [Hs _]. fold first in Hs.
  split; [by apply seeded_settles|]. intros later id data i r Hne Hin Hf Hd.
  rewrite List.Forall_forall in Hs. destruct (Hs _ Hin) as (i' & r' & Hf' & Hh). cbn [fst snd] in *.
  rewrite Hf in Hf'. injection Hf' as <- <-. specialize (Hh Hd).
  assert (Hold : json_get "updated_ms" r = Some (json_number now)).
  { eapply holds_fields_get; [exact Hh|]. pose proof (file_defaults_stamped fs join dir now Hw) as Hst.
    rewrite List.Forall_forall in Hst. destruct (Hst _ Hin) as (d & Hdo & _ & _ & Hu & _). cbn [snd] in Hdo.
    by apply (json_get_Some _ _ _ _ Hdo). }
  apply In_file_defaults in Hin as (name & dr & Hn & Hdr & Hid & _).
  rewrite seeded_defaults. destruct (foldl _ _ _) as [l' ch'] eqn:Hl.
  eapply (merge_rules_restamp later _ _ _ _ _ (id, rule_data later (tier_of_file name) dr));
    [by apply file_defaults_stamped|rewrite file_defaults_ids; apply Hw|exact Hl|apply In_file_defaults; by exists name, dr|exact Hf|done|].
  rewrite Hold. intros [= He%json_number_inj]. congruence.
Qed.

(** * A sample store *)

Section Sample.
Local Existing Instances plain_unicode sample_json sample_net.

Definition sample_consul_fs : FileSystem := {|
  fs_exists p := String.eqb p "rules" || String.eqb p "rules/global.yaml" || String.eqb p "rules/high.yaml";
  fs_is_file _ := true;
  fs_read_dir _ := None;
  fs_read p := if String.eqb p "rules/global.yaml" then Some "global"
               else if String.eqb p "rules/high.yaml" then Some "high" else None
|}.
Definition sample_join (dir name : string) : string := dir +:+ "/" +:+ name.
Lemma sample_well_kept : well_kept sample_consul_fs sample_join "rules".
Proof.
  split.
  - apply (bool_decide_unpack _). vm_compute. exact I.
  - intros name dr Hn. cbn [In file_names] in Hn.
    repeat (destruct Hn as [<-|Hn]; [intros Hdr; vm_compute in Hdr; repeat (destruct Hdr as [<-|Hdr]; [by vm_compute|]); done|]).
    done.
Qed.

Lemma seeding_keeps_operator_rules_witness :
  ends_writing sample_consul_fs "rules" "http://consul" 1%nat 2%nat
    (fun l => l !! 0%nat = Some (JObj [("id", JStr "custom"); ("enabled", JBool false)]))
    (seed_rules_to_consul sample_consul_fs sample_join "http://consul" 99 "rules" 1%nat).
Proof.
  destruct (@seeding_keeps_operator_rules plain_unicode sample_net sample_json sample_consul_fs sample_join "rules" "http://consul"
    99 1%nat sample_store 2%nat) as [Hs|[Hs|[Hs|(l & body & Hy & Hl & Hs)]]].
  - exists (sample_response "entries" "7"), "cnVsZXM=", [Some "!"], "rules", "rules". repeat (split; [reflexivity|]). reflexivity.
  - left. exact Hs.
  - right. left. exact Hs.
  - right. right. left. exact Hs.
  - right. right. right. exists l, body. split; [exact Hy|]. split; [by apply Hl|exact Hs].
Defined.

Lemma seeding_restores_defaults_witness :
  exists i r, first_rule "xss" (seeded sample_consul_fs sample_join "rules" 99 sample_store).1 = Some (i, r) /\
    json_get "enabled" r = Some (JBool true).
Proof.
  destruct (@seeding_restores_defaults plain_unicode sample_json sample_consul_fs sample_join "rules" 99 sample_store "global.yaml" (sample_default "xss" 20) "xss"
              sample_well_kept) as (i & r & Hf & Hd); [by left|vm_compute; tauto|reflexivity|].
  exists i, r. split; [exact Hf|]. apply Hd; [|reflexivity].
  assert (Hr : first_rule "xss" (seeded sample_consul_fs sample_join "rules" 99 sample_store).1 =
               Some (1%nat, merge_into (JObj [("id", JStr "xss"); ("is_default", JBool true); ("enabled", JBool false); ("updated_ms", JNum 5)])
                              (rule_data 99 "GLOBAL" (sample_default "xss" 20)))) by (vm_compute; reflexivity).
  rewrite Hr in Hf. injection Hf as _ <-. vm_compute. reflexivity.
Defined.

Definition sample_seeded : list jtree := (seeded sample_consul_fs sample_join "rules" 99 sample_store).1.
Lemma seeding_repeats_writes_witness :
  seeded sample_consul_fs sample_join "rules" 99 sample_seeded = (sample_seeded, false) /\
  (seeded sample_consul_fs sample_join "rules" 100 sample_seeded).2 = true.
Proof.
  destruct (@seeding_repeats_writes plain_unicode sample_json sample_consul_fs sample_join "rules" 99 sample_store sample_well_kept) as [Hsame Hlater].
  split; [exact Hsame|].
  eapply (Hlater 100 "sqli" (@rule_data sample_json 99 "GLOBAL" (sample_default "sqli" 10))).
  - discriminate.
  - vm_compute. tauto.
  - vm_compute. reflexivity.
  - vm_compute. reflexivity.
Defined.
End Sample.
