(* ===== verification/LegacyReload.v ===== *)
(** The two top-level engines on Consul: the loader, the watcher and the seeding of
    [Consul] and [Seed] with the compilers of [src/rule] and [src/optimized_rule], and
    what a reload means for the requests that follow. *)
From S2P Require Import Prelude Utf8 RustStd Net Extern WafTypes RuleTypes RuleEngine LegacyRule LegacyOpt Consul Seed.
Local Open Scope Z_scope.

Section Engines.
Context `{UnicodeTables, RegexLib, UnstableSort, LegacyLib, NetLib, JsonLib}.
(** [serde_yaml::from_str] at [RuleFile] and [Vec<RuleRaw>]. *)
Variable parse_rule_file : string -> option (list (RuleRaw ConditionNode)).
Variable parse_rule_list : string -> option (list (RuleRaw ConditionNode)).

(** [src/rule]: the loader, and a turn of the watcher, whose rule set is that of the
    evaluator. *)
Definition rule_load_from_consul : string -> net -> result RuleError LegacyRule.RuleSet * net :=
  load_from_consul parse_rule_file parse_rule_list LegacyRule.compile.
Definition rule_watch_step : string -> Watcher -> Watcher :=
  watch_step parse_rule_file parse_rule_list LegacyRule.compile.
Definition rule_watch : string -> nat -> Watcher -> Watcher :=
  watch parse_rule_file parse_rule_list LegacyRule.compile.

(** [src/optimized_rule]: YAML gives the same rules, without cache keys. *)
Definition opt_parse (parse : string -> option (list (RuleRaw ConditionNode))) (text : string)
  : option (list (RuleRaw CachedNode)) := map read_rule <$> parse text.
Definition opt_load_from_consul : string -> net -> result RuleError LegacyOpt.RuleSet * net :=
  load_from_consul (opt_parse parse_rule_file) (opt_parse parse_rule_list) LegacyOpt.compile.
Definition opt_watch_step : string -> Watcher -> Watcher :=
  watch_step (opt_parse parse_rule_file) (opt_parse parse_rule_list) LegacyOpt.compile.
Definition opt_watch : string -> nat -> Watcher -> Watcher :=
  watch (opt_parse parse_rule_file) (opt_parse parse_rule_list) LegacyOpt.compile.

(** [seed_rules_to_consul] of [src/optimized_rule]. *)
Definition opt_seed_rules_to_consul (fs : FileSystem) (join : string -> string -> string)
  (consul_addr : string) (now_ms : Z) (rules_dir : string) (n : net) : result RuleError unit * net :=
  Seed.seed_rules_to_consul fs join consul_addr now_ms rules_dir n.

(** The store answers the two requests of a load with the entries [kvs]. *)
Definition serves (addr : string) (kvs : list (string * option string)) (n : net) : Prop :=
  exists p n1 e n2, http_get (addr +:+ "/v1/kv/waf/rules/?recurse&raw") n = (Some p, n1) /\
    resp_success p = true /\ http_get (addr +:+ "/v1/kv/waf/rules/?recurse") n1 = (Some e, n2) /\
    json_key_values (resp_body e) = Some kvs.

Lemma load_serves {C RS} pf pl (compile : list (RuleRaw C) -> result RuleError RS) addr kvs n :
  serves addr kvs n ->
  (load_from_consul pf pl compile addr n).1 =
  match head (omap kv_broken kvs) with
  | Some e => Err e
  | None => compile (flat_map (kv_rules pf pl) kvs)
  end.
Proof.
  intros (p & n1 & e & n2 & Hp & Hs & He & Hk). unfold load_from_consul. rewrite Hp, Hs, He, Hk.
  cbn [negb ok_or mbind result_mbind fst]. rewrite load_kvs_spec. by destruct (head _).
Qed.

Lemma opt_kv_rules kvs :
  flat_map (kv_rules (opt_parse parse_rule_file) (opt_parse parse_rule_list)) kvs =
  map read_rule (flat_map (kv_rules parse_rule_file parse_rule_list) kvs).
Proof.
  induction kvs as [|kv kvs IH]; [done|]. cbn [flat_map]. rewrite List.map_app, IH. f_equal.
  unfold kv_rules, opt_parse. destruct (kv_text kv) as [text|]; cbn; [|done].
  destruct (parse_rule_file text); cbn; [done|]. by destruct (parse_rule_list text).
Qed.

(** What the watcher of an engine sees from turn [N] on: the store stays at the index
    [I], new to it, polls are answered now and then, and a load finds [kvs]. *)
Record settles {RS} (addr : string) (run : nat -> Watcher (RS := RS)) (N : nat) (I : Z)
  (kvs : list (string * option string)) : Prop := {
  settles_new : last_index (run N) <> I;
  settles_index : forall m i, (N <= m)%nat -> polled addr (run m) = Some i -> i = I;
  settles_serves : forall m, (N <= m)%nat -> polled addr (run m) = Some I ->
    serves addr kvs (http_get (poll_url addr (last_index (run m))) (world (run m))).2;
  settles_polls : forall m, exists k, (m <= k)%nat /\ polled addr (run k) <> None
}.

Lemma settles_delivers {C RS} pf pl (compile : list (RuleRaw C) -> result RuleError RS) addr w N I kvs rs :
  settles addr (fun m => watch pf pl compile addr m w) N I kvs ->
  head (omap kv_broken kvs) = None -> compile (flat_map (kv_rules pf pl) kvs) = Ok rs ->
  exists M, (N <= M)%nat /\ forall m, (M <= m)%nat -> current (watch pf pl compile addr m w) = rs.
Proof.
  intros [Hnew Hidx Hserves Hpolls] Hb Hc. destruct (Hpolls N) as (k & Hk & Hp).
  destruct (run_until_poll pf pl compile addr w N k Hk Hp) as (m & Hm & Hpm & Hi & _).
  destruct (polled addr (watch pf pl compile addr m w)) as [i|] eqn:Hpi; [|done].
  assert (i = I) as -> by by apply (Hidx m).
  pose proof (step_spec pf pl compile addr (watch pf pl compile addr m w)) as Hs.
  rewrite Hpi, Hi, (proj2 (Z.eqb_neq I _)) in Hs by congruence. unfold loaded in Hs.
  rewrite (load_serves _ _ _ _ kvs), Hb, Hc in Hs by by apply Hserves.
  destruct Hs as [HI Hcur]. exists (S m). split; [lia|]. intros m' Hm'.
  destruct (run_idle pf pl compile addr w (S m) I HI) with (m := m') as [_ ->]; [|done|done].
  intros q j Hq. apply Hidx. lia.
Qed.
End Engines.

(** C25: rules written to Consul take effect in both engines, when Consul answers: from
    some turn of each watcher on, every poll that is answered gives one index, which the
    watcher has not seen before; polls keep being answered now and then; and whenever a
    poll gives that index, the load that it starts is answered with the same entries
    ([settles]).  If every value under a key in [.yaml] decodes to text and the rules of
    the entries compile in both engines, each watcher then reaches a turn from which
    every request gets the match of a deciding rule of least priority among the rules of
    the entries, and no match exactly when none of them decides.  (A load that fails is
    not retried at the same index: [failed_reload_not_retried].) *)
Theorem consul_rules_take_effect `{UnicodeTables, RegexLib, UnstableSort, LegacyLib, NetLib, JsonLib} pf pl addr w w' N I kvs rs ors :
  let raw := flat_map (kv_rules pf pl) kvs in
  head (omap kv_broken kvs) = None ->
  LegacyRule.compile raw = Ok rs -> LegacyOpt.compile (map read_rule raw) = Ok ors ->
  settles addr (fun m => rule_watch pf pl addr m w) N I kvs ->
  settles addr (fun m => opt_watch pf pl addr m w') N I kvs ->
  exists M, forall m ctx skip, (M <= m)%nat ->
    least_decider (raw_decides ctx skip) raw
      (LegacyRule.evaluate (LegacyRule.mkEvaluator (current (rule_watch pf pl addr m w))) ctx skip) /\
    least_decider (raw_decides ctx skip) raw
      (LegacyOpt.evaluate (LegacyOpt.mkEvaluator (current (opt_watch pf pl addr m w'))) ctx skip).
Proof.
  intros raw Hb Hrs Hors Hw Hw'.
  destruct (settles_delivers _ _ _ _ _ _ _ _ rs Hw Hb Hrs) as (M & _ & HM).
  destruct (settles_delivers _ _ _ _ _ _ _ _ ors Hw' Hb) as (M' & _ & HM'); [by rewrite opt_kv_rules|].
  exists (Nat.max M M'). intros m ctx skip Hm. unfold rule_watch, opt_watch. rewrite HM, HM' by lia.
  split; [by apply legacy_least|by apply opt_least].
Qed.

(** An id that two entries of the store hold blocks the reload of both engines: the load
    fails, so that the rules in force stay.  The seeding writes all default rules under
    [rules.yaml] and removes old keys, but not [global.yaml] of an older layout, whose
    rules have the same ids. *)
Theorem duplicate_entry_blocks_reload `{RegexLib, UnstableSort, NetLib, JsonLib} pf pl addr n kvs a kv1 b kv2 c r1 r2 :
  serves addr kvs n -> kvs = a ++ kv1 :: b ++ kv2 :: c ->
  In r1 (kv_rules pf pl kv1) -> In r2 (kv_rules pf pl kv2) -> raw_id r1 = raw_id r2 ->
  (exists e, (rule_load_from_consul pf pl addr n).1 = Err e) /\
  (exists e, (opt_load_from_consul pf pl addr n).1 = Err e) /\
  ~ In "global.yaml" old_files.
Proof.
  intros Hs -> H1' H2' Hid. set (kvs := a ++ kv1 :: b ++ kv2 :: c) in *.
  assert (Hdup : ~ NoDup (map raw_id (flat_map (kv_rules pf pl) kvs))).
  { unfold kvs. rewrite !flat_map_app. cbn [flat_map]. rewrite !flat_map_app. cbn [flat_map]. rewrite !List.map_app.
    intros (_ & _ & (_ & Hd & _)%NoDup_app)%NoDup_app. apply (Hd (raw_id r1)).
    - apply list_elem_of_In, in_map, H1'.
    - rewrite Hid. apply elem_of_app. right. apply elem_of_app. left. apply list_elem_of_In, in_map, H2'. }
  split; [|split].
  - unfold rule_load_from_consul. rewrite (load_serves _ _ _ _ _ _ Hs). destruct (head _) as [e|]; [by exists e|].
    destruct (LegacyRule.compile _) as [rs|e] eqn:Hc; [|by exists e]. by apply legacy_compile_ok in Hc as (_ & ? & _).
  - unfold opt_load_from_consul. rewrite (load_serves _ _ _ _ _ _ Hs), opt_kv_rules. destruct (head _) as [e|]; [by exists e|].
    destruct (LegacyOpt.compile _) as [rs|e] eqn:Hc; [|by exists e]. apply compile_Ok in Hc as (_ & _ & _ & _ & _ & Hnd & _).
    rewrite map_map in Hnd. by destruct Hdup.
  - cbn. intuition discriminate.
Qed.

(** * A sample *)

Section Sample.
Local Existing Instances plain_unicode literal_regex sample_legacy sample_net.
Local Instance reload_sort : UnstableSort := insertion_sort.

(** The loads of the sample store find its entries. *)
Lemma sample_settles {C RS} entries pf pl (compile : list (RuleRaw C) -> result RuleError RS) w :
  last_index w <> 7 -> world w = 0%nat ->
  settles (H4 := sample_json_with entries) "http://consul"
    (fun m => watch (H0 := sample_json_with entries) pf pl compile "http://consul" m w) 0 7 entries.
Proof.
  intros Hi Hw. split; [exact Hi|..].
  - intros m i _. rewrite sample_polled. destruct (world (watch _ _ _ _ _ _)); [discriminate|by intros [= <-]].
  - intros m _. rewrite sample_polled. destruct (world (watch _ _ _ _ _ _)) as [|t]; [done|]. intros _.
    eexists _, _, _, _. split; [reflexivity|]. split; [reflexivity|]. split; reflexivity.
  - intros m. exists (S m). rewrite sample_run_polled. split; [lia|discriminate].
Qed.

Definition fresh {RS} (rs : RS) (t : nat) : Watcher (RS := RS) := mkWatcher 0 rs t.
Definition sample_admin : RequestContext := mkRequestContext "10.0.0.1" "/admin" "GET" [] "" ∅ CatchAll "" "" None.
Definition sample_rules_set : LegacyRule.RuleSet :=
  [build_rule (sample_raw "blocked" 10 (CLeaf (sample_leaf FPath MExact "/admin")) ActBlock)].
Definition sample_opt_set : LegacyOpt.RuleSet :=
  LegacyOpt.mkRuleSet
    [build_rule (read_rule (sample_raw "blocked" 10 (CLeaf (sample_leaf FPath MExact "/admin")) ActBlock))] ∅.

Lemma consul_rules_take_effect_witness :
  exists M, forall m, (M <= m)%nat ->
    LegacyRule.evaluate (LegacyRule.mkEvaluator
      (current (rule_watch (H4 := sample_json) sample_rules_of sample_rules_of "http://consul" m (fresh [] 0)))) sample_admin [] <> None.
Proof.
  destruct (@consul_rules_take_effect plain_unicode literal_regex reload_sort sample_legacy sample_net sample_json sample_rules_of sample_rules_of "http://consul"
              (fresh [] 0) (fresh (LegacyOpt.mkRuleSet [] ∅) 0) 0 7 sample_entries
              sample_rules_set sample_opt_set eq_refl eq_refl eq_refl
              (sample_settles sample_entries _ _ _ (fresh [] 0) ltac:(discriminate) eq_refl)
              (sample_settles sample_entries _ _ _ (fresh (LegacyOpt.mkRuleSet [] ∅) 0) ltac:(discriminate) eq_refl)) as [M HM].
  exists M. intros m Hm Hn. destruct (HM m sample_admin [] Hm) as [Hl _]. rewrite Hn in Hl.
  specialize (Hl _ (or_introl eq_refl)). by vm_compute in Hl.
Defined.

(** An old [global.yaml] beside the seeded [rules.yaml]. *)
Definition split_entries : list (string * option string) :=
  [("waf/rules/global.yaml", Some "cnVsZXM="); ("waf/rules/rules.yaml", Some "cnVsZXM=")].
Lemma duplicate_entry_blocks_reload_witness :
  exists e, (rule_load_from_consul (H4 := sample_json_with split_entries) sample_rules_of sample_rules_of "http://consul" 1%nat).1 = Err e.
Proof.
  refine (proj1 (@duplicate_entry_blocks_reload literal_regex reload_sort sample_net (sample_json_with split_entries) sample_rules_of sample_rules_of "http://consul" 1%nat
    split_entries [] ("waf/rules/global.yaml", Some "cnVsZXM=") [] ("waf/rules/rules.yaml", Some "cnVsZXM=") []
    (sample_raw "blocked" 10 (CLeaf (sample_leaf FPath MExact "/admin")) ActBlock)
    (sample_raw "blocked" 10 (CLeaf (sample_leaf FPath MExact "/admin")) ActBlock) _ eq_refl _ _ eq_refl)).
  - eexists _, _, _, _. split; [reflexivity|]. split; [reflexivity|]. split; reflexivity.
  - vm_compute. by left.
  - vm_compute. by left.
Defined.
End Sample.
