(* ===== verification/RuleTests.v ===== *)
(** The unit tests of [crates/rule] ([condition.rs], [lib.rs], [loader.rs]), run on the
    model, and the rules that the tests of all YAML rule engines use.  A test is a
    computation that says whether its assertions hold; that it passes holds for every
    choice of the third-party libraries, given what the [regex] crate answers for the one
    pattern that is tried. *)
From S2P Require Import Prelude Utf8 RustStd Net Extern WafTypes RuleTypes RuleEngine.
Local Open Scope Z_scope.

(** * What the tests share *)

Definition union_select : string := "(?i)union\s+select".
Definition injected : string := "' UNION SELECT 1--".

Definition exact_leaf (f : Field) (v : string) (sensitive negated : bool) : ConditionLeaf :=
  mkLeaf f MExact v None None sensitive negated.
Definition regex_leaf : ConditionLeaf := mkLeaf FPayload MRegex union_select None None false false.
Definition login_leaf : ConditionLeaf := exact_leaf FPath "/login" false false.
Definition not_get_leaf : ConditionLeaf := exact_leaf FMethod "GET" true true.
Definition post_and_login : ConditionNode := CAnd [CLeaf (exact_leaf FMethod "POST" true false); CLeaf login_leaf].
Definition admin_or_login : ConditionNode := COr [CLeaf (exact_leaf FPath "/admin" false false); CLeaf login_leaf].

(** The two rules of [test_rule_evaluator_skips_matched_rules]. *)
Definition data_rule (rid desc : string) (prio : Z) (a : Action) (delta : Z) : Rule ConditionNode :=
  mkRule rid "system" desc true prio (CLeaf (exact_leaf FPath "/api/data" false false)) a delta None None None None.
Definition data_rules : list (Rule ConditionNode) :=
  [data_rule "rule-1" "First rule" 10 ActRateLimit 5; data_rule "rule-2" "Second rule" 20 ActBlock 10].

(** The ids of the matches without rules to skip, without the first, without both. *)
Definition skipping (evaluate : list string -> option RuleMatch) : list (option string) :=
  map (fun skip => rule_id <$> evaluate skip) [[]; ["rule-1"]; ["rule-1"; "rule-2"]].
Definition first_then_second_then_none : list (option string) := [Some "rule-1"; Some "rule-2"; None].

Section Tests.
Context `{UnicodeTables, RegexLib, UnstableSort}.

Definition ctx (ip path method payload : string) : RequestContext :=
  mkRequestContext ip path method ∅ payload ∅ CatchAll "sess" "fp" None.

Definition exact_match_path : bool := eval_node (CLeaf login_leaf) (ctx "1.2.3.4" "/login" "GET" "").
Definition regex_match_payload : bool := eval_node (CLeaf regex_leaf) (ctx "1.2.3.4" "/" "POST" injected).
Definition negate_works : bool := eval_node (CLeaf not_get_leaf) (ctx "1.2.3.4" "/" "POST" "").
Definition and_node_requires_all : bool :=
  eval_node post_and_login (ctx "1.2.3.4" "/login" "POST" "") &&
  negb (eval_node post_and_login (ctx "1.2.3.4" "/other" "POST" "")).
Definition or_node_requires_any : bool :=
  eval_node admin_or_login (ctx "1.2.3.4" "/login" "GET" "") &&
  negb (eval_node admin_or_login (ctx "1.2.3.4" "/public" "GET" "")).

Definition test_rule_evaluator_skips_matched_rules : list (option string) :=
  skipping (evaluate data_rules
    (mkRequestContext "127.0.0.1" "/api/data" "GET" ∅ "" ∅ CatchAll "session" "fp" None)).

Definition raw_rule (rid desc : string) (prio : Z) (p : string) (delta : Z) : RuleRaw ConditionNode :=
  mkRuleRaw rid desc true prio (CLeaf (exact_leaf FPath p false false)) ActBlock delta None None None None None.
Definition test_compile_basic_rule : result RuleError (list string) :=
  map id <$> compile [raw_rule "test-rule" "Test" 10 "/login" 5].
(** The test ignores what [matches!] answers; it is kept here. *)
Definition test_compile_rejects_duplicate_ids : result RuleError (list string) :=
  map id <$> compile [raw_rule "rule-1" "First" 10 "/a" 0; raw_rule "rule-1" "Second (dup)" 20 "/b" 0].

Lemma condition_tests_pass :
  exact_match_path = true /\ negate_works = true /\ and_node_requires_all = true /\ or_node_requires_any = true /\
  (regex_match union_select injected = true -> regex_match_payload = true).
Proof. repeat split. exact (fun Hm => Hm). Qed.

Lemma evaluator_test_passes : test_rule_evaluator_skips_matched_rules = first_then_second_then_none.
Proof. reflexivity. Qed.

Lemma loader_tests_pass :
  test_compile_basic_rule = Ok ["test-rule"] /\ test_compile_rejects_duplicate_ids = Err (DuplicateId "rule-1").
Proof.
  split; [|reflexivity].
  change test_compile_basic_rule with
    (Ok (E := RuleError) (map id (sort_unstable priority [build_rule (raw_rule "test-rule" "Test" 10 "/login" 5)]))).
  assert (Hone : forall r : Rule ConditionNode, sort_unstable priority [r] = [r]).
  { intros r. apply Permutation_singleton_r, sort_unstable_perm. }
  by rewrite Hone.
Qed.
End Tests.
