(* ===== verification/LegacyTests.v ===== *)
(** The unit tests of [src/rule] ([condition.rs], [mod.rs]), run on the model. *)
From S2P Require Import Prelude Utf8 RustStd Net Extern WafTypes RuleTypes RuleEngine LegacyRule RuleTests.
Local Open Scope Z_scope.

Section Tests.
Context `{UnicodeTables, RegexLib, LegacyRule.LegacyLib}.
(** [HeaderMap::new()] and the name of the catch-all tier *)
Variable no_headers : LegacyRule.HeaderMap.
Variable catch_all : LegacyRule.TierName.

Definition ctx (ip path method payload : string) : LegacyRule.RequestContext :=
  LegacyRule.mkRequestContext ip path method no_headers payload ∅ catch_all "sess" "fp" None.

Definition exact_match_path : bool := LegacyRule.eval_node (CLeaf login_leaf) (ctx "1.2.3.4" "/login" "GET" "").
Definition regex_match_payload : bool := LegacyRule.eval_node (CLeaf regex_leaf) (ctx "1.2.3.4" "/" "POST" injected).
Definition negate_works : bool := LegacyRule.eval_node (CLeaf not_get_leaf) (ctx "1.2.3.4" "/" "POST" "").
Definition and_node_requires_all : bool :=
  LegacyRule.eval_node post_and_login (ctx "1.2.3.4" "/login" "POST" "") &&
  negb (LegacyRule.eval_node post_and_login (ctx "1.2.3.4" "/other" "POST" "")).
Definition or_node_requires_any : bool :=
  LegacyRule.eval_node admin_or_login (ctx "1.2.3.4" "/login" "GET" "") &&
  negb (LegacyRule.eval_node admin_or_login (ctx "1.2.3.4" "/public" "GET" "")).

Definition test_rule_evaluator_skips_matched_rules : list (option string) :=
  skipping (LegacyRule.evaluate (LegacyRule.mkEvaluator data_rules)
    (LegacyRule.mkRequestContext "127.0.0.1" "/api/data" "GET" no_headers "" ∅ catch_all "session" "fp" None)).

Lemma legacy_condition_tests_pass :
  exact_match_path = true /\ negate_works = true /\ and_node_requires_all = true /\ or_node_requires_any = true /\
  (regex_match union_select injected = true -> regex_match_payload = true).
Proof. repeat split. exact (fun Hm => Hm). Qed.

Lemma legacy_evaluator_test_passes : test_rule_evaluator_skips_matched_rules = first_then_second_then_none.
Proof. reflexivity. Qed.
End Tests.
