(* ===== verification/OptTests.v ===== *)
(** The unit tests of [src/optimized_rule/condition.rs], run on the model.  The
    evaluator test of [mod.rs] builds the leaves and the rule set of [src/rule], without
    the key and the cache of this engine; it is no test of it. *)
From S2P Require Import Prelude Utf8 RustStd Net Extern WafTypes RuleTypes RuleEngine LegacyRule LegacyOpt RuleTests.
Local Open Scope Z_scope.

Section Tests.
Context `{UnicodeTables, RegexLib, LegacyRule.LegacyLib}.
Variable no_headers : LegacyRule.HeaderMap.
Variable catch_all : LegacyRule.TierName.

Definition ctx (ip path method payload : string) : LegacyRule.RequestContext :=
  LegacyRule.mkRequestContext ip path method no_headers payload ∅ catch_all "sess" "fp" None.

Definition exact_match_path : bool :=
  LegacyOpt.eval_node ∅ (LegacyOpt.uncached (CLeaf login_leaf)) (ctx "1.2.3.4" "/login" "GET" "").
(** The regex is compiled before, under the key [regex_0]; [None] if it does not. *)
Definition regex_match_payload : option bool :=
  re ← regex_new union_select;
  Some (LegacyOpt.eval_node {["regex_0" := re]} (CLeaf (LegacyOpt.mkCached regex_leaf (Some "regex_0")))
          (ctx "1.2.3.4" "/" "POST" injected)).
Definition negate_works : bool :=
  LegacyOpt.eval_node ∅ (LegacyOpt.uncached (CLeaf not_get_leaf)) (ctx "1.2.3.4" "/" "POST" "").
Definition and_node_requires_all : bool :=
  LegacyOpt.eval_node ∅ (LegacyOpt.uncached post_and_login) (ctx "1.2.3.4" "/login" "POST" "") &&
  negb (LegacyOpt.eval_node ∅ (LegacyOpt.uncached post_and_login) (ctx "1.2.3.4" "/other" "POST" "")).
Definition or_node_requires_any : bool :=
  LegacyOpt.eval_node ∅ (LegacyOpt.uncached admin_or_login) (ctx "1.2.3.4" "/login" "GET" "") &&
  negb (LegacyOpt.eval_node ∅ (LegacyOpt.uncached admin_or_login) (ctx "1.2.3.4" "/public" "GET" "")).

Lemma opt_condition_tests_pass :
  exact_match_path = true /\ negate_works = true /\ and_node_requires_all = true /\ or_node_requires_any = true /\
  (regex_match union_select injected = true -> regex_match_payload = Some true).
Proof.
  repeat split. unfold regex_match, regex_match_payload. destruct (regex_new union_select) as [re|]; [|done].
  cbn [mbind option_bind]. intros Hm. f_equal. exact Hm.
Qed.
End Tests.
